(* ===== verification/_CoqProject ===== *)
-Q . S2P
Prelude.v
GoStrings.v
GoFloat.v
GoTime.v
GoDuration.v
GoRegexp.v
GoGlob.v
GoNet.v
Sql.v
DbTime.v
Cron.v
TaskLock.v
Scheduler.v
Cluster.v
Retention.v
Delivery.v
WebSocket.v
PathSecurity.v
FileSystem.v
Failover.v
Notifications.v
NotificationService.v
Sha256.v
Base64.v
Encryption.v
Sessions.v
RecoveryKeys.v
Password.v
Archive.v
Restore.v
Registry.v
Users.v
ApiTokens.v
Names.v
UserTokens.v
Login.v
Passkeys.v
TwoFactor.v
UserInvites.v
Proxies.v
Csrf.v
Admins.v
AdminAccess.v
AdminGate.v
Setup.v
Config.v
RateLimit.v
