(* ===== verification/Prelude.v ===== *)
(** A verification of wthr, a weather server written in Go (src/src/).

    The server answers weather requests over HTTP, keeps accounts and notifications in
    SQL databases, runs scheduled tasks on one or several nodes, and backs itself up.  This
    library models the parts that carry state and decisions of their own, in Go's terms:
    a [string] is a string of bytes, an [int] a [Z] with its wrap-around written out, a
    time.Time the [Z] of nanoseconds since the zero time, an error the [Fail] of a [result]
    or [None], a database a state with statements that may fail.

    * Layers

    Prelude      results, 64-bit integers, lists, stable sorting, the hint database [wthr]
    GoStrings    strings and strconv;  GoFloat: float64 and ParseFloat;  GoDuration:
                 time.ParseDuration;  GoTime: calendar arithmetic of package time
    GoRegexp     regular expressions, matched by derivatives;  GoGlob: path.Match and
                 strings.EqualFold;  GoNet: addresses, networks and ports of package net;
                 FileSystem: directories, files and links of package os;  Sha256: crypto/sha256 and crypto/hmac;  Base64: encoding/base64
    Registry     a table under a UNIQUE column read as a finite map, and what INSERT,
                 UPDATE and DELETE do to it
    Sql          what a statement may do: [Database] is the interface (query, exec, each may
                 fail), [DatabaseLaws] what a client may rely on, [Reliable] an instance
                 that never fails; a lens gives a component its own tables of a database;
                 [OrderBy] is the order of a result, up to equal keys

    * Components, and where they are in the source

    DbTime               common/dbtime/dbtime.go: timestamps as text, deletion by age
    Cron                 scheduler/cron.go: expressions and the next fire time
    TaskLock             scheduler/scheduler.go: acquireTaskLock, releaseTaskLock
    Scheduler            scheduler/scheduler.go and task_history.go: tasks, ticks, missed
                         runs, execution, retries, history, start and stop
    Cluster              cluster/cluster.go: heartbeats, health check, election
    Retention            backup/retention.go: which backups are kept
    Delivery             server/service/delivery_system.go and channel_manager.go: the
                         notification queue and the health of its channels
    WebSocket            server/service/websocket_hub.go: the registry and its goroutine
    Archive, Restore     backup/backup.go and restore.go: what goes into a backup, its checksum,
                         encryption and verification, and bringing it back
    PathSecurity         server/middleware/path_security.go: request paths
    Failover             database/failover.go: read-only mode, queued writes, recovery
    Notifications        server/model/notification.go, and the per-recipient limit of
                         scheduler/notification_cleanup.go
    NotificationService  server/service/notification_service.go: preferences, storing and
                         pushing; dailyCronFromClockTime of notification_cleanup.go
    Sessions             server/model/session.go, the UserSessionModel of user.go and the
                         revocation handler: sessions behind hashed tokens
    RecoveryKeys         server/model/recovery_keys.go: one-time recovery keys
    Password             util/password.go and the copy in server/model/admin.go: the text of
                         an Argon2id hash, its parser, and both verifiers
    Admins               server/model/admin.go: administrator accounts; the routes of main.go
                         and mutations of graphql/schema.resolvers.go that delete, disable
                         and enable them
    AdminAccess          their sessions and invitations: server/model/admin.go,
                         server/service/admin_invite.go, server/middleware/admin_auth.go
    Encryption           util/encryption.go: the framing of sealed two-factor secrets
    Users                server/model/user.go and database/users_schema.go: the users database,
                         its foreign keys, the accounts and the activity log
    ApiTokens            server/model/token.go and token_v2.go: API tokens
    UserTokens           links by mail: the verifications and resets of user.go, and their use in
                         server/handler/auth_api.go
    Login                auth_api.go: log-in, second factors, registration; the log-in form of
                         server/handler/auth.go; server/middleware/auth.go
    Passkeys             server/model/passkey.go, server/handler/passkey.go and passkey_helpers.go:
                         stored credentials, registration and log-in ceremonies
    TwoFactor            server/handler/twofa.go, util/totp.go: the second factor of the account
                         that is signed in
    UserInvites          invitations of users: user.go, auth_api.go and the mutations of
                         graphql/schema.resolvers.go
    Proxies              util/trusted_proxies.go and host.go: whose forwarding headers count, and
                         the client address, scheme and host of a request
    Csrf                 server/middleware/csrf.go, the gates on administrators of auth.go, and
                         the order in which main.go puts them before a user's routes
    AdminGate            server/middleware/token_auth.go and the check of the name in the path of
                         server/handler/admin_context.go: the API of administrators
    Setup                util/setup_proof.go, the token of util/firstrun.go,
                         server/middleware/setup.go and server/handler/setup.go: first-run set-up
    Names                util/username.go, blocklist.go, email.go: what may be registered
    Config               config/validate.go, server_settings.go, bool.go: validation
    RateLimit            server/middleware/ratelimit.go: limiters and live reload

    They call one another as the source does: the scheduler parses its schedules with Cron,
    takes TaskLock's lock and writes timestamps with DbTime; Cluster, Delivery and
    Notifications read theirs with DbTime; NotificationService stores with Notifications
    and pushes through WebSocket's hub, and its daily tasks are Cron schedules; RateLimit
    resolves the settings of Config; Admins hashes with Password and AdminAccess creates
    accounts with Admins under names checked by Names; AdminGate asks Admins, ApiTokens and Users who a
    token belongs to, Csrf runs before Login's middleware, and Setup adds to the tables of Admins and
    AdminAccess.  Archive cleans its paths with PathSecurity and reads and writes FileSystem's trees; the digest
    it leaves after a restore is the one Setup's gate looks for; Retention sweeps what it makes.  The tables of Users hold those of
    Sessions and RecoveryKeys as parts, so Login, Passkeys, TwoFactor, UserTokens and UserInvites run the
    operations of Sessions, RecoveryKeys, ApiTokens and Users on one database; [n_ids] is the index of
    the accounts the foreign keys look into.  Foreign keys are switched on for one
    connection of the pool, so the operations they concern take a flag that says whether
    the connection enforces them.  Theorems about a client use the laws of [Database],
    not an instance of it.

    * How concurrency is modelled

    Statements of SQL are atomic, and everything between two of them may be overtaken.
    TaskLock's nodes are a step relation over single statements; the hub, the failover
    manager and the rate limiters are transition functions over events that arrive in any
    order (a request at a limiter reads the settings, picks its limiter and hits it in three
    of them, the hub's client may leave between a caller's look-up and its send); the
    scheduler's ticks, runs and stop are separate operations that share its record.  The job
    that AuthMiddleware starts in a goroutine when it admits an API token is returned as a
    value, to be run at any later state.  Operations that do not interleave in a theorem run one
    after the other, and where two at once go wrong a lemma of the findings shows it.  Times
    that the code reads from the clock are arguments.

    * What fails

    A statement of SQL may fail at any place ([Database]); a theorem that needs a database
    whose statements do not fail says so with [never_fails], and so does its doc comment.
    FileSystem's [device] says of each file whether writing it breaks off and how many bytes
    arrive, and whether it cannot be removed; reads and MkdirAll fail for the reasons the tree
    gives, Chmod never on a file that is there.  Drawing random bytes may fail everywhere.

    * What the theorems show

    Locks: two nodes never run a global task at once as long as no node dies with the lock,
    releases do not fail and runs end within the lease.
    Schedules: Next is the earliest matching minute, parsing is total and denotes what the
    fields say, a daily task fires within a day unless the clock is put forward over it.
    Scheduler: each due task is started once, retries follow 5, 10 and 20 minutes, missed runs
    are found and replayed in order, an execution calls its function once and leaves lock,
    history and state as documented.  Cluster: one primary row after an election, only stale
    nodes are marked.  Retention: nothing but backups is deleted, each only for the full tiers
    above it or the cap, the tiers are kept, the size cap holds.  Backups: one that is reported
    as made was verified before the sweep ran, one that fails leaves no file or what the device
    could not take back; a restore stays in its two directories whatever it is given, where no
    links lead out of them, and brings back exactly the files covered with their contents and
    modes.  Delivery: attempts are bounded and spaced, the breaker counts.  Hub: its goroutine
    uses no closed channel as long as ids are distinct, a broadcast reaches each client once.
    Paths: nothing outside the base directory is served, normalisation is canonical.  Failover:
    no accepted write is lost or doubled.  Notifications: paging, ownership, limits and counters
    agree with their plain definitions.  Sessions: two models over one table implement a
    registry of digests with an expiry, and their views agree.  Recovery keys: each opens the
    account once.  Passwords: what is written verifies, for the same derived key only.
    Administrators: an active super administrator always remains, log-in is decided as
    documented, an invitation makes one account.  Users: a session is answered as a full one only
    with every factor the account asks for, a request is admitted only for the owner of a live
    token or session, the two models of API tokens implement a registry of grants, a reset link
    changes one password once, an invitation opens one account within its lifetime, a sealed
    secret is read back; a passkey logs in the account it belongs to within fifteen minutes of a
    challenge, each ceremony once, and each is added only with the password; a second factor and
    its keys change only with the password or a code.  Gates: the CSRF middleware serves a change
    in somebody's name only with the token of the cookie or by an exemption, the API of
    administrators opens for the token of an active one only, the proof of the set-up token lives
    an hour, and set-up makes one account once; the peers whose headers count are those
    documented, and the headers of others change nothing.  Names and addresses: what is accepted
    is what is documented, in its normal form.  Settings: what validation returns is well formed,
    and stable but for the base URL.  Rate limits: the shared cache behaves as separate counters
    across reloads.  The findings of the manifest are proved as lemmas next to the component they
    are about: among them are the limits of several of these theorems.

    * Bounds and fuel

    [max_scan_minutes] of Cron is the source's own bound, four times 366 days; the catch-up
    scan has the source's 512 iterations.  Parsers of strings take the length of their input
    as fuel, which every recursive call decreases; the slash-collapsing loop of PathSecurity
    does too, and its theorem shows that the fuel is enough.  Chunked deletions recurse on
    the chunks.

    * Not modelled

    Generated GraphQL code, HTTP handlers and the route table, outside weather services,
    mail, certificates, Tor and I2P, metrics and logs, SQL text, the command line
    and the terminal client are input and output or third-party code.  Handlers that main.go
    mounts nowhere (SetupWizardHandler, AdminLoginHandler, AdminLogoutHandler) are left out, and of the first
    run the detection of an SMTP server, the choice of a port and the default server.yml; of files the modes of directories,
    times and relative paths.  Translations
    and the plain-text renderer have logic of their own and are left out.  Where GoRegexp is not used, a regular expression of the
    source is written as a recogniser on bytes.  The passkeys of administrators repeat Passkeys over another table.
    JSON codecs, gzip and tar, the order of equal sort keys, Argon2id, AES-GCM, TOTP, WebAuthn,
    httprate and the transports are parameters, with their laws as hypotheses where a theorem needs one. *)
From stdpp Require Export base tactics option list gmap strings sorting pretty.
From Stdlib Require Export ZArith Lia.

(** * Results: Go's pair of a value and an error *)

Inductive result (E A : Type) : Type :=
| Ok (a : A)
| Fail (e : E).
Arguments Ok {E A} a.
Arguments Fail {E A} e.

Declare Scope wthr_scope.
Delimit Scope wthr_scope with wthr.
Open Scope wthr_scope.

(** [let? x := m in k] is the source's [x, err := m; if err != nil { return err }]. *)
Notation "'let?' x := m 'in' k" :=
  (match m with Ok x => k | Fail e => Fail e end)
  (at level 10, x pattern, m at level 100, k at level 200) : wthr_scope.

Definition is_ok {E A} (r : result E A) : bool :=
  match r with Ok _ => true | Fail _ => false end.

Global Instance result_eq_dec {E A} `{EqDecision E, EqDecision A} :
  EqDecision (result E A).
Proof. solve_decision. Defined.

(** * Machine integers: Go's [int] and [int64] are 64-bit two's complement *)

Definition min_int64 : Z := -9223372036854775808.
Definition max_int64 : Z := 9223372036854775807.
Definition in_int64 (z : Z) : Prop := (min_int64 ≤ z ≤ max_int64)%Z.
Definition wrap64 (z : Z) : Z :=
  ((z + 9223372036854775808) mod 18446744073709551616 - 9223372036854775808)%Z.

Ltac unfold_int64 := unfold in_int64, wrap64, min_int64, max_int64 in *.

Lemma wrap64_range z : in_int64 (wrap64 z).
Proof.
  unfold_int64. pose proof (Z.mod_pos_bound (z + 9223372036854775808) 18446744073709551616). lia.
Qed.

Lemma wrap64_id z : in_int64 z → wrap64 z = z.
Proof. unfold_int64. intros H. rewrite Z.mod_small; lia. Qed.

(** A sum of two [int64] that overflows wraps to a negative number. *)
Lemma wrap64_over z :
  (max_int64 < z ≤ 2 * max_int64)%Z → wrap64 z = (z - 18446744073709551616)%Z.
Proof.
  unfold_int64. intros H.
  replace (z + 9223372036854775808)%Z
    with ((z - 9223372036854775808) + 1 * 18446744073709551616)%Z by lia.
  rewrite Z.mod_add, Z.mod_small; lia.
Qed.

(** * Automation *)

(** The hint database of the development: lemmas that discharge the side
    conditions every component meets. *)
Create HintDb wthr.
#[export] Hint Resolve wrap64_range : wthr.

(** [lia] with quotients and remainders by constants. *)
Ltac zlia := Z.to_euclidean_division_equations; lia.

(** Split every conjunction and existential of the context, and substitute. *)
Ltac crush_ands :=
  repeat match goal with
  | H : _ ∧ _ |- _ => destruct H
  | H : ∃ _, _ |- _ => destruct H
  end; subst.

(** Case analysis on the scrutinee of the outermost [match] or [if] of the goal
    or of a hypothesis, keeping the equation. *)
Ltac split_match :=
  match goal with
  | |- context [match ?x with _ => _ end] =>
      lazymatch x with context [match _ with _ => _ end] => fail
      | _ => let E := fresh "E" in destruct x eqn:E end
  | H : context [match ?x with _ => _ end] |- _ =>
      lazymatch x with context [match _ with _ => _ end] => fail
      | _ => let E := fresh "E" in destruct x eqn:E end
  end.

(** Turn boolean comparisons of the context into propositions. *)
Ltac bool_facts :=
  repeat match goal with
  | H : (_ && _)%bool = true |- _ => apply andb_true_iff in H; destruct H
  | H : (_ || _)%bool = false |- _ => apply orb_false_iff in H; destruct H
  | H : negb _ = true |- _ => apply negb_true_iff in H
  | H : negb _ = false |- _ => apply negb_false_iff in H
  | H : (_ <? _)%Z = true |- _ => apply Z.ltb_lt in H
  | H : (_ <? _)%Z = false |- _ => apply Z.ltb_ge in H
  | H : (_ <=? _)%Z = true |- _ => apply Z.leb_le in H
  | H : (_ <=? _)%Z = false |- _ => apply Z.leb_gt in H
  | H : (_ =? _)%Z = true |- _ => apply Z.eqb_eq in H
  | H : (_ =? _)%Z = false |- _ => apply Z.eqb_neq in H
  | H : bool_decide _ = true |- _ => apply bool_decide_eq_true in H
  | H : bool_decide _ = false |- _ => apply bool_decide_eq_false in H
  end.

(** * Lists the components share *)

(** Cutting a list into consecutive chunks of at most [n] elements: the shape of
    every bulk SQL statement of the program
    ([for start := 0; start < len(ids); start += n]). *)
Fixpoint chunks_fuel {A} (fuel n : nat) (l : list A) : list (list A) :=
  match fuel, l with
  | _, [] | O, _ => []
  | S fuel, _ => take n l :: chunks_fuel fuel n (drop n l)
  end.
Definition chunks {A} (n : nat) (l : list A) : list (list A) :=
  chunks_fuel (length l) n l.

Lemma chunks_fuel_concat {A} n fuel (l : list A) :
  0 < n → length l ≤ fuel → concat (chunks_fuel fuel n l) = l.
Proof.
  intros Hn. revert l. induction fuel as [|fuel IH]; intros [|x l] Hl;
    simpl in *; try done; try lia.
  rewrite IH.
  - apply take_drop.
  - rewrite length_drop. simpl. lia.
Qed.

Lemma chunks_concat {A} n (l : list A) : 0 < n → concat (chunks n l) = l.
Proof. intros Hn. by apply chunks_fuel_concat. Qed.

Lemma chunks_fuel_bound {A} n fuel (l c : list A) :
  c ∈ chunks_fuel fuel n l → length c ≤ n.
Proof.
  revert l. induction fuel as [|fuel IH]; intros [|x l]; simpl;
    rewrite ?elem_of_nil; try done.
  rewrite elem_of_cons. intros [->|H]; [rewrite length_take; lia|eauto].
Qed.

Lemma chunks_bound {A} n (l c : list A) : c ∈ chunks n l → length c ≤ n.
Proof. apply chunks_fuel_bound. Qed.

Lemma filter_all {A} (P : A → Prop) `{∀ x, Decision (P x)} (l : list A) :
  (∀ x, x ∈ l → P x) → filter P l = l.
Proof.
  induction l as [|x l IH]; intros Hl; [done|].
  rewrite filter_cons_True by (apply Hl; left).
  f_equal. apply IH. intros y Hy. apply Hl. by right.
Qed.

Lemma filter_ext_in {A} (P Q : A → Prop) `{∀ x, Decision (P x), ∀ x, Decision (Q x)}
    (l : list A) :
  (∀ x, x ∈ l → P x ↔ Q x) → filter P l = filter Q l.
Proof.
  induction l as [|x l IH]; intros Hl; [done|].
  assert (Hx : P x ↔ Q x) by (apply Hl; left).
  assert (IH' : filter P l = filter Q l) by (apply IH; intros y Hy; apply Hl; by right).
  destruct (decide (P x)).
  - rewrite !filter_cons_True by tauto. by f_equal.
  - by rewrite !filter_cons_False by tauto.
Qed.

Lemma filter_none {A} (P : A → Prop) `{∀ x, Decision (P x)} (l : list A) :
  (∀ x, x ∈ l → ¬ P x) → filter P l = [].
Proof.
  induction l as [|x l IH]; intros Hl; [done|].
  rewrite filter_cons_False by (apply Hl; left). apply IH. intros y Hy. apply Hl. by right.
Qed.

Lemma StronglySorted_filter {A} (R : A → A → Prop) (P : A → Prop) `{∀ x, Decision (P x)} (l : list A) :
  StronglySorted R l → StronglySorted R (filter P l).
Proof.
  induction 1 as [|x l Hs IH Hx]; [constructor|].
  destruct (decide (P x)).
  - rewrite filter_cons_True by done. constructor; [done|].
    rewrite Forall_forall in *. intros y [_ Hy]%list_elem_of_filter. by apply Hx.
  - by rewrite filter_cons_False.
Qed.

Lemma NoDup_map_filter {A B} (f : A → B) (P : A → Prop) `{∀ x, Decision (P x)} (l : list A) :
  NoDup (map f l) → NoDup (map f (filter P l)).
Proof.
  induction l as [|x l IH]; [done|]. cbn [map]. intros [Hx Hl]%NoDup_cons. rewrite filter_cons.
  case_decide; [|by apply IH]. cbn [map]. apply NoDup_cons. split; [|by apply IH].
  intros (y & E & Hy)%list_elem_of_fmap. apply Hx. rewrite E. apply list_elem_of_fmap_2.
  by apply list_elem_of_filter in Hy as [_ Hy].
Qed.

Lemma NoDup_omap_filter {A B} (f : A → option B) (P : A → Prop) `{∀ x, Decision (P x)} (l : list A) :
  NoDup (omap f l) → NoDup (omap f (filter P l)).
Proof.
  induction l as [|x l IH]; [done|]. rewrite filter_cons. intros Hl.
  assert (Hx : NoDup (omap f l)) by (cbn in Hl; destruct (f x); [by apply NoDup_cons in Hl as [_ ?]|done]).
  case_decide; [|by apply IH]. cbn in Hl |- *. destruct (f x) as [y|]; [|by apply IH].
  apply NoDup_cons in Hl as [Hy _]. apply NoDup_cons. split; [|by apply IH].
  intros (z & Hz & E)%list_elem_of_omap. apply Hy, list_elem_of_omap. exists z. split; [|done].
  by apply list_elem_of_filter in Hz as [_ ?].
Qed.

Lemma find_app {A} (p : A → bool) (l k : list A) :
  find p (l ++ k) = match find p l with Some x => Some x | None => find p k end.
Proof. induction l as [|x l IH]; [done|]. cbn. by destruct (p x). Qed.

(** The row a search finds is the only one with its key. *)
Lemma find_unique {A B} (f : A → B) (p : A → bool) (l : list A) x :
  NoDup (map f l) → x ∈ l → p x = true → (∀ y, p y = true → f y = f x) → find p l = Some x.
Proof.
  intros ND Hx Hp Hf. induction l as [|y l IH]; [by apply not_elem_of_nil in Hx|].
  cbn in ND |- *. apply NoDup_cons in ND as [Hy ND]. apply elem_of_cons in Hx as [->|Hx]; [by rewrite Hp|].
  destruct (p y) eqn:E; [|by apply IH]. destruct Hy. rewrite (Hf y E). by apply list_elem_of_fmap_2.
Qed.

(** Counting by inclusion. *)
Lemma length_le_incl {A} (l k : list A) :
  NoDup l → (∀ x, x ∈ l → x ∈ k) → length l ≤ length k.
Proof. intros Hl Hin. by apply submseteq_length, NoDup_submseteq. Qed.

(** * Stable sorting: Go's [sort.SliceStable] *)

Section stable_sort.
Context {A : Type} (less : A → A → bool).

Fixpoint insert_stable (x : A) (l : list A) : list A :=
  match l with
  | [] => [x]
  | y :: l' => if less y x then y :: insert_stable x l' else x :: l
  end.

(** Insertion from the right: an element goes before the ones it does not follow, so
    equivalent elements keep their order. *)
Definition sort_stable (l : list A) : list A := foldr insert_stable [] l.

Lemma insert_stable_Permutation x l : insert_stable x l ≡ₚ x :: l.
Proof.
  induction l as [|y l IH]; simpl; [done|].
  destruct (less y x); [|done]. by rewrite IH, Permutation_swap.
Qed.

Lemma sort_stable_Permutation l : sort_stable l ≡ₚ l.
Proof. induction l as [|x l IH]; simpl; [done|]. by rewrite insert_stable_Permutation, IH. Qed.

Context
  (less_trans : ∀ x y z, less y x = false → less z y = false → less z x = false)
  (less_asym : ∀ x y, less x y = true → less y x = false).

Lemma insert_stable_sorted x l :
  StronglySorted (λ a b, less b a = false) l →
  StronglySorted (λ a b, less b a = false) (insert_stable x l).
Proof.
  induction 1 as [|y l Hs IH Hy]; simpl; [repeat constructor|].
  destruct (less y x) eqn:E.
  - constructor; [done|]. rewrite insert_stable_Permutation. constructor; [by apply less_asym|done].
  - constructor; [by constructor|]. constructor; [done|].
    eapply Forall_impl; [exact Hy|]. intros z Hz. by apply (less_trans x y z).
Qed.

Lemma sort_stable_sorted l : StronglySorted (λ a b, less b a = false) (sort_stable l).
Proof. induction l; simpl; [constructor|by apply insert_stable_sorted]. Qed.
End stable_sort.

(** [sort.Slice] promises an ordered permutation and nothing about equal elements: a
    sorting function is a parameter of what calls it, with this as its law. *)
Class SortSlice (sort_slice : ∀ {A}, (A → A → bool) → list A → list A) : Prop := {
  sort_slice_perm : ∀ A less (l : list A), sort_slice less l ≡ₚ l;
  sort_slice_sorted : ∀ A (f : A → Z) (l : list A),
    StronglySorted (λ a b, f a ≤ f b)%Z (sort_slice (λ a b, f a <? f b)%Z l)
}.

#[export] Instance sort_stable_slice : SortSlice (@sort_stable).
Proof.
  split; [intros; apply sort_stable_Permutation|]. intros A f l.
  assert (H : StronglySorted (λ a b, (f b <? f a)%Z = false) (sort_stable (λ a b, f a <? f b)%Z l)).
  { apply sort_stable_sorted.
    - intros x y z ?%Z.ltb_ge ?%Z.ltb_ge. apply Z.ltb_ge. lia.
    - intros x y ?%Z.ltb_lt. apply Z.ltb_ge. lia. }
  induction H as [|a l' Hs IH Hf]; constructor; [done|].
  eapply Forall_impl; [exact Hf|]. by intros b ?%Z.ltb_ge.
Qed.
