(* ===== verification/GoStrings.v ===== *)
(** Go's strings: byte strings, with the functions of the [strings] and
    [strconv] packages the program calls.  A Go string is a [string] of bytes
    (one [ascii] per byte).  White space is Go's [unicode.IsSpace], recognised by
    its UTF-8 encodings; case mapping is exact on ASCII and on the two non-ASCII
    code points whose lower case is an ASCII letter (U+0130 and U+212A), and
    leaves every other non-ASCII byte alone. *)
From S2P Require Import Prelude.
From Stdlib Require Import Ascii.
From Stdlib Require String.

Abbreviation bytes := String.list_ascii_of_string.
Abbreviation of_bytes := String.string_of_list_ascii.

Definition byte (n : N) : ascii := ascii_of_N n.
Definition code (c : ascii) : N := N_of_ascii c.

(** Characters the program names. *)
Definition slash : ascii := byte 47.
Definition dot : ascii := byte 46.
Definition comma : ascii := byte 44.
Definition dash : ascii := byte 45.
Definition space : ascii := byte 32.
Definition newline : ascii := byte 10.

(** * Comparison and search *)

Definition str_eqb (s t : string) : bool := bool_decide (s = t).
Definition is_empty (s : string) : bool := str_eqb s "".

(** strings.HasPrefix *)
Definition has_prefix (s p : string) : bool := String.prefix p s.

(** strings.TrimPrefix *)
Fixpoint trim_prefix (s p : string) : string :=
  match p, s with
  | EmptyString, _ => s
  | String a p', String b s' =>
      if decide (a = b) then
        if has_prefix s' p' then trim_prefix s' p' else s
      else s
  | _, EmptyString => s
  end.

Definition str_rev (s : string) : string := of_bytes (reverse (bytes s)).

(** strings.HasSuffix and strings.TrimSuffix *)
Definition has_suffix (s p : string) : bool := has_prefix (str_rev s) (str_rev p).
Definition trim_suffix (s p : string) : string :=
  if has_suffix s p then of_bytes (take (String.length s - String.length p) (bytes s)) else s.

(** strings.Contains *)
Fixpoint contains (s p : string) : bool :=
  has_prefix s p ||
  match s with EmptyString => false | String _ s' => contains s' p end.

(** strings.ContainsRune, for an ASCII character *)
Definition contains_byte (s : string) (c : ascii) : bool := bool_decide (c ∈ bytes s).

(** strings.Trim, TrimLeft and TrimRight with a one-character cut set *)
Fixpoint drop_while (f : ascii → bool) (l : list ascii) : list ascii :=
  match l with
  | [] => []
  | c :: l' => if f c then drop_while f l' else l
  end.
Definition drop_while_end (f : ascii → bool) (l : list ascii) : list ascii :=
  reverse (drop_while f (reverse l)).
Definition trim_left_byte (s : string) (c : ascii) : string :=
  of_bytes (drop_while (λ a, bool_decide (a = c)) (bytes s)).
Definition trim_right_byte (s : string) (c : ascii) : string :=
  of_bytes (drop_while_end (λ a, bool_decide (a = c)) (bytes s)).
Definition trim_byte (s : string) (c : ascii) : string :=
  trim_right_byte (trim_left_byte s c) c.

(** * Splitting and joining *)

(** strings.Split with a one-character separator *)
Fixpoint split_byte (s : string) (c : ascii) : list string :=
  match s with
  | EmptyString => [""]
  | String a s' =>
      if decide (a = c) then "" :: split_byte s' c
      else match split_byte s' c with
           | [] => [String a ""]
           | w :: ws => String a w :: ws
           end
  end.

(** strings.SplitN(s, c, 2): the part before the first separator, and the rest. *)
Fixpoint cut_byte (s : string) (c : ascii) : string * option string :=
  match s with
  | EmptyString => ("", None)
  | String a s' =>
      if decide (a = c) then ("", Some s')
      else let '(w, rest) := cut_byte s' c in (String a w, rest)
  end.

(** strings.Join *)
Fixpoint join (sep : string) (ws : list string) : string :=
  match ws with
  | [] => ""
  | [w] => w
  | w :: ws' => w +:+ sep +:+ join sep ws'
  end.

(** strings.Repeat *)
Fixpoint repeat_str (s : string) (n : nat) : string :=
  match n with O => "" | S n => s +:+ repeat_str s n end.

(** * White space: unicode.IsSpace *)

Definition utf8 (ns : list N) : list ascii := map byte ns.

Definition space_seqs : list (list ascii) :=
  map (λ n, utf8 [n]) [9; 10; 11; 12; 13; 32]%N ++
  map (λ n, utf8 [194; n]%N) [133; 160]%N ++
  [utf8 [225; 154; 128]%N] ++
  map (λ n, utf8 [226; 128; n]%N)
    [128; 129; 130; 131; 132; 133; 134; 135; 136; 137; 138; 168; 169; 175]%N ++
  [utf8 [226; 129; 159]%N; utf8 [227; 128; 128]%N].

Fixpoint is_prefixb (p l : list ascii) : bool :=
  match p, l with
  | [], _ => true
  | a :: p', b :: l' => if decide (a = b) then is_prefixb p' l' else false
  | _, [] => false
  end.

(** The width of the white-space rune at the head of [l], 0 when there is none. *)
Definition space_at (seqs : list (list ascii)) (l : list ascii) : nat :=
  match find (λ p, is_prefixb p l) seqs with
  | Some p => length p
  | None => 0
  end.

Fixpoint skip_space (seqs : list (list ascii)) (fuel : nat) (l : list ascii) : list ascii :=
  match fuel with
  | O => l
  | S fuel =>
      match space_at seqs l with
      | O => l
      | w => skip_space seqs fuel (drop w l)
      end
  end.
Definition trim_left_space (l : list ascii) : list ascii :=
  skip_space space_seqs (length l) l.
Definition trim_right_space (l : list ascii) : list ascii :=
  reverse (skip_space (map reverse space_seqs) (length l) (reverse l)).

(** strings.TrimSpace *)
Definition trim_space (s : string) : string :=
  of_bytes (trim_right_space (trim_left_space (bytes s))).

(** strings.Fields *)
Fixpoint fields_go (fuel : nat) (cur l : list ascii) : list (list ascii) :=
  let flush := match cur with [] => [] | _ => [reverse cur] end in
  match fuel, l with
  | _, [] | O, _ => flush
  | S fuel, c :: l' =>
      match space_at space_seqs l with
      | O => fields_go fuel (c :: cur) l'
      | w => flush ++ fields_go fuel [] (drop w l)
      end
  end.
Definition fields (s : string) : list string :=
  map of_bytes (fields_go (S (String.length s)) [] (bytes s)).

(** * Case *)

Definition lower_byte (c : ascii) : ascii :=
  if bool_decide (65 ≤ code c ∧ code c ≤ 90)%N then byte (code c + 32) else c.
Definition upper_byte (c : ascii) : ascii :=
  if bool_decide (97 ≤ code c ∧ code c ≤ 122)%N then byte (code c - 32) else c.

Fixpoint lower_bytes (l : list ascii) : list ascii :=
  match l with
  | [] => []
  | c :: l1 =>
      match l1 with
      | d :: l2 =>
          if decide (c = byte 196 ∧ d = byte 176) then byte 105 :: lower_bytes l2
          else match l2 with
               | e :: l3 =>
                   if decide (c = byte 226 ∧ d = byte 132 ∧ e = byte 170)
                   then byte 107 :: lower_bytes l3
                   else lower_byte c :: lower_bytes l1
               | [] => lower_byte c :: lower_bytes l1
               end
      | [] => [lower_byte c]
      end
  end.

(** strings.ToLower *)
Definition to_lower (s : string) : string := of_bytes (lower_bytes (bytes s)).

(** * Numbers *)

Definition digit (c : ascii) : option Z :=
  if bool_decide (48 ≤ code c ∧ code c ≤ 57)%N then Some (Z.of_N (code c) - 48)%Z else None.

Fixpoint digits_go (acc : Z) (l : list ascii) : option Z :=
  match l with
  | [] => Some acc
  | c :: l' => match digit c with Some d => digits_go (10 * acc + d)%Z l' | None => None end
  end.
Definition digits (l : list ascii) : option Z :=
  match l with [] => None | _ => digits_go 0 l end.

(** strconv.Atoi: an optional sign, decimal digits, and the range of [int]. *)
Definition atoi (s : string) : option Z :=
  let range z := if decide (in_int64 z) then Some z else None in
  match bytes s with
  | c :: l =>
      if decide (c = byte 45) then d ← digits l; range (- d)%Z
      else if decide (c = byte 43) then d ← digits l; range d
      else d ← digits (c :: l); range d
  | [] => None
  end.

(** strconv.Itoa *)
Definition itoa (z : Z) : string := pretty z.

(** * Lemmas on trimming and on the two forms of a string *)

Lemma drop_while_suffix f l : ∃ k, l = k ++ drop_while f l ∧ Forall (λ c, f c = true) k.
Proof.
  induction l as [|c l (k & E & Hk)]; [by exists []|]. cbn [drop_while]. destruct (f c) eqn:Ec.
  - exists (c :: k). split; [by rewrite E at 1|by constructor].
  - by exists [].
Qed.
Lemma drop_while_end_prefix f l : ∃ k, l = drop_while_end f l ++ k ∧ Forall (λ c, f c = true) k.
Proof.
  destruct (drop_while_suffix f (reverse l)) as (k & E & Hk). exists (reverse k). unfold drop_while_end.
  rewrite <-reverse_app, <-E, reverse_involutive. split; [done|]. by apply Forall_reverse.
Qed.
Lemma drop_while_head f l c : head (drop_while f l) = Some c → f c = false.
Proof.
  induction l as [|d l IH]; [done|]. cbn [drop_while]. destruct (f d) eqn:E; [exact IH|].
  cbn. congruence.
Qed.
Lemma drop_while_end_last f l c : last (drop_while_end f l) = Some c → f c = false.
Proof. unfold drop_while_end. rewrite last_reverse. apply drop_while_head. Qed.
Lemma drop_while_id f l : (∀ c, head l = Some c → f c = false) → drop_while f l = l.
Proof. destruct l as [|c l]; [done|]. intros H. cbn [drop_while]. by rewrite H. Qed.
Lemma drop_while_end_id f l c : last l = Some c → f c = false → drop_while_end f l = l.
Proof.
  intros Hl Hc. unfold drop_while_end. rewrite <-head_reverse in Hl. destruct (reverse l) as [|d k] eqn:E; [done|].
  injection Hl as ->. cbn [drop_while]. rewrite Hc, <-E. apply reverse_involutive.
Qed.

Lemma bytes_of_bytes l : bytes (of_bytes l) = l.
Proof. apply String.list_ascii_of_string_of_list_ascii. Qed.
Lemma of_bytes_bytes s : of_bytes (bytes s) = s.
Proof. apply String.string_of_list_ascii_of_string. Qed.

Lemma is_empty_spec s : is_empty s = true ↔ s = "".
Proof. apply bool_decide_eq_true. Qed.
Lemma length_bytes s : String.length s = length (bytes s).
Proof. induction s as [|c s IH]; [done|]. cbn. by rewrite IH. Qed.
Lemma bytes_app s t : bytes (s +:+ t) = bytes s ++ bytes t.
Proof. induction s as [|c s IH]; [done|]. cbn. by rewrite <-IH. Qed.

Lemma app_empty s : s +:+ "" = s.
Proof.
  induction s as [|c s IH]; [done|]. change (String c s +:+ "") with (String c (s +:+ "")). by rewrite IH.
Qed.

(** * Lemmas on prefixes, substrings and splitting *)

Lemma has_prefix_spec s p : has_prefix s p = true ↔ ∃ t, s = p +:+ t.
Proof.
  unfold has_prefix. revert s. induction p as [|a p IH]; intros s; [split; [by exists s|by destruct s]|].
  destruct s as [|b s]; [split; [done|by intros []]|]. cbn [String.prefix].
  destruct (ascii_dec a b) as [<-|Hne].
  - rewrite IH. split; intros [t E]; exists t; [by rewrite E|by injection E as ->].
  - split; [done|]. by intros (t & [= E _]).
Qed.

Lemma contains_spec s p : contains s p = true ↔ ∃ a b, s = a +:+ p +:+ b.
Proof.
  induction s as [|c s IH]; cbn [contains]; rewrite orb_true_iff, has_prefix_spec.
  - split; [intros [[t E]|]; [by exists "", t|done]|]. intros ([|] & b & E); [left; by exists b|done].
  - rewrite IH. split.
    + intros [[t E]|(a & b & ->)]; [by exists "", t|by exists (String c a), b].
    + intros ([|d a] & b & E); [left; by exists b|]. injection E as -> E. right. by exists a, b.
Qed.

Lemma split_byte_ne s c : split_byte s c ≠ [].
Proof. destruct s as [|a s]; cbn [split_byte]; [done|]. case_decide; [done|]. by destruct (split_byte s c). Qed.
Lemma split_byte_free s c : c ∉ bytes s → split_byte s c = [s].
Proof.
  induction s as [|a s IH]; [done|]. cbn [split_byte]. intros [Hne Hs]%not_elem_of_cons.
  rewrite decide_False by congruence. by rewrite IH.
Qed.
Lemma split_byte_app s c t : c ∉ bytes s → split_byte (s +:+ String c t) c = s :: split_byte t c.
Proof.
  induction s as [|a s IH].
  - intros _. change ("" +:+ String c t) with (String c t). cbn [split_byte]. by rewrite decide_True.
  - change (String a s +:+ String c t) with (String a (s +:+ String c t)). cbn [split_byte].
    intros [Hne Hs]%not_elem_of_cons. rewrite decide_False by congruence. by rewrite IH.
Qed.

(** * Text that lower case and trimming leave alone *)

(** Printable ASCII, no space and no capital *)
Definition settled (c : ascii) : bool :=
  bool_decide (33 ≤ code c ≤ 126)%N && negb (bool_decide (65 ≤ code c ≤ 90)%N).

Lemma settled_facts c l : settled c = true →
  lower_byte c = c ∧ c ≠ byte 196 ∧ c ≠ byte 226 ∧
  space_at space_seqs (c :: l) = 0 ∧ space_at (map reverse space_seqs) (c :: l) = 0.
Proof.
  destruct c as [[] [] [] [] [] [] [] []]; intros H; try (vm_compute in H; discriminate H);
    (split; [reflexivity|]; split; [discriminate|]; split; [discriminate|]; split; reflexivity).
Qed.

Lemma lower_bytes_settled l : Forall (λ c, settled c = true) l → lower_bytes l = l.
Proof.
  induction 1 as [|c l Hc Hl IH]; [done|]. apply (settled_facts c []) in Hc as (Hc & H1 & H2 & _).
  cbn [lower_bytes]. destruct l as [|d [|e l]]; [by rewrite Hc| |]; rewrite decide_False by tauto; [by rewrite Hc, IH|].
  rewrite decide_False by tauto. by rewrite Hc, IH.
Qed.

Lemma skip_space_nil seqs n : skip_space seqs n [] = [].
Proof.
  induction n as [|n IH]; [done|]. cbn [skip_space]. destruct (space_at seqs []); [done|]. by rewrite drop_nil.
Qed.
Lemma skip_settled seqs n l :
  (∀ c k, settled c = true → space_at seqs (c :: k) = 0) → Forall (λ c, settled c = true) l → skip_space seqs n l = l.
Proof.
  intros Hs [|c k Hc _]; [apply skip_space_nil|]. destruct n; cbn [skip_space]; [done|]. by rewrite Hs.
Qed.

Lemma settled_left c k : settled c = true → space_at space_seqs (c :: k) = 0.
Proof. intros H. exact (proj1 (proj2 (proj2 (proj2 (settled_facts c k H))))). Qed.
Lemma settled_right c k : settled c = true → space_at (map reverse space_seqs) (c :: k) = 0.
Proof. intros H. exact (proj2 (proj2 (proj2 (proj2 (settled_facts c k H))))). Qed.

Lemma to_lower_settled s : Forall (λ c, settled c = true) (bytes s) → to_lower s = s.
Proof. intros H. unfold to_lower. rewrite lower_bytes_settled by done. apply of_bytes_bytes. Qed.
Lemma trim_space_settled s : Forall (λ c, settled c = true) (bytes s) → trim_space s = s.
Proof.
  intros H. unfold trim_space, trim_left_space, trim_right_space.
  rewrite (skip_settled space_seqs _ _ settled_left H).
  rewrite (skip_settled (map reverse space_seqs) _ _ settled_right (proj2 (Forall_reverse _ _) H)), reverse_involutive.
  apply of_bytes_bytes.
Qed.

Lemma has_prefix_char s c : has_prefix s (String c "") = true ↔ head (bytes s) = Some c.
Proof.
  rewrite has_prefix_spec. split; [by intros [t ->]|]. destruct s as [|d s]; [done|].
  intros E. injection E as ->. by exists s.
Qed.
Lemma has_suffix_char s c : has_suffix s (String c "") = true ↔ last (bytes s) = Some c.
Proof.
  unfold has_suffix. change (str_rev (String c "")) with (String c "").
  rewrite has_prefix_char. unfold str_rev. by rewrite bytes_of_bytes, head_reverse.
Qed.

(** The pieces of a text with one separator in it *)
Lemma split_byte_two s c a b :
  split_byte s c = [a; b] ↔ s = a +:+ (String c b) ∧ (c ∉ bytes a) ∧ (c ∉ bytes b).
Proof.
  split; [|intros (-> & Ha & Hb); by rewrite split_byte_app, split_byte_free].
  assert (Hone : ∀ t w, split_byte t c = [w] → t = w ∧ c ∉ bytes w).
  { intros t. induction t as [|d t IH]; intros w; cbn [split_byte].
    - intros [= <-]. split; [done|apply not_elem_of_nil].
    - case_decide as E; [intros [= _ H]; by apply split_byte_ne in H|].
      destruct (split_byte t c) as [|v vs] eqn:Es; [by apply split_byte_ne in Es|]. intros [= <- ->].
      destruct (IH v) as [-> Hv]; [done|]. split; [done|]. apply not_elem_of_cons. by split. }
  revert a. induction s as [|d s IH]; intros a; cbn [split_byte]; [done|]. case_decide as E.
  - intros [= <- Hs]. apply Hone in Hs as [-> Hb]. subst d. split_and!; [done|apply not_elem_of_nil|done].
  - destruct (split_byte s c) as [|v vs] eqn:Es; [by apply split_byte_ne in Es|]. intros [= <- ->].
    destruct (IH v) as (-> & Hv & Hb); [done|]. split_and!; [done| |done]. apply not_elem_of_cons. by split.
Qed.

(** * Itoa is read back by Atoi *)

Lemma digit_pretty n : (n < 10)%N → digit (pretty_N_char n) = Some (Z.of_N n).
Proof. intros Hn. assert (n ∈ map N.of_nat (seq 0 10)) as Hin; [|by repeat (apply elem_of_cons in Hin as [->|Hin]; [done|]); apply not_elem_of_nil in Hin].
  apply list_elem_of_fmap. exists (N.to_nat n). split; [by rewrite N2Nat.id|]. apply elem_of_seq. lia. Qed.

(** The decimal text of a number, in front of some text *)
Lemma digits_pretty x s : digits_go 0 (bytes (pretty_N_go x s)) = digits_go (Z.of_N x) (bytes s) ∧
  (Forall (λ c, is_Some (digit c)) (bytes s) → Forall (λ c, is_Some (digit c)) (bytes (pretty_N_go x s))).
Proof.
  revert s. induction (N.lt_wf_0 x) as [x _ IH]; intros s. destruct (decide (0 < x)%N) as [Hx|Hx].
  - rewrite pretty_N_go_step by done. assert (Hm : (x mod 10 < 10)%N) by (by apply N.mod_lt).
    pose proof (digit_pretty _ Hm) as Hd. destruct (IH (x / 10)%N ltac:(apply N.div_lt; lia) (String (pretty_N_char (x mod 10)) s)) as [-> HF].
    split.
    + change (bytes (String (pretty_N_char (x mod 10)) s)) with (pretty_N_char (x mod 10) :: bytes s). cbn [digits_go]. rewrite Hd. f_equal. pose proof (N.div_mod x 10). lia.
    + intros Hs. apply HF. constructor; [by eexists|done].
  - assert (x = 0%N) as -> by lia. by rewrite pretty_N_go_0.
Qed.

Lemma atoi_itoa z : in_int64 z → atoi (itoa z) = Some z.
Proof.
  intros Hz. assert (Hpos : ∀ p, (Z.pos p = z ∨ Z.neg p = z) → let l := bytes (pretty (N.pos p)) in
    digits l = Some (Z.pos p) ∧ ∃ c l', l = c :: l' ∧ c ≠ byte 45 ∧ c ≠ byte 43).
  { intros p _ l. destruct (digits_pretty (N.pos p) "") as [Hd HF]. specialize (HF (Forall_nil_2 _)).
    change (pretty_N_go (N.pos p) "") with (pretty (N.pos p)) in Hd, HF. fold l in Hd, HF. destruct l as [|c l']; [done|].
    split; [exact Hd|]. exists c, l'. split; [done|]. apply Forall_cons in HF as [[d Hc] _].
    split; intros ->; discriminate Hc. }
  unfold atoi, itoa. destruct z as [|p|p]; [done| |].
  - destruct (Hpos p) as (Hd & c & l' & El & H1 & H2); [by left|]. change (pretty (Z.pos p)) with (pretty (N.pos p)).
    rewrite El in Hd |- *. cbv beta iota zeta. rewrite !decide_False by done. rewrite Hd. cbn. by rewrite decide_True.
  - destruct (Hpos p) as (Hd & c & l' & El & H1 & H2); [by right|].
    change (bytes (pretty (Z.neg p))) with (byte 45 :: bytes (pretty (N.pos p))). cbv beta iota zeta. rewrite decide_True by done. rewrite Hd. cbn.
    by rewrite decide_True.
Qed.

(** What stands before the byte that is cut at *)
Lemma cut_byte_app s c t : c ∉ bytes s → cut_byte (s +:+ String c t) c = (s, Some t).
Proof.
  induction s as [|a s IH]; intros Hn; simpl; [by case_decide|].
  change (bytes (String a s)) with (a :: bytes s) in Hn. apply not_elem_of_cons in Hn as [Ha Hn].
  case_decide as E; [by subst|]. by rewrite IH.
Qed.
