(* ===== verification/GoFloat.v ===== *)
(** Go's [float64]: IEEE 754 binary64, through the Standard Library's executable
    [SpecFloat] (53 bits of mantissa, round to nearest even).  Decimal literals are
    converted by [strconv.ParseFloat] to the nearest float, which is what
    [f_of_ratio] computes from the exact ratio of two integers. *)
From S2P Require Import Prelude GoStrings.
From Stdlib Require Import SpecFloat Ascii.

Open Scope Z_scope.

Definition float64 : Type := spec_float.
Definition prec : Z := 53.
Definition emax : Z := 1024.

Definition f_of_Z (z : Z) : float64 := binary_normalize prec emax z 0 false.
Definition f_add (x y : float64) : float64 := SFadd prec emax x y.
Definition f_sub (x y : float64) : float64 := SFsub prec emax x y.
Definition f_mul (x y : float64) : float64 := SFmul prec emax x y.
Definition f_div (x y : float64) : float64 := SFdiv prec emax x y.
Definition f_lt (x y : float64) : bool := SFltb x y.
Definition f_le (x y : float64) : bool := SFleb x y.

(** The float nearest to [n / d], for [0 ≤ n]. *)
Definition f_of_ratio (n : Z) (d : positive) : float64 :=
  match n with
  | Zpos p =>
      let '(m, e, l) := SFdiv_core_binary prec emax (Zpos p) 0 (Zpos d) 0 in
      binary_round_aux prec emax false m e l
  | _ => S754_zero false
  end.

(** Truncation towards zero of a finite float. *)
Definition f_trunc (x : float64) : Z :=
  match x with
  | S754_finite s m e =>
      let a := if 0 <=? e then Zpos m * 2 ^ e else Zpos m / 2 ^ (- e) in
      if s then - a else a
  | _ => 0
  end.

(** The conversion [int64(x)]: Go leaves the result of an out-of-range conversion
    to the implementation, and amd64 yields the smallest [int64]. *)
Definition f_to_int64 (x : float64) : Z :=
  match x with
  | S754_zero _ => 0
  | S754_finite _ _ _ =>
      let z := f_trunc x in if decide (in_int64 z) then z else min_int64
  | _ => min_int64
  end.

Lemma f_to_int64_range x : in_int64 (f_to_int64 x).
Proof.
  unfold f_to_int64. destruct x; try (split; discriminate).
  cbv zeta. case_decide; [done|split; discriminate].
Qed.
#[export] Hint Resolve f_to_int64_range : wthr.

(** strconv.ParseFloat: an optional sign, decimal digits with an optional point, an
    optional exponent; or an infinity, or NaN, in any case.  A value beyond the largest
    float is the range error.  (Hexadecimal literals and digit separators, which Go
    also reads, are refused here.) *)
Fixpoint decimal_go (acc : Z) (den : positive) (seen_dot seen_digit : bool)
    (l : list ascii) : option (Z * positive * list ascii) :=
  let stop := if seen_digit then Some (acc, den, l) else None in
  match l with
  | [] => stop
  | c :: l' =>
      match digit c with
      | Some d => decimal_go (10 * acc + d) (if seen_dot then 10 * den else den)%positive
                    seen_dot true l'
      | None => if bool_decide (c = dot) && negb seen_dot
                then decimal_go acc den true seen_digit l' else stop
      end
  end.

(** The exponent after [e] or [E], in range of a loop over its digits. *)
Definition parse_exponent (l : list ascii) : option Z :=
  match l with
  | [] => Some 0
  | e :: l =>
      if negb (bool_decide (e = byte 101) || bool_decide (e = byte 69)) then None else
      match l with
      | s :: l' => if decide (s = byte 45) then Z.opp <$> digits l'
                   else if decide (s = byte 43) then digits l' else digits l
      | [] => None
      end
  end.

Definition finite (x : float64) : bool :=
  match x with S754_infinity _ | S754_nan => false | _ => true end.

Definition parse_decimal (l : list ascii) : option float64 :=
  '(n, d, rest) ← decimal_go 0 1 false false l;
  e ← parse_exponent rest;
  let x := if 0 <=? e then f_of_ratio (n * 10 ^ e) d
           else f_of_ratio n (d * Z.to_pos (10 ^ (- e))) in
  if finite x then Some x else None.

Definition parse_magnitude (l : list ascii) : option float64 :=
  let w := to_lower (of_bytes l) in
  if str_eqb w "inf" || str_eqb w "infinity" then Some (S754_infinity false)
  else parse_decimal l.

Definition parse_float (s : string) : option float64 :=
  match bytes s with
  | c :: l =>
      if decide (c = byte 45) then SFopp <$> parse_magnitude l
      else if decide (c = byte 43) then parse_magnitude l
      else if str_eqb (to_lower s) "nan" then Some S754_nan
      else parse_magnitude (c :: l)
  | [] => None
  end.

Example parse_float_half : parse_float "0.5" = Some (f_div (f_of_Z 1) (f_of_Z 2)).
Proof. vm_compute. reflexivity. Qed.
Example parse_float_tenth :
  parse_float "-0.1" = Some (SFopp (f_div (f_of_Z 1) (f_of_Z 10))).
Proof. vm_compute. reflexivity. Qed.
Example parse_float_forms :
  map parse_float ["1e2"; "100"; "1.5E-1"; "1e400"; "."; "1.2.3"; "+Inf"; "NaN"; "-nan"; "1e"] =
  [Some (f_of_Z 100); Some (f_of_Z 100); Some (f_of_ratio 15 100); None; None; None;
   Some (S754_infinity false); Some S754_nan; None; None].
Proof. vm_compute. reflexivity. Qed.
