(* ===== verification/GoTime.v ===== *)
(** Go's [time] package: instants, durations, the civil calendar and the layouts
    the program formats and parses.  An instant is its number of nanoseconds
    since 0001-01-01 00:00:00 UTC (Go's zero [Time], which is instant 0); a
    [Location] is the function that gives the UTC offset (in nanoseconds) in force
    at an instant. *)
From S2P Require Import Prelude GoStrings.
From Stdlib Require Import Ascii.

Open Scope Z_scope.

(** In this file [lia] also decides quotients and remainders by constants. *)
#[local] Ltac Zify.zify_post_hook ::= Z.to_euclidean_division_equations.

Abbreviation instant := Z (only parsing).
Abbreviation duration := Z (only parsing).
Definition location := Z → Z.
Definition utc : location := λ _, 0.

Definition second : duration := 1000000000.
Definition minute : duration := 60 * second.
Definition hour : duration := 60 * minute.
Definition day_ns : duration := 24 * hour.

(** The zero [Time] and [Time.IsZero]. *)
Definition zero_time : instant := 0.
Definition is_zero (t : instant) : bool := t =? zero_time.

(** [Time.Truncate]: down to a multiple of [d] since the zero time. *)
Definition truncate (t : instant) (d : duration) : instant := t - t mod d.

(** [Time.Sub] saturates at the bounds of [Duration]. *)
Definition sub (t u : instant) : duration :=
  Z.max min_int64 (Z.min max_int64 (t - u)).

(** * The civil calendar (proleptic Gregorian) *)

Definition leap (y : Z) : bool :=
  (y mod 4 =? 0) && (negb (y mod 100 =? 0) || (y mod 400 =? 0)).

Definition days_in (m y : Z) : Z :=
  if m =? 2 then if leap y then 29 else 28
  else if (m =? 4) || (m =? 6) || (m =? 9) || (m =? 11) then 30 else 31.

(** Year of the era, month and day of a day of a 400-year era that starts on a
    1 March. *)
Definition civil_of_doe (doe : Z) : Z * Z * Z :=
  let yoe := (doe - doe / 1460 + doe / 36524 - doe / 146096) / 365 in
  let doy := doe - (365 * yoe + yoe / 4 - yoe / 100) in
  let mp := (5 * doy + 2) / 153 in
  let d := doy - (153 * mp + 2) / 5 + 1 in
  let m := if mp <? 10 then mp + 3 else mp - 9 in
  ((if m <=? 2 then yoe + 1 else yoe), m, d).

Definition civil_of_days (days : Z) : Z * Z * Z :=
  let z := days + 306 in
  let '(y, m, d) := civil_of_doe (z mod 146097) in (y + 400 * (z / 146097), m, d).

Definition days_of_civil (y m d : Z) : Z :=
  let y' := if m <=? 2 then y - 1 else y in
  let yoe := y' mod 400 in
  let doy := (153 * (if 2 <? m then m - 3 else m + 9) + 2) / 5 + d - 1 in
  (y' / 400) * 146097 + (yoe * 365 + yoe / 4 - yoe / 100 + doy) - 306.

(** The year-of-era formula, on a day given by its century, four-year cycle, year
    of the cycle and day of the (March-based) year. *)
Lemma yoe_formula c q r doy :
  0 ≤ c ≤ 3 → 0 ≤ q ≤ 24 → 0 ≤ r ≤ 3 → 0 ≤ doy ≤ 365 →
  (doy = 365 → r = 3 ∧ (q ≠ 24 ∨ c = 3)) →
  let doe := 36524 * c + 1461 * q + 365 * r + doy in
  (doe - doe / 1460 + doe / 36524 - doe / 146096) / 365 = 100 * c + 4 * q + r.
Proof.
  intros Hc Hq Hr Hd Hl doe.
  assert (E1 : doe / 146096 = if doe =? 146096 then 1 else 0).
  { destruct (Z.eqb_spec doe 146096); symmetry;
      [apply (Z.div_unique _ _ _ 0)|apply (Z.div_unique _ _ _ doe)]; lia. }
  assert (E2 : doe / 36524 = c + if doe =? 146096 then 1 else 0).
  { destruct (Z.eqb_spec doe 146096); symmetry;
      [apply (Z.div_unique _ _ _ 0)|apply (Z.div_unique _ _ _ (doe - 36524 * c))]; lia. }
  set (e := 24 * c + q + 365 * r + doy).
  assert (E3 : doe / 1460 = 25 * c + q + if 1460 <=? e then 1 else 0).
  { destruct (Z.leb_spec 1460 e); symmetry;
      [apply (Z.div_unique _ _ _ (e - 1460))|apply (Z.div_unique _ _ _ e)]; lia. }
  rewrite E1, E2, E3. symmetry.
  apply (Z.div_unique _ _ _ (doy - if 1460 <=? e then 1 else 0)).
  - destruct (Z.leb_spec 1460 e); lia.
  - destruct (Z.eqb_spec doe 146096), (Z.leb_spec 1460 e); lia.
Qed.

(** Every year of an era has such a decomposition, and so has every day. *)
Lemma year_split y : ∃ c q r, 0 ≤ c ≤ 3 ∧ 0 ≤ q ≤ 24 ∧ 0 ≤ r ≤ 3 ∧
  y mod 400 = 100 * c + 4 * q + r ∧
  (y mod 400) / 4 = 25 * c + q ∧ (y mod 400) / 100 = c.
Proof.
  pose proof (Z.mod_pos_bound y 400 ltac:(lia)).
  generalize dependent (y mod 400). intros k Hk.
  assert (∃ c b, k = 100 * c + b ∧ 0 ≤ b < 100) as (c & b & -> & Hb).
  { exists (k / 100), (k mod 100). lia. }
  exists c, (b / 4), (b mod 4). lia.
Qed.

Lemma day_split doe : 0 ≤ doe < 146097 → ∃ c q r doy,
  0 ≤ c ≤ 3 ∧ 0 ≤ q ≤ 24 ∧ 0 ≤ r ≤ 3 ∧ 0 ≤ doy ≤ 365 ∧
  (doy = 365 → r = 3 ∧ (q ≠ 24 ∨ c = 3)) ∧
  doe = 36524 * c + 1461 * q + 365 * r + doy.
Proof.
  intros H.
  assert (∃ c k, doe = 36524 * c + k ∧ 0 ≤ c ≤ 3 ∧ 0 ≤ k ≤ 36524 ∧ (k = 36524 → c = 3))
    as (c & k & -> & Hc & Hk & Hk').
  { exists (Z.min 3 (doe / 36524)), (doe - 36524 * Z.min 3 (doe / 36524)). lia. }
  clear H.
  assert (∃ q j, k = 1461 * q + j ∧ 0 ≤ q ≤ 24 ∧ 0 ≤ j ≤ 1460 ∧ (j = 1460 → q ≠ 24 ∨ c = 3))
    as (q & j & -> & Hq & Hj & Hj').
  { exists (k / 1461), (k mod 1461). lia. }
  clear Hk Hk'. exists c, q, (Z.min 3 (j / 365)), (j - 365 * Z.min 3 (j / 365)).
  split; [done|]. split; [done|]. lia.
Qed.

(** The month and day of a day of the year, for each of the twelve months. *)
Lemma month_day mp d : 0 ≤ mp ≤ 11 → 1 ≤ d ≤ 31 →
  d ≤ (153 * (mp + 1) + 2) / 5 - (153 * mp + 2) / 5 →
  (5 * ((153 * mp + 2) / 5 + d - 1) + 2) / 153 = mp.
Proof.
  intros Hm Hd. assert (mp = 0 ∨ mp = 1 ∨ mp = 2 ∨ mp = 3 ∨ mp = 4 ∨ mp = 5 ∨ mp = 6 ∨
    mp = 7 ∨ mp = 8 ∨ mp = 9 ∨ mp = 10 ∨ mp = 11) as Hcases by lia.
  destruct_or! Hcases; subst mp; simpl; lia.
Qed.

Lemma leap_shift y k : leap (y + 400 * k) = leap y.
Proof.
  unfold leap.
  replace ((y + 400 * k) mod 4) with (y mod 4)
    by (replace (400 * k) with ((100 * k) * 4) by lia; by rewrite Z.mod_add).
  replace ((y + 400 * k) mod 100) with (y mod 100)
    by (replace (400 * k) with ((4 * k) * 100) by lia; by rewrite Z.mod_add).
  replace ((y + 400 * k) mod 400) with (y mod 400)
    by (replace (400 * k) with (k * 400) by lia; by rewrite Z.mod_add).
  done.
Qed.

Lemma leap_spec y : leap y = true ↔
  y mod 4 = 0 ∧ (y mod 100 ≠ 0 ∨ y mod 400 = 0).
Proof.
  unfold leap. rewrite andb_true_iff, orb_true_iff, negb_true_iff,
    Z.eqb_neq, !Z.eqb_eq. done.
Qed.

(** The last day of a March-based year is 29 February, and exists exactly in the
    leap years. *)
Lemma leap_split y c q r : y mod 400 = 100 * c + 4 * q + r →
  0 ≤ c ≤ 3 → 0 ≤ q ≤ 24 → 0 ≤ r ≤ 3 →
  leap (y + 1) = true ↔ r = 3 ∧ (q ≠ 24 ∨ c = 3).
Proof.
  intros E Hc Hq Hr. pose proof (Z.div_mod y 400 ltac:(lia)) as Hy.
  rewrite E in Hy. generalize dependent (y / 400). intros k Hy.
  replace (y + 1) with (100 * c + 4 * q + r + 1 + 400 * k) by lia.
  rewrite leap_shift, leap_spec. split; [|intros [-> ?]]; lia.
Qed.

Lemma civil_of_days_spec n y m d :
  civil_of_days n = (y, m, d) →
  days_of_civil y m d = n ∧ 1 ≤ m ≤ 12 ∧ 1 ≤ d ≤ days_in m y.
Proof.
  unfold civil_of_days, civil_of_doe. intros H.
  destruct (day_split ((n + 306) mod 146097)) as (c & q & r & doy & Hc & Hq & Hr & Hd & Hl & E);
    [apply Z.mod_pos_bound; lia|].
  pose proof (Z.div_mod (n + 306) 146097 ltac:(lia)) as Hn.
  generalize dependent ((n + 306) / 146097). intros era H Hn.
  rewrite E in *. rewrite (yoe_formula c q r doy) in H by done.
  remember (100 * c + 4 * q + r) as yoe eqn:Eyoe.
  assert (E4 : yoe / 4 = 25 * c + q) by lia. assert (E100 : yoe / 100 = c) by lia.
  rewrite E4, E100 in H.
  replace (36524 * c + 1461 * q + 365 * r + doy - (365 * yoe + (25 * c + q) - c))
    with doy in H by lia.
  assert (Hy' : (yoe + 400 * era) mod 400 = yoe ∧ (yoe + 400 * era) / 400 = era).
  { replace (400 * era) with (era * 400) by lia.
    rewrite Z.mod_add, Z.div_add, Z.mod_small, Z.div_small by lia. done. }
  destruct Hy' as [Hy1 Hy2].
  pose proof (leap_split (yoe + 400 * era) c q r
    ltac:(by rewrite Hy1) Hc Hq Hr) as Hleap.
  remember ((5 * doy + 2) / 153) as mp eqn:Emp.
  assert (0 ≤ mp ≤ 11) as Hmp by lia.
  assert (0 ≤ doy - (153 * mp + 2) / 5 ≤ 30) by lia.
  destruct (Z.ltb_spec mp 10) as [Hmp'|Hmp'].
  - destruct (Z.leb_spec (mp + 3) 2); [lia|]. injection H as <- <- <-.
    unfold days_of_civil. destruct (Z.leb_spec (mp + 3) 2); [lia|].
    destruct (Z.ltb_spec 2 (mp + 3)); [|lia].
    rewrite Hy1, Hy2, E4, E100. replace (mp + 3 - 3) with mp by lia.
    split; [lia|]. split; [lia|].
    assert (mp = 0 ∨ mp = 1 ∨ mp = 2 ∨ mp = 3 ∨ mp = 4 ∨ mp = 5 ∨ mp = 6 ∨
      mp = 7 ∨ mp = 8 ∨ mp = 9) as Hcases by lia.
    unfold days_in. destruct_or! Hcases; rewrite Hcases in *; simpl; lia.
  - destruct (Z.leb_spec (mp - 9) 2); [|lia]. injection H as <- <- <-.
    unfold days_of_civil. destruct (Z.leb_spec (mp - 9) 2); [|lia].
    destruct (Z.ltb_spec 2 (mp - 9)); [lia|].
    replace (yoe + 1 + 400 * era - 1) with (yoe + 400 * era) by lia.
    rewrite Hy1, Hy2, E4, E100. replace (mp - 9 + 9) with mp by lia.
    split; [lia|]. split; [lia|].
    replace (yoe + 1 + 400 * era) with (yoe + 400 * era + 1) by lia.
    assert (mp = 10 ∨ mp = 11) as [Hcases|Hcases] by lia;
      rewrite Hcases in *; unfold days_in; simpl; [lia|].
    destruct (leap _) eqn:El; [lia|].
    assert (doy ≠ 365); [|lia]. intros ->. destruct Hleap as [_ Hleap].
    specialize (Hleap (Hl eq_refl)). congruence.
Qed.

Lemma days_of_civil_inv y m d :
  1 ≤ m ≤ 12 → 1 ≤ d ≤ days_in m y → civil_of_days (days_of_civil y m d) = (y, m, d).
Proof.
  intros Hm Hd. unfold days_of_civil, civil_of_days, civil_of_doe.
  remember (if m <=? 2 then y - 1 else y) as y' eqn:Ey0.
  set (mp := if 2 <? m then m - 3 else m + 9).
  destruct (year_split y') as (c & q & r & Hc & Hq & Hr & E & E4 & E100).
  remember ((153 * mp + 2) / 5 + d - 1) as doy eqn:Edoy.
  assert (Hmp : 0 ≤ mp ≤ 11 ∧ m = (if mp <? 10 then mp + 3 else mp - 9) ∧
                y' = (if mp <? 10 then y else y - 1)).
  { subst y'. unfold mp. destruct (Z.ltb_spec 2 m), (Z.leb_spec m 2); try lia.
    - destruct (Z.ltb_spec (m - 3) 10); lia.
    - destruct (Z.ltb_spec (m + 9) 10); lia. }
  clearbody mp. clear Ey0. destruct Hmp as (Hmp & Em & Ey').
  assert (Hmonth : d ≤ (153 * (mp + 1) + 2) / 5 - (153 * mp + 2) / 5 ∧ d ≤ 31 ∧
                   (mp = 11 → d ≤ 29 ∧ (d = 29 → leap y = true))).
  { assert (mp = 0 ∨ mp = 1 ∨ mp = 2 ∨ mp = 3 ∨ mp = 4 ∨ mp = 5 ∨ mp = 6 ∨
      mp = 7 ∨ mp = 8 ∨ mp = 9 ∨ mp = 10 ∨ mp = 11) as Hcases by lia.
    clear - Hd Em Hcases. destruct_or! Hcases; subst mp; simpl in Em; subst m;
      unfold days_in in Hd; simpl in *; try lia.
    destruct (leap y); lia. }
  destruct Hmonth as (Hd1 & Hd31 & Hfeb).
  assert (Hl : 0 ≤ doy ≤ 365 ∧ (doy = 365 → r = 3 ∧ (q ≠ 24 ∨ c = 3))).
  { split; [lia|]. intros Hdoy. assert (mp = 11) by lia. subst mp. simpl in Ey'.
    destruct (Hfeb eq_refl) as [? Hly]. apply (leap_split y'); [lia..|].
    replace (y' + 1) with y by lia. apply Hly. lia. }
  destruct Hl as [Hdoy Hl].
  rewrite E4, E100, E.
  replace (y' / 400 * 146097 + ((100 * c + 4 * q + r) * 365 + (25 * c + q) - c + doy) - 306 + 306)
    with ((36524 * c + 1461 * q + 365 * r + doy) + y' / 400 * 146097) by lia.
  rewrite Z.mod_add, Z.div_add by lia.
  assert (Hsmall : 0 ≤ 36524 * c + 1461 * q + 365 * r + doy < 146097) by lia.
  rewrite (Z.mod_small _ _ Hsmall), (Z.div_small _ _ Hsmall).
  rewrite (yoe_formula c q r doy) by done.
  replace ((100 * c + 4 * q + r) / 4) with (25 * c + q) by lia.
  replace ((100 * c + 4 * q + r) / 100) with c by lia.
  replace (36524 * c + 1461 * q + 365 * r + doy - (365 * (100 * c + 4 * q + r) + (25 * c + q) - c))
    with doy by lia.
  subst doy. rewrite month_day by lia.
  pose proof (Z.div_mod y' 400 ltac:(lia)).
  replace ((153 * mp + 2) / 5 + d - 1 - (153 * mp + 2) / 5 + 1) with d by lia.
  rewrite <- Em. f_equal. f_equal.
  destruct (Z.ltb_spec mp 10), (Z.leb_spec m 2); lia.
Qed.

(** * Fields of an instant in a location *)

Definition local_ns (loc : location) (t : instant) : Z := t + loc t.
(** The instant whose clock in [loc] reads [l], as time.Date looks it up: with the offset at
    [l] read as UTC first, and the offset at the result of that when they differ. *)
Definition from_local (loc : location) (l : Z) : instant := l - loc (l - loc l).
Definition day_of (loc : location) (t : instant) : Z := local_ns loc t / day_ns.
Definition date_of (loc : location) (t : instant) : Z * Z * Z :=
  civil_of_days (day_of loc t).
Definition year_of loc t : Z := (date_of loc t).1.1.
Definition month_of loc t : Z := (date_of loc t).1.2.
Definition dom_of loc t : Z := (date_of loc t).2.
Definition hour_of loc t : Z := (local_ns loc t mod day_ns) / hour.
Definition minute_of loc t : Z := (local_ns loc t mod hour) / minute.
Definition second_of loc t : Z := (local_ns loc t mod minute) / second.
(** 0 is Sunday: 0001-01-01 was a Monday. *)
Definition weekday_of loc t : Z := (day_of loc t + 1) mod 7.

(** [time.Date] in UTC, for fields in range. *)
Definition date_utc (y m d h mi s ns : Z) : instant :=
  days_of_civil y m d * day_ns + h * hour + mi * minute + s * second + ns.

Ltac unfold_time := unfold day_ns, hour, minute, second in *.

(** Splitting an instant into its UTC fields loses nothing but the fraction of
    the second. *)
Lemma date_utc_fields t y m d :
  date_of utc t = (y, m, d) →
  date_utc y m d (hour_of utc t) (minute_of utc t) (second_of utc t) 0 =
  truncate t second.
Proof.
  unfold date_of, day_of, hour_of, minute_of, second_of, truncate, date_utc, local_ns, utc.
  rewrite Z.add_0_r. intros H. apply civil_of_days_spec in H as [-> _].
  unfold_time.
  assert (Hs : ∀ a b, 0 < a → 0 < b → (t mod (a * b)) mod a = t mod a).
  { intros a b Ha Hb. rewrite Z.rem_mul_r, (Z.mul_comm a) by lia.
    rewrite Z.mod_add, Z.mod_mod by lia. done. }
  pose proof (Hs 3600000000000 24 ltac:(lia) ltac:(lia)) as H1.
  pose proof (Hs 60000000000 60 ltac:(lia) ltac:(lia)) as H2.
  pose proof (Hs 1000000000 60 ltac:(lia) ltac:(lia)) as H3.
  change (24 * (60 * (60 * 1000000000))) with 86400000000000 in *.
  change (60 * (60 * 1000000000)) with 3600000000000 in *.
  change (60 * 1000000000) with 60000000000 in *.
  change (3600000000000 * 24) with 86400000000000 in *.
  change (60000000000 * 60) with 3600000000000 in *.
  change (1000000000 * 60) with 60000000000 in *.
  pose proof (Z.div_mod t 86400000000000 ltac:(lia)).
  pose proof (Z.div_mod (t mod 86400000000000) 3600000000000 ltac:(lia)).
  pose proof (Z.div_mod (t mod 3600000000000) 60000000000 ltac:(lia)).
  pose proof (Z.div_mod (t mod 60000000000) 1000000000 ltac:(lia)).
  rewrite ?H1, ?H2, ?H3 in *.
  generalize dependent (t mod 1000000000). generalize dependent (t mod 60000000000).
  generalize dependent (t mod 3600000000000). generalize dependent (t mod 86400000000000).
  intros. lia.
Qed.

(** * Formatting *)

Definition digit_char (z : Z) : ascii := byte (Z.to_N (48 + z)).
Definition two (z : Z) : string :=
  String (digit_char (z / 10)) (String (digit_char (z mod 10)) "").
Definition four (z : Z) : string := two (z / 100) +:+ two (z mod 100).

(** [Format "2006-01-02 15:04:05"], for the years 0 to 9999. *)
Definition format_datetime (loc : location) (t : instant) : string :=
  let '(y, m, d) := date_of loc t in
  four y +:+ "-" +:+ two m +:+ "-" +:+ two d +:+ " " +:+
  two (hour_of loc t) +:+ ":" +:+ two (minute_of loc t) +:+ ":" +:+ two (second_of loc t).
