(* ===== verification/GoDuration.v ===== *)
(** [time.ParseDuration], with the overflow tests of its source. *)
From S2P Require Import Prelude GoStrings GoFloat GoTime.
From Stdlib Require Import Ascii.

Open Scope Z_scope.

Definition two63 : Z := 2 ^ 63.

(** leadingInt: the value and the rest, or [None] on overflow. *)
Fixpoint leading_int (x : Z) (l : list ascii) : option (Z * list ascii) :=
  match l with
  | [] => Some (x, [])
  | c :: l' =>
      match digit c with
      | Some d =>
          if two63 / 10 <? x then None
          else let x' := 10 * x + d in
               if two63 <? x' then None else leading_int x' l'
      | None => Some (x, l)
      end
  end.

(** leadingFraction: the digits that fit, their scale, and the rest. *)
Fixpoint leading_fraction (x scale : Z) (overflow : bool) (l : list ascii)
  : Z * Z * list ascii :=
  match l with
  | [] => (x, scale, [])
  | c :: l' =>
      match digit c with
      | Some d =>
          if overflow then leading_fraction x scale true l'
          else if (two63 - 1) / 10 <? x then leading_fraction x scale true l'
          else let y := 10 * x + d in
               if two63 <? y then leading_fraction x scale true l'
               else leading_fraction y (10 * scale) false l'
      | None => (x, scale, l)
      end
  end.

Fixpoint span_unit (l : list ascii) : list ascii * list ascii :=
  match l with
  | [] => ([], [])
  | c :: l' =>
      if bool_decide (c = dot) || bool_decide (is_Some (digit c)) then ([], l)
      else let '(u, rest) := span_unit l' in (c :: u, rest)
  end.

Definition duration_units : list (list ascii * Z) :=
  [ (bytes "ns", 1); (bytes "us", 1000); (utf8 [194; 181; 115]%N, 1000);
    (utf8 [206; 188; 115]%N, 1000); (bytes "ms", 1000000); (bytes "s", second);
    (bytes "m", minute); (bytes "h", hour) ].

Fixpoint assoc_find {A B} `{EqDecision A} (k : A) (l : list (A * B)) : option B :=
  match l with
  | [] => None
  | (a, b) :: l' => if decide (k = a) then Some b else assoc_find k l'
  end.

Fixpoint parse_duration_go (fuel : nat) (d : Z) (l : list ascii) : option Z :=
  match l, fuel with
  | [], _ => Some d
  | _, O => None
  | c :: _, S fuel =>
      if negb (bool_decide (c = dot) || bool_decide (is_Some (digit c))) then None else
      '(v, l1) ← leading_int 0 l;
      let pre := negb (Nat.eqb (length l1) (length l)) in
      let '(f, scale, l2, post) :=
        match l1 with
        | c1 :: l1' =>
            if decide (c1 = dot) then
              let '(f, scale, l2) := leading_fraction 0 1 false l1' in
              (f, scale, l2, negb (Nat.eqb (length l2) (length l1')))
            else (0, 1, l1, false)
        | [] => (0, 1, l1, false)
        end in
      if negb pre && negb post then None else
      let '(u, l3) := span_unit l2 in
      if bool_decide (u = []) then None else
      unit ← assoc_find u duration_units;
      if two63 / unit <? v then None else
      let v1 := v * unit in
      let v2 := if 0 <? f
                then v1 + f_trunc (f_mul (f_of_Z f) (f_div (f_of_Z unit) (f_of_Z scale)))
                else v1 in
      if two63 <? v2 then None else
      let d' := d + v2 in
      if two63 <? d' then None else parse_duration_go fuel d' l3
  end.

Definition parse_duration (s : string) : option duration :=
  let '(neg, l) :=
    match bytes s with
    | c :: l' => if decide (c = byte 45) then (true, l')
                 else if decide (c = byte 43) then (false, l') else (false, bytes s)
    | [] => (false, [])
    end in
  if bool_decide (l = bytes "0") then Some 0
  else if bool_decide (l = []) then None
  else d ← parse_duration_go (length l) 0 l;
       if neg : bool then Some (- d)
       else if two63 - 1 <? d then None else Some d.

Example parse_duration_5m : parse_duration "5m" = Some (5 * minute).
Proof. vm_compute. reflexivity. Qed.
Example parse_duration_mixed : parse_duration "1h30m0.25s" = Some (90 * minute + 250000000).
Proof. vm_compute. reflexivity. Qed.
Example parse_duration_bad : parse_duration "5" = None ∧ parse_duration "5x" = None.
Proof. split; vm_compute; reflexivity. Qed.

(** * [Duration.String] *)

(** fmtFrac: the last [prec] digits of [v] as a fraction without trailing zeros, and
    the digits before them. *)
Fixpoint fmt_frac (prec : nat) (v : Z) (printing : bool) (acc : string) : string * Z :=
  match prec with
  | O => (if printing then String dot acc else acc, v)
  | S prec =>
      let digit := v mod 10 in
      let printing := printing || negb (digit =? 0) in
      fmt_frac prec (v / 10) printing (if printing then String (digit_char digit) acc else acc)
  end.

Definition micro_sign : string := of_bytes (utf8 [194; 181]%N).

Definition duration_string (d : duration) : string :=
  let u := Z.abs d in
  let with_frac prec unit :=
    let '(frac, v) := fmt_frac prec u false unit in itoa v +:+ frac in
  let text :=
    if d =? 0 then "0s"
    else if u <? 1000 then with_frac 0%nat "ns"
    else if u <? 1000000 then with_frac 3%nat (micro_sign +:+ "s")
    else if u <? second then with_frac 6%nat "ms"
    else
      let '(frac, v) := fmt_frac 9 u false "s" in
      let secs := itoa (v mod 60) +:+ frac in
      let v := v / 60 in
      if v =? 0 then secs else
      let mins := itoa (v mod 60) +:+ "m" +:+ secs in
      let v := v / 60 in
      if v =? 0 then mins else itoa v +:+ "h" +:+ mins in
  if d <? 0 then "-" +:+ text else text.

Example duration_strings :
  map duration_string [0; 5 * minute; 90 * minute; 1500000000; 1500; -2 * second; 2000000] =
  ["0s"; "5m0s"; "1h30m0s"; "1.5s"; "1.5" +:+ micro_sign +:+ "s"; "-2s"; "2ms"].
Proof. vm_compute. reflexivity. Qed.
