(* ===== verification/GoRegexp.v ===== *)
(** Regular expressions (package regexp), for patterns whose classes are ASCII: the match
    is decided by derivatives.  A rune outside ASCII is a sequence of bytes from 128 up,
    none of which is in an ASCII class and all of which are in the complement of one, so
    bytes give the answers of runes for the patterns of the program. *)
From S2P Require Import Prelude GoStrings.
From Stdlib Require Import Ascii.

Inductive regex :=
| Nothing
| Blank
| Class (p : ascii → bool)
| Cat (a b : regex)
| Or (a b : regex)
| Many (a : regex).

Declare Scope regex_scope.
Delimit Scope regex_scope with regex.
Infix "·" := Cat (at level 42, right associativity) : regex_scope.
Bind Scope regex_scope with regex.

(** The language of an expression *)
Inductive denotes : regex → list ascii → Prop :=
| d_blank : denotes Blank []
| d_class p c : p c = true → denotes (Class p) [c]
| d_cat a b l k : denotes a l → denotes b k → denotes (Cat a b) (l ++ k)
| d_left a b l : denotes a l → denotes (Or a b) l
| d_right a b l : denotes b l → denotes (Or a b) l
| d_none a : denotes (Many a) []
| d_more a l k : denotes a l → denotes (Many a) k → denotes (Many a) (l ++ k).
#[export] Hint Constructors denotes : wthr.

(** The matcher *)
Fixpoint nullable (r : regex) : bool :=
  match r with
  | Nothing | Class _ => false
  | Blank | Many _ => true
  | Cat a b => nullable a && nullable b
  | Or a b => nullable a || nullable b
  end.
Fixpoint deriv (c : ascii) (r : regex) : regex :=
  match r with
  | Nothing | Blank => Nothing
  | Class p => if p c then Blank else Nothing
  | Cat a b => if nullable a then Or (Cat (deriv c a) b) (deriv c b) else Cat (deriv c a) b
  | Or a b => Or (deriv c a) (deriv c b)
  | Many a => Cat (deriv c a) (Many a)
  end.
Fixpoint matcher (r : regex) (l : list ascii) : bool :=
  match l with [] => nullable r | c :: l => matcher (deriv c r) l end.

(** What the patterns of the program are made of *)
Definition just (c : ascii) : regex := Class (λ a, bool_decide (a = c)).
Definition optional (r : regex) : regex := Or r Blank.
Definition some (r : regex) : regex := Cat r (Many r).
Fixpoint at_least (n : nat) (r : regex) : regex :=
  match n with O => Many r | S n => Cat r (at_least n r) end.
Definition anything : regex := Many (Class (λ _, true)).

Definition between (lo hi : N) (c : ascii) : bool := bool_decide (lo ≤ code c ≤ hi)%N.
Definition in_az (c : ascii) : bool := between 97 122 c.
Definition in_AZ (c : ascii) : bool := between 65 90 c.
Definition in_09 (c : ascii) : bool := between 48 57 c.

(** MatchString of a pattern anchored at both ends, at the start, at the end, and at neither *)
Definition match_full (r : regex) (s : string) : bool := matcher r (bytes s).
Definition match_start (r : regex) (s : string) : bool := matcher (Cat r anything) (bytes s).
Definition match_end (r : regex) (s : string) : bool := matcher (Cat anything r) (bytes s).
Definition match_within (r : regex) (s : string) : bool := matcher (Cat anything (Cat r anything)) (bytes s).

(** * The matcher decides the language *)

Lemma nullable_spec r : nullable r = true ↔ denotes r [].
Proof.
  split.
  - induction r; cbn [nullable]; intros; try done; bool_facts; eauto with wthr.
    + change [] with ([] ++ [] : list ascii). eauto with wthr.
    + apply orb_true_iff in H as []; eauto with wthr.
  - remember [] as l eqn:E. induction 1; cbn [nullable]; try done.
    + apply app_nil in E as [-> ->]. by rewrite IHdenotes1, IHdenotes2.
    + by rewrite IHdenotes.
    + rewrite IHdenotes by done. apply orb_true_r.
Qed.

Lemma denotes_cat a b l : denotes (Cat a b) l ↔ ∃ l1 l2, l = l1 ++ l2 ∧ denotes a l1 ∧ denotes b l2.
Proof.
  split; [|intros (? & ? & -> & ? & ?); eauto with wthr].
  inversion 1; subst. eauto.
Qed.
Lemma denotes_or a b l : denotes (Or a b) l ↔ denotes a l ∨ denotes b l.
Proof. split; [inversion 1; auto|intros []; eauto with wthr]. Qed.
Lemma denotes_class p l : denotes (Class p) l ↔ ∃ c, l = [c] ∧ p c = true.
Proof. split; [inversion 1; eauto|intros (? & -> & ?); eauto with wthr]. Qed.
Lemma denotes_blank l : denotes Blank l ↔ l = [].
Proof. split; [by inversion 1|intros ->; eauto with wthr]. Qed.
Lemma denotes_nothing l : ¬ denotes Nothing l.
Proof. inversion 1. Qed.

(** A non-empty repetition starts with a non-empty round. *)
Lemma denotes_many_cons a c l :
  denotes (Many a) (c :: l) → ∃ l1 l2, l = l1 ++ l2 ∧ denotes a (c :: l1) ∧ denotes (Many a) l2.
Proof.
  remember (Many a) as r eqn:Er. remember (c :: l) as k eqn:Ek. intros H. revert a c l Er Ek.
  induction H as [| | | | | |a l k Ha _ Hm IH]; intros a' c' k' Er Ek; try discriminate.
  injection Er as <-. destruct l as [|d l]; [by eapply IH|].
  injection Ek as -> <-. by exists l, k.
Qed.

Lemma deriv_spec c r l : denotes (deriv c r) l ↔ denotes r (c :: l).
Proof.
  revert l. induction r as [| |p|a IHa b IHb|a IHa b IHb|a IHa]; intros l; cbn [deriv].
  - split; inversion 1.
  - split; inversion 1.
  - rewrite denotes_class. destruct (p c) eqn:E.
    + rewrite denotes_blank. split; [intros ->; eauto|by intros (? & [= -> ->] & _)].
    + split; [by intros ?%denotes_nothing|intros (? & [= <- ->] & ?); congruence].
  - assert (Hc : denotes (Cat (deriv c a) b) l ↔ ∃ l1 l2, l = l1 ++ l2 ∧ denotes a (c :: l1) ∧ denotes b l2).
    { rewrite denotes_cat. by setoid_rewrite IHa. }
    assert (H : denotes (Cat a b) (c :: l) ↔
      denotes (Cat (deriv c a) b) l ∨ (denotes a [] ∧ denotes (deriv c b) l)).
    { rewrite Hc, denotes_cat, IHb. split.
      - intros ([|d l1] & l2 & E & Ha & Hb); cbn in E; [by subst; right|].
        injection E as <- ->. left. eauto.
      - intros [(l1 & l2 & -> & Ha & Hb)|[Ha Hb]]; [by exists (c :: l1), l2|by exists [], (c :: l)]. }
    rewrite H. destruct (nullable a) eqn:N.
    + apply nullable_spec in N. rewrite denotes_or. tauto.
    + assert (¬ denotes a []) by (rewrite <-nullable_spec; congruence). tauto.
  - by rewrite !denotes_or, IHa, IHb.
  - rewrite denotes_cat. setoid_rewrite IHa. split; [|apply denotes_many_cons].
    intros (l1 & l2 & -> & ? & ?). change (c :: l1 ++ l2) with ((c :: l1) ++ l2). eauto with wthr.
Qed.

Theorem matcher_spec r l : matcher r l = true ↔ denotes r l.
Proof.
  revert r. induction l as [|c l IH]; intros r; cbn [matcher]; [apply nullable_spec|].
  by rewrite IH, deriv_spec.
Qed.

(** * The languages of the common shapes *)

Lemma denotes_many_class p l : denotes (Many (Class p)) l ↔ Forall (λ c, p c = true) l.
Proof.
  induction l as [|c l IH]; [split; [by constructor|eauto with wthr]|]. rewrite Forall_cons, <-IH. split.
  - intros (l1 & l2 & -> & (? & [= <- ->] & ?)%denotes_class & ?)%denotes_many_cons. done.
  - intros [Hc Hl]. change (c :: l) with ([c] ++ l). eauto with wthr.
Qed.
Lemma denotes_anything l : denotes anything l.
Proof. apply denotes_many_class. by apply Forall_true. Qed.
Lemma denotes_some_class p l : denotes (some (Class p)) l ↔ l ≠ [] ∧ Forall (λ c, p c = true) l.
Proof.
  unfold some. rewrite denotes_cat. setoid_rewrite denotes_class. setoid_rewrite denotes_many_class. split.
  - intros (? & l2 & -> & (c & -> & Hc) & Hl). split; [done|by constructor].
  - intros [Hne Hl]. destruct l as [|c l]; [done|]. apply Forall_cons in Hl as [Hc Hl]. exists [c], l. eauto.
Qed.
Lemma denotes_at_least n p l :
  denotes (at_least n (Class p)) l ↔ n ≤ length l ∧ Forall (λ c, p c = true) l.
Proof.
  revert l. induction n as [|n IH]; intros l; cbn [at_least].
  - rewrite denotes_many_class. split; [split; [lia|done]|tauto].
  - rewrite denotes_cat. setoid_rewrite denotes_class. setoid_rewrite IH. split.
    + intros (? & l2 & -> & (c & -> & Hc) & Hn & Hl). split; [cbn; lia|by constructor].
    + intros [Hn Hl]. destruct l as [|c l]; [cbn in Hn; lia|]. apply Forall_cons in Hl as [Hc Hl].
      exists [c], l. cbn in Hn. split_and!; eauto with lia.
Qed.
Lemma denotes_just c l : denotes (just c) l ↔ l = [c].
Proof.
  unfold just. rewrite denotes_class. setoid_rewrite bool_decide_eq_true.
  split; [by intros (? & -> & ->)|intros ->; eauto].
Qed.

Lemma match_within_class p s : match_within (Class p) s = true ↔ Exists (λ c, p c = true) (bytes s).
Proof.
  unfold match_within. rewrite matcher_spec, denotes_cat, Exists_exists. split.
  - intros (l1 & l2 & E & _ & (l3 & l4 & -> & (c & -> & Hc)%denotes_class & _)%denotes_cat).
    exists c. split; [|done]. rewrite E. apply elem_of_app. right. by left.
  - intros (c & (l1 & l2 & E)%list_elem_of_split & Hc). exists l1, (c :: l2). split_and!; [done|apply denotes_anything|].
    apply denotes_cat. exists [c], l2. split_and!; [done|by apply denotes_class; exists c|apply denotes_anything].
Qed.
Lemma match_start_class p s : match_start (Class p) s = true ↔ ∃ c, head (bytes s) = Some c ∧ p c = true.
Proof.
  unfold match_start. rewrite matcher_spec, denotes_cat. setoid_rewrite denotes_class. split.
  - intros (? & l2 & E & (c & -> & Hc) & _). exists c. by rewrite E.
  - intros (c & E & Hc). destruct (bytes s) as [|d l]; [done|]. injection E as ->.
    exists [c], l. split_and!; [done|eauto|apply denotes_anything].
Qed.
Lemma match_end_class p s : match_end (Class p) s = true ↔ ∃ c, last (bytes s) = Some c ∧ p c = true.
Proof.
  unfold match_end. rewrite matcher_spec, denotes_cat. setoid_rewrite denotes_class. split.
  - intros (l1 & ? & E & _ & (c & -> & Hc)). exists c. by rewrite E, last_snoc.
  - intros (c & (l & E)%last_Some & Hc). exists l, [c]. split_and!; [done|apply denotes_anything|eauto].
Qed.
