(* ===== verification/GoGlob.v ===== *)
(** Parts of Go's standard library that requests are matched with: utf8.DecodeRune,
    path.Match, and strings.EqualFold with a lower-case ASCII word. *)
From S2P Require Import Prelude GoStrings.
From Stdlib Require Import Ascii.
Open Scope Z_scope.

(** utf8.DecodeRuneInString: the rune and its width; an invalid encoding is one byte wide *)
Definition rune_error : Z := 65533.
Definition continues (lo hi : Z) (c : ascii) : option Z :=
  let n := Z.of_N (code c) in if (lo <=? n) && (n <=? hi) then Some (n - 128) else None.
Definition continuation : ascii → option Z := continues 128 191.
Definition two_bytes (n : Z) (l : list ascii) : option (Z * nat) :=
  match l with c :: _ => x ← continuation c; Some ((n - 192) * 64 + x, 2%nat) | _ => None end.
Definition three_bytes (n : Z) (l : list ascii) : option (Z * nat) :=
  match l with
  | c :: d :: _ =>
      x ← continues (if n =? 224 then 160 else 128) (if n =? 237 then 159 else 191) c; y ← continuation d;
      Some (((n - 224) * 64 + x) * 64 + y, 3%nat)
  | _ => None
  end.
Definition four_bytes (n : Z) (l : list ascii) : option (Z * nat) :=
  match l with
  | c :: d :: e :: _ =>
      x ← continues (if n =? 240 then 144 else 128) (if n =? 244 then 143 else 191) c; y ← continuation d; z ← continuation e;
      Some ((((n - 240) * 64 + x) * 64 + y) * 64 + z, 4%nat)
  | _ => None
  end.
Definition decode_rune (l : list ascii) : Z * nat :=
  match l with
  | [] => (rune_error, O)
  | c :: l =>
      let n := Z.of_N (code c) in
      if n <? 128 then (n, 1%nat)
      else default (rune_error, 1%nat)
        (if (194 <=? n) && (n <=? 223) then two_bytes n l
         else if (224 <=? n) && (n <=? 239) then three_bytes n l
         else if (240 <=? n) && (n <=? 244) then four_bytes n l
         else None)
  end.

(** * path.Match *)

Inductive term :=
| Star
| AnyRune
| OneOf (negated : bool) (ranges : list (Z * Z))
| Exactly (c : ascii).

Definition star_byte : ascii := byte 42.
Definition query_byte : ascii := byte 63.
Definition open_byte : ascii := byte 91.
Definition escape_byte : ascii := byte 92.
Definition close_byte : ascii := byte 93.
Definition caret_byte : ascii := byte 94.

(** getEsc: the next rune of a class, which something must follow *)
Definition get_esc (l : list ascii) : option (Z * list ascii) :=
  let go l :=
    let '(r, n) := decode_rune l in
    if ((r =? rune_error) && (n =? 1)%nat) then None
    else match drop n l with [] => None | rest => Some (r, rest) end in
  match l with
  | [] => None
  | c :: l' =>
      if bool_decide (c = dash) || bool_decide (c = close_byte) then None
      else if bool_decide (c = escape_byte) then match l' with [] => None | _ => go l' end
      else go l
  end.
(** The ranges of a class up to its bracket, at least one *)
Fixpoint class_ranges (fuel : nat) (seen : list (Z * Z)) (l : list ascii) : option (list (Z * Z) * list ascii) :=
  match fuel with
  | O => None
  | S fuel =>
      match l, seen with
      | c :: l', _ :: _ => if bool_decide (c = close_byte) then Some (seen, l') else
          '(lo, l) ← get_esc l;
          match l with
          | d :: l' => if bool_decide (d = dash) then '(hi, l) ← get_esc l'; class_ranges fuel (seen ++ [(lo, hi)]) l
                       else class_ranges fuel (seen ++ [(lo, lo)]) l
          | [] => None
          end
      | _, _ =>
          '(lo, l) ← get_esc l;
          match l with
          | d :: l' => if bool_decide (d = dash) then '(hi, l) ← get_esc l'; class_ranges fuel (seen ++ [(lo, hi)]) l
                       else class_ranges fuel (seen ++ [(lo, lo)]) l
          | [] => None
          end
      end
  end.
(** A pattern, unless it is malformed *)
Fixpoint parse_pattern (fuel : nat) (l : list ascii) : option (list term) :=
  match l with
  | [] => Some []
  | c :: l =>
      match fuel with
      | O => None
      | S fuel =>
          if bool_decide (c = star_byte) then cons Star <$> parse_pattern fuel l
          else if bool_decide (c = query_byte) then cons AnyRune <$> parse_pattern fuel l
          else if bool_decide (c = open_byte) then
            let '(neg, l) := match l with
              | d :: l' => if bool_decide (d = caret_byte) then (true, l') else (false, l)
              | [] => (false, l) end in
            '(ranges, rest) ← class_ranges fuel [] l; cons (OneOf neg ranges) <$> parse_pattern fuel rest
          else if bool_decide (c = escape_byte) then
            match l with [] => None | d :: l => cons (Exactly d) <$> parse_pattern fuel l end
          else cons (Exactly c) <$> parse_pattern fuel l
      end
  end.

(** The chunks of a pattern: whether stars come before, and the terms up to the next star *)
Fixpoint pattern_chunks (ts : list term) : list (bool * list term) :=
  match ts with
  | [] => []
  | Star :: ts =>
      match pattern_chunks ts with
      | (false, c) :: cs => (true, c) :: cs
      | [] => [(true, [])]
      | cs => cs
      end
  | t :: ts =>
      match pattern_chunks ts with
      | (false, c) :: cs => (false, t :: c) :: cs
      | cs => (false, [t]) :: cs
      end
  end.
(** matchChunk: what is left of the name *)
Fixpoint match_chunk (ts : list term) (s : list ascii) : option (list ascii) :=
  match ts, s with
  | [], _ => Some s
  | _, [] => None
  | Exactly c :: ts, d :: s' => if bool_decide (c = d) then match_chunk ts s' else None
  | AnyRune :: ts, d :: _ => if bool_decide (d = slash) then None else match_chunk ts (drop (decode_rune s).2 s)
  | OneOf neg ranges :: ts, _ =>
      let '(r, n) := decode_rune s in
      if Bool.eqb (existsb (λ '(lo, hi), (lo <=? r) && (r <=? hi)) ranges) neg then None else match_chunk ts (drop n s)
  | Star :: _, _ => None
  end.
(** The first place after the start, not beyond a slash, where the chunk fits *)
Fixpoint skip_to (ts : list term) (last : bool) (s : list ascii) : option (list ascii) :=
  match s with
  | [] => None
  | c :: s =>
      if bool_decide (c = slash) then None
      else match match_chunk ts s with
           | Some [] => Some []
           | Some t => if last then skip_to ts last s else Some t
           | None => skip_to ts last s
           end
  end.
Fixpoint match_chunks (cs : list (bool * list term)) (s : list ascii) : bool :=
  match cs with
  | [] => bool_decide (s = [])
  | (true, []) :: _ => negb (bool_decide (slash ∈ s))
  | (star, ts) :: cs =>
      let last := bool_decide (cs = []) in
      match match_chunk ts s with
      | Some [] => match_chunks cs []
      | Some t => if negb last then match_chunks cs t
                  else if star then match skip_to ts last s with Some t => match_chunks cs t | None => false end else false
      | None => if star then match skip_to ts last s with Some t => match_chunks cs t | None => false end else false
      end
  end.
(** path.Match; no answer when the pattern is malformed, which is also given for some
    malformed patterns to which Go answers that they do not match *)
Definition path_match (pattern name : string) : option bool :=
  (λ ts, match_chunks (pattern_chunks ts) (bytes name)) <$> parse_pattern (String.length pattern) (bytes pattern).

Example path_match_examples :
  path_match "*" "" = Some true ∧ path_match "*" "a/b" = Some false ∧ path_match "a*b*c" "a__bcbc" = Some true ∧
  path_match "a?c" "abc" = Some true ∧ path_match "[a-cx]*" "xyz" = Some true ∧ path_match "[^a-c]" "b" = Some false ∧
  path_match "[a" "a" = None ∧ path_match "\*" "*" = Some true ∧ path_match "a*" "ba" = Some false ∧
  path_match "*x" "axbx" = Some true ∧ path_match "[]a]" "a" = None.
Proof. vm_compute. split_and!; reflexivity. Qed.

(** What the program's own patterns are made of *)
Lemma path_match_star name : slash ∉ bytes name → path_match "*" name = Some true.
Proof.
  intros Hs. change (path_match "*" name) with (Some (negb (bool_decide (slash ∈ bytes name)))). by rewrite bool_decide_eq_false_2.
Qed.

Definition literal_byte (c : ascii) : bool := bool_decide (c ∉ [star_byte; query_byte; open_byte; escape_byte]).
Lemma parse_literal l n : (length l ≤ n)%nat → Forall (λ c, literal_byte c = true) l → parse_pattern n l = Some (map Exactly l).
Proof.
  revert n. induction l as [|c l IH]; intros n Hn HF; [by destruct n|]. destruct n as [|n]; cbn in Hn; [lia|].
  apply Forall_cons in HF as [Hc HF]. unfold literal_byte in Hc. apply bool_decide_eq_true in Hc. cbn [parse_pattern].
  rewrite !not_elem_of_cons in Hc. destruct Hc as (H1 & H2 & H3 & H4 & _). rewrite !bool_decide_eq_false_2 by done.
  rewrite IH by (done || lia). done.
Qed.
Lemma match_literal l s : match_chunk (map Exactly l) s = Some [] ↔ s = l.
Proof.
  revert s. induction l as [|c l IH]; intros s; cbn.
  - split; [by intros [= ->]|by intros ->].
  - destruct s as [|d s]; [done|]. case_bool_decide as E.
    + subst. rewrite IH. split; [by intros ->|by intros [=]].
    + split; [done|]. intros [= <- _]. done.
Qed.
Lemma path_match_literal p name : Forall (λ c, literal_byte c = true) (bytes p) →
  path_match p name = Some (str_eqb name p).
Proof.
  intros HF. unfold path_match. rewrite parse_literal by (rewrite ?length_bytes; done || lia). cbn. f_equal.
  assert (Hcs : pattern_chunks (map Exactly (bytes p)) = match bytes p with [] => [] | l => [(false, map Exactly l)] end).
  { clear HF. induction (bytes p) as [|c l IH]; [done|]. cbn [map pattern_chunks]. rewrite IH. by destruct l. }
  assert (Hb : ∀ n m : string, bytes n = bytes m → n = m) by (intros n m E; by rewrite <-(of_bytes_bytes n), <-(of_bytes_bytes m), E).
  rewrite Hcs. unfold str_eqb. clear Hcs HF. pose proof (match_literal (bytes p) (bytes name)) as M. destruct (bytes p) as [|c l] eqn:Ep.
  - cbn. apply bool_decide_ext. split; [intros E; apply Hb; by rewrite E, Ep|intros ->; by rewrite Ep].
  - assert (bool_decide (name = p) = bool_decide (bytes name = c :: l)) as ->.
    { apply bool_decide_ext. split; [by intros ->|]. intros E. apply Hb. by rewrite E, Ep. }
    set (ts := map Exactly (c :: l)) in *. cbn [match_chunks]. destruct (match_chunk ts (bytes name)) as [[|d t]|].
    + cbn. symmetry. apply bool_decide_eq_true. by apply M.
    + cbn. symmetry. apply bool_decide_eq_false. intros E. by apply M in E.
    + symmetry. apply bool_decide_eq_false. intros E. by apply M in E.
Qed.

(** * strings.EqualFold with a word of lower-case ASCII letters *)

(** Beside the two cases of a letter, the Kelvin sign folds to k and the long s to s. *)
Fixpoint folds_to (word l : list ascii) : bool :=
  match word with
  | [] => bool_decide (l = [])
  | c :: word =>
      match l with
      | d :: l1 =>
          (bool_decide (lower_byte d = c) && folds_to word l1) ||
          match l1 with
          | e :: l2 =>
              (bool_decide (c = byte 115 ∧ d = byte 197 ∧ e = byte 191) && folds_to word l2) ||
              match l2 with
              | f :: l3 => bool_decide (c = byte 107 ∧ d = byte 226 ∧ e = byte 132 ∧ f = byte 170) && folds_to word l3
              | [] => false
              end
          | [] => false
          end
      | [] => false
      end
  end.
Definition equal_fold (s word : string) : bool := folds_to (bytes word) (bytes s).
Example equal_fold_examples :
  equal_fold "WebSocket" "websocket" = true ∧ equal_fold "websockets" "websocket" = false ∧
  equal_fold (of_bytes (bytes "web" ++ utf8 [197; 191]%N ++ bytes "ocket")) "websocket" = true.
Proof. vm_compute. done. Qed.
