(* ===== verification/GoNet.v ===== *)
(** Addresses as package net has them: ParseIP, ParseCIDR, SplitHostPort and the tests on an
    IP.  An address is its sixteen octets; an IPv4 address is the mapped one, ::ffff:a.b.c.d,
    as net.ParseIP returns it. *)
From S2P Require Import Prelude GoStrings.
From Stdlib Require Import Ascii.
Open Scope Z_scope.

Definition ip := list Z.
Definition mapped_prefix : list Z := [0; 0; 0; 0; 0; 0; 0; 0; 0; 0; 255; 255].
Definition mapped (octets : list Z) : ip := mapped_prefix ++ octets.

(** ** netip.ParseAddr *)

Definition colon : ascii := byte 58.
Definition percent : ascii := byte 37.
Definition hex_value (c : ascii) : option Z :=
  let n := Z.of_N (code c) in
  if (48 <=? n) && (n <=? 57) then Some (n - 48)
  else if (97 <=? n) && (n <=? 102) then Some (n - 87)
  else if (65 <=? n) && (n <=? 70) then Some (n - 55) else None.

(** One field of a dotted address: digits, no leading zero, at most 255 *)
Fixpoint octet_go (len : nat) (acc : Z) (l : list ascii) : option Z :=
  match l with
  | [] => if (len =? 0)%nat then None else Some acc
  | c :: l =>
      match digit c with
      | None => None
      | Some d => if (len =? 1)%nat && (acc =? 0) then None
                  else let acc := acc * 10 + d in if 255 <? acc then None else octet_go (S len) acc l
      end
  end.
Definition octet (s : string) : option Z := octet_go 0 0 (bytes s).
(** parseIPv4Fields *)
Definition parse_ipv4 (s : string) : option (list Z) :=
  match split_byte s dot with [a; b; c; d] => mapM octet [a; b; c; d] | _ => None end.

(** The hexadecimal number that a group begins with: its digits, value and the rest; None
    for more than four digits *)
Fixpoint hex_group (len : nat) (acc : Z) (l : list ascii) : option (nat * Z * list ascii) :=
  match l with
  | [] => Some (len, acc, [])
  | c :: k =>
      match hex_value c with
      | None => Some (len, acc, l)
      | Some d => if (3 <? len)%nat then None else hex_group (S len) (acc * 16 + d) k
      end
  end.
(** parseIPv6 behind its zone and leading ellipsis: the octets read so far and where the
    ellipsis is among them.  A turn reads a group, so seventeen octets are never exceeded. *)
Fixpoint ipv6_groups (fuel : nat) (out : list Z) (ellipsis : option nat) (l : list ascii)
  : option (list Z * option nat * list ascii) :=
  match fuel with
  | O => Some (out, ellipsis, l)
  | S fuel =>
      if (16 <=? length out)%nat then Some (out, ellipsis, l)
      else match hex_group 0 0 l with
      | None | Some (O, _, _) => None
      | Some (_, acc, k) =>
          match k with
          | [] => Some (out ++ [acc / 256; acc mod 256], ellipsis, [])
          | c :: k' =>
              if decide (c = dot) then
                if negb (bool_decide (is_Some ellipsis)) && negb (length out =? 12)%nat then None
                else if (16 <? length out + 4)%nat then None
                else match parse_ipv4 (of_bytes l) with
                     | None => None
                     | Some v4 => Some (out ++ v4, ellipsis, [])
                     end
              else if decide (c = colon) then
                let out := out ++ [acc / 256; acc mod 256] in
                match k' with
                | [] => None
                | c' :: k'' =>
                    if decide (c' = colon) then
                      match ellipsis with
                      | Some _ => None
                      | None => match k'' with
                                | [] => Some (out, Some (length out), [])
                                | _ => ipv6_groups fuel out (Some (length out)) k''
                                end
                      end
                    else ipv6_groups fuel out ellipsis k'
                end
              else None
          end
      end
  end.
(** The ellipsis is widened to as many zeros as are missing, at least one octet of them. *)
Definition expand (out : list Z) (ellipsis : option nat) : option ip :=
  if (length out <? 16)%nat then
    match ellipsis with
    | None => None
    | Some e => Some (take e out ++ replicate (16 - length out) 0 ++ drop e out)
    end
  else match ellipsis with Some _ => None | None => Some out end.
Definition parse_ipv6 (s : string) : option (ip * string) :=
  match cut_byte s percent with
  | (_, Some "") => None
  | (s, zone) =>
      let zone := default "" zone in
      match bytes s with
      | [a; b] => if decide (a = colon ∧ b = colon) then Some (replicate 16 0, zone)
                  else match ipv6_groups 9 [] None (bytes s) with
                       | Some (out, e, []) => (λ a, (a, zone)) <$> expand out e
                       | _ => None
                       end
      | a :: b :: l =>
          match (if decide (a = colon ∧ b = colon) then ipv6_groups 9 [] (Some 0%nat) l else ipv6_groups 9 [] None (bytes s)) with
          | Some (out, e, []) => (λ a, (a, zone)) <$> expand out e
          | _ => None
          end
      | _ => None
      end
  end.
(** The first dot, colon or percent sign decides; the flag says whether it is an IPv4 address. *)
Fixpoint parse_addr_go (s : string) (l : list ascii) : option (ip * string * bool) :=
  match l with
  | [] => None
  | c :: l =>
      if decide (c = dot) then (λ a, (mapped a, "", true)) <$> parse_ipv4 s
      else if decide (c = colon) then (λ p, (p.1, p.2, false)) <$> parse_ipv6 s
      else if decide (c = percent) then None else parse_addr_go s l
  end.
Definition parse_addr (s : string) : option (ip * string * bool) := parse_addr_go s (bytes s).
(** net.ParseIP: no zone *)
Definition parse_ip (s : string) : option ip :=
  match parse_addr s with Some (a, "", _) => Some a | _ => None end.

(** ** Tests on an address *)

Definition to4 (a : ip) : option (list Z) :=
  if bool_decide (take 12 a = mapped_prefix) then Some (drop 12 a) else None.
Definition is_loopback (a : ip) : bool :=
  match to4 a with
  | Some l => match l with x :: _ => x =? 127 | [] => false end
  | None => bool_decide (a = replicate 15 0 ++ [1])
  end.
Definition is_unspecified (a : ip) : bool := bool_decide (a = mapped [0; 0; 0; 0] ∨ a = replicate 16 0).

(** ** net.ParseCIDR and IPNet.Contains *)

(** The network number, four or sixteen octets, and as many of the mask *)
Record ip_net := IpNet { net_number : list Z; net_mask : list Z }.
Definition mask_octet (n : Z) : Z := if n <=? 0 then 0 else if 8 <=? n then 255 else 256 - 2 ^ (8 - n).
Definition cidr_mask (ones : Z) (len : nat) : list Z := map (λ i, mask_octet (ones - 8 * Z.of_nat i)) (seq 0 len).
Definition mask_with (m a : list Z) : list Z := zip_with Z.land a m.
Definition parse_cidr (s : string) : option ip_net :=
  match cut_byte s slash with
  | (addr, Some m) =>
      match parse_addr addr with
      | Some (a, "", v4) =>
          let bits := if v4 then 32 else 128 in
          match digits (bytes m) with
          | Some n =>
              if is_empty m || (bits <? n) then None
              else if v4 then Some (IpNet (mask_with (cidr_mask n 4) (drop 12 a)) (cidr_mask n 4))
              else let number := mask_with (cidr_mask n 16) a in
                   match to4 number with
                   | Some l => Some (IpNet l (drop 12 (cidr_mask n 16)))
                   | None => Some (IpNet number (cidr_mask n 16))
                   end
          | None => None
          end
      | _ => None
      end
  | _ => None
  end.
Definition net_contains (n : ip_net) (a : ip) : bool :=
  let a := default a (to4 a) in
  (length a =? length (net_number n))%nat && bool_decide (mask_with (net_mask n) (net_number n) = mask_with (net_mask n) a).

(** ** net.SplitHostPort: the host and the port *)

Definition split_host_port (s : string) : option (string * string) :=
  let l := bytes s in
  match cut_byte (str_rev s) colon with
  | (_, None) => None
  | (port, Some host) =>
      let port := str_rev port in
      let host := str_rev host in
      match l with
      | c :: rest =>
          if decide (c = byte 91) then
            match cut_byte (of_bytes rest) (byte 93) with
            | (_, None) => None
            | (inner, Some after) =>
                if str_eqb after (String colon port) && negb (contains_byte inner (byte 91)) && negb (contains_byte after (byte 91))
                   && negb (contains_byte after (byte 93))
                then Some (inner, port) else None
            end
          else if contains_byte host colon || contains_byte s (byte 91) || contains_byte s (byte 93) then None
          else Some (host, port)
      | [] => None
      end
  end.

(** ** Examples *)

Example parse_ip_examples :
  parse_ip "192.168.1.7" = Some (mapped [192; 168; 1; 7]) ∧ parse_ip "192.168.01.7" = None ∧ parse_ip "1.2.3" = None ∧
  parse_ip "256.1.1.1" = None ∧ parse_ip "::" = Some (replicate 16 0) ∧ parse_ip "::1" = Some (replicate 15 0 ++ [1]) ∧
  parse_ip "fe80::1%eth0" = None ∧ parse_ip "1::" = Some ([0; 1] ++ replicate 14 0) ∧
  parse_ip "2001:db8::a:0:1" = Some [32; 1; 13; 184; 0; 0; 0; 0; 0; 0; 0; 10; 0; 0; 0; 1] ∧
  parse_ip "::ffff:10.0.0.1" = Some (mapped [10; 0; 0; 1]) ∧ parse_ip "1:2:3:4:5:6:7::8" = None ∧ parse_ip "1:2" = None ∧
  parse_ip ":1::" = None ∧ parse_ip "1:" = None ∧ parse_ip "12345::" = None ∧ parse_ip "1:2:3:4:5:6:1.2.3.4" = Some [0; 1; 0; 2; 0; 3; 0; 4; 0; 5; 0; 6; 1; 2; 3; 4].
Proof. vm_compute. done. Qed.
Example parse_cidr_examples :
  parse_cidr "172.16.5.4/12" = Some (IpNet [172; 16; 0; 0] [255; 240; 0; 0]) ∧ parse_cidr "10.0.0.0/33" = None ∧
  parse_cidr "10.0.0.0/" = None ∧ parse_cidr "::ffff:0:0/96" = Some (IpNet [0; 0; 0; 0] [0; 0; 0; 0]) ∧ parse_cidr "10.0.0.0" = None.
Proof. vm_compute. done. Qed.
Example split_host_port_examples :
  split_host_port "10.0.0.1:80" = Some ("10.0.0.1", "80") ∧ split_host_port "[::1]:80" = Some ("::1", "80") ∧ split_host_port "::1:80" = None ∧
  split_host_port "[::1]" = None ∧ split_host_port "host" = None ∧ split_host_port "[fe80::1%eth0]:9" = Some ("fe80::1%eth0", "9") ∧
  split_host_port ":80" = Some ("", "80") ∧ split_host_port "[::1]:8[0" = None ∧ split_host_port "[a:80" = None.
Proof. vm_compute. done. Qed.

(** * An address is sixteen octets *)

Definition octets_ok (n : nat) (l : list Z) : Prop := length l = n ∧ Forall (λ x, 0 ≤ x ≤ 255) l.

Lemma digit_range c d : digit c = Some d → 0 ≤ d ≤ 9.
Proof. unfold digit. repeat case_match; intros; simplify_eq; bool_facts; lia. Qed.
Lemma octet_go_range l len acc x : 0 ≤ acc ≤ 255 → octet_go len acc l = Some x → 0 ≤ x ≤ 255.
Proof.
  revert len acc. induction l as [|c l IH]; intros len acc Ha; cbn [octet_go].
  - destruct (len =? 0)%nat; [done|]. by intros [= <-].
  - destruct (digit c) as [d|] eqn:D; [|done]. apply digit_range in D. destruct (_ && _); [done|].
    destruct (255 <? acc * 10 + d) eqn:L; [done|]. apply IH. bool_facts. lia.
Qed.
Lemma parse_ipv4_octets s l : parse_ipv4 s = Some l → octets_ok 4 l.
Proof.
  unfold parse_ipv4. destruct (split_byte s dot) as [|a [|b [|c [|d [|]]]]]; try done. intros E.
  apply mapM_Some in E. split; [by apply Forall2_length in E|].
  apply Forall_forall. intros x Hx. apply list_elem_of_lookup in Hx as [i Hi].
  destruct (Forall2_lookup_r _ _ _ _ _ E Hi) as (w & _ & Hw). by apply octet_go_range in Hw.
Qed.
Lemma hex_value_range c d : hex_value c = Some d → 0 ≤ d ≤ 15.
Proof. unfold hex_value. intros E. repeat case_match; simplify_eq; bool_facts; lia. Qed.
Lemma hex_group_range l len acc n x k : (len ≤ 4)%nat → 0 ≤ acc < 16 ^ Z.of_nat len → hex_group len acc l = Some (n, x, k) → 0 ≤ x < 65536.
Proof.
  revert len acc. induction l as [|c l IH]; intros len acc Hl Ha; cbn [hex_group].
  - intros [= <- <- <-]. pose proof (Z.pow_le_mono_r 16 (Z.of_nat len) 4). lia.
  - destruct (hex_value c) as [d|] eqn:D.
    + apply hex_value_range in D. destruct (3 <? len)%nat eqn:L; [done|]. apply Nat.ltb_ge in L. apply IH; [lia|].
      rewrite Nat2Z.inj_succ, Z.pow_succ_r by lia. lia.
    + intros [= <- <- <-]. pose proof (Z.pow_le_mono_r 16 (Z.of_nat len) 4). lia.
Qed.

Lemma octets_app l k n m : octets_ok n l → octets_ok m k → octets_ok (n + m) (l ++ k).
Proof. intros [Hl Fl] [Hk Fk]. split; [rewrite length_app; lia|by apply Forall_app]. Qed.
Lemma group_octets x : 0 ≤ x < 65536 → octets_ok 2 [x / 256; x mod 256].
Proof. intros Hx. split; [done|]. repeat constructor; zlia. Qed.

(** Octets come in pairs or as a whole IPv4 address, and the ellipsis lies among them. *)
Definition groups_ok (out : list Z) (e : option nat) : Prop :=
  (length out ≤ 16)%nat ∧ Forall (λ x, 0 ≤ x ≤ 255) out ∧ ∀ i, e = Some i → (i ≤ length out)%nat.
Lemma groups_app out e k : groups_ok out e → octets_ok (length k) k → (length out + length k ≤ 16)%nat → groups_ok (out ++ k) e.
Proof.
  intros (Hl & Hf & He) [_ Hk] Hle. split_and!; [rewrite length_app; lia|by apply Forall_app|].
  intros i Hi. apply He in Hi. rewrite length_app. lia.
Qed.
Lemma ipv6_groups_ok fuel out e l out' e' l' : groups_ok out e → Nat.Even (length out) →
  ipv6_groups fuel out e l = Some (out', e', l') → groups_ok out' e'.
Proof.
  revert out e l. induction fuel as [|fuel IH]; intros out e l Hok Hev; cbn [ipv6_groups]; [by intros [= <- <- <-]|].
  destruct (16 <=? length out)%nat eqn:L; [by intros [= <- <- <-]|]. apply Nat.leb_gt in L.
  destruct (hex_group 0 0 l) as [[[[|n] acc] k]|] eqn:G; [done| |done]. apply hex_group_range in G; [|lia|cbn; lia].
  assert (Hroom : (length out + 2 ≤ 16)%nat) by (destruct Hev as [m Hm]; lia).
  pose proof (groups_app out e [acc / 256; acc mod 256] Hok (group_octets _ G) Hroom) as Hok2.
  assert (Hev2 : Nat.Even (length (out ++ [acc / 256; acc mod 256]))).
  { rewrite length_app. apply Nat.Even_Even_add; [done|by exists 1%nat]. }
  destruct k as [|c k]; [by intros [= <- <- <-]|].
  destruct (decide (c = dot)) as [_|_].
  - destruct (_ && _); [done|]. destruct (16 <? length out + 4)%nat eqn:L4; [done|]. apply Nat.ltb_ge in L4.
    destruct (parse_ipv4 _) as [v4|] eqn:P; [|done]. apply parse_ipv4_octets in P as [P4 P]. intros [= <- <- <-].
    apply groups_app; [done|by split|lia].
  - destruct (decide (c = colon)) as [_|_]; [|done]. destruct k as [|c' k]; [done|]. destruct (decide (c' = colon)) as [_|_].
    + destruct e as [i|]; [done|].
      assert (Hok3 : groups_ok (out ++ [acc / 256; acc mod 256]) (Some (length (out ++ [acc / 256; acc mod 256])))).
      { destruct Hok2 as (H1 & H2 & _). split_and!; [done..|]. by intros i [= <-]. }
      destruct k as [|c'' k]; [by intros [= <- <- <-]|]. by apply IH.
    + by apply IH.
Qed.
Lemma expand_octets out e a : groups_ok out e → expand out e = Some a → octets_ok 16 a.
Proof.
  intros (Hl & Hf & He). unfold expand. destruct (length out <? 16)%nat eqn:L.
  - destruct e as [i|]; [|done]. intros [= <-]. specialize (He i eq_refl). split.
    + rewrite !length_app, length_take, length_drop, length_replicate. lia.
    + rewrite <-(take_drop i out), Forall_app in Hf. destruct Hf as [H1 H2]. rewrite !Forall_app. split_and!; [done| |done].
      apply Forall_replicate. lia.
  - destruct e; [done|]. intros [= <-]. apply Nat.ltb_ge in L. split; [lia|done].
Qed.

Lemma parse_ipv6_octets s a z : parse_ipv6 s = Some (a, z) → octets_ok 16 a.
Proof.
  assert (Hnil : ∀ e, (∀ i, e = Some i → i = 0%nat) → groups_ok [] e).
  { intros e He. split_and!; [cbn; lia|constructor|]. by intros i ->%He. }
  assert (Hgo : ∀ e l z', (∀ i, e = Some i → i = 0%nat) →
    match ipv6_groups 9 [] e l with Some (out, e, []) => (λ a, (a, z')) <$> expand out e | _ => None end = Some (a, z) → octets_ok 16 a).
  { intros e l z' He. destruct (ipv6_groups 9 [] e l) as [[[out e'] [|]]|] eqn:G; try done.
    apply ipv6_groups_ok in G; [|by apply Hnil|by exists 0%nat]. destruct (expand out e') eqn:X; [|done]. intros [= <- _].
    by apply expand_octets in X. }
  unfold parse_ipv6. destruct (cut_byte s percent) as [s' zone]. destruct zone as [[|c w]|]; [done| |];
    destruct (bytes s') as [|x [|y [|c' l]]] eqn:B; try done; case_decide; (apply Hgo || (intros [= <- _]; split; [done|repeat constructor; lia])); try done;
    by intros i [= <-].
Qed.
Lemma mapped_octets l : octets_ok 4 l → octets_ok 16 (mapped l).
Proof. apply (octets_app mapped_prefix l 12 4). split; [done|]. repeat constructor; lia. Qed.
Lemma parse_ip_octets s a : parse_ip s = Some a → octets_ok 16 a.
Proof.
  unfold parse_ip, parse_addr. generalize (bytes s). intros l E. induction l as [|c l IH]; cbn [parse_addr_go] in E; [done|].
  case_decide; [|case_decide; [|case_decide; [done|by apply IH]]].
  - destruct (parse_ipv4 s) as [v|] eqn:P; [|done]. injection E as <-. by apply mapped_octets, (parse_ipv4_octets s).
  - destruct (parse_ipv6 s) as [[b z]|] eqn:P; [|done]. cbn in E. destruct z; [|done]. injection E as <-. by apply parse_ipv6_octets in P.
Qed.
