(* ===== verification/Sql.v ===== *)
(** The database the components talk to (src/database): an interface, not an
    engine.  A world [W] holds the tables [T] a component reads and writes; one SQL
    statement is an atomic function of those tables that either takes effect or
    fails with a driver error and leaves them as they were.  Components are written
    and proved against the class; [faulty], the instance with an arbitrary schedule
    of failures, is what the witnesses run. *)
From S2P Require Import Prelude.

Class Database (W T : Type) := {
  tables : W → T;
  exec : ∀ {A}, (T → A * T) → W → option A * W
}.
Arguments exec {W T _ A} f w : simpl never.

Class DatabaseLaws (W T : Type) `{!Database W T} := {
  exec_ok : ∀ A (f : T → A * T) w a w',
    exec f w = (Some a, w') → f (tables w) = (a, tables w');
  exec_fail : ∀ A (f : T → A * T) w w',
    exec f w = (None, w') → tables w' = tables w
}.

(** A query reads the tables and does not change them. *)
Definition query {W T A} `{Database W T} (f : T → A) (w : W) : option A * W :=
  exec (λ t, (f t, t)) w.

Section laws.
Context `{DatabaseLaws W T}.

(** What a statement did, in one case analysis. *)
Lemma exec_cases A (f : T → A * T) w :
  (∃ a w', exec f w = (Some a, w') ∧ f (tables w) = (a, tables w')) ∨
  (∃ w', exec f w = (None, w') ∧ tables w' = tables w).
Proof.
  destruct (exec f w) as [[a|] w'] eqn:E; [left|right].
  - exists a, w'. split; [done|]. by apply exec_ok.
  - exists w'. split; [done|]. by eapply exec_fail.
Qed.

Lemma query_cases A (f : T → A) w :
  (∃ w', query f w = (Some (f (tables w)), w') ∧ tables w' = tables w) ∨
  (∃ w', query f w = (None, w') ∧ tables w' = tables w).
Proof.
  unfold query.
  destruct (exec_cases _ (λ t, (f t, t)) w) as [(a & w' & E & Ht)|(w' & E & Ht)]; [left|right].
  - exists w'. injection Ht as <- Ht. by rewrite E.
  - by exists w'.
Qed.
End laws.

(** A database none of whose statements fails. *)
Definition never_fails (W T : Type) `{Database W T} : Prop :=
  ∀ A (f : T → A * T) w w', exec f w ≠ (None, w').

Lemma exec_up `{DatabaseLaws W T} A (f : T → A * T) w :
  never_fails W T → ∃ a w', exec f w = (Some a, w') ∧ f (tables w) = (a, tables w').
Proof.
  intros Hup. destruct (exec_cases _ f w) as [|(w' & E & _)]; [done|]. by apply Hup in E.
Qed.

(** Case analysis on the next statement of the goal or of a hypothesis. *)
Ltac exec_case w' E Ht :=
  match goal with
  | |- context [exec ?f ?w] =>
      destruct (exec_cases _ f w) as [(? & w' & E & Ht)|(w' & E & Ht)]; rewrite E
  | |- context [query ?f ?w] =>
      destruct (query_cases _ f w) as [(w' & E & Ht)|(w' & E & Ht)]; rewrite E
  end.

(** * The instance: tables with a schedule of failures *)

Record faulty (T : Type) := Faulty { f_tables : T; f_schedule : list bool }.
Arguments Faulty {T} _ _.
Arguments f_tables {T} _.
Arguments f_schedule {T} _.

#[export] Instance faulty_database T : Database (faulty T) T := {
  tables := f_tables;
  exec A f w :=
    match f_schedule w with
    | true :: s => (None, Faulty (f_tables w) s)
    | s => let '(a, t) := f (f_tables w) in (Some a, Faulty t (tail s))
    end
}.

#[export] Instance faulty_database_laws T : DatabaseLaws (faulty T) T.
Proof.
  split; intros A f [t s] *; unfold exec; simpl;
    destruct s as [|[] s]; try destruct (f t) as [a0 t0] eqn:E; intros; by simplify_eq/=.
Qed.

(** A world none of whose statements fails. *)
Definition sound {T} (t : T) : faulty T := Faulty t [].

(** * The instance that never fails *)

Record reliable (T : Type) := Reliable { r_tables : T }.
Arguments Reliable {T} _.
Arguments r_tables {T} _.

#[export] Instance reliable_database T : Database (reliable T) T := {
  tables := r_tables;
  exec A f w := let '(a, t) := f (r_tables w) in (Some a, Reliable t)
}.

#[export] Instance reliable_database_laws T : DatabaseLaws (reliable T) T.
Proof.
  split; intros A f [t] *; unfold exec; simpl; destruct (f t); intros; by simplify_eq/=.
Qed.

Lemma reliable_tables {T} (t : T) : tables (Reliable t) = t.
Proof. done. Qed.
Lemma reliable_never_fails T : never_fails (reliable T) T.
Proof. intros A f [t] w'. unfold exec; simpl. by destruct (f t). Qed.

(** * A table inside a larger database *)

(** A statement on one component of the tables is a statement on all of them. *)
Section Lens.
Context {W T U : Type} `{Database W T} (get : T → U) (put : U → T → T).

Definition on_part {A} (f : U → A * U) (t : T) : A * T :=
  let '(a, u) := f (get t) in (a, put u t).

Definition part_database : Database W U := {|
  tables w := get (tables w);
  exec A f w := exec (on_part f) w
|}.

Definition part_laws (get_put : ∀ u t, get (put u t) = u) `{!DatabaseLaws W T} :
  @DatabaseLaws W U part_database.
Proof.
  split; intros A f w.
  - intros a w' E. change (exec (on_part f) w = (Some a, w')) in E. apply exec_ok in E. unfold on_part in E.
    change (f (get (tables w)) = (a, get (tables w'))).
    destruct (f (get (tables w))) as [a0 u]. injection E as <- <-. by rewrite get_put.
  - intros w' E. change (exec (on_part f) w = (None, w')) in E. apply exec_fail in E.
    change (get (tables w') = get (tables w)). by rewrite E.
Defined.
End Lens.

(** * ORDER BY: some arrangement of the rows in the engine's order of the column *)

Class OrderBy {R} (le : R → R → bool) (order : list R → list R) : Prop := {
  order_perm : ∀ l, order l ≡ₚ l;
  order_sorted : ∀ l, StronglySorted (λ a b, le a b = true) (order l)
}.
