(* ===== verification/DbTime.v ===== *)
(** src/common/dbtime/dbtime.go: the one place where SQL timestamps are written,
    read back and compared.  [time.Parse] is modelled for the layout elements the
    project's layouts use, with the package's own rules (optional leading zeros of
    the hour, fractions after the seconds, numeric zones, zone names). *)
From S2P Require Import Prelude GoStrings GoTime Sql.
From Stdlib Require Import Ascii.

Open Scope Z_scope.

(** * time.Parse *)

Inductive layout_elem :=
| LongYear | ZeroMonth | ZeroDay | Hour24 | ZeroMinute | ZeroSecond
| Frac9 | NumTZ | NumColonTZ | ISOColonTZ | TZName
| Lit (l : list ascii).

Record fields_acc := Fields {
  a_year : Z; a_month : Z; a_day : Z; a_hour : Z; a_min : Z; a_sec : Z; a_nsec : Z;
  a_utc : bool; a_offset : option Z }.
Definition no_fields : fields_acc := Fields 0 (-1) (-1) 0 0 0 0 false None.

Definition is_digit (c : ascii) : bool := bool_decide (is_Some (digit c)).

(** getnum *)
Definition getnum (l : list ascii) (fixed : bool) : option (Z * list ascii) :=
  match l with
  | c :: l1 =>
      d ← digit c;
      match l1 with
      | c2 :: l2 =>
          match digit c2 with
          | Some d2 => Some (10 * d + d2, l2)
          | None => if fixed then None else Some (d, l1)
          end
      | [] => if fixed then None else Some (d, l1)
      end
  | [] => None
  end.

(** skip: the literal text between two elements, in which a space matches any
    run of spaces. *)
Definition cutspace (l : list ascii) : list ascii :=
  drop_while (λ c, bool_decide (c = space)) l.
Fixpoint skip (fuel : nat) (l p : list ascii) : option (list ascii) :=
  match p, fuel with
  | [], _ => Some l
  | _, O => None
  | c :: p', S fuel =>
      if decide (c = space) then
        match l with
        | d :: _ => if decide (d = space) then skip fuel (cutspace l) (cutspace p) else None
        | [] => skip fuel l (cutspace p)
        end
      else match l with
           | d :: l' => if decide (d = c) then skip fuel l' p' else None
           | [] => None
           end
  end.

Fixpoint span_digits (l : list ascii) : list ascii * list ascii :=
  match l with
  | c :: l' => if is_digit c then let '(ds, rest) := span_digits l' in (c :: ds, rest)
               else ([], l)
  | [] => ([], [])
  end.

Definition comma_or_period (c : ascii) : bool :=
  bool_decide (c = dot) || bool_decide (c = comma).

(** parseNanoseconds, on the digits after the separator: at most nine count. *)
Definition nanoseconds (ds : list ascii) : option Z :=
  let ds := take 9 ds in
  n ← digits ds; Some (n * 10 ^ (9 - Z.of_nat (length ds))).

(** The fraction of a second that follows the seconds. *)
Definition fraction (l : list ascii) : option (option Z * list ascii) :=
  match l with
  | c :: l1 =>
      if comma_or_period c then
        let '(ds, rest) := span_digits l1 in
        match ds with
        | [] => Some (None, l)
        | _ => n ← nanoseconds ds; Some (Some n, rest)
        end
      else Some (None, l)
  | [] => Some (None, l)
  end.

(** A numeric zone: its sign, two-digit hours and minutes. *)
Definition zone_offset (sign : ascii) (hh mm : list ascii) : option Z :=
  '(h, _) ← getnum hh true;
  '(m, _) ← getnum mm true;
  if (24 <? h) || (60 <? m) then None
  else if decide (sign = byte 43) then Some ((h * 60 + m) * 60)
  else if decide (sign = byte 45) then Some (- ((h * 60 + m) * 60))
  else None.

(** parseSignedOffset: the length it consumes. *)
Definition signed_offset (l : list ascii) : nat :=
  match l with
  | c :: l1 =>
      if decide (c = byte 43 ∨ c = byte 45) then
        let '(ds, _) := span_digits l1 in
        match digits ds with
        | Some x => if 23 <? x then 0%nat else S (length ds)
        | None => 0%nat
        end
      else 0%nat
  | [] => 0%nat
  end.

Fixpoint count_upper (n : nat) (l : list ascii) : nat :=
  match n, l with
  | S n, c :: l' => if bool_decide (65 ≤ code c ∧ code c ≤ 90)%N then S (count_upper n l') else 0
  | _, _ => 0%nat
  end.

(** parseTimeZone: the length of the zone abbreviation, 0 when there is none. *)
Definition zone_name (l : list ascii) : nat :=
  if bool_decide (length l < 3)%nat then 0%nat
  else if bool_decide (take 4 l = bytes "ChST" ∨ take 4 l = bytes "MeST") then 4%nat
  else if bool_decide (take 3 l = bytes "GMT") then (3 + signed_offset (drop 3 l))%nat
  else match l with
  | c :: _ =>
      if decide (c = byte 43 ∨ c = byte 45) then signed_offset l else
      match count_upper 6 l with
      | 5%nat => if bool_decide (l !! 4%nat = Some (byte 84)) then 5%nat else 0%nat
      | 4%nat => if bool_decide (l !! 3%nat = Some (byte 84) ∨ take 4 l = bytes "WITA")
                 then 4%nat else 0%nat
      | 3%nat => 3%nat
      | _ => 0%nat
      end
  | [] => 0%nat
  end.

Definition parse_elem (e : layout_elem) (next_is_frac : bool) (l : list ascii) (a : fields_acc)
  : option (fields_acc * list ascii) :=
  let '(Fields y mo d h mi s ns u off) := a in
  match e with
  | LongYear =>
      if bool_decide (length l < 4)%nat then None
      else y' ← digits (take 4 l); Some (Fields y' mo d h mi s ns u off, drop 4 l)
  | ZeroMonth =>
      '(n, r) ← getnum l true;
      if (n <=? 0) || (12 <? n) then None else Some (Fields y n d h mi s ns u off, r)
  | ZeroDay => '(n, r) ← getnum l true; Some (Fields y mo n h mi s ns u off, r)
  | Hour24 =>
      '(n, r) ← getnum l false;
      if 24 <=? n then None else Some (Fields y mo d n mi s ns u off, r)
  | ZeroMinute =>
      '(n, r) ← getnum l true;
      if 60 <=? n then None else Some (Fields y mo d h n s ns u off, r)
  | ZeroSecond =>
      '(n, r) ← getnum l true;
      if 60 <=? n then None
      else if next_is_frac then Some (Fields y mo d h mi n ns u off, r)
      else '(f, r') ← fraction r;
           Some (Fields y mo d h mi n (default ns f) u off, r')
  | Frac9 => '(f, r) ← fraction l; Some (Fields y mo d h mi s (default ns f) u off, r)
  | NumTZ =>
      match l with
      | sg :: h1 :: h2 :: m1 :: m2 :: r =>
          o ← zone_offset sg [h1; h2] [m1; m2]; Some (Fields y mo d h mi s ns u (Some o), r)
      | _ => None
      end
  | NumColonTZ =>
      match l with
      | sg :: h1 :: h2 :: c :: m1 :: m2 :: r =>
          if decide (c = byte 58) then
            o ← zone_offset sg [h1; h2] [m1; m2]; Some (Fields y mo d h mi s ns u (Some o), r)
          else None
      | _ => None
      end
  | ISOColonTZ =>
      match l with
      | z :: r0 =>
          if decide (z = byte 90) then Some (Fields y mo d h mi s ns true off, r0)
          else match l with
          | sg :: h1 :: h2 :: c :: m1 :: m2 :: r =>
              if decide (c = byte 58) then
                o ← zone_offset sg [h1; h2] [m1; m2];
                Some (Fields y mo d h mi s ns u (Some o), r)
              else None
          | _ => None
          end
      | [] => None
      end
  | TZName =>
      if bool_decide (take 3 l = bytes "UTC")
      then Some (Fields y mo d h mi s ns true off, drop 3 l)
      else match zone_name l with
           | O => None
           | n => Some (a, drop n l)
           end
  | Lit p => r ← skip (length p) l p; Some (a, r)
  end.

Fixpoint parse_layout (lay : list layout_elem) (l : list ascii) (a : fields_acc)
  : option fields_acc :=
  match lay with
  | [] => match l with [] => Some a | _ => None end
  | e :: lay' =>
      let nf := match lay' with Frac9 :: _ => true | _ => false end in
      '(a', l') ← parse_elem e nf l a; parse_layout lay' l' a'
  end.

(** The instant the fields denote: the day is validated, then the zone applied
    (an explicit UTC marker wins over a numeric offset). *)
Definition instant_of (a : fields_acc) : option instant :=
  let mo := if a_month a <? 0 then 1 else a_month a in
  let d := if a_day a <? 0 then 1 else a_day a in
  if (d <? 1) || (days_in mo (a_year a) <? d) then None else
  let t := date_utc (a_year a) mo d (a_hour a) (a_min a) (a_sec a) (a_nsec a) in
  if a_utc a then Some t
  else match a_offset a with
       | Some o => Some (t - o * second)
       | None => Some t
       end.

(** time.Parse *)
Definition time_parse (lay : list layout_elem) (v : list ascii) : option instant :=
  a ← parse_layout lay v no_fields; instant_of a.

(** * The package *)

Definition lit (s : string) : layout_elem := Lit (bytes s).
Definition ymd : list layout_elem := [LongYear; lit "-"; ZeroMonth; lit "-"; ZeroDay].
Definition hm : list layout_elem := [Hour24; lit ":"; ZeroMinute].
Definition hms : list layout_elem := hm ++ [lit ":"; ZeroSecond].

Definition stored_timestamp_layouts : list (list layout_elem) :=
  [ ymd ++ [lit " "] ++ hms ++ [Frac9; lit " "; NumTZ; lit " "; TZName];
    ymd ++ [lit " "] ++ hms ++ [Frac9; lit " "; NumTZ];
    ymd ++ [lit "T"] ++ hms ++ [Frac9; ISOColonTZ];
    ymd ++ [lit "T"] ++ hms ++ [Frac9; ISOColonTZ];
    ymd ++ [lit " "] ++ hms ++ [Frac9; NumColonTZ];
    ymd ++ [lit "T"] ++ hms ++ [Frac9; NumColonTZ];
    ymd ++ [lit " "] ++ hms ++ [Frac9];
    ymd ++ [lit "T"] ++ hms ++ [Frac9];
    ymd ++ [lit " "] ++ hm;
    ymd ++ [lit "T"] ++ hm;
    ymd ].

(** FormatSQLTimestamp *)
Definition format_sql_timestamp (t : instant) : string := format_datetime utc t.

(** strings.Index of a separator, as the text before it. *)
Fixpoint before_sep (sep l : list ascii) : option (list ascii) :=
  if is_prefixb sep l then Some []
  else match l with [] => None | c :: l' => (λ r, c :: r) <$> before_sep sep l' end.

Definition first_parse (layouts : list (list layout_elem)) (v : list ascii) : option instant :=
  foldr (λ lay acc, match time_parse lay v with Some t => Some t | None => acc end)
    None layouts.

(** ParseStoredTimestampText *)
Definition parse_stored_timestamp_text (value : string) : option instant :=
  let v := trim_space value in
  if is_empty v then None else
  let v := match before_sep (bytes " m=") (bytes v) with
           | Some ((_ :: _) as p) => trim_space (of_bytes p)
           | _ => v
           end in
  let v := trim_suffix v "Z" in
  first_parse stored_timestamp_layouts (bytes v).

(** A value scanned from a column. *)
Inductive scanned :=
| VNull
| VTime (t : instant)
| VBytes (s : string)
| VText (s : string)
| VInt (z : Z).

(** ParseStoredTimestamp *)
Definition parse_stored_timestamp (v : scanned) : option instant :=
  match v with
  | VNull => None
  | VTime t => Some t
  | VBytes s => parse_stored_timestamp_text s
  | VText s => parse_stored_timestamp_text s
  | VInt _ => None
  end.

(** IsAfter *)
Definition is_after (v : scanned) (threshold : instant) : bool :=
  match parse_stored_timestamp v with Some t => threshold <? t | None => false end.

(** NormalizeScannedRowID *)
Definition normalize_scanned_row_id (id : scanned) : scanned :=
  match id with VBytes s => VText s | _ => id end.

Definition delete_chunk_size : nat := 500.
Arguments delete_chunk_size : simpl never.

(** A row of the scanned table: its primary key as the driver scans it, the value
    of its timestamp column, and the rest of the row. *)
Record row (R : Type) := Row { r_id : scanned; r_stamp : scanned; r_rest : R }.
Arguments Row {R} _ _ _.
Arguments r_id {R} _.
Arguments r_stamp {R} _.
Arguments r_rest {R} _.

#[export] Instance scanned_eq_dec : EqDecision scanned.
Proof. solve_decision. Defined.

(** How a bound parameter compares with a stored key: text keys are scanned as
    [VText] or as [VBytes], and a bound [VBytes] is a BLOB that matches no text. *)
Definition key_matches (bound stored : scanned) : bool :=
  match bound, stored with
  | VText s, VText s' | VText s, VBytes s' => bool_decide (s = s')
  | VInt a, VInt b => a =? b
  | _, _ => false
  end.

Section dbtime.
Context {R : Type} `{DatabaseLaws W (list (row R))}.

Definition expired (cutoff : instant) (include_equal : bool) (v : scanned) : bool :=
  match parse_stored_timestamp v with
  | Some t => (t <? cutoff) || (include_equal && (t =? cutoff))
  | None => false
  end.

(** SelectRowIDsWithTimestampBefore *)
Definition select_row_ids (cutoff : instant) (include_equal : bool) (w : W)
  : option (list scanned) * W :=
  let '(rows, w) := query
    (filter (λ r, r_stamp r ≠ VNull)) w in
  match rows with
  | None => (None, w)
  | Some rows =>
      (Some (map (λ r, normalize_scanned_row_id (r_id r))
               (filter (λ r, expired cutoff include_equal (r_stamp r) = true) rows)), w)
  end.

(** DELETE FROM table WHERE id IN (...), with the number of rows affected. *)
Definition delete_ids (ids : list scanned) (t : list (row R)) : nat * list (row R) :=
  let keep := filter (λ r, existsb (λ i, key_matches i (r_id r)) ids = false) t in
  (length t - length keep, keep)%nat.

Fixpoint delete_chunks (cs : list (list scanned)) (deleted : nat) (w : W)
  : (nat * bool) * W :=
  match cs with
  | [] => ((deleted, true), w)
  | c :: cs' =>
      let '(n, w) := exec (delete_ids c) w in
      match n with
      | None => ((deleted, false), w)
      | Some n => delete_chunks cs' (deleted + n)%nat w
      end
  end.

(** DeleteRowsWithTimestampBefore: the rows deleted so far, and whether it
    finished without an error. *)
Definition delete_rows_before (cutoff : instant) (include_equal : bool) (w : W)
  : (nat * bool) * W :=
  let '(ids, w) := select_row_ids cutoff include_equal w in
  match ids with
  | None => ((0%nat, false), w)
  | Some ids => delete_chunks (chunks delete_chunk_size ids) 0 w
  end.
End dbtime.

Definition t0 : instant := date_utc 2024 6 15 12 30 45 0.
Example parse_layouts :
  map parse_stored_timestamp_text
    ["2024-06-15 12:30:45"; " 2024-06-15T12:30:45Z "; "2024-06-15 14:30:45.000 +0200 CEST m=+0.01";
     "2024-06-15T12:30:45+00:00"; "2024-13-15"; ""; "2024-06-15 12:30"] =
  [Some t0; Some t0; Some t0; Some t0; None; None; Some (t0 - 45 * second)].
Proof. vm_compute. reflexivity. Qed.

(** * Round trip *)

Lemma code_byte n : (n < 256)%N → code (byte n) = n.
Proof. intros H. unfold code, byte. by apply N_ascii_embedding. Qed.

Lemma digit_digit_char z : 0 ≤ z ≤ 9 → digit (digit_char z) = Some z.
Proof.
  intros H. unfold digit, digit_char. rewrite code_byte by lia.
  rewrite bool_decide_eq_true_2 by lia. f_equal. lia.
Qed.

(** Characters of a canonical timestamp: digits, dash and colon. *)
Definition plain (c : ascii) : bool :=
  bool_decide (48 ≤ code c ∧ code c ≤ 58)%N || bool_decide (c = dash).

Lemma plain_digit c d : digit c = Some d → plain c = true.
Proof.
  unfold digit, plain. case_bool_decide as H; [|done]. intros _.
  rewrite bool_decide_eq_true_2; [done|]. lia.
Qed.

Lemma plain_facts c l : plain c = true →
  space_at space_seqs (c :: l) = 0%nat ∧ space_at (map reverse space_seqs) (c :: l) = 0%nat ∧
  c ≠ byte 109 ∧ c ≠ byte 90.
Proof.
  destruct c as [[] [] [] [] [] [] [] []]; intros H; try (vm_compute in H; discriminate H);
    (split; [reflexivity|]; split; [reflexivity|]; split; discriminate).
Qed.

Lemma plain_left c l : plain c = true → space_at space_seqs (c :: l) = 0%nat.
Proof. intros H. exact (proj1 (plain_facts c l H)). Qed.
Lemma plain_right c l : plain c = true → space_at (map reverse space_seqs) (c :: l) = 0%nat.
Proof. intros H. exact (proj1 (proj2 (plain_facts c l H))). Qed.

Lemma skip_space_stop seqs n l : space_at seqs l = 0%nat → skip_space seqs n l = l.
Proof. intros H. destruct n; simpl; [done|]. by rewrite H. Qed.

Lemma trim_space_plain c l e :
  plain c = true → plain e = true →
  trim_space (of_bytes (c :: l ++ [e])) = of_bytes (c :: l ++ [e]).
Proof.
  intros Hc He. unfold trim_space. rewrite String.list_ascii_of_string_of_list_ascii.
  unfold trim_left_space. rewrite skip_space_stop by (exact (plain_left _ _ Hc)).
  unfold trim_right_space. rewrite app_comm_cons, reverse_app. simpl (reverse [e]).
  change (reverse [e] ++ reverse (c :: l)) with (e :: reverse (c :: l)).
  rewrite skip_space_stop by (exact (plain_right _ _ He)).
  change (e :: reverse (c :: l)) with (reverse [e] ++ reverse (c :: l)).
  by rewrite <-reverse_app, reverse_involutive.
Qed.

Lemma before_sep_none l : byte 109 ∉ l → before_sep (bytes " m=") l = None.
Proof.
  induction l as [|c l IH]; [done|]. intros Hn.
  apply not_elem_of_cons in Hn as [Hc Hl]. cbn [before_sep]. rewrite (IH Hl).
  destruct (is_prefixb (bytes " m=") (c :: l)) eqn:E; [exfalso|done].
  cbn in E. destruct (decide _); [|done]. destruct l as [|b l]; [done|].
  destruct (decide _) as [Hb|]; [|done]. apply not_elem_of_cons in Hl as [Hl _].
  apply Hl. by rewrite <-Hb.
Qed.

Lemma has_suffix_last l e : e ≠ byte 90 → has_suffix (of_bytes (l ++ [e])) "Z" = false.
Proof.
  intros He. unfold has_suffix, str_rev.
  rewrite String.list_ascii_of_string_of_list_ascii, reverse_app.
  unfold has_prefix. cbn -[ascii_dec].
  match goal with |- context [ascii_dec ?a ?b] => destruct (ascii_dec a b) as [E|] end;
    [by rewrite <-E in He|done].
Qed.

Lemma getnum_two a b x y r fixed :
  digit a = Some x → digit b = Some y → getnum (a :: b :: r) fixed = Some (10 * x + y, r).
Proof. intros Ha Hb. unfold getnum. rewrite Ha. simpl. by rewrite Hb. Qed.

Lemma digits_two a b x y : digit a = Some x → digit b = Some y → digits [a; b] = Some (10 * x + y).
Proof.
  intros Ha Hb. cbn [digits digits_go]. rewrite Ha, Hb. f_equal; lia.
Qed.

Lemma digits_four a b c d x y z t :
  digit a = Some x → digit b = Some y → digit c = Some z → digit d = Some t →
  digits [a; b; c; d] = Some (1000 * x + 100 * y + 10 * z + t).
Proof.
  intros Ha Hb Hc Hd. cbn [digits digits_go]. rewrite Ha, Hb, Hc, Hd. f_equal; lia.
Qed.

(** One element at a time. *)
Lemma parse_lit c lay l a :
  c ≠ space → parse_layout (Lit [c] :: lay) (c :: l) a = parse_layout lay l a.
Proof.
  intros Hc. destruct a. cbn [parse_layout parse_elem length skip].
  rewrite decide_False by done. by rewrite decide_True.
Qed.

Lemma parse_year lay a b c d x y z t l :
  digit a = Some x → digit b = Some y → digit c = Some z → digit d = Some t →
  parse_layout (LongYear :: lay) (a :: b :: c :: d :: l) no_fields =
  parse_layout lay l (Fields (1000 * x + 100 * y + 10 * z + t) (-1) (-1) 0 0 0 0 false None).
Proof.
  intros Ha Hb Hc Hd. cbn [parse_layout parse_elem no_fields].
  rewrite bool_decide_eq_false_2 by (simpl; lia).
  change (take 4 (a :: b :: c :: d :: l)) with [a; b; c; d].
  by rewrite (digits_four _ _ _ _ _ _ _ _ Ha Hb Hc Hd).
Qed.

Section elements.
Context (a b : ascii) (x y : Z) (Ha : digit a = Some x) (Hb : digit b = Some y).
Context (lay : list layout_elem) (l : list ascii).

Lemma parse_month Y M D h mi s ns u o : 1 ≤ 10 * x + y ≤ 12 →
  parse_layout (ZeroMonth :: lay) (a :: b :: l) (Fields Y M D h mi s ns u o) =
  parse_layout lay l (Fields Y (10 * x + y) D h mi s ns u o).
Proof.
  intros H. cbn [parse_layout parse_elem]. rewrite (getnum_two _ _ _ _ _ _ Ha Hb). simpl.
  destruct (Z.leb_spec (10 * x + y) 0); [lia|].
  by destruct (Z.ltb_spec 12 (10 * x + y)); [lia|].
Qed.

Lemma parse_day Y M D h mi s ns u o :
  parse_layout (ZeroDay :: lay) (a :: b :: l) (Fields Y M D h mi s ns u o) =
  parse_layout lay l (Fields Y M (10 * x + y) h mi s ns u o).
Proof. cbn [parse_layout parse_elem]. by rewrite (getnum_two _ _ _ _ _ _ Ha Hb). Qed.

Lemma parse_hour Y M D h mi s ns u o : 10 * x + y < 24 →
  parse_layout (Hour24 :: lay) (a :: b :: l) (Fields Y M D h mi s ns u o) =
  parse_layout lay l (Fields Y M D (10 * x + y) mi s ns u o).
Proof.
  intros H. cbn [parse_layout parse_elem]. rewrite (getnum_two _ _ _ _ _ _ Ha Hb). simpl.
  by destruct (Z.leb_spec 24 (10 * x + y)); [lia|].
Qed.

Lemma parse_minute Y M D h mi s ns u o : 10 * x + y < 60 →
  parse_layout (ZeroMinute :: lay) (a :: b :: l) (Fields Y M D h mi s ns u o) =
  parse_layout lay l (Fields Y M D h (10 * x + y) s ns u o).
Proof.
  intros H. cbn [parse_layout parse_elem]. rewrite (getnum_two _ _ _ _ _ _ Ha Hb). simpl.
  by destruct (Z.leb_spec 60 (10 * x + y)); [lia|].
Qed.

Lemma parse_second Y M D h mi s ns u o : 10 * x + y < 60 →
  parse_layout (ZeroSecond :: Frac9 :: lay) (a :: b :: []) (Fields Y M D h mi s ns u o) =
  parse_layout lay [] (Fields Y M D h mi (10 * x + y) ns u o).
Proof.
  intros H. cbn [parse_layout parse_elem]. rewrite (getnum_two _ _ _ _ _ _ Ha Hb). simpl.
  by destruct (Z.leb_spec 60 (10 * x + y)); [lia|].
Qed.
End elements.

Lemma parse_space_lit lay c l a :
  c ≠ space → parse_layout (Lit [space] :: lay) (space :: c :: l) a = parse_layout lay (c :: l) a.
Proof.
  intros Hc. destruct a. cbn [parse_layout parse_elem length skip].
  rewrite decide_True by done. rewrite decide_True by done.
  unfold cutspace. cbn [drop_while]. rewrite bool_decide_eq_true_2 by done.
  by rewrite bool_decide_eq_false_2.
Qed.

(** The layouts, up to the fraction, on a canonical date and time. *)
Section canonical.
Context (y1 y2 y3 y4 m1 m2 d1 d2 h1 h2 i1 i2 s1 s2 : ascii).
Context (Y1 Y2 Y3 Y4 M1 M2 D1 D2 H1 H2 I1 I2 S1 S2 : Z).
Context (Ey1 : digit y1 = Some Y1) (Ey2 : digit y2 = Some Y2)
        (Ey3 : digit y3 = Some Y3) (Ey4 : digit y4 = Some Y4)
        (Em1 : digit m1 = Some M1) (Em2 : digit m2 = Some M2)
        (Ed1 : digit d1 = Some D1) (Ed2 : digit d2 = Some D2)
        (Eh1 : digit h1 = Some H1) (Eh2 : digit h2 = Some H2)
        (Ei1 : digit i1 = Some I1) (Ei2 : digit i2 = Some I2)
        (Es1 : digit s1 = Some S1) (Es2 : digit s2 = Some S2).
Context (HM : 1 ≤ 10 * M1 + M2 ≤ 12) (HH : 10 * H1 + H2 < 24)
        (HI : 10 * I1 + I2 < 60) (HS : 10 * S1 + S2 < 60).

Let year : Z := 1000 * Y1 + 100 * Y2 + 10 * Y3 + Y4.
Let chars : list ascii :=
  [y1; y2; y3; y4; dash; m1; m2; dash; d1; d2; space;
   h1; h2; byte 58; i1; i2; byte 58; s1; s2].
Let acc : fields_acc :=
  Fields year (10 * M1 + M2) (10 * D1 + D2) (10 * H1 + H2) (10 * I1 + I2) (10 * S1 + S2)
    0 false None.

Lemma parse_date lay l :
  parse_layout (ymd ++ lay) ([y1; y2; y3; y4; dash; m1; m2; dash; d1; d2] ++ l) no_fields =
  parse_layout lay l (Fields year (10 * M1 + M2) (10 * D1 + D2) 0 0 0 0 false None).
Proof.
  unfold ymd. change (lit "-") with (Lit [dash]). cbn [app].
  rewrite (parse_year _ _ _ _ _ _ _ _ _ _ Ey1 Ey2 Ey3 Ey4).
  rewrite parse_lit by done. rewrite (parse_month _ _ _ _ Em1 Em2) by done.
  rewrite parse_lit by done. by rewrite (parse_day _ _ _ _ Ed1 Ed2).
Qed.

(** A layout with a T after the date rejects it. *)
Lemma parse_T lay : parse_layout (ymd ++ [lit "T"] ++ lay) chars no_fields = None.
Proof. exact (parse_date ([lit "T"] ++ lay) _). Qed.

Lemma parse_space lay :
  parse_layout (ymd ++ [lit " "] ++ hms ++ Frac9 :: lay) chars no_fields =
  parse_layout lay [] acc.
Proof.
  assert (Hsp : h1 ≠ space) by (intros ->; vm_compute in Eh1; discriminate Eh1).
  change (lit " ") with (Lit [space]).
  etransitivity; [apply (parse_date ([Lit [space]] ++ hms ++ Frac9 :: lay)
    [space; h1; h2; byte 58; i1; i2; byte 58; s1; s2])|].
  unfold hms, hm. change (lit ":") with (Lit [byte 58]). cbn [app].
  rewrite parse_space_lit by done. rewrite (parse_hour _ _ _ _ Eh1 Eh2) by done.
  rewrite parse_lit by done. rewrite (parse_minute _ _ _ _ Ei1 Ei2) by done.
  rewrite parse_lit by done. by rewrite (parse_second _ _ _ _ Es1 Es2).
Qed.

(** Of the project's layouts, the seventh is the first that accepts it. *)
Lemma first_parse_canonical :
  first_parse stored_timestamp_layouts chars =
  match instant_of acc with
  | Some t => Some t
  | None => first_parse (drop 7 stored_timestamp_layouts) chars
  end.
Proof.
  unfold first_parse, stored_timestamp_layouts. cbn [foldr drop].
  unfold time_parse.
  rewrite !parse_T.
  rewrite (parse_space [lit " "; NumTZ; lit " "; TZName]), (parse_space [lit " "; NumTZ]),
    (parse_space [NumColonTZ]), (parse_space []).
  reflexivity.
Qed.
(** Nothing is trimmed from the canonical text, and it has no monotonic suffix. *)
Lemma stored_text_canonical :
  parse_stored_timestamp_text (of_bytes chars) = first_parse stored_timestamp_layouts chars.
Proof.
  unfold parse_stored_timestamp_text.
  assert (Hsplit : chars = y1 :: take 17 (drop 1 chars) ++ [s2]) by reflexivity.
  assert (Etrim : trim_space (of_bytes chars) = of_bytes chars).
  { rewrite Hsplit. apply trim_space_plain; eauto using plain_digit. }
  rewrite Etrim. change (is_empty (of_bytes chars)) with false. cbv iota.
  rewrite String.list_ascii_of_string_of_list_ascii.
  assert (Hplain : Forall (λ c, plain c = true ∨ c = space) chars).
  { unfold chars. repeat (constructor; [solve [eauto using plain_digit
      | left; reflexivity | right; reflexivity]|]). constructor. }
  rewrite before_sep_none.
  2:{ intros Hin. rewrite Forall_forall in Hplain. apply Hplain in Hin as [Hin|Hin].
      - by vm_compute in Hin. - discriminate Hin. }
  unfold trim_suffix.
  replace (has_suffix (of_bytes chars) "Z") with false.
  2:{ rewrite Hsplit, app_comm_cons. symmetry. apply has_suffix_last.
      by destruct (plain_facts _ [] (plain_digit _ _ Es2)) as (_ & _ & _ & ?). }
  by rewrite String.list_ascii_of_string_of_list_ascii.
Qed.
End canonical.

Lemma year_bounds n y m d :
  civil_of_days n = (y, m, d) → 0 ≤ n < 3652059 → 1 ≤ y ≤ 9999.
Proof.
  intros H Hn. apply civil_of_days_spec in H as (<- & Hm & Hd).
  assert (days_in m y ≤ 31) by (unfold days_in; repeat split_match; lia).
  revert Hn. unfold days_of_civil.
  assert (Hdoy : 0 ≤ (153 * (if 2 <? m then m - 3 else m + 9) + 2) / 5 ≤ 337).
  { destruct (Z.ltb_spec 2 m); zlia. }
  remember (if m <=? 2 then y - 1 else y) as y' eqn:Ey.
  assert (Hy : m ≤ 2 → y' = y - 1) by (subst; destruct (Z.leb_spec m 2); lia).
  assert (Hm2 : m ≤ 2 → 306 ≤ (153 * (if 2 <? m then m - 3 else m + 9) + 2) / 5).
  { intros. destruct (Z.ltb_spec 2 m); zlia. }
  assert (Hm3 : ¬ m ≤ 2 → y' = y ∧ (153 * (if 2 <? m then m - 3 else m + 9) + 2) / 5 + d ≤ 306).
  { intros. subst. destruct (Z.leb_spec m 2); [lia|]. split; [done|].
    destruct (Z.ltb_spec 2 m); [|lia].
    assert (m = 3 ∨ m = 4 ∨ m = 5 ∨ m = 6 ∨ m = 7 ∨ m = 8 ∨ m = 9 ∨ m = 10 ∨ m = 11 ∨ m = 12)
      as Hcases by lia.
    destruct_or! Hcases; subst m; unfold days_in in Hd; simpl in *; zlia. }
  generalize dependent ((153 * (if 2 <? m then m - 3 else m + 9) + 2) / 5). intros k Hk Hk2 Hk3.
  pose proof (Z.div_mod y' 400 ltac:(lia)). pose proof (Z.mod_pos_bound y' 400 ltac:(lia)).
  generalize dependent (y' / 400). generalize dependent (y' mod 400). intros r Hr q Hq.
  clear Ey. intros Hn.
  assert (Hf : 0 ≤ r / 4 - r / 100 ≤ 96) by (clear -Hr; zlia).
  assert (Hq' : 0 ≤ q ≤ 24) by lia.
  destruct (decide (r = 399)) as [->|]; [change (399 / 4) with 99 in *; change (399 / 100) with 3 in *; lia|].
  destruct (decide (r = 0)) as [->|]; [change (0 / 4) with 0 in *; change (0 / 100) with 0 in *; lia|]. lia.
Qed.

Lemma digit_div n k : 0 ≤ n < 10 * k → 0 < k → digit (digit_char (n / k)) = Some (n / k).
Proof.
  intros Hn Hk. apply digit_digit_char. split; [apply Z.div_pos; lia|].
  enough (n / k < 10) by lia. apply Z.div_lt_upper_bound; lia.
Qed.

Lemma digit_mod n : digit (digit_char (n mod 10)) = Some (n mod 10).
Proof. apply digit_digit_char. pose proof (Z.mod_pos_bound n 10). lia. Qed.

Lemma two_eq n : 0 ≤ n → 10 * (n / 10) + n mod 10 = n.
Proof. intros. pose proof (Z.div_mod n 10). lia. Qed.

Lemma clock_bounds t : 0 ≤ hour_of utc t < 24 ∧ 0 ≤ minute_of utc t < 60 ∧
  0 ≤ second_of utc t < 60.
Proof.
  unfold hour_of, minute_of, second_of. generalize (local_ns utc t). intros u.
  assert (Hb : ∀ a b, 0 < a → 0 < b → 0 ≤ (u mod (b * a)) / a < b).
  { intros a b Ha Hb. pose proof (Z.mod_pos_bound u (b * a)).
    split; [apply Z.div_pos; lia|apply Z.div_lt_upper_bound; lia]. }
  unfold day_ns. split; [apply Hb; done|]. unfold hour, minute at 1.
  split; apply Hb; done.
Qed.

(** The fields [FormatSQLTimestamp] prints are in range. *)
Lemma stored_fields t y m d :
  0 ≤ t < date_utc 10000 1 1 0 0 0 0 → date_of utc t = (y, m, d) →
  1 ≤ y ≤ 9999 ∧ 1 ≤ m ≤ 12 ∧ 1 ≤ d ≤ days_in m y ∧ days_in m y ≤ 31.
Proof.
  intros Ht Edate. unfold date_of in Edate.
  assert (Hy : 1 ≤ y ≤ 9999).
  { apply (year_bounds _ _ _ _ Edate). unfold day_of, local_ns, utc. rewrite Z.add_0_r.
    change (date_utc 10000 1 1 0 0 0 0) with (3652059 * day_ns) in Ht.
    split; [apply Z.div_pos|apply Z.div_lt_upper_bound]; unfold_time; lia. }
  apply civil_of_days_spec in Edate as (_ & Hm & Hd).
  split_and!; try lia. unfold days_in; repeat split_match; lia.
Qed.

Lemma parse_format_text t :
  0 ≤ t < date_utc 10000 1 1 0 0 0 0 →
  parse_stored_timestamp_text (format_sql_timestamp t) = Some (truncate t second).
Proof.
  intros Ht. unfold format_sql_timestamp, format_datetime.
  destruct (date_of utc t) as [[y m] d] eqn:Edate.
  destruct (stored_fields t y m d Ht Edate) as (Hy & Hm & Hd & Hd31).
  destruct (clock_bounds t) as (Hh & Hi & Hs).
  pose proof (date_utc_fields t y m d Edate) as Hinst.
  generalize dependent (hour_of utc t). intros h Hh. generalize dependent (minute_of utc t).
  intros i Hi. generalize dependent (second_of utc t). intros s Hs Hinst.
  assert (Hy1 : 0 ≤ y / 100 < 100) by zlia. assert (Hy2 : 0 ≤ y mod 100 < 100) by zlia.
  pose proof (digit_div (y / 100) 10 ltac:(lia) ltac:(lia)) as Ey1.
  pose proof (digit_div (y mod 100) 10 ltac:(lia) ltac:(lia)) as Ey3.
  pose proof (digit_div m 10 ltac:(lia) ltac:(lia)) as Em1.
  pose proof (digit_div d 10 ltac:(lia) ltac:(lia)) as Ed1.
  pose proof (digit_div h 10 ltac:(lia) ltac:(lia)) as Eh1.
  pose proof (digit_div i 10 ltac:(lia) ltac:(lia)) as Ei1.
  pose proof (digit_div s 10 ltac:(lia) ltac:(lia)) as Es1.
  etransitivity; [exact (stored_text_canonical _ _ _ _ _ _ _ _ _ _ _ _ _ _
    _ _ _ _ _ _ _ _ _ _ _ _ _ _
    Ey1 (digit_mod (y / 100)) Ey3 (digit_mod (y mod 100)) Em1 (digit_mod m) Ed1 (digit_mod d)
    Eh1 (digit_mod h) Ei1 (digit_mod i) Es1 (digit_mod s))|].
  rewrite (first_parse_canonical _ _ _ _ _ _ _ _ _ _ _ _ _ _ _ _ _ _ _ _ _ _ _ _ _ _ _ _
    Ey1 (digit_mod (y / 100)) Ey3 (digit_mod (y mod 100)) Em1 (digit_mod m) Ed1 (digit_mod d)
    Eh1 (digit_mod h) Ei1 (digit_mod i) Es1 (digit_mod s)) by (rewrite two_eq; lia).
  rewrite !two_eq by lia.
  replace (1000 * (y / 100 / 10) + 100 * ((y / 100) mod 10) + 10 * (y mod 100 / 10) +
    (y mod 100) mod 10) with y by (clear; zlia).
  replace (instant_of (Fields y m d h i s 0 false None)) with (Some (truncate t second)); [done|].
  unfold instant_of. cbn [a_month a_day a_year a_hour a_min a_sec a_nsec a_utc a_offset].
  destruct (Z.ltb_spec m 0); [lia|]. destruct (Z.ltb_spec d 0); [lia|].
  destruct (Z.ltb_spec d 1); [lia|]. destruct (Z.ltb_spec (days_in m y) d); [lia|].
  simpl. by rewrite Hinst.
Qed.

Lemma truncate_idem t : truncate (truncate t second) second = truncate t second.
Proof. unfold truncate, second. zlia. Qed.

Lemma mod_div_swap t k u : 0 < k → 0 < u → (t mod (k * u)) / u = (t / u) mod k.
Proof.
  intros Hk Hu. rewrite (Z.mul_comm k u), Z.rem_mul_r by lia.
  rewrite (Z.mul_comm u), Z.div_add by lia.
  by rewrite Z.div_small by (apply Z.mod_pos_bound; lia).
Qed.

(** The printed fields do not see the fraction of the second. *)
Lemma format_truncate t : format_sql_timestamp (truncate t second) = format_sql_timestamp t.
Proof.
  assert (Hq : ∀ k, 0 < k → truncate t second / (k * second) = t / (k * second)).
  { intros k Hk. unfold truncate. pose proof (Z.div_mod t second).
    rewrite !(Z.mul_comm k), <-!Z.div_div by (unfold second in *; lia). f_equal.
    replace (t - t mod second) with (t / second * second) by (unfold second in *; lia).
    by rewrite Z.div_mul. }
  assert (Hm : ∀ k j, 0 < k → 0 < j →
    (truncate t second mod (k * (j * second))) / (j * second) = (t mod (k * (j * second))) / (j * second)).
  { intros k j Hk Hj. rewrite !mod_div_swap by (unfold second; lia). by rewrite Hq. }
  unfold format_sql_timestamp, format_datetime, date_of, day_of, hour_of, minute_of, second_of,
    local_ns, utc. rewrite !Z.add_0_r.
  replace (truncate t second / day_ns) with (t / day_ns) by (symmetry; apply (Hq 86400); lia).
  destruct (civil_of_days _) as [[y m] d].
  replace ((truncate t second mod day_ns) / hour) with ((t mod day_ns) / hour)
    by (symmetry; apply (Hm 24 3600); lia).
  replace ((truncate t second mod hour) / minute) with ((t mod hour) / minute)
    by (symmetry; apply (Hm 60 60); lia).
  replace ((truncate t second mod minute) / second) with ((t mod minute) / second)
    by (symmetry; apply (Hm 60 1); lia). done.
Qed.

(** For every instant of the years 1 to 9999, reading back what
    [FormatSQLTimestamp] wrote gives the instant with the fraction of its second
    dropped, whether the driver scans the column as text or as bytes; writing that
    instant again gives the same text, and [IsAfter] on the stored text compares the
    truncated instant. *)
Theorem format_parse_roundtrip t v :
  0 ≤ t < date_utc 10000 1 1 0 0 0 0 →
  v = VText (format_sql_timestamp t) ∨ v = VBytes (format_sql_timestamp t) →
  parse_stored_timestamp v = Some (truncate t second) ∧
  format_sql_timestamp (truncate t second) = format_sql_timestamp t ∧
  ∀ u, is_after v u = (u <? truncate t second).
Proof.
  intros Ht Hv. assert (Hp : parse_stored_timestamp v = Some (truncate t second)).
  { destruct Hv as [-> | ->]; simpl; by apply parse_format_text. }
  split_and!; [done|apply format_truncate|].
  intros u. unfold is_after. by rewrite Hp.
Qed.

Lemma format_parse_roundtrip_witness :
  parse_stored_timestamp (VBytes "2024-06-15 12:30:45") = Some t0.
Proof.
  destruct (format_parse_roundtrip (t0 + 999) (VBytes "2024-06-15 12:30:45")) as [H _].
  - vm_compute. split; discriminate || reflexivity.
  - right. vm_compute. reflexivity.
  - exact H.
Defined.

(** * Deleting by parsed instant *)

(** A primary key: an integer or a text, and no two rows share one. *)
Definition key_ok (id : scanned) : Prop :=
  match id with VInt _ | VText _ | VBytes _ => True | _ => False end.
Definition keys_ok {R} (t : list (row R)) : Prop :=
  Forall (λ r, key_ok (r_id r)) t ∧
  NoDup (map (λ r, normalize_scanned_row_id (r_id r)) t).

Lemma key_matches_normalize a b :
  key_ok a → key_ok b →
  key_matches (normalize_scanned_row_id a) b = true ↔
  normalize_scanned_row_id a = normalize_scanned_row_id b.
Proof.
  destruct a, b; simpl; try tauto; intros _ _; try (split; congruence);
    rewrite ?bool_decide_eq_true, ?Z.eqb_eq; split; congruence.
Qed.

Section deletion.
Context {R : Type} `{DatabaseLaws W (list (row R))}.
Implicit Types (t : list (row R)) (ids : list scanned).

Definition unmatched ids (r : row R) : Prop :=
  existsb (λ i, key_matches i (r_id r)) ids = false.
#[local] Instance unmatched_dec ids r : Decision (unmatched ids r).
Proof. unfold unmatched. apply _. Defined.

Lemma unmatched_app ids1 ids2 r : unmatched (ids1 ++ ids2) r ↔ unmatched ids2 r ∧ unmatched ids1 r.
Proof. unfold unmatched. rewrite existsb_app, orb_false_iff. tauto. Qed.

(** The chunks that ran, as one deletion. *)
Lemma delete_chunks_spec cs deleted w n ok w' :
  delete_chunks cs deleted w = ((n, ok), w') →
  ∃ ran rest, cs = ran ++ rest ∧ (ok = true → rest = []) ∧
    tables w' = filter (unmatched (concat ran)) (tables w) ∧
    (n + length (tables w') = deleted + length (tables w))%nat.
Proof.
  revert deleted w. induction cs as [|c cs IH]; intros deleted w; simpl.
  - intros [= <- <- <-]. exists [], []. split; [done|]. split; [done|].
    split; [|done]. rewrite filter_all; done.
  - destruct (exec_cases _ (delete_ids c) w) as [(m & w1 & -> & Hd)|(w1 & -> & Ht)].
    + intros Hrec. apply IH in Hrec as (ran & rest & -> & Hok & Ht & Hn).
      exists (c :: ran), rest. split; [done|]. split; [done|].
      unfold delete_ids in Hd. injection Hd as Hm Hw1.
      change (filter (unmatched c) (tables w) = tables w1) in Hw1.
      pose proof (length_filter (unmatched c) (tables w)) as Hlen.
      change (length (tables w) - length (filter (unmatched c) (tables w)) = m)%nat in Hm.
      rewrite Hw1 in *. split; [|lia].
      rewrite Ht, <-Hw1, list_filter_filter. simpl.
      apply filter_ext_in. intros r _. by rewrite unmatched_app.
    + intros [= <- <- <-]. exists [], (c :: cs). split; [done|]. split; [done|].
      rewrite Ht. split; [|done]. rewrite filter_all; done.
Qed.

Definition expired_ids cutoff ie t : list scanned :=
  map (λ r, normalize_scanned_row_id (r_id r))
    (filter (λ r, expired cutoff ie (r_stamp r) = true) (filter (λ r, r_stamp r ≠ VNull) t)).

Lemma elem_of_expired_ids cutoff ie t i :
  i ∈ expired_ids cutoff ie t ↔
  ∃ r, r ∈ t ∧ expired cutoff ie (r_stamp r) = true ∧ i = normalize_scanned_row_id (r_id r).
Proof.
  unfold expired_ids. rewrite list_elem_of_In, in_map_iff. split.
  - intros (r & <- & Hr%list_elem_of_In). apply list_elem_of_filter in Hr as [He Hr].
    apply list_elem_of_filter in Hr as [_ Hr]. by exists r.
  - intros (r & Hr & He & ->). exists r. split; [done|]. apply list_elem_of_In.
    apply list_elem_of_filter. split; [done|]. apply list_elem_of_filter. split; [|done].
    intros Hnull. by rewrite Hnull in He.
Qed.

(** Under unique keys, a row is matched by some of the expired keys only if it is
    expired itself, and by all of them exactly then. *)
Lemma matched_expired cutoff ie t r ids :
  keys_ok t → r ∈ t → ids ⊆ expired_ids cutoff ie t →
  ¬ unmatched ids r → expired cutoff ie (r_stamp r) = true.
Proof.
  intros [Hk Hnd] Hr Hsub Hm. unfold unmatched in Hm. apply not_false_is_true in Hm.
  apply existsb_exists in Hm as (i & Hi & Hmatch). apply list_elem_of_In in Hi.
  apply Hsub, elem_of_expired_ids in Hi as (r' & Hr' & He & ->).
  rewrite Forall_forall in Hk. apply key_matches_normalize in Hmatch; [|by apply Hk..].
  apply list_elem_of_lookup in Hr as [a Ha]. apply list_elem_of_lookup in Hr' as [b Hb].
  assert (a = b) as ->; [|congruence].
  apply (NoDup_lookup _ a b (normalize_scanned_row_id (r_id r)) Hnd);
    rewrite list_lookup_fmap; [by rewrite Ha|rewrite Hb; simpl; by f_equal].
Qed.

Lemma expired_matched cutoff ie t r :
  keys_ok t → r ∈ t → expired cutoff ie (r_stamp r) = true →
  ¬ unmatched (expired_ids cutoff ie t) r.
Proof.
  intros [Hk _] Hr He Hu. rewrite Forall_forall in Hk.
  enough (existsb (λ i, key_matches i (r_id r)) (expired_ids cutoff ie t) = true)
    by (unfold unmatched in Hu; congruence).
  apply existsb_exists. exists (normalize_scanned_row_id (r_id r)). split.
  - apply list_elem_of_In, elem_of_expired_ids. by exists r.
  - by apply key_matches_normalize; [apply Hk..|].
Qed.

Lemma delete_rows_before_spec cutoff ie w n ok w' :
  keys_ok (tables w) →
  delete_rows_before cutoff ie w = ((n, ok), w') →
  tables w' ⊆ tables w ∧
  (∀ r, r ∈ tables w → expired cutoff ie (r_stamp r) = false → r ∈ tables w') ∧
  (n + length (tables w') = length (tables w))%nat ∧
  (ok = true → tables w' = filter (λ r, expired cutoff ie (r_stamp r) = false) (tables w)).
Proof.
  intros Hk. unfold delete_rows_before, select_row_ids.
  destruct (query_cases _ (filter (λ r : row R, r_stamp r ≠ VNull)) w)
    as [(w1 & -> & Ht1)|(w1 & -> & Ht1)].
  2:{ intros [= <- <- <-]. rewrite Ht1. split_and!; [set_solver|done|done|done]. }
  intros Hrun. apply delete_chunks_spec in Hrun as (ran & rest & Hcs & Hok & Ht & Hn).
  fold (expired_ids cutoff ie (tables w)) in Hcs. rewrite Ht1 in *.
  assert (Hsub : concat ran ⊆ expired_ids cutoff ie (tables w)).
  { rewrite <-(chunks_concat delete_chunk_size (expired_ids cutoff ie (tables w)))
      by (unfold delete_chunk_size; lia).
    rewrite Hcs, concat_app. intros i Hi. apply elem_of_app. by left. }
  split_and!.
  - rewrite Ht. intros r Hr. by apply list_elem_of_filter in Hr as [_ Hr].
  - intros r Hr He. rewrite Ht. apply list_elem_of_filter. split; [|done].
    destruct (decide (unmatched (concat ran) r)) as [|Hm]; [done|].
    apply (matched_expired cutoff ie (tables w)) in Hm; [congruence|done..].
  - lia.
  - intros ->. rewrite Hok, app_nil_r in Hcs by done. subst ran.
    rewrite chunks_concat in Ht by (unfold delete_chunk_size; lia).
    rewrite Ht. apply filter_ext_in. intros r Hr. split.
    + intros Hu. destruct (expired cutoff ie (r_stamp r)) eqn:He; [|done].
      by apply (expired_matched cutoff ie (tables w)) in He.
    + intros He. destruct (decide (unmatched (expired_ids cutoff ie (tables w)) r)) as [|Hm];
        [done|]. apply (matched_expired cutoff ie (tables w)) in Hm; [congruence|done..].
Qed.

(** What every single statement on the table keeps, the whole deletion keeps. *)
Lemma delete_rows_before_keeps (I : W → Prop) cutoff ie w x w' :
  (∀ A (f : list (row R) → A * list (row R)) w r w', I w → exec f w = (r, w') → I w') →
  delete_rows_before cutoff ie w = (x, w') → I w → I w'.
Proof.
  intros HI. unfold delete_rows_before, select_row_ids, query.
  destruct (exec _ w) as [rows w1] eqn:E. intros Hrun Hw. apply (HI _ _ _ _ _ Hw) in E.
  destruct rows as [rows|]; [|by injection Hrun as _ <-]. revert Hrun. generalize 0%nat as deleted.
  revert w1 E. induction (chunks _ _) as [|c cs IH]; intros w1 E deleted; simpl; [by intros [= _ <-]|].
  destruct (exec (delete_ids c) w1) as [n w2] eqn:E2. apply (HI _ _ _ _ _ E) in E2.
  destruct n; [by apply IH|by intros [= _ <-]].
Qed.

(** The same as a filter: a test that only expired rows pass decides what goes. *)
Lemma delete_rows_before_filter cutoff ie w n ok w' :
  keys_ok (tables w) → delete_rows_before cutoff ie w = ((n, ok), w') →
  ∃ p : row R → bool, tables w' = filter (λ r, p r = false) (tables w) ∧
    (∀ r, r ∈ tables w → p r = true → expired cutoff ie (r_stamp r) = true) ∧
    (ok = true → ∀ r, r ∈ tables w → expired cutoff ie (r_stamp r) = true → p r = true).
Proof.
  intros Hk E. destruct (delete_rows_before_spec _ _ _ _ _ _ Hk E) as (_ & Hkeep & _ & Hall).
  assert (F : ∃ p : row R → bool, tables w' = filter (λ r, p r = false) (tables w)).
  { revert E. unfold delete_rows_before, select_row_ids.
    destruct (query_cases _ (filter (λ r : row R, r_stamp r ≠ VNull)) w)
      as [(w1 & -> & Ht1)|(w1 & -> & Ht1)].
    - intros (ran & rest & _ & _ & Ht & _)%delete_chunks_spec. rewrite Ht1 in Ht.
      by exists (λ r, existsb (λ i, key_matches i (r_id r)) (concat ran)).
    - intros [= _ _ <-]. exists (λ _, false). by rewrite Ht1, filter_all. }
  destruct F as [p Ht]. exists p. split_and!; [done| |].
  - intros r Hr Hp. destruct (expired cutoff ie (r_stamp r)) eqn:He; [done|].
    specialize (Hkeep r Hr He). rewrite Ht in Hkeep. apply list_elem_of_filter in Hkeep as [? _]. congruence.
  - intros Hok r Hr He. destruct (p r) eqn:Hp; [done|].
    assert (Hin : r ∈ tables w') by (rewrite Ht; by apply list_elem_of_filter).
    rewrite (Hall Hok) in Hin. apply list_elem_of_filter in Hin as [? _]. congruence.
Qed.

(** C13: [DeleteRowsWithTimestampBefore] never deletes a row whose timestamp is
    NULL, unreadable or not before the cutoff, whichever of its statements fails,
    and reports exactly the number of rows removed; when it reports no error, the
    table holds exactly the rows that are not expired, whatever the chunk size. *)
Theorem delete_rows_before_correct cutoff ie w n ok w' :
  keys_ok (tables w) →
  delete_rows_before cutoff ie w = ((n, ok), w') →
  tables w' ⊆ tables w ∧
  (∀ r, r ∈ tables w → expired cutoff ie (r_stamp r) = false → r ∈ tables w') ∧
  (n + length (tables w') = length (tables w))%nat ∧
  (ok = true → tables w' = filter (λ r, expired cutoff ie (r_stamp r) = false) (tables w)).
Proof. apply delete_rows_before_spec. Qed.
End deletion.

(** Three rows on both sides of a cutoff, the oldest under a byte-array key: the
    first and the third statement of the world fail, then none. *)
Definition demo_rows : list (row nat) :=
  [Row (VBytes "7") (VText "2024-01-01 00:00:00") 0%nat;
   Row (VInt 8) VNull 1%nat;
   Row (VInt 9) (VText "2024-03-01 00:00:00") 2%nat].

Lemma delete_rows_before_correct_witness :
  ∃ n ok w', delete_rows_before (date_utc 2024 2 1 0 0 0 0) false (sound demo_rows) = ((n, ok), w') ∧
    n = 1%nat ∧ tables w' = filter (λ r, expired (date_utc 2024 2 1 0 0 0 0) false (r_stamp r) = false) demo_rows.
Proof.
  assert (Hk : keys_ok demo_rows).
  { split; [repeat constructor|]. by apply (bool_decide_unpack _); vm_compute. }
  destruct (delete_rows_before (date_utc 2024 2 1 0 0 0 0) false (sound demo_rows)) as [[n ok] w'] eqn:E.
  exists n, ok, w'. split; [done|].
  pose proof (delete_rows_before_correct _ _ (sound demo_rows) _ _ _ Hk E) as (_ & _ & _ & H).
  assert (Hrun : fst (delete_rows_before (date_utc 2024 2 1 0 0 0 0) false (sound demo_rows)) =
    (1%nat, true)) by (vm_compute; reflexivity).
  rewrite E in Hrun. injection Hrun as -> ->.
  split; [reflexivity|]. apply H. reflexivity.
Defined.
