(* ===== verification/Cron.v ===== *)
(** src/scheduler/cron.go: cron expressions, descriptors and fixed intervals, and
    the computation of the next activation time.  A [fieldSet] (a Go map from int
    to bool holding only [true]) is a [gset Z]. *)
From S2P Require Import Prelude GoStrings GoTime GoDuration.
From stdpp Require Import gmap.

Open Scope Z_scope.

(** * Data *)

Abbreviation field_set := (gset Z).

Record cron_fields := CronFields {
  c_minute : field_set; c_hour : field_set; c_dom : field_set;
  c_month : field_set; c_dow : field_set }.

Inductive schedule :=
| EverySchedule (interval : duration)
| CronSchedule (c : cron_fields).

Inductive cron_field_name := FMinute | FHour | FDayOfMonth | FMonth | FDayOfWeek.

Inductive field_error :=
| InvalidValue (s : string)
| InvalidStep (s : string)
| StepNotPositive (s : string)
| OutOfRange (part : string)
| EmptyField (field : string)
| NoFuel.

Inductive schedule_error :=
| EmptySchedule
| InvalidEvery (s : string)
| EveryNotPositive (s : string)
| UnknownDescriptor (s : string)
| WrongFieldCount (n : nat)
| FieldError (f : cron_field_name) (e : field_error).

#[export] Instance cron_fields_eq_dec : EqDecision cron_fields.
Proof. solve_decision. Defined.
#[export] Instance schedule_eq_dec : EqDecision schedule.
Proof. solve_decision. Defined.
#[export] Instance field_error_eq_dec : EqDecision field_error.
Proof. solve_decision. Defined.
#[export] Instance cron_field_name_eq_dec : EqDecision cron_field_name.
Proof. solve_decision. Defined.
#[export] Instance schedule_error_eq_dec : EqDecision schedule_error.
Proof. solve_decision. Defined.

(** * Parsing *)

(** splitStep *)
Definition split_step (part : string) : result field_error (string * Z) :=
  let '(range_part, rest) := cut_byte part slash in
  match rest with
  | None => Ok (range_part, 1)
  | Some s =>
      match atoi s with
      | None => Fail (InvalidStep s)
      | Some step => if step <=? 0 then Fail (StepNotPositive s) else Ok (range_part, step)
      end
  end.

(** The bounds of one part of a field: everything, a value, or a range. *)
Definition part_bounds (range_part : string) (lo0 hi0 : Z)
  : result field_error (Z * Z) :=
  if str_eqb range_part "*" then Ok (lo0, hi0) else
  let '(first, last) := cut_byte range_part dash in
  match atoi first with
  | None => Fail (InvalidValue first)
  | Some lo =>
      match last with
      | None => Ok (lo, lo)
      | Some s => match atoi s with
                  | None => Fail (InvalidValue s)
                  | Some hi => Ok (lo, hi)
                  end
      end
  end.

(** [for v := lo; v <= hi; v += step { set[v] = true }], with [int]'s wrap-around;
    [None] when the fuel runs out, which [fill_fuel] never lets happen. *)
Fixpoint fill (fuel : nat) (v hi step : Z) (acc : field_set) : option field_set :=
  match fuel with
  | O => None
  | S fuel =>
      if v <=? hi then fill fuel (wrap64 (v + step)) hi step ({[v]} ∪ acc) else Some acc
  end.
Definition fill_fuel : nat := 200.
Arguments fill_fuel : simpl never.

Fixpoint parse_parts (parts : list string) (lo0 hi0 : Z) (acc : field_set)
  : result field_error field_set :=
  match parts with
  | [] => Ok acc
  | part :: parts' =>
      let? (range_part, step) := split_step part in
      let? (lo, hi) := part_bounds range_part lo0 hi0 in
      if (lo <? lo0) || (hi0 <? hi) || (hi <? lo) then Fail (OutOfRange part) else
      match fill fill_fuel lo hi step acc with
      | None => Fail NoFuel
      | Some acc' => parse_parts parts' lo0 hi0 acc'
      end
  end.

(** parseField *)
Definition parse_field (field : string) (lo0 hi0 : Z) : result field_error field_set :=
  let? set := parse_parts (split_byte field comma) lo0 hi0 ∅ in
  if bool_decide (set = ∅) then Fail (EmptyField field) else Ok set.

Definition at_field {A} (f : cron_field_name) (r : result field_error A)
  : result schedule_error A :=
  match r with Ok a => Ok a | Fail e => Fail (FieldError f e) end.

Definition descriptors : list (string * string) :=
  [ ("@yearly", "0 0 1 1 *"); ("@annually", "0 0 1 1 *"); ("@monthly", "0 0 1 * *");
    ("@weekly", "0 0 * * 0"); ("@daily", "0 0 * * *"); ("@midnight", "0 0 * * *");
    ("@hourly", "0 * * * *") ].

Definition parse_cron (spec : string) : result schedule_error schedule :=
  match fields spec with
  | [f0; f1; f2; f3; f4] =>
      let? mi := at_field FMinute (parse_field f0 0 59) in
      let? h := at_field FHour (parse_field f1 0 23) in
      let? dom := at_field FDayOfMonth (parse_field f2 1 31) in
      let? mo := at_field FMonth (parse_field f3 1 12) in
      let? dow := at_field FDayOfWeek (parse_field f4 0 7) in
      let dow := if bool_decide (7 ∈ dow) then ({[0]} ∪ dow) ∖ {[7]} else dow in
      Ok (CronSchedule (CronFields mi h dom mo dow))
  | fs => Fail (WrongFieldCount (length fs))
  end.

(** parseSchedule *)
Definition parse_schedule (spec0 : string) : result schedule_error schedule :=
  let spec := trim_space spec0 in
  if is_empty spec then Fail EmptySchedule else
  if has_prefix spec "@every " then
    let dur_str := trim_space (trim_prefix spec "@every ") in
    match parse_duration dur_str with
    | None => Fail (InvalidEvery dur_str)
    | Some d => if d <=? 0 then Fail (EveryNotPositive dur_str) else Ok (EverySchedule d)
    end
  else if has_prefix spec "@" then
    match assoc_find spec descriptors with
    | None => Fail (UnknownDescriptor spec)
    | Some expanded => parse_cron expanded
    end
  else parse_cron spec.

(** * The next activation *)

Definition max_scan_minutes : nat := Z.to_nat (4 * 366 * 24 * 60).
Arguments max_scan_minutes : simpl never.

(** The five map lookups of [Next]. *)
Definition cron_matches (loc : location) (c : cron_fields) (t : instant) : bool :=
  bool_decide (month_of loc t ∈ c_month c) &&
  bool_decide (dom_of loc t ∈ c_dom c) &&
  bool_decide (weekday_of loc t ∈ c_dow c) &&
  bool_decide (hour_of loc t ∈ c_hour c) &&
  bool_decide (minute_of loc t ∈ c_minute c).

Fixpoint cron_scan (fuel : nat) (loc : location) (c : cron_fields) (next : instant) : instant :=
  match fuel with
  | O => zero_time
  | S fuel => if cron_matches loc c next then next
              else cron_scan fuel loc c (next + minute)
  end.

(** cronSchedule.Next *)
Definition cron_next (loc : location) (c : cron_fields) (t : instant) : instant :=
  cron_scan max_scan_minutes loc c (truncate t minute + minute).

(** Schedule.Next *)
Definition next (loc : location) (s : schedule) (t : instant) : instant :=
  match s with
  | EverySchedule d => t + d
  | CronSchedule c => cron_next loc c t
  end.

Example parse_daily :
  is_ok (parse_schedule " 0 2 * * * ") = true ∧ is_ok (parse_schedule "@hourly") = true ∧
  is_ok (parse_schedule "60 * * * *") = false ∧ is_ok (parse_schedule "*/15 1-5 1,15 * 7") = true.
Proof. vm_compute. done. Qed.

(** * Well-formedness of what the parser returns *)

(** The loop of one part, step by step without wrap-around. *)
Lemma fill_spec fuel v hi step acc :
  0 < step → hi + step ≤ max_int64 → 0 ≤ v → hi - v + 1 < Z.of_nat fuel → 0 < Z.of_nat fuel →
  ∃ set, fill fuel v hi step acc = Some set ∧
    ∀ x, x ∈ set ↔ x ∈ acc ∨ (∃ k, 0 ≤ k ∧ x = v + k * step ∧ x ≤ hi).
Proof.
  revert v acc. induction fuel as [|fuel IH]; intros v acc Hs Hmax Hv Hf Hf0; [lia|].
  simpl. destruct (Z.leb_spec v hi) as [Hle|Hgt].
  - rewrite wrap64_id by (unfold_int64; lia).
    destruct (IH (v + step) ({[v]} ∪ acc)) as (set & -> & Hset); try lia.
    exists set. split; [done|]. intros x. rewrite Hset, elem_of_union, elem_of_singleton.
    split.
    + intros [[->|?]|(k & ? & -> & ?)]; [right|by left|right].
      * exists 0. lia.
      * exists (k + 1). lia.
    + intros [?|(k & ? & -> & ?)]; [by left; right|].
      destruct (decide (k = 0)) as [->|]; [left; left; lia|].
      right. exists (k - 1). lia.
  - exists acc. split; [done|]. intros x. split; [by left|].
    intros [?|(k & ? & -> & ?)]; [done|]. nia.
Qed.

Lemma fill_fuel_Z : Z.of_nat fill_fuel = 200.
Proof. reflexivity. Qed.

(** With the fuel of [parse_parts]. *)
Lemma fill_fuel_spec lo hi step acc :
  0 < step → hi + step ≤ max_int64 → 0 ≤ lo → hi ≤ 59 →
  ∃ set, fill fill_fuel lo hi step acc = Some set ∧
    ∀ x, x ∈ set ↔ x ∈ acc ∨ (∃ k, 0 ≤ k ∧ x = lo + k * step ∧ x ≤ hi).
Proof. intros. apply fill_spec; rewrite ?fill_fuel_Z; lia. Qed.

(** Even when a huge step wraps around, the loop ends. *)
Lemma fill_wrap_ends n v hi step acc :
  max_int64 - 59 < step ≤ max_int64 → hi ≤ 59 → -59 ≤ v ≤ 59 →
  2 ≤ Z.of_nat n → v + 3 ≤ Z.of_nat n → fill n v hi step acc ≠ None.
Proof.
  revert v acc. induction n as [n IH] using lt_wf_ind. intros v acc Hs Hhi Hv Hn Hn'.
  destruct n as [|[|n]]; [lia..|]. simpl.
  destruct (Z.leb_spec v hi); [|done].
  destruct (decide (v + step ≤ max_int64)).
  - rewrite wrap64_id by (unfold_int64; lia).
    destruct (Z.leb_spec (v + step) hi); [|done]. unfold_int64; lia.
  - rewrite (wrap64_over (v + step)) by (unfold_int64; lia).
    destruct (Z.leb_spec (v + step - 18446744073709551616) hi); [|done].
    rewrite wrap64_id by (unfold_int64; lia).
    apply IH; unfold_int64; lia.
Qed.

Lemma fill_ends v hi step acc :
  0 < step ≤ max_int64 → 0 ≤ v ≤ 59 → hi ≤ 59 →
  fill fill_fuel v hi step acc ≠ None.
Proof.
  intros Hs Hv Hhi. destruct (decide (step ≤ max_int64 - 59)).
  - destruct (fill_fuel_spec v hi step acc) as (set & -> & _); [lia..|done].
  - apply fill_wrap_ends; rewrite ?fill_fuel_Z; lia.
Qed.

Lemma atoi_range s z : atoi s = Some z → in_int64 z.
Proof.
  unfold atoi. destruct (bytes s) as [|c l]; [done|]. intros H.
  repeat case_decide; try done;
    destruct (digits _); simpl in H; simplify_eq; by case_decide; simplify_eq.
Qed.

Lemma split_step_range part rp step :
  split_step part = Ok (rp, step) → 0 < step ≤ max_int64.
Proof.
  unfold split_step. destruct (cut_byte part slash) as [r [s|]]; [|unfold max_int64; intros; simplify_eq; lia].
  destruct (atoi s) as [z|] eqn:E; [|done]. apply atoi_range in E.
  destruct (Z.leb_spec z 0); [done|]. intros; simplify_eq. unfold_int64. lia.
Qed.

(** What one part of a field denotes, within the bounds of the field. *)
Definition part_denotes (lo0 hi0 : Z) (part : string) (v : Z) : Prop :=
  ∃ rp step lo hi k,
    split_step part = Ok (rp, step) ∧ part_bounds rp lo0 hi0 = Ok (lo, hi) ∧
    lo0 ≤ lo ∧ lo ≤ hi ∧ hi ≤ hi0 ∧ 0 ≤ k ∧ v = lo + k * step ∧ v ≤ hi.

(** The part's step does not overflow [int] when added to the field's bound. *)
Definition step_fits (hi0 : Z) (part : string) : Prop :=
  ∀ rp step, split_step part = Ok (rp, step) → hi0 + step ≤ max_int64.

Lemma parse_parts_spec parts lo0 hi0 acc set :
  0 ≤ lo0 → hi0 ≤ 59 → Forall (step_fits hi0) parts →
  parse_parts parts lo0 hi0 acc = Ok set →
  ∀ v, v ∈ set ↔ v ∈ acc ∨ ∃ part, part ∈ parts ∧ part_denotes lo0 hi0 part v.
Proof.
  intros Hlo Hhi. revert acc. induction parts as [|part parts IH]; intros acc Hfit; cbn [parse_parts].
  - intros [= ->] v. split; [tauto|]. intros [?|(p & Hp & _)]; [assumption|].
    by apply elem_of_nil in Hp.
  - apply Forall_cons in Hfit as [Hfit Hfits].
    destruct (split_step part) as [[rp step]|] eqn:Estep; [|done].
    destruct (part_bounds rp lo0 hi0) as [[lo hi]|] eqn:Eb; [|done].
    destruct ((lo <? lo0) || (hi0 <? hi) || (hi <? lo)) eqn:Er; [done|]. bool_facts.
    pose proof (split_step_range _ _ _ Estep). pose proof (Hfit _ _ Estep).
    destruct (fill_fuel_spec lo hi step acc) as (s1 & -> & Hs1); [lia..|].
    intros Hp v. rewrite (IH _ Hfits Hp v), Hs1. split.
    + intros [[?|(k & ? & ? & ?)]|(p & ? & ?)]; [by left|right..].
      * exists part. split; [by left|]. by exists rp, step, lo, hi, k.
      * exists p. split; [by right|done].
    + intros [?|(p & Hin & Hd)]; [by left; left|].
      apply elem_of_cons in Hin as [->|Hin]; [|right; by exists p].
      destruct Hd as (? & ? & ? & ? & k & Hstep & Hb & ? & ? & ? & ? & ? & ?).
      rewrite Estep in Hstep. injection Hstep as <- <-.
      rewrite Eb in Hb. injection Hb as <- <-.
      left. right. by exists k.
Qed.

Lemma parse_parts_fuel parts lo0 hi0 acc :
  0 ≤ lo0 → hi0 ≤ 59 → parse_parts parts lo0 hi0 acc ≠ Fail NoFuel.
Proof.
  intros Hlo Hhi. revert acc. induction parts as [|part parts IH]; intros acc; cbn [parse_parts]; [done|].
  destruct (split_step part) as [[rp step]|e] eqn:Estep.
  - destruct (part_bounds rp lo0 hi0) as [[lo hi]|e] eqn:Eb.
    + destruct ((lo <? lo0) || (hi0 <? hi) || (hi <? lo)) eqn:Er; [done|]. bool_facts.
      pose proof (split_step_range _ _ _ Estep).
      pose proof (fill_ends lo hi step acc ltac:(lia) ltac:(lia) ltac:(lia)) as Hf.
      destruct (fill fill_fuel lo hi step acc); [apply IH|done].
    + intros [= ->]. revert Eb. unfold part_bounds. by repeat case_match.
  - intros [= ->]. revert Estep. unfold split_step. by repeat case_match.
Qed.

(** * The scan *)

Lemma cron_scan_spec fuel loc c u :
  (∃ k, (k < fuel)%nat ∧ cron_scan fuel loc c u = u + Z.of_nat k * minute ∧
        cron_matches loc c (u + Z.of_nat k * minute) = true ∧
        ∀ j, (j < k)%nat → cron_matches loc c (u + Z.of_nat j * minute) = false) ∨
  (cron_scan fuel loc c u = zero_time ∧
   ∀ j, (j < fuel)%nat → cron_matches loc c (u + Z.of_nat j * minute) = false).
Proof.
  revert u. induction fuel as [|fuel IH]; intros u; simpl.
  { right. split; [done|]. lia. }
  destruct (cron_matches loc c u) eqn:E.
  - left. exists 0%nat. rewrite Z.mul_0_l, Z.add_0_r.
    split; [lia|]. split; [done|]. split; [done|]. lia.
  - destruct (IH (u + minute)) as [(k & Hk & -> & Hm & Hj)|[-> Hj]]; [left|right].
    + exists (S k). replace (u + Z.of_nat (S k) * minute)
        with (u + minute + Z.of_nat k * minute) by lia.
      split; [lia|]. split; [done|]. split; [done|]. intros [|j] Hlt.
      * by rewrite Z.mul_0_l, Z.add_0_r.
      * replace (u + Z.of_nat (S j) * minute)
          with (u + minute + Z.of_nat j * minute) by lia. apply Hj. lia.
    + split; [done|]. intros [|j] Hlt.
      * by rewrite Z.mul_0_l, Z.add_0_r.
      * replace (u + Z.of_nat (S j) * minute)
          with (u + minute + Z.of_nat j * minute) by lia. apply Hj. lia.
Qed.

Lemma max_scan_minutes_Z : Z.of_nat max_scan_minutes = 2108160.
Proof. unfold max_scan_minutes. by rewrite Z2Nat.id by lia. Qed.
Opaque max_scan_minutes.

Lemma truncate_bounds t d : 0 < d → truncate t d ≤ t < truncate t d + d.
Proof. intros Hd. unfold truncate. pose proof (Z.mod_pos_bound t d Hd). lia. Qed.

Lemma truncate_mod t d : 0 < d → truncate t d mod d = 0.
Proof.
  intros Hd. unfold truncate. rewrite Zminus_mod_idemp_r, Z.sub_diag. by apply Z.mod_0_l; lia.
Qed.

(** A minute-aligned instant after [t] is one of the scanned ones. *)
Lemma aligned_index t u : t < u → u mod minute = 0 →
  ∃ j, 0 ≤ j ∧ u = truncate t minute + minute + j * minute.
Proof.
  intros Hlt Hu. pose proof (truncate_mod t minute ltac:(done)) as Ht.
  pose proof (truncate_bounds t minute ltac:(done)) as Hb.
  apply Z.mod_divide in Hu as [a ->]; [|done]. apply Z.mod_divide in Ht as [b Ht]; [|done].
  rewrite Ht in *. exists (a - b - 1). unfold minute, second in *. lia.
Qed.

Lemma date_of_range loc t :
  1 ≤ month_of loc t ≤ 12 ∧ 1 ≤ dom_of loc t ≤ 31 ∧ 0 ≤ weekday_of loc t ≤ 6.
Proof.
  unfold month_of, dom_of, weekday_of.
  destruct (date_of loc t) as [[y m] d] eqn:E. unfold date_of in E.
  apply civil_of_days_spec in E as (_ & Hm & Hd). simpl.
  assert (days_in m y ≤ 31) by (unfold days_in; repeat split_match; lia).
  pose proof (Z.mod_pos_bound (day_of loc t + 1) 7 ltac:(lia)). lia.
Qed.

(** The clock fields of [day * D + h * hour + m * minute] in a zone with the offset [o] there. *)
Lemma clock_of loc o D h m : 0 ≤ h < 24 → 0 ≤ m < 60 →
  let u := D * day_ns + h * hour + m * minute - o in
  loc u = o → hour_of loc u = h ∧ minute_of loc u = m ∧ (o mod minute = 0 → u mod minute = 0).
Proof.
  intros Hh Hm u Ho. unfold hour_of, minute_of, local_ns. rewrite Ho. set (v := u + o).
  assert (Ev : v = D * day_ns + h * hour + m * minute) by (unfold v, u; lia).
  assert (E1 : v mod day_ns = h * hour + m * minute).
  { symmetry. apply (Z.mod_unique _ _ D); unfold_time; lia. }
  assert (E2 : v mod hour = m * minute).
  { symmetry. apply (Z.mod_unique _ _ (D * 24 + h)); unfold_time; lia. }
  rewrite E1, E2. split; [unfold_time; zlia|]. split; [unfold_time; zlia|].
  intros [k Hk]%Z.mod_divide; [|done]. symmetry. apply (Z.mod_unique _ _ (D * 1440 + h * 60 + m - k)); unfold u; unfold_time; lia.
Qed.

(** C2: [cronSchedule.Next] returns the earliest whole minute strictly after the
    reference instant whose five calendar fields are all in the schedule's sets, or
    the zero time exactly when none of the next [4*366*24*60] minutes matches. *)
Theorem cron_next_correct loc c t :
  let n := cron_next loc c t in
  let horizon := truncate t minute + Z.of_nat max_scan_minutes * minute in
  (cron_matches loc c n = true ∧ t < n ≤ horizon ∧ n mod minute = 0 ∧
   ∀ u, t < u < n → u mod minute = 0 → cron_matches loc c u = false) ∨
  (n = zero_time ∧
   ∀ u, t < u ≤ horizon → u mod minute = 0 → cron_matches loc c u = false).
Proof.
  cbv zeta. unfold cron_next.
  pose proof (truncate_bounds t minute ltac:(done)) as Hb.
  destruct (cron_scan_spec max_scan_minutes loc c (truncate t minute + minute))
    as [(k & Hk & -> & Hm & Hj)|[-> Hj]]; [left|right].
  - split; [done|]. split; [unfold_time; lia|]. split.
    { rewrite <-Z.add_assoc. replace (minute + Z.of_nat k * minute)
        with ((1 + Z.of_nat k) * minute) by lia.
      rewrite Z.mod_add by done. by apply truncate_mod. }
    intros u Hu Hmod. destruct (aligned_index t u) as (j & Hj0 & ->); [apply Hu|exact Hmod|].
    rewrite <-(Z2Nat.id j Hj0). apply Hj. clear Hmod. unfold_time. lia.
  - split; [done|]. intros u Hu Hmod.
    destruct (aligned_index t u) as (j & Hj0 & ->); [apply Hu|exact Hmod|].
    rewrite <-(Z2Nat.id j Hj0). apply Hj. clear Hmod. unfold_time. lia.
Qed.

(** A match inside the horizon is found, or an earlier one is. *)
Lemma cron_next_before loc c t u :
  t < u → u mod minute = 0 → u ≤ truncate t minute + Z.of_nat max_scan_minutes * minute →
  cron_matches loc c u = true → t < cron_next loc c t ≤ u.
Proof.
  intros Htu Hmod Hhor Hm. unfold cron_next.
  pose proof (truncate_bounds t minute ltac:(done)) as Hb.
  destruct (aligned_index t u Htu Hmod) as (j & Hj0 & Eu).
  destruct (cron_scan_spec max_scan_minutes loc c (truncate t minute + minute))
    as [(k & Hk & -> & Hm' & Hj)|[_ Hj]].
  - split; [unfold_time; lia|].
    destruct (decide (Z.of_nat k ≤ j)) as [|Hgt]; [unfold_time; lia|].
    specialize (Hj (Z.to_nat j)). rewrite Z2Nat.id, <-Eu, Hm in Hj by done.
    discriminate Hj. lia.
  - specialize (Hj (Z.to_nat j)). rewrite Z2Nat.id, <-Eu, Hm in Hj by done.
    discriminate Hj. unfold_time. lia.
Qed.

(** What [Next] returns beyond the zero time is a match on a whole minute. *)
Lemma cron_next_found loc c t : t < cron_next loc c t → 0 ≤ t →
  cron_matches loc c (cron_next loc c t) = true ∧ cron_next loc c t mod minute = 0.
Proof.
  unfold cron_next.
  destruct (cron_scan_spec max_scan_minutes loc c (truncate t minute + minute))
    as [(k & Hk & -> & Hm' & Hj)|[-> Hj]]; [|unfold zero_time; lia].
  intros _ _. split; [done|].
  rewrite <-Z.add_assoc. replace (minute + Z.of_nat k * minute)
    with ((1 + Z.of_nat k) * minute) by lia.
  rewrite Z.mod_add by done. by apply truncate_mod.
Qed.

(** The scan, as the other components use it. *)
Lemma cron_next_cases loc c t :
  t < cron_next loc c t ∨ cron_next loc c t = zero_time.
Proof.
  unfold cron_next. pose proof (truncate_bounds t minute ltac:(done)) as Hb.
  destruct (cron_scan_spec max_scan_minutes loc c (truncate t minute + minute))
    as [(k & Hk & -> & _)|[-> _]]; [left|by right]. unfold_time. lia.
Qed.

(** The schedule fires at hour [h], minute [m] of any day. *)
Definition fires_daily_at (c : cron_fields) (h m : Z) : Prop :=
  0 ≤ h < 24 ∧ 0 ≤ m < 60 ∧ h ∈ c_hour c ∧ m ∈ c_minute c ∧
  (∀ d, 1 ≤ d ≤ 31 → d ∈ c_dom c) ∧ (∀ d, 1 ≤ d ≤ 12 → d ∈ c_month c) ∧
  (∀ d, 0 ≤ d ≤ 6 → d ∈ c_dow c).

(** A schedule that leaves the three date fields open fires within 24 hours of
    any reference instant, in a zone whose offset is whole minutes and does not change in that time. *)
Theorem cron_daily_fires loc o c h m t :
  o mod minute = 0 → (∀ u, t < u ≤ t + day_ns → loc u = o) → fires_daily_at c h m →
  t < cron_next loc c t ≤ t + day_ns ∧ cron_matches loc c (cron_next loc c t) = true.
Proof.
  intros Ho Hloc (Hh & Hm & Hch & Hcm & Hdom & Hmon & Hdow).
  assert (∃ u, t < u ≤ t + day_ns ∧ u mod minute = 0 ∧ cron_matches loc c u = true)
    as (u & Hu & Hmod & Hmatch).
  { assert (Hall : ∀ D, let u := D * day_ns + h * hour + m * minute - o in
      t < u ≤ t + day_ns → u mod minute = 0 ∧ cron_matches loc c u = true).
    { intros D u Hu. destruct (clock_of loc o D h m Hh Hm (Hloc _ Hu)) as (E1 & E2 & E3).
      destruct (date_of_range loc u) as (? & ? & ?).
      split; [by apply E3|]. unfold cron_matches. fold u in E1, E2. rewrite E1, E2.
      rewrite !bool_decide_eq_true_2 by auto. done. }
    clear Hloc Ho. set (D := (t + o) / day_ns).
    destruct (decide (t < D * day_ns + h * hour + m * minute - o)) as [Hlt|Hge].
    - exists (D * day_ns + h * hour + m * minute - o).
      assert (Hr : t < D * day_ns + h * hour + m * minute - o ≤ t + day_ns) by (subst D; clear Hall; unfold_time; zlia).
      destruct (Hall D Hr). done.
    - exists ((D + 1) * day_ns + h * hour + m * minute - o).
      assert (Hr : t < (D + 1) * day_ns + h * hour + m * minute - o ≤ t + day_ns) by (subst D; clear Hall; unfold_time; zlia).
      destruct (Hall (D + 1) Hr). done. }
  pose proof (truncate_bounds t minute ltac:(done)) as Hb.
  unfold cron_next.
  destruct (aligned_index t u) as (j & Hj0 & Eu); [apply Hu|exact Hmod|].
  destruct (cron_scan_spec max_scan_minutes loc c (truncate t minute + minute))
    as [(k & Hk & -> & Hm' & Hj)|[_ Hj]].
  - split; [|done]. split; [unfold_time; lia|].
    destruct (decide (Z.of_nat k ≤ j)) as [|Hgt]; [unfold_time; lia|].
    specialize (Hj (Z.to_nat j)). rewrite Z2Nat.id, <-Eu, Hmatch in Hj by done.
    discriminate Hj. lia.
  - specialize (Hj (Z.to_nat j)). rewrite Z2Nat.id, <-Eu, Hmatch in Hj by done.
    discriminate Hj. pose proof max_scan_minutes_Z. unfold_time. lia.
Qed.

Definition range_set (lo : Z) (n : nat) : field_set :=
  list_to_set (map (λ k, lo + Z.of_nat k) (seq 0 n)).

Lemma elem_of_range_set lo n v : lo ≤ v < lo + Z.of_nat n → v ∈ range_set lo n.
Proof.
  intros H. unfold range_set. apply elem_of_list_to_set, list_elem_of_In, in_map_iff.
  exists (Z.to_nat (v - lo)). split; [lia|]. apply in_seq. lia.
Qed.

Definition daily_0200 : cron_fields :=
  CronFields {[0]} {[2]} (range_set 1 31) (range_set 1 12) (range_set 0 7).

Lemma cron_daily_fires_witness :
  parse_schedule "0 2 * * *" = Ok (CronSchedule daily_0200) ∧
  0 < cron_next utc daily_0200 0 ≤ 0 + day_ns ∧
  cron_matches utc daily_0200 (cron_next utc daily_0200 0) = true.
Proof.
  split; [vm_compute; reflexivity|].
  apply (cron_daily_fires utc 0 daily_0200 2 0 0); [done|done|]. split_and!; try lia.
  - change (2 ∈ ({[2]} : field_set)). by apply elem_of_singleton.
  - change (0 ∈ ({[0]} : field_set)). by apply elem_of_singleton.
  - intros d Hd. apply elem_of_range_set. lia.
  - intros d Hd. apply elem_of_range_set. lia.
  - intros d Hd. apply elem_of_range_set. lia.
Defined.

(** A field that parses denotes exactly the values its comma-separated parts
    denote ([*], [n], [a-b], each with an optional [/step]), all within the field's
    bounds, as long as no step overflows [int] when added to the bound. *)
Theorem parse_field_correct field lo0 hi0 set :
  0 ≤ lo0 → hi0 ≤ 59 → Forall (step_fits hi0) (split_byte field comma) →
  parse_field field lo0 hi0 = Ok set →
  set ≠ ∅ ∧ (∀ v, v ∈ set ↔ ∃ part, part ∈ split_byte field comma ∧ part_denotes lo0 hi0 part v) ∧
  (∀ v, v ∈ set → lo0 ≤ v ≤ hi0).
Proof.
  intros Hlo Hhi Hfit. unfold parse_field.
  destruct (parse_parts (split_byte field comma) lo0 hi0 ∅) as [s|] eqn:E; [|done].
  case_bool_decide as Hne; [done|]. intros [= <-].
  pose proof (parse_parts_spec _ _ _ _ _ Hlo Hhi Hfit E) as Hspec.
  assert (Hiff : ∀ v, v ∈ s ↔ ∃ part, part ∈ split_byte field comma ∧ part_denotes lo0 hi0 part v).
  { intros v. rewrite Hspec. split; [|by right]. by intros [?%elem_of_empty|?]. }
  split; [done|]. split; [done|]. intros v Hv. apply Hiff in Hv as (part & _ & Hd).
  destruct Hd as (rp & step & lo & hi & k & Hs & _ & ? & ? & ? & ? & -> & ?).
  pose proof (split_step_range _ _ _ Hs). nia.
Qed.

Lemma parse_field_correct_witness :
  parse_field "*/20,5-6" 0 59 = Ok (list_to_set [0; 20; 40; 5; 6]) ∧
  (∀ v, v ∈ (list_to_set [0; 20; 40; 5; 6] : field_set) → 0 ≤ v ≤ 59).
Proof.
  assert (H : parse_field "*/20,5-6" 0 59 = Ok (list_to_set [0; 20; 40; 5; 6]))
    by (vm_compute; reflexivity).
  split; [exact H|].
  refine (proj2 (proj2 (parse_field_correct "*/20,5-6" 0 59 _ _ _ _ H))); [lia|lia|].
  change (split_byte "*/20,5-6" comma) with ["*/20"; "5-6"].
  repeat constructor; intros rp step E.
  - assert (Ok ("*", 20) = Ok (rp, step)) as [= <- <-] by (rewrite <-E; vm_compute; reflexivity).
    unfold max_int64; lia.
  - assert (Ok ("5-6", 1) = Ok (rp, step)) as [= <- <-] by (rewrite <-E; vm_compute; reflexivity).
    unfold max_int64; lia.
Defined.

(** The sets a schedule may hold. *)
Definition schedule_ok (s : schedule) : Prop :=
  match s with
  | EverySchedule d => 0 < d
  | CronSchedule c => c_minute c ≠ ∅ ∧ c_hour c ≠ ∅ ∧ c_dom c ≠ ∅ ∧ c_month c ≠ ∅ ∧
                      c_dow c ≠ ∅ ∧ 7 ∉ c_dow c
  end.

Lemma parse_field_total field lo0 hi0 :
  0 ≤ lo0 → hi0 ≤ 59 → parse_field field lo0 hi0 ≠ Fail NoFuel.
Proof.
  intros Hlo Hhi. unfold parse_field.
  pose proof (parse_parts_fuel (split_byte field comma) lo0 hi0 ∅ Hlo Hhi).
  destruct (parse_parts _ _ _ _); [by case_bool_decide|congruence].
Qed.

Lemma parse_field_nonempty field lo0 hi0 set :
  parse_field field lo0 hi0 = Ok set → set ≠ ∅.
Proof.
  unfold parse_field. destruct (parse_parts _ _ _ _); [|done].
  case_bool_decide; [done|]. by intros [= <-].
Qed.

Lemma sunday_alias (dow : field_set) : dow ≠ ∅ →
  let dow' := if bool_decide (7 ∈ dow) then ({[0]} ∪ dow) ∖ {[7]} else dow in
  dow' ≠ ∅ ∧ 7 ∉ dow'.
Proof.
  intros Hne. simpl. case_bool_decide as H7; [|done]. split;
    [|by intros [_ []%not_elem_of_singleton]%elem_of_difference].
  intros E. assert (0 ∈ ({[0]} ∪ dow) ∖ {[7]}) as H0.
  { apply elem_of_difference. split; [apply elem_of_union; left|]; by rewrite elem_of_singleton. }
  rewrite E in H0. by apply elem_of_empty in H0.
Qed.

Lemma parse_cron_ok spec :
  match parse_cron spec with
  | Ok s => schedule_ok s
  | Fail e => ∀ f, e ≠ FieldError f NoFuel
  end.
Proof.
  unfold parse_cron. destruct (fields spec) as [|f0 [|f1 [|f2 [|f3 [|f4 [|]]]]]]; try done.
  assert (Hat : ∀ n field lo0 hi0, 0 ≤ lo0 → hi0 ≤ 59 →
    match at_field n (parse_field field lo0 hi0) with
    | Ok s => s ≠ ∅ | Fail e => ∀ f, e ≠ FieldError f NoFuel end).
  { intros n field lo0 hi0 Hlo Hhi. pose proof (parse_field_total field lo0 hi0 Hlo Hhi) as Ht.
    destruct (parse_field field lo0 hi0) eqn:E; simpl; [by apply parse_field_nonempty in E|].
    congruence. }
  pose proof (Hat FMinute f0 0 59 ltac:(lia) ltac:(lia)). pose proof (Hat FHour f1 0 23 ltac:(lia) ltac:(lia)).
  pose proof (Hat FDayOfMonth f2 1 31 ltac:(lia) ltac:(lia)).
  pose proof (Hat FMonth f3 1 12 ltac:(lia) ltac:(lia)).
  pose proof (Hat FDayOfWeek f4 0 7 ltac:(lia) ltac:(lia)).
  do 5 (destruct (at_field _ _); [|assumption]). simpl.
  do 4 (split; [assumption|]). by apply sunday_alias.
Qed.

(** What the parser returns is well formed. *)
Lemma parse_schedule_wf spec s : parse_schedule spec = Ok s → schedule_ok s.
Proof.
  unfold parse_schedule. destruct (is_empty _); [done|].
  destruct (has_prefix _ "@every ").
  { destruct (parse_duration _) as [d|]; [|done].
    destruct (Z.leb_spec d 0); [done|]. intros [= <-]. simpl. lia. }
  assert (Hc : ∀ e, parse_cron e = Ok s → schedule_ok s)
    by (intros e He; pose proof (parse_cron_ok e) as Hok; by rewrite He in Hok).
  destruct (has_prefix _ "@"); [|apply Hc].
  destruct (assoc_find _ _); [apply Hc|done].
Qed.

(** Whatever the expression, [parseSchedule] terminates with an error or with a
    schedule that is well formed: a positive interval, or five non-empty field sets
    in which Sunday is always 0 and never its alias 7. *)
Theorem parse_schedule_ok spec :
  match parse_schedule spec with
  | Ok s => schedule_ok s
  | Fail e => ∀ f, e ≠ FieldError f NoFuel
  end.
Proof.
  unfold parse_schedule. destruct (is_empty _); [done|].
  destruct (has_prefix _ "@every ").
  { destruct (parse_duration _) as [d|]; [|done].
    destruct (Z.leb_spec d 0); [done|]. simpl. lia. }
  destruct (has_prefix _ "@"); [|apply parse_cron_ok].
  destruct (assoc_find _ _); [apply parse_cron_ok|done].
Qed.

(** A fixed interval or a cron schedule that fires moves strictly forward. *)
Lemma next_forward loc s t :
  schedule_ok s → t < next loc s t ∨ next loc s t = zero_time.
Proof.
  destruct s as [d|c]; simpl; [left; lia|intros _; apply cron_next_cases].
Qed.

(** 29 February as a cron expression. *)
Definition feb29 : cron_fields :=
  CronFields {[0]} {[0]} {[29]} {[2]} (range_set 0 7).

(** The start of 1 March 2096, after the last 29 February before the skipped leap
    year 2100. *)
Definition march_2096 : instant := date_utc 2096 3 1 0 0 0 0.

(** The four-year scan is too short for 29 February around a century: from
    March 2096 the valid schedule [0 0 29 2 *] gets the zero time (the task is then
    never due again), although 29 February 2104 matches it. *)
Theorem cron_feb29_lost :
  parse_schedule "0 0 29 2 *" = Ok (CronSchedule feb29) ∧
  cron_next utc feb29 march_2096 = zero_time ∧
  cron_matches utc feb29 (date_utc 2104 2 29 0 0 0 0) = true.
Proof.
  split; [vm_compute; reflexivity|]. split; [|vm_compute; reflexivity].
  unfold cron_next.
  destruct (cron_scan_spec max_scan_minutes utc feb29 (truncate march_2096 minute + minute))
    as [(k & Hk & _ & Hm & _)|[-> _]]; [exfalso|done].
  pose proof max_scan_minutes_Z as Hmax.
  change (truncate march_2096 minute) with march_2096 in Hm.
  set (u := march_2096 + minute + Z.of_nat k * minute) in Hm.
  unfold cron_matches in Hm. bool_facts. unfold feb29 in *. cbn [c_month c_dom] in *.
  rewrite !elem_of_singleton in *. unfold month_of, dom_of in *.
  destruct (date_of utc u) as [[y m] d] eqn:E. cbn [fst snd] in *. subst.
  unfold date_of in E. apply civil_of_days_spec in E as (Ed & _ & Hd).
  unfold days_in in Hd. simpl in Hd. destruct (leap y) eqn:El; [|lia].
  apply leap_spec in El.
  assert (Hu : 765243 ≤ day_of utc u ≤ 766708).
  { clear -Hk Hmax. unfold day_of, local_ns, utc, u. unfold_time.
    change march_2096 with 66116995200000000000. split.
    - apply Z.div_le_lower_bound; lia.
    - apply Z.lt_succ_r, Z.div_lt_upper_bound; lia. }
  clear -Hu Ed El. revert Hu. rewrite <-Ed. unfold days_of_civil. simpl.
  intros Hu. assert (2096 ≤ y ≤ 2101) by zlia.
  assert (y = 2096 ∨ y = 2100) as [-> | ->] by zlia; simpl in *; zlia.
Qed.

(** When day of month and day of week are both restricted, a day must satisfy
    both (standard cron fires when either matches): [0 0 13 * 5] does not match
    Friday 6 September 2024 and fires on Friday 13. *)
Theorem cron_dom_and_dow :
  ∃ c, parse_schedule "0 0 13 * 5" = Ok (CronSchedule c) ∧
       cron_matches utc c (date_utc 2024 9 6 0 0 0 0) = false ∧
       cron_next utc c (date_utc 2024 9 12 23 50 0 0) = date_utc 2024 9 13 0 0 0 0.
Proof.
  eexists. split; [vm_compute; reflexivity|].
  split; vm_compute; reflexivity.
Qed.

(** A step close to the largest [int] wraps the loop variable around:
    ["59/9223372036854775806"] also selects minute 55, which it does not denote. *)
Theorem cron_huge_step_wraps :
  ∃ set, parse_field "59/9223372036854775806" 0 59 = Ok set ∧ 55 ∈ set ∧
         ¬ part_denotes 0 59 "59/9223372036854775806" 55.
Proof.
  assert (H : match parse_field "59/9223372036854775806" 0 59 with
              | Ok set => bool_decide (55 ∈ set) | Fail _ => false end = true)
    by (vm_compute; reflexivity).
  destruct (parse_field _ _ _) as [set|]; [|discriminate H].
  exists set. split; [reflexivity|]. split.
  - exact (bool_decide_eq_true_1 _ H).
  - intros (rp & step & lo & hi & k & Es & Eb & ? & ? & ? & ? & Ev & ?).
    assert (Ok ("59", 9223372036854775806) = Ok (rp, step)) as [= <- <-]
      by (rewrite <-Es; vm_compute; reflexivity).
    assert (Ok (59, 59) = Ok (lo, hi)) as [= <- <-]
      by (rewrite <-Eb; vm_compute; reflexivity). lia.
Qed.
