(* ===== verification/TaskLock.v ===== *)
(** The distributed lock of the scheduler (src/scheduler/scheduler.go,
    [acquireTaskLock] and [releaseTaskLock]): the scheduler's tables, the lock
    operations cut at their SQL statements, their sequential composition, and the
    interleaving of several nodes over one database as a step relation.  The lock
    excludes concurrent runs as long as no node crashes, no release fails and no run
    outlasts the lease; a crash and a restart are enough to let two nodes in. *)
From S2P Require Import Prelude GoStrings GoTime Sql DbTime.
From stdpp Require Import functions relations.
Open Scope Z_scope.

(** * The scheduler's tables (database/server_schema.go) *)

(** A row of server_scheduler_state; its key is the task id. *)
Record state_row := StateRow {
  st_name : string; st_schedule : string;
  st_last_run : scanned; st_last_status : option string; st_last_error : option string;
  st_next_run : scanned; st_run_count : Z; st_fail_count : Z; st_enabled : bool;
  st_locked_by : option string; st_locked_at : scanned
}.

(** A row of server_scheduler_history. *)
Record history_row := HistoryRow {
  hi_id : Z; hi_task : string; hi_start : scanned; hi_end : scanned;
  hi_duration : Z; hi_status : string; hi_error : option string
}.

(** A row of server_audit_log as the scheduler writes it. *)
Record audit_row := AuditRow {
  au_actor : string; au_action : string; au_details : string; au_status : string
}.

Record sched_tables := SchedTables {
  t_state : gmap string state_row;
  t_history : list history_row;
  t_audit : list audit_row;
  t_config : gmap string string
}.

#[export] Instance state_row_eq_dec : EqDecision state_row.
Proof. solve_decision. Defined.

Definition with_state (t : sched_tables) (m : gmap string state_row) : sched_tables :=
  SchedTables m (t_history t) (t_audit t) (t_config t).

(** The columns an INSERT leaves out take their defaults. *)
Definition fresh_row (name schedule : string) (next_run : scanned) (by_ : option string)
    (at_ : scanned) : state_row :=
  StateRow name schedule VNull None None next_run 0 0 true by_ at_.

Definition set_lock (schedule : string) (by_ : option string) (at_ : scanned)
    (r : state_row) : state_row :=
  StateRow (st_name r) schedule (st_last_run r) (st_last_status r) (st_last_error r)
    (st_next_run r) (st_run_count r) (st_fail_count r) (st_enabled r) by_ at_.

(** * The operations, statement by statement *)

Definition lock_timeout : duration := 5 * minute.

(** isGlobalTask and its table *)
Definition global_tasks : list string :=
  ["ssl-renewal"; "geoip-update"; "blocklist-update"; "cve-update"; "backup-daily";
   "backup-hourly"; "update-geoip-database"; "update-check"].
Definition is_global_task (task : string) : bool := bool_decide (task ∈ global_tasks).

(** SELECT locked_by, locked_at: no row is [None]. *)
Definition lock_view (task : string) (t : sched_tables) : option (option string * scanned) :=
  (λ r, (st_locked_by r, st_locked_at r)) <$> t_state t !! task.

(** What the code decides from the holder it read. *)
Inductive lock_plan :=
| PlanDeny
| PlanInsert
| PlanCas (observed : option string).

(** [now2] is the clock reading behind [lockExpiry]; the outer [None] is a failed
    query. *)
Definition lock_decide (node : string) (now2 : instant)
    (seen : option (option (option string * scanned))) : lock_plan :=
  match seen with
  | None => PlanDeny
  | Some None => PlanInsert
  | Some (Some (None, _)) => PlanCas None
  | Some (Some (Some holder, held_at)) =>
      if str_eqb holder node then PlanCas (Some holder) else
      match parse_stored_timestamp held_at with
      | None => PlanDeny
      | Some held => if held <? now2 - lock_timeout then PlanCas (Some holder) else PlanDeny
      end
  end.

Inductive lock_verdict := Won | Lost | Unclear.

Section operations.
Context `{Database W sched_tables}.

(** Whether the driver counts a row that matched the WHERE clause as affected: SQLite
    always does, MySQL only when the row changed. *)
Context (affected : state_row → state_row → bool).

(** INSERT ... ON CONFLICT(task_id) DO NOTHING *)
Definition lock_insert (task schedule node : string) (now1 : instant) (t : sched_tables)
  : bool * sched_tables :=
  match t_state t !! task with
  | Some _ => (false, t)
  | None => (true, with_state t (<[task := fresh_row task schedule VNull (Some node)
                                    (VText (format_sql_timestamp now1))]> (t_state t)))
  end.

(** UPDATE ... WHERE task_id = ? AND locked_by = ? (or IS NULL) *)
Definition lock_cas (task schedule node : string) (now1 : instant) (observed : option string)
    (t : sched_tables) : bool * sched_tables :=
  match t_state t !! task with
  | None => (false, t)
  | Some r =>
      if bool_decide (st_locked_by r = observed) then
        let r' := set_lock schedule (Some node) (VText (format_sql_timestamp now1)) r in
        (affected r r', with_state t (<[task := r']> (t_state t)))
      else (false, t)
  end.

Definition lock_write (task schedule node : string) (now1 : instant) (plan : lock_plan) (w : W)
  : lock_verdict * W :=
  match plan with
  | PlanDeny => (Lost, w)
  | PlanInsert =>
      let '(r, w) := exec (lock_insert task schedule node now1) w in
      (match r with Some true => Won | _ => Lost end, w)
  | PlanCas observed =>
      let '(r, w) := exec (lock_cas task schedule node now1 observed) w in
      (match r with Some true => Won | Some false => Unclear | None => Lost end, w)
  end.

(** The re-read after an update that affected no row. *)
Definition lock_confirm (task node : string) (w : W) : bool * W :=
  let '(r, w) := query (lock_view task) w in
  (match r with
   | Some (Some (Some holder, _)) => str_eqb holder node
   | _ => false
   end, w).

(** acquireTaskLock; [now1] and [now2] are its two clock readings *)
Definition acquire_task_lock (node task schedule : string) (now1 now2 : instant) (w : W)
  : bool * W :=
  if negb (is_global_task task) then (true, w) else
  let '(seen, w) := query (lock_view task) w in
  let '(v, w) := lock_write task schedule node now1 (lock_decide node now2 seen) w in
  match v with
  | Won => (true, w)
  | Lost => (false, w)
  | Unclear => lock_confirm task node w
  end.

(** UPDATE ... SET locked_by = NULL, locked_at = NULL WHERE task_id = ? AND locked_by = ? *)
Definition lock_clear (task node : string) (t : sched_tables) : unit * sched_tables :=
  match t_state t !! task with
  | Some r =>
      if bool_decide (st_locked_by r = Some node)
      then (tt, with_state t (<[task := set_lock (st_schedule r) None VNull r]> (t_state t)))
      else (tt, t)
  | None => (tt, t)
  end.

(** releaseTaskLock, and whether its statement took effect *)
Definition release_task_lock (node task : string) (w : W) : bool * W :=
  if negb (is_global_task task) then (true, w) else
  let '(r, w) := exec (lock_clear task node) w in
  (match r with Some _ => true | None => false end, w).
End operations.

(** * One node alone *)

(** Whether the row lets a node in at instant [now2]: nobody holds it, the node holds
    it itself, or the holder's timestamp is readable and older than the timeout. *)
Definition lockable (node : string) (now2 : instant) (r : option state_row) : bool :=
  match r with
  | None => true
  | Some r =>
      match st_locked_by r with
      | None => true
      | Some holder =>
          str_eqb holder node ||
          match parse_stored_timestamp (st_locked_at r) with
          | Some held => held <? now2 - lock_timeout
          | None => false
          end
      end
  end.

(** What the UPDATE or INSERT leaves in the row. *)
Definition locked_row (node task schedule : string) (now1 : instant) (o : option state_row)
  : state_row :=
  let at_ := VText (format_sql_timestamp now1) in
  match o with
  | None => fresh_row task schedule VNull (Some node) at_
  | Some r => set_lock schedule (Some node) at_ r
  end.

Lemma locked_row_by node task schedule now1 o :
  st_locked_by (locked_row node task schedule now1 o) = Some node.
Proof. by destruct o. Qed.

Lemma str_eqb_eq a b : str_eqb a b = true ↔ a = b.
Proof. apply bool_decide_eq_true. Qed.

(** The plan made from what was read: denied exactly when not lockable, and otherwise
    the statement whose WHERE clause matches the row as it was read. *)
Lemma lock_decide_spec node now2 task t :
  lock_decide node now2 (Some (lock_view task t)) =
  if lockable node now2 (t_state t !! task) then
    match t_state t !! task with
    | None => PlanInsert | Some r => PlanCas (st_locked_by r)
    end
  else PlanDeny.
Proof.
  unfold lock_decide, lock_view, lockable.
  destruct (t_state t !! task) as [[? ? ? ? ? ? ? ? ? [h|] at_]|]; simpl; [|done|done].
  destruct (str_eqb h node); [done|]. simpl.
  destruct (parse_stored_timestamp at_) as [held|]; [|done]. by destruct (held <? _).
Qed.

Section alone.
Context `{DatabaseLaws W sched_tables} (affected : state_row → state_row → bool).
Hypothesis affected_changed : ∀ r r', r ≠ r' → affected r r' = true.

(** A write that follows a plan made on the same tables. *)
Lemma lock_write_planned node task schedule now1 o w v w' :
  t_state (tables w) !! task = o →
  lock_write affected task schedule node now1
    (match o with None => PlanInsert | Some r => PlanCas (st_locked_by r) end) w = (v, w') →
  let t' := with_state (tables w)
    (<[task := locked_row node task schedule now1 o]> (t_state (tables w))) in
  (v = Lost ∧ tables w' = tables w ∧ ¬ never_fails W sched_tables) ∨ (v = Won ∧ tables w' = t') ∨
  (v = Unclear ∧ tables w' = t' ∧ o = Some (locked_row node task schedule now1 o)).
Proof.
  intros Ho. unfold lock_write. destruct o as [r|].
  - exec_case w1 E Ht; intros [= <- <-]; [|left; split_and!; [done|done|intros Hup; by apply Hup in E]].
    unfold lock_cas in Ht. rewrite Ho, bool_decide_true in Ht by done.
    injection Ht as <- Ht. rewrite <-Ht. right.
    destruct (decide (r = locked_row node task schedule now1 (Some r))) as [Er|Hr].
    + simpl in *. destruct (affected _ _); [by left|]. right. split_and!; [done..|by f_equal].
    + simpl in *. rewrite affected_changed by done. by left.
  - exec_case w1 E Ht; intros [= <- <-]; [|left; split_and!; [done|done|intros Hup; by apply Hup in E]].
    unfold lock_insert in Ht. rewrite Ho in Ht. injection Ht as <- Ht. rewrite <-Ht.
    right. by left.
Qed.

Lemma acquire_cases node task schedule now1 now2 w b w' :
  is_global_task task = true →
  acquire_task_lock affected node task schedule now1 now2 w = (b, w') →
  let o := t_state (tables w) !! task in
  (b = true ∧ lockable node now2 o = true ∧
   tables w' = with_state (tables w)
     (<[task := locked_row node task schedule now1 o]> (t_state (tables w)))) ∨
  (b = false ∧ tables w' = tables w ∧
   (never_fails W sched_tables → lockable node now2 o = false)).
Proof.
  intros Hg. unfold acquire_task_lock. rewrite Hg. cbn [negb].
  exec_case w1 E1 Ht1.
  2:{ intros [= <- <-]. right. split_and!; [done|done|]. intros Hup. by apply Hup in E1. }
  rewrite lock_decide_spec.
  destruct (lockable node now2 (t_state (tables w) !! task)) eqn:El;
    [|intros [= <- <-]; by right].
  destruct (lock_write _ _ _ _ _ _ _) as [v w2] eqn:Ew.
  apply lock_write_planned in Ew; [|by rewrite Ht1]. rewrite Ht1 in Ew.
  destruct Ew as [(-> & Ht2 & Hf)|[[-> Ht2]|(-> & Ht2 & Hsame)]].
  - intros [= <- <-]. by right.
  - intros [= <- <-]. by left.
  - assert (Hid : tables w2 = tables w).
    { rewrite Ht2. destruct (tables w) as [m h a c]. unfold with_state; simpl in *. f_equal.
      apply insert_id. by rewrite Hsame at 1. }
    unfold lock_confirm. exec_case w3 E3 Ht3; intros [= <- <-]; rewrite Ht3.
    + left. assert (Hv : lock_view task (tables w2) = Some (Some node,
        st_locked_at (locked_row node task schedule now1 (t_state (tables w) !! task)))).
      { rewrite Hid. unfold lock_view. rewrite Hsame at 1. simpl. by rewrite locked_row_by. }
      rewrite Hv. unfold str_eqb. by rewrite bool_decide_true.
    + right. split_and!; [done|done|]. intros Hup. by apply Hup in E3.
Qed.

(** [acquireTaskLock] run without interference, under any failure of its
    statements and either way of counting affected rows: it returns true only on a row
    that was free, its own, or held by a readable timestamp older than five minutes,
    and then the row is locked by this node at this instant and nothing else changed;
    when it returns false the tables are what they were; and over a database that does
    not fail it returns true on every such row. *)
Theorem acquire_task_lock_correct node task schedule now1 now2 w b w' :
  is_global_task task = true →
  acquire_task_lock affected node task schedule now1 now2 w = (b, w') →
  let o := t_state (tables w) !! task in
  let locked := with_state (tables w)
    (<[task := locked_row node task schedule now1 o]> (t_state (tables w))) in
  (b = true → lockable node now2 o = true ∧ tables w' = locked) ∧
  (b = false → tables w' = tables w) ∧
  (never_fails W sched_tables → b = lockable node now2 o).
Proof.
  intros Hg E o locked. apply (acquire_cases _ _ _ _ _ _ _ _ Hg) in E as [(-> & Hl & Ht)|(-> & Ht & Hup)];
    (split; [done|split; [done|intros Hf; symmetry; auto]]).
Qed.
End alone.

(** A database of the single task [ssl-renewal], held by [a] since noon. *)
Definition noon : instant := date_utc 2024 6 15 12 0 0 0.
Definition held_by_a : sched_tables :=
  SchedTables {["ssl-renewal" := fresh_row "ssl-renewal" "0 3 * * *" VNull (Some "a")
                  (VText "2024-06-15 12:00:00")]} [] [] ∅.
Definition always_affected (r r' : state_row) : bool := true.

Lemma acquire_task_lock_correct_witness :
  let six_past := noon + 6 * minute in
  let '(b, w') := acquire_task_lock always_affected "b" "ssl-renewal" "0 3 * * *" six_past
                    six_past (Reliable held_by_a) in
  b = true ∧ lockable "b" six_past (t_state held_by_a !! "ssl-renewal") = true.
Proof.
  intros six_past. destruct (acquire_task_lock _ _ _ _ _ _ _) as [b w'] eqn:E.
  destruct (acquire_task_lock_correct always_affected (λ _ _ _, eq_refl) _ _ _ _ _ _ _ _
    (eq_refl : is_global_task "ssl-renewal" = true) E) as (_ & _ & H).
  specialize (H (reliable_never_fails _)).
  assert (Hl : lockable "b" six_past (t_state held_by_a !! "ssl-renewal") = true)
    by (vm_compute; reflexivity).
  split; [rewrite H|]; exact Hl.
Defined.

(** * Several nodes over one database *)

(** Where one node's run of the task stands; [now1] is the instant it wrote, or will
    write, into locked_at. *)
Inductive phase :=
| Idle
| Started (now1 : instant)
| Reading (now1 now2 : instant)
| Planned (now1 : instant) (plan : lock_plan)
| Confirming (now1 : instant)
| Holding (now1 : instant).

Definition started_at (p : phase) : option instant :=
  match p with
  | Idle => None
  | Started t | Reading t _ | Planned t _ | Confirming t | Holding t => Some t
  end.

Record sys (W : Type) := Sys { clock : instant; world : W; nodes : string → phase }.
Arguments Sys {W} _ _ _.
Arguments clock {W} _.
Arguments world {W} _.
Arguments nodes {W} _.

(** The events of a run: time passes, a node does its next action, ends its run (and
    the release takes effect or not), or dies, which leaves the lock behind. *)
Inductive event :=
| ETick
| EAct (node : string)
| ERelease (node : string) (ok : bool)
| ECrash (node : string).

Definition after_write (v : lock_verdict) (now1 : instant) : phase :=
  match v with Won => Holding now1 | Lost => Idle | Unclear => Confirming now1 end.

Section interleaving.
Context `{DatabaseLaws W sched_tables} (affected : state_row → state_row → bool).
Context (task schedule : string).

Inductive step : event → sys W → sys W → Prop :=
| step_tick now now' w ps : now ≤ now' → step ETick (Sys now w ps) (Sys now' w ps)
| step_start n now w ps : ps n = Idle →
    step (EAct n) (Sys now w ps) (Sys now w (<[n := Started now]> ps))
| step_expiry n t1 now w ps : ps n = Started t1 →
    step (EAct n) (Sys now w ps) (Sys now w (<[n := Reading t1 now]> ps))
| step_read n t1 t2 seen now w w' ps : ps n = Reading t1 t2 →
    query (lock_view task) w = (seen, w') →
    step (EAct n) (Sys now w ps) (Sys now w' (<[n := Planned t1 (lock_decide n t2 seen)]> ps))
| step_write n t1 plan v now w w' ps : ps n = Planned t1 plan →
    lock_write affected task schedule n t1 plan w = (v, w') →
    step (EAct n) (Sys now w ps) (Sys now w' (<[n := after_write v t1]> ps))
| step_confirm n t1 b now w w' ps : ps n = Confirming t1 →
    lock_confirm task n w = (b, w') →
    step (EAct n) (Sys now w ps) (Sys now w' (<[n := if b then Holding t1 else Idle]> ps))
| step_release n t1 ok now w w' ps : ps n = Holding t1 →
    release_task_lock n task w = (ok, w') →
    step (ERelease n ok) (Sys now w ps) (Sys now w' (<[n := Idle]> ps))
| step_crash n now w ps : step (ECrash n) (Sys now w ps) (Sys now w (<[n := Idle]> ps)).

Definition step_any (s s' : sys W) : Prop := ∃ e, step e s s'.

(** The discipline under which the lock excludes: the clock stays within the years the
    timestamps can express; no crash, no failed release; and every run, counted from
    the clock reading it writes, ends a second before the timeout. *)
Definition lease : duration := lock_timeout - second.
Definition in_discipline (s : sys W) : Prop :=
  0 ≤ clock s < date_utc 10000 1 1 0 0 0 0 ∧
  ∀ n t1, started_at (nodes s n) = Some t1 → clock s ≤ t1 + lease.
Definition calm (s s' : sys W) : Prop :=
  ∃ e, step e s s' ∧ in_discipline s' ∧
    match e with ETick | EAct _ => True | ERelease _ ok => ok = true | ECrash _ => False end.

Definition initial (s : sys W) : Prop :=
  in_discipline s ∧ (∀ n, nodes s n = Idle) ∧
  ∀ r, t_state (tables (world s)) !! task = Some r → st_locked_by r = None.

(** The invariant: the row names exactly the node that holds the lock. *)
Record lock_inv (s : sys W) : Prop := {
  inv_discipline : in_discipline s;
  inv_past : ∀ n t1, started_at (nodes s n) = Some t1 → 0 ≤ t1 ≤ clock s;
  inv_reading : ∀ n t1 t2, nodes s n = Reading t1 t2 → t2 ≤ clock s;
  inv_plan : ∀ n t1 m, nodes s n ≠ Planned t1 (PlanCas (Some m));
  inv_holder : ∀ n t1, nodes s n = Holding t1 →
    ∃ r, t_state (tables (world s)) !! task = Some r ∧ st_locked_by r = Some n;
  inv_row : ∀ r n, t_state (tables (world s)) !! task = Some r → st_locked_by r = Some n →
    ∃ t1, nodes s n = Holding t1 ∧ st_locked_at r = VText (format_sql_timestamp t1)
}.

Hypothesis affected_changed : ∀ r r', r ≠ r' → affected r r' = true.
Hypothesis task_global : is_global_task task = true.

Ltac at_node n m :=
  destruct (decide (n = m)) as [<-|];
  [rewrite ?fn_lookup_insert in *|rewrite ?fn_lookup_insert_ne in * by done].

(** A node moves between phases that hold nothing, and the row stays. *)
Lemma lock_inv_move now w w' ps n p :
  lock_inv (Sys now w ps) → tables w' = tables w →
  in_discipline (Sys now w' (<[n := p]> ps)) →
  (∀ t, ps n ≠ Holding t) → (∀ t, p ≠ Holding t) →
  (∀ t1, started_at p = Some t1 → 0 ≤ t1 ≤ now) →
  (∀ t1 t2, p = Reading t1 t2 → t2 ≤ now) →
  (∀ t1 m, p ≠ Planned t1 (PlanCas (Some m))) →
  lock_inv (Sys now w' (<[n := p]> ps)).
Proof.
  intros [Hd Hpast Hread Hplan Hhold Hrow] Ht Hd' Hold Hnew Hp Hr Hc; simpl in *.
  split; [done|..]; simpl; rewrite ?Ht.
  - intros m t1. at_node n m; eauto.
  - intros m t1 t2. at_node n m; eauto.
  - intros m t1 k. at_node n m; eauto.
  - intros m t1. at_node n m; [by intros ?%Hnew|eauto].
  - intros r m Hr1 Hr2. destruct (Hrow r m Hr1 Hr2) as (t1 & Ht1 & ?).
    exists t1. at_node n m; [by apply Hold in Ht1|done].
Qed.

(** A node takes the free row. *)
Lemma lock_inv_take now w w' ps n t1 o :
  lock_inv (Sys now w ps) → t_state (tables w) !! task = o →
  (∀ r, o = Some r → st_locked_by r = None) → started_at (ps n) = Some t1 →
  tables w' = with_state (tables w)
    (<[task := locked_row n task schedule t1 o]> (t_state (tables w))) →
  in_discipline (Sys now w' (<[n := Holding t1]> ps)) →
  lock_inv (Sys now w' (<[n := Holding t1]> ps)).
Proof.
  intros [Hd Hpast Hread Hplan Hhold Hrow] Ho Hfree Hn Ht Hd'; simpl in *.
  split; [done|..]; simpl; rewrite ?Ht; unfold with_state; simpl; rewrite ?lookup_insert_eq.
  - intros m t. at_node n m; [intros [= <-]; by apply (Hpast n)|eauto].
  - intros m u1 u2. at_node n m; [done|eauto].
  - intros m u k. at_node n m; [done|eauto].
  - intros m u. at_node n m.
    + intros _. eexists. split; [done|]. apply locked_row_by.
    + intros (r & Hr & Hby)%Hhold. rewrite Ho in Hr. apply Hfree in Hr. congruence.
  - intros r m [= <-]. rewrite locked_row_by. intros [= <-]. exists t1.
    rewrite fn_lookup_insert. split; [done|]. by destruct o.
Qed.

(** A holder is never stale under the discipline, so nobody plans to rob it. *)
Lemma plan_honest now w ps n t1 t2 seen w' :
  lock_inv (Sys now w ps) → ps n = Reading t1 t2 → query (lock_view task) w = (seen, w') →
  ∀ m, lock_decide n t2 seen ≠ PlanCas (Some m).
Proof.
  intros [[Hclock Hlease] Hpast Hread Hplan Hhold Hrow] Hn Hq m; simpl in *.
  revert Hq. exec_case w1 E Ht; intros [= <- <-]; [|done].
  rewrite lock_decide_spec. unfold lockable.
  destruct (t_state (tables w) !! task) as [r|] eqn:Er; [|done].
  destruct (st_locked_by r) as [h|] eqn:Eh; [|done].
  destruct (Hrow r h eq_refl Eh) as (u & Hu & Hat).
  destruct (str_eqb h n) eqn:En; [apply str_eqb_eq in En; congruence|]. simpl.
  rewrite Hat. cbn [parse_stored_timestamp].
  pose proof (Hpast h u) as Hp. rewrite Hu in Hp. specialize (Hp eq_refl).
  specialize (Hlease h u). rewrite Hu in Hlease. specialize (Hlease eq_refl).
  specialize (Hread n t1 t2 Hn).
  rewrite parse_format_text by lia.
  assert (u - second < truncate u second) by (unfold truncate, second; zlia).
  destruct (Z.ltb_spec (truncate u second) (t2 - lock_timeout)); [|done].
  unfold lease, second in *. lia.
Qed.

(** A write planned on a free row takes the row if it is still free, and otherwise
    changes nothing. *)
Lemma lock_write_free n t1 plan w v w' :
  (∀ m, plan ≠ PlanCas (Some m)) →
  lock_write affected task schedule n t1 plan w = (v, w') →
  let o := t_state (tables w) !! task in
  (v ≠ Won ∧ tables w' = tables w) ∨
  (v = Won ∧ (∀ r, o = Some r → st_locked_by r = None) ∧
   tables w' = with_state (tables w)
     (<[task := locked_row n task schedule t1 o]> (t_state (tables w)))).
Proof.
  intros Hplan. destruct plan as [| |[m|]]; simpl; [|..|].
  - intros [= <- <-]. by left.
  - exec_case w1 E Ht; intros [= <- <-]; [|by left].
    unfold lock_insert in Ht. destruct (t_state (tables w) !! task); injection Ht as <- Ht.
    + by left.
    + right. by rewrite <-Ht.
  - by destruct (Hplan m).
  - exec_case w1 E Ht; intros [= <- <-]; [|by left].
    unfold lock_cas in Ht. destruct (t_state (tables w) !! task) as [r|].
    2:{ injection Ht as <- Ht. by left. }
    case_bool_decide as Hby; injection Ht as <- Ht; [|by left].
    right. rewrite affected_changed by (intros Hr; rewrite Hr in Hby; done).
    split_and!; [done| |by rewrite <-Ht]. by intros ? [= <-].
Qed.

Lemma release_clears n w w' r :
  t_state (tables w) !! task = Some r → st_locked_by r = Some n →
  release_task_lock n task w = (true, w') →
  t_state (tables w') = <[task := set_lock (st_schedule r) None VNull r]> (t_state (tables w)).
Proof.
  intros Hr Hby. unfold release_task_lock. rewrite task_global. cbn [negb].
  exec_case w1 E Ht; [|done]. intros [= <-].
  unfold lock_clear in Ht. rewrite Hr, bool_decide_true in Ht by done.
  injection Ht as _ Ht. by rewrite <-Ht.
Qed.

Lemma lock_inv_initial s : initial s → lock_inv s.
Proof.
  intros (Hd & Hidle & Hrow). split; [done|..]; try (intros n; rewrite Hidle; done).
  intros r n Hr Hby. apply Hrow in Hr. congruence.
Qed.

Ltac by_move :=
  eapply lock_inv_move; eauto; simpl; try congruence; intros; simplify_eq/=; (lia || done).

Lemma lock_inv_act n s s' :
  lock_inv s → step (EAct n) s s' → in_discipline s' → lock_inv s'.
Proof.
  intros Hinv Hstep Hd. inversion Hstep; subst; simpl in *;
    pose proof (inv_past _ Hinv n) as Hp; simpl in Hp;
    pose proof (proj1 (inv_discipline _ Hinv)) as Hclock; simpl in Hclock.
  - by_move.
  - rewrite H1 in Hp. by_move.
  - pose proof (plan_honest _ _ _ _ _ _ _ _ Hinv H1 H2) as Hplan. rewrite H1 in Hp.
    assert (tables w' = tables w) by (revert H2; exec_case w1 E Ht; by intros [= _ <-]).
    by_move.
  - assert (Hplan : ∀ m, plan ≠ PlanCas (Some m))
      by (intros m ->; by apply (inv_plan _ Hinv) in H1).
    destruct (lock_write_free _ _ _ _ _ _ Hplan H2) as [[Hv Ht]|(-> & Hfree & Ht)].
    + rewrite H1 in Hp. destruct v; by_move.
    + simpl in *. eapply lock_inv_take; eauto. by rewrite H1.
  - assert (b = false ∧ tables w' = tables w) as [-> Ht].
    { revert H2. unfold lock_confirm. exec_case w1 E Ht; intros [= <- <-]; [|done].
      split; [|done]. unfold lock_view. destruct (t_state (tables w) !! task) as [r|] eqn:Er; [|done].
      simpl. destruct (st_locked_by r) as [h|] eqn:Eh; [|done].
      destruct (str_eqb h n) eqn:En; [|done]. apply str_eqb_eq in En as ->.
      destruct (inv_row _ Hinv r n Er Eh) as (u & Hu & _). simpl in Hu. congruence. }
    rewrite H1 in Hp. by_move.
Qed.

Lemma lock_inv_release n s s' :
  lock_inv s → step (ERelease n true) s s' →
  in_discipline s' → lock_inv s'.
Proof.
  intros Hinv Hstep Hd. inversion Hstep as [| | | | | |? t1 ? now w w' ps Hn Hrel|]; subst; simpl in *.
  destruct Hinv as [_ Hpast Hread Hplan Hhold Hrow]; simpl in *.
  destruct (Hhold n t1) as (r & Hr & Hby); [done|].
  pose proof (release_clears _ _ _ _ Hr Hby Hrel) as Ht.
  split; [done|..]; simpl; rewrite ?Ht, ?lookup_insert_eq.
  - intros m t. at_node n m; [done|eauto].
  - intros m u1 u2. at_node n m; [done|eauto].
  - intros m u k. at_node n m; [done|eauto].
  - intros m u. at_node n m; [done|].
    intros (r' & Hr' & Hby')%Hhold. congruence.
  - by intros r' m [= <-].
Qed.

(** C1: The lock excludes.  Any number of nodes, each taking its own steps of
    [acquireTaskLock] and [releaseTaskLock] in any interleaving and under any database
    failure while acquiring, from a row that nobody holds: as long as no node dies while it
    takes or holds the lock, no release is lost, no node runs the task twice at a time,
    the nodes share a clock that does not run backwards and every run ends a second before
    the five-minute timeout, counted from the time it writes, two nodes never run the same
    global task at once, and whoever runs it is the node named in the row. *)
Theorem lock_excludes s s' n m t1 t2 :
  initial s → rtc (calm) s s' →
  nodes s' n = Holding t1 → nodes s' m = Holding t2 →
  n = m ∧ (st_locked_by <$> t_state (tables (world s')) !! task) = Some (Some n).
Proof.
  intros Hinit Hrun Hn Hm.
  assert (Hinv : lock_inv s').
  { apply lock_inv_initial in Hinit. induction Hrun as [|s s1 s2 (e & Hstep & Hd & He) Hrun IH]; [done|].
    apply IH; [|done|done]. destruct e as [|k|k ok|k]; [|by eapply lock_inv_act| |done].
    - inversion Hstep; subst. destruct Hinit as [_ Hpast Hread Hplan Hhold Hrow]; simpl in *.
      split; simpl; eauto; [intros k u Hu; specialize (Hpast k u Hu); lia|].
      intros k u1 u2 Hk. specialize (Hread k u1 u2 Hk). lia.
    - subst ok. by eapply lock_inv_release. }
  destruct (inv_holder _ Hinv n t1 Hn) as (r & Hr & Hby).
  destruct (inv_holder _ Hinv m t2 Hm) as (r' & Hr' & Hby').
  rewrite Hr. simpl. rewrite Hby. split; congruence.
Qed.
End interleaving.

(** * Concrete runs *)

Definition unheld : sched_tables :=
  SchedTables {["ssl-renewal" := fresh_row "ssl-renewal" "0 3 * * *" VNull None VNull]} [] [] ∅.
Definition start (t : sched_tables) : sys (reliable sched_tables) :=
  Sys noon (Reliable t) (λ _, Idle).

Ltac check_discipline :=
  split; [vm_compute; split; [discriminate|reflexivity]|];
  intros n t1; unfold insert, fn_insert; simpl; repeat case_decide; simpl; intros;
  simplify_eq; vm_compute; discriminate.


Lemma start_initial : initial "ssl-renewal" (start unheld).
Proof.
  split; [|split; [done|]].
  - split; [vm_compute; split; [discriminate|reflexivity]|done].
  - intros r Hr. vm_compute in Hr. by injection Hr as <-.
Qed.

Lemma lock_excludes_witness :
  ∃ s', rtc (calm always_affected "ssl-renewal" "0 3 * * *") (start unheld) s' ∧
    nodes s' "a" = Holding noon ∧
    (st_locked_by <$> t_state (tables (world s')) !! "ssl-renewal") = Some (Some "a").
Proof.
  eexists. apply and_wlog_r.
  - eapply rtc_l; [exists (EAct "a"); split_and!; [by apply step_start|check_discipline|done]|].
    eapply rtc_l; [exists (EAct "a"); split_and!; [by eapply step_expiry|check_discipline|done]|].
    eapply rtc_l; [exists (EAct "a"); split_and!; [by eapply step_read|check_discipline|done]|].
    eapply rtc_l; [exists (EAct "a"); split_and!; [by eapply step_write|check_discipline|done]|].
    apply rtc_refl.
  - intros Hrun. match type of Hrun with rtc _ _ ?s => assert (Hh : nodes s "a" = Holding noon) by (vm_compute; reflexivity) end.
    split; [exact Hh|].
    exact (proj2 (lock_excludes always_affected "ssl-renewal" "0 3 * * *" (λ _ _ _, eq_refl)
      eq_refl _ _ "a" "a" noon noon start_initial Hrun Hh Hh)).
Defined.

(** The relation, run: the steps of a schedule of moves. *)
Inductive move := MAct (node : string) | MCrash (node : string) | MWait (d : duration).

Definition run_move (m : move) (s : sys (reliable sched_tables)) : sys (reliable sched_tables) :=
  let 'Sys now w ps := s in
  match m with
  | MWait d => Sys (now + Z.abs d) w ps
  | MCrash n => Sys now w (<[n := Idle]> ps)
  | MAct n =>
      match ps n with
      | Idle => Sys now w (<[n := Started now]> ps)
      | Started t1 => Sys now w (<[n := Reading t1 now]> ps)
      | Reading t1 t2 =>
          let '(seen, w) := query (lock_view "ssl-renewal") w in
          Sys now w (<[n := Planned t1 (lock_decide n t2 seen)]> ps)
      | Planned t1 plan =>
          let '(v, w) := lock_write always_affected "ssl-renewal" "0 3 * * *" n t1 plan w in
          Sys now w (<[n := after_write v t1]> ps)
      | Confirming t1 =>
          let '(b, w) := lock_confirm "ssl-renewal" n w in
          Sys now w (<[n := if b then Holding t1 else Idle]> ps)
      | Holding t1 =>
          let '(_, w) := release_task_lock n "ssl-renewal" w in
          Sys now w (<[n := Idle]> ps)
      end
  end.

Lemma run_move_step m s : step_any always_affected "ssl-renewal" "0 3 * * *" s (run_move m s).
Proof.
  destruct s as [now w ps], m as [n|n|d]; cbn [run_move].
  - destruct (ps n) eqn:En.
    + exists (EAct n). by apply step_start.
    + exists (EAct n). by apply step_expiry.
    + destruct (query (lock_view "ssl-renewal") w) as [seen w'] eqn:E. exists (EAct n). by eapply step_read.
    + destruct (lock_write _ _ _ _ _ _ w) as [v w'] eqn:E. exists (EAct n). by eapply step_write.
    + destruct (lock_confirm _ _ w) as [b w'] eqn:E. exists (EAct n). by eapply step_confirm.
    + destruct (release_task_lock _ _ w) as [ok w'] eqn:E. exists (ERelease n ok).
      by eapply step_release.
  - exists (ECrash n). apply step_crash.
  - exists ETick. apply step_tick. lia.
Qed.

Definition run_moves (ms : list move) (s : sys (reliable sched_tables)) := fold_left (λ s m, run_move m s) ms s.

Lemma run_moves_reach ms s :
  rtc (step_any always_affected "ssl-renewal" "0 3 * * *") s (run_moves ms s).
Proof.
  revert s. induction ms as [|m ms IH]; intros s; [apply rtc_refl|].
  eapply rtc_l; [apply (run_move_step m)|apply IH].
Qed.

Definition robbery : list move :=
  [MAct "a"; MAct "a"; MAct "a"; MAct "a"; MCrash "a"; MWait (6 * minute);
   MAct "a"; MAct "a"; MAct "a"; MAct "b"; MAct "b"; MAct "b"; MAct "a"; MAct "b"].

(** The compare-and-swap looks at the holder only, not at when it took the lock.
    A node that dies holding the lock and comes back refreshes its own lock; another
    node that read the stale lock just before then finds the same holder in the row
    and takes it too.  Both run the global task, although every run respects the
    timeout and the database never fails. *)
Theorem lock_two_holders :
  ∃ s', rtc (step_any always_affected "ssl-renewal" "0 3 * * *") (start unheld) s' ∧
    nodes s' "a" = Holding (noon + 6 * minute) ∧ nodes s' "b" = Holding (noon + 6 * minute).
Proof.
  exists (run_moves robbery (start unheld)). split; [apply run_moves_reach|].
  split; vm_compute; reflexivity.
Qed.

(** The lock is per node, not per run: a run of the node's own ([TriggerTask]
    while the schedule's run is under way) gets it again, and the first of the two to
    finish releases it for both, so another node runs the task beside the second. *)
Theorem lock_reentrant_release :
  let acquire node now := acquire_task_lock always_affected node "ssl-renewal" "0 3 * * *" now now in
  let '(b1, w) := acquire "a" noon (Reliable unheld) in
  let '(b2, w) := acquire "a" (noon + minute) w in
  let '(_, w) := release_task_lock "a" "ssl-renewal" w in
  let '(b3, w) := acquire "b" (noon + 2 * minute) w in
  b1 = true ∧ b2 = true ∧ b3 = true.
Proof. vm_compute. done. Qed.
