(* ===== verification/Scheduler.v ===== *)
(** The task scheduler (src/scheduler/scheduler.go, task_history.go): the tasks and
    their in-memory state, the dispatch of due tasks, the catch-up of missed
    occurrences at startup, the execution of one task around the lock of [TaskLock],
    the retry policy, and the recorded history.  A task's own function is a parameter:
    what it does to the database and whether it returns, fails or panics. *)
From S2P Require Import Prelude GoStrings GoTime GoDuration Sql DbTime Cron TaskLock.
Open Scope Z_scope.

(** * Data *)

Record task := Task {
  tk_name : string;
  tk_schedule : string;
  tk_sched : schedule;
  tk_next_run : instant;
  tk_enabled : bool;
  tk_last_run : option instant;
  tk_retry_count : nat
}.

Record scheduler := Scheduler {
  s_tasks : gmap string task;
  s_active : gset string;
  s_running : bool;
  s_node : string;
  s_window : duration
}.

Definition set_next_run (t : instant) (tk : task) : task :=
  Task (tk_name tk) (tk_schedule tk) (tk_sched tk) t (tk_enabled tk) (tk_last_run tk)
    (tk_retry_count tk).
Definition set_enabled (b : bool) (tk : task) : task :=
  Task (tk_name tk) (tk_schedule tk) (tk_sched tk) (tk_next_run tk) b (tk_last_run tk)
    (tk_retry_count tk).
Definition set_last_run (t : instant) (tk : task) : task :=
  Task (tk_name tk) (tk_schedule tk) (tk_sched tk) (tk_next_run tk) (tk_enabled tk) (Some t)
    (tk_retry_count tk).
Definition set_retry (n : nat) (tk : task) : task :=
  Task (tk_name tk) (tk_schedule tk) (tk_sched tk) (tk_next_run tk) (tk_enabled tk)
    (tk_last_run tk) n.
Definition with_tasks (f : gmap string task → gmap string task) (s : scheduler) : scheduler :=
  Scheduler (f (s_tasks s)) (s_active s) (s_running s) (s_node s) (s_window s).

Definition default_catch_up_window : duration := hour.
Definition max_catch_up_scan : nat := 512.
Arguments max_catch_up_scan : simpl never.
Definition retry_delays : list duration := [5 * minute; 10 * minute; 20 * minute].

(** NewScheduler; [None] is a host whose name cannot be read *)
Definition new_scheduler (hostname : option string) : scheduler :=
  Scheduler ∅ ∅ false (default "default" hostname) default_catch_up_window.

(** SetCatchUpWindow *)
Definition set_catch_up_window (window : duration) (s : scheduler) : scheduler :=
  Scheduler (s_tasks s) (s_active s) (s_running s) (s_node s)
    (if window <? 0 then 0 else window).

(** The text of a stored instant; the zero time is stored as the empty string. *)
Definition stored_next_run (t : instant) : scanned :=
  VText (if is_zero t then "" else format_sql_timestamp t).

(** * Pure parts *)

(** latestOccurrenceBefore *)
Fixpoint latest_scan (fuel : nat) (nxt : instant → instant) (now cursor : instant)
    (latest : option instant) : option instant :=
  match fuel with
  | O => latest
  | S fuel =>
      let n := nxt cursor in
      if negb (cursor <? n) || (now <? n) then latest
      else latest_scan fuel nxt now n (Some n)
  end.
Definition latest_occurrence_before (nxt : instant → instant) (now : instant)
    (window : duration) : option instant :=
  latest_scan max_catch_up_scan nxt now (now - window) None.

(** applyRetryPolicy *)
Definition apply_retry_policy (end_ : instant) (failed : bool) (tk : task) : task :=
  if negb failed then set_retry 0 tk else
  match retry_delays !! tk_retry_count tk with
  | None => set_retry 0 tk
  | Some delay =>
      let retry_at := end_ + delay in
      let tk := set_retry (S (tk_retry_count tk)) tk in
      if is_zero (tk_next_run tk) || (retry_at <? tk_next_run tk)
      then set_next_run retry_at tk else tk
  end.

(** How a call of a task's function ends, and runTaskFn's recovery. *)
Inductive fn_outcome := Returned (err : option string) | Panicked (value : string).
Definition run_task_fn (o : fn_outcome) : option string :=
  match o with
  | Returned err => err
  | Panicked v => Some ("task panicked: " +:+ v)
  end.

(** markActive *)
Definition mark_active (name : string) (active : bool) (s : scheduler) : scheduler :=
  Scheduler (s_tasks s) (if active then {[name]} ∪ s_active s else s_active s ∖ {[name]})
    (s_running s) (s_node s) (s_window s).

(** The test of [runDueTasks] on one task. *)
Definition is_due (now : instant) (tk : task) : bool :=
  tk_enabled tk && negb (is_zero (tk_next_run tk)) && negb (now <? tk_next_run tk).

(** EnableTask, DisableTask and GetTask *)
Definition switch_task (b : bool) (name : string) (s : scheduler) : result string scheduler :=
  match s_tasks s !! name with
  | None => Fail ("task '" +:+ name +:+ "' not found")
  | Some tk => Ok (with_tasks <[name := set_enabled b tk]> s)
  end.
Definition enable_task : string → scheduler → result string scheduler := switch_task true.
Definition disable_task : string → scheduler → result string scheduler := switch_task false.
Definition get_task (name : string) (s : scheduler) : option task := s_tasks s !! name.

(** activeTaskNames *)
Definition active_task_names (s : scheduler) : list string :=
  merge_sort String.le (elements (s_active s)).

(** * Operations over the database *)

Section operations.
Context `{Database W sched_tables} (affected : state_row → state_row → bool) (loc : location).

(** A statement on one row of server_scheduler_state, if it exists. *)
Definition update_row (id : string) (f : state_row → state_row) (t : sched_tables)
  : unit * sched_tables :=
  (tt, with_state t (alter f id (t_state t))).

(** INSERT OR IGNORE, and UPDATE ... SET task_name, schedule, next_run *)
Definition insert_task_row (tk : task) (t : sched_tables) : unit * sched_tables :=
  (tt, match t_state t !! tk_name tk with
       | Some _ => t
       | None => with_state t (<[tk_name tk := fresh_row (tk_name tk) (tk_schedule tk)
                    (stored_next_run (tk_next_run tk)) None VNull]> (t_state t))
       end).
Definition refresh_row (tk : task) (r : state_row) : state_row :=
  StateRow (tk_name tk) (tk_schedule tk) (st_last_run r) (st_last_status r) (st_last_error r)
    (stored_next_run (tk_next_run tk)) (st_run_count r) (st_fail_count r) (st_enabled r)
    (st_locked_by r) (st_locked_at r).

(** ensureTaskStateRow *)
Definition ensure_task_state_row (tk : task) (w : W) : W :=
  let '(ok, w) := exec (insert_task_row tk) w in
  match ok with
  | None => w
  | Some _ => (exec (update_row (tk_name tk) (refresh_row tk)) w).2
  end.

(** AddTask, and AddTaskInterval; [now] is the clock *)
Definition add_task (name spec : string) (now : instant) (s : scheduler) (w : W)
  : result schedule_error scheduler * W :=
  match parse_schedule spec with
  | Fail e => (Fail e, w)
  | Ok parsed =>
      let tk := Task name spec parsed (next loc parsed now) true None 0 in
      (Ok (with_tasks <[name := tk]> s), ensure_task_state_row tk w)
  end.
Definition add_task_interval (name : string) (interval : duration) (now : instant)
    (s : scheduler) (w : W) : result schedule_error scheduler * W :=
  add_task name ("@every " +:+ duration_string interval) now s w.

(** runDueTasks: the tasks it dispatches, and the state with their next runs; the
    order is the iteration order of the map, which Go leaves open, and every dispatch
    is a goroutine of its own. *)
Definition due_tasks (now : instant) (s : scheduler) : list task :=
  filter (λ tk, is_due now tk = true) (map_to_list (s_tasks s)).*2.
Definition run_due_tasks (now : instant) (s : scheduler) : list task * scheduler :=
  (due_tasks now s,
   with_tasks (fmap (λ tk, if is_due now tk then set_next_run (next loc (tk_sched tk) now) tk
                           else tk)) s).

(** loadTaskRunsNewestFirst, GetTaskHistory and GetLastTaskRun *)
Record task_run := TaskRun {
  run_id : Z; run_start : instant; run_end : instant; run_duration : Z;
  run_status : string; run_error : string
}.
Definition task_run_of (h : history_row) : task_run :=
  TaskRun (hi_id h) (default zero_time (parse_stored_timestamp (hi_start h)))
    (default zero_time (parse_stored_timestamp (hi_end h))) (hi_duration h) (hi_status h)
    (default "" (hi_error h)).
Definition newer (a b : task_run) : bool := run_start b <? run_start a.
Definition load_task_runs_newest_first (name : string) (limit : Z) (w : W)
  : option (list task_run) * W :=
  let '(rows, w) := query (λ t,
    sort_stable (λ a b, hi_id b <? hi_id a) (filter (λ h, hi_task h = name) (t_history t))) w in
  ((λ rows, let history := sort_stable newer (map task_run_of rows) in
            if (0 <? limit) && (limit <? Z.of_nat (length history))
            then take (Z.to_nat limit) history else history) <$> rows, w).
Definition get_task_history (name : string) (limit : Z) (w : W) :=
  load_task_runs_newest_first name (if limit <=? 0 then 50 else limit) w.
Definition get_last_task_run (name : string) (w : W) : option (option task_run) * W :=
  let '(h, w) := load_task_runs_newest_first name 1 w in (head <$> h, w).

(** runMissedTasks: the queue it replays, in order. *)
Definition missed_run (now window : instant) (tk : task) (w : W) : option (task * instant) * W :=
  if negb (tk_enabled tk) then (None, w) else
  match latest_occurrence_before (next loc (tk_sched tk)) now window with
  | None => (None, w)
  | Some due =>
      let '(last, w) := get_last_task_run (tk_name tk) w in
      (match last with
       | Some (Some r) => if negb (run_start r <? due) then None else Some (tk, due)
       | _ => None
       end, w)
  end.
Fixpoint missed_runs (now window : instant) (candidates : list task) (w : W)
  : list (task * instant) * W :=
  match candidates with
  | [] => ([], w)
  | tk :: candidates =>
      let '(m, w) := missed_run now window tk w in
      let '(ms, w) := missed_runs now window candidates w in
      (match m with Some m => m :: ms | None => ms end, w)
  end.
Definition earlier (a b : task * instant) : bool := a.2 <? b.2.
Definition run_missed_tasks (now : instant) (candidates : list task) (s : scheduler) (w : W)
  : list (task * instant) * W :=
  if s_window s <=? 0 then ([], w) else
  let '(missed, w) := missed_runs now (s_window s) candidates w in
  (sort_stable earlier missed, w).

(** logTaskExecution; the node is the actor *)
Definition log_task_execution (node name : string) (elapsed : duration) (err : option string)
    (w : W) : W :=
  let '(v, w) := query (λ t, t_config t !! "audit.enabled") w in
  match v with
  | Some (Some v) =>
      if negb (str_eqb v "true") then w else
      let row := match err with
                 | None => AuditRow node name ("Completed in " +:+ duration_string elapsed) "success"
                 | Some e => AuditRow node name ("Failed: " +:+ e) "error"
                 end in
      (exec (λ t, (tt, SchedTables (t_state t) (t_history t) (row :: t_audit t) (t_config t))) w).2
  | _ => w
  end.

(** persistTaskState *)
Definition persist_row (next_run end_ : instant) (err : option string) (r : state_row) : state_row :=
  StateRow (st_name r) (st_schedule r) (VText (format_sql_timestamp end_))
    (Some (match err with None => "success" | Some _ => "failed" end)) (Some (default "" err))
    (stored_next_run next_run) (st_run_count r + 1)
    (st_fail_count r + match err with None => 0 | Some _ => 1 end)
    (st_enabled r) (st_locked_by r) (st_locked_at r).
Definition persist_task_state (tk : task) (end_ : instant) (err : option string) (w : W) : W :=
  (exec (update_row (tk_name tk) (persist_row (tk_next_run tk) end_ err)) w).2.

(** RecordTaskRun; the id is the next of its column *)
Definition next_history_id (h : list history_row) : Z :=
  1 + foldr (λ r, Z.max (hi_id r)) 0 h.
Definition record_task_run (name : string) (start end_ : instant) (err : option string) (w : W)
  : bool * W :=
  let '(ok, w) := exec (λ t,
    (tt, SchedTables (t_state t)
           (HistoryRow (next_history_id (t_history t)) name (VText (format_sql_timestamp start))
              (VText (format_sql_timestamp end_)) (Z.quot (sub end_ start) 1000000)
              (match err with None => "success" | Some _ => "error" end)
              (Some (default "" err)) :: t_history t)
           (t_audit t) (t_config t))) w in
  (bool_decide (is_Some ok), w).

(** executeTask, on the task's own goroutine: [now1] and [now2] are the clock readings
    of the lock, [start] and [end_] those around the call of the task's function. The
    first component is the error of the run, [None] when the function was not called. *)
Definition execute_task (name : string) (now1 now2 start end_ : instant)
    (fn : W → fn_outcome * W) (s : scheduler) (w : W)
  : option (option string) * scheduler * W :=
  match s_tasks s !! name with
  | None => (None, s, w)
  | Some tk =>
      if negb (tk_enabled tk) then (None, s, w) else
      let '(got, w) := acquire_task_lock affected (s_node s) name (tk_schedule tk) now1 now2 w in
      if negb got then (None, s, w) else
      let s := mark_active name true s in
      let '(out, w) := fn w in
      let err := run_task_fn out in
      let tk := apply_retry_policy end_ (bool_decide (is_Some err)) (set_last_run end_ tk) in
      let s := with_tasks <[name := tk]> s in
      let w := log_task_execution (s_node s) name (sub end_ start) err w in
      let w := persist_task_state tk end_ err w in
      let '(_, w) := record_task_run name start end_ err w in
      let s := mark_active name false s in
      let '(_, w) := release_task_lock (s_node s) name w in
      (Some err, s, w)
  end.

(** TriggerTask: the same execution on a new goroutine, whatever the schedule says *)
Definition trigger_task (name : string) (s : scheduler) : result string (option task) :=
  match s_tasks s !! name with
  | None => Fail ("task '" +:+ name +:+ "' not found")
  | Some tk => Ok (Some tk)
  end.

(** releaseNodeLocks, markTasksInterrupted and StopScheduler; [drained] tells whether
    the running tasks ended within [shutdownDrainTimeout] *)
Definition release_node_locks (node : string) (w : W) : W :=
  (exec (λ t, (tt, with_state t ((λ r, if bool_decide (st_locked_by r = Some node)
                                       then set_lock (st_schedule r) None VNull r else r)
                                 <$> t_state t))) w).2.
Definition interrupt_row (r : state_row) : state_row :=
  StateRow (st_name r) (st_schedule r) (st_last_run r) (Some "interrupted")
    (Some "interrupted by server shutdown") (st_next_run r) (st_run_count r)
    (st_fail_count r + 1) (st_enabled r) (st_locked_by r) (st_locked_at r).
Definition mark_tasks_interrupted (names : list string) (w : W) : W :=
  foldl (λ w name, (exec (update_row name interrupt_row) w).2) w names.
Definition stop_scheduler (drained : bool) (s : scheduler) (w : W) : scheduler * W :=
  if negb (s_running s) then (s, w) else
  let s := Scheduler (s_tasks s) (s_active s) false (s_node s) (s_window s) in
  let w := if drained then w else mark_tasks_interrupted (active_task_names s) w in
  (s, release_node_locks (s_node s) w).

(** StartScheduler: the catch-up queue, then the loop *)
Definition start_scheduler (now : instant) (candidates : list task) (s : scheduler) (w : W)
  : list (task * instant) * scheduler * W :=
  if s_running s then ([], s, w) else
  let s := Scheduler (s_tasks s) (s_active s) true (s_node s) (s_window s) in
  let '(missed, w) := run_missed_tasks now candidates s w in (missed, s, w).

(** GetTaskStats: total, successes and errors; over no row the sums are NULL and the
    scan fails *)
Definition get_task_stats (name : string) (w : W) : option (Z * Z * Z) * W :=
  let '(h, w) := query (λ t, filter (λ r, hi_task r = name) (t_history t)) w in
  let count st h := Z.of_nat (length (filter (λ r, hi_status r = st) h)) in
  (match h with
   | None | Some [] => None
   | Some h => Some (Z.of_nat (length h), count "success" h, count "error" h)
   end, w).
End operations.

(** * Dispatch *)

(** Every task of the scheduler is filed under its name and has a schedule the parser accepted. *)
Definition tasks_ok (s : scheduler) : Prop :=
  ∀ name tk, s_tasks s !! name = Some tk → tk_name tk = name ∧ schedule_ok (tk_sched tk).

Lemma elem_of_due now s tk :
  tk ∈ due_tasks now s ↔ is_due now tk = true ∧ ∃ name, s_tasks s !! name = Some tk.
Proof.
  unfold due_tasks. rewrite list_elem_of_filter, list_elem_of_fmap. split.
  - intros [Hd ([name tk'] & -> & Hm)]. split; [done|]. exists name. by apply elem_of_map_to_list.
  - intros [Hd [name Hm]]. split; [done|]. exists (name, tk). by rewrite elem_of_map_to_list.
Qed.

Lemma is_due_spec now tk :
  is_due now tk = true ↔ tk_enabled tk = true ∧ tk_next_run tk ≠ zero_time ∧ tk_next_run tk ≤ now.
Proof.
  unfold is_due, is_zero. rewrite !andb_true_iff, !negb_true_iff, Z.eqb_neq, Z.ltb_ge. tauto.
Qed.

(** Once advanced, a task is not due at the same instant. *)
Lemma advanced_not_due loc now tk :
  schedule_ok (tk_sched tk) → is_due now (set_next_run (next loc (tk_sched tk) now) tk) = false.
Proof.
  intros Hok. apply not_true_is_false. rewrite is_due_spec. simpl. intros (_ & Hz & Hle).
  destruct (next_forward loc (tk_sched tk) now Hok); [lia|done].
Qed.

(** [AddTask] keeps every schedule well formed. *)
Lemma add_task_ok `{Database W sched_tables} loc name spec now s (w : W) s' w' :
  tasks_ok s → add_task loc name spec now s w = (Ok s', w') → tasks_ok s'.
Proof.
  intros Hok. unfold add_task. destruct (parse_schedule spec) as [parsed|e] eqn:E; [|done].
  intros [= <- _] name' tk. simpl. destruct (decide (name = name')) as [<-|].
  - rewrite lookup_insert_eq. intros [= <-]. split; [done|]. by eapply parse_schedule_wf.
  - rewrite lookup_insert_ne by done. apply Hok.
Qed.

(** The names of the tasks dispatched are names of the map, each once. *)
Lemma due_names now s : tasks_ok s → NoDup (map tk_name (due_tasks now s)).
Proof.
  intros Hok. unfold due_tasks. assert (E : map tk_name (map_to_list (s_tasks s)).*2 = (map_to_list (s_tasks s)).*1).
  { rewrite <-list_fmap_compose. apply list_fmap_ext. intros i [n tk] Hi. apply list_elem_of_lookup_2, elem_of_map_to_list in Hi.
    apply Hok in Hi as [Hn _]. exact Hn. }
  eapply sublist_NoDup; [apply (NoDup_fst_map_to_list (s_tasks s))|]. rewrite <-E. apply (fmap_sublist tk_name), sublist_filter.
Qed.

(** C15: [runDueTasks] dispatches exactly the enabled tasks whose next run has come,
    each of them once: it moves their next run past the tick (or to "never"), so a
    second pass at the same instant dispatches nothing; and it touches no other task. *)
Theorem run_due_tasks_once loc now s due s' :
  tasks_ok s → run_due_tasks loc now s = (due, s') →
  (∀ tk, tk ∈ due ↔ tk_enabled tk = true ∧ tk_next_run tk ≠ zero_time ∧
                    tk_next_run tk ≤ now ∧ ∃ name, s_tasks s !! name = Some tk) ∧
  NoDup (map tk_name due) ∧
  (run_due_tasks loc now s').1 = [] ∧
  (∀ name, s_tasks s' !! name =
     (λ tk, if is_due now tk then set_next_run (next loc (tk_sched tk) now) tk else tk)
       <$> s_tasks s !! name) ∧
  tasks_ok s'.
Proof.
  intros Hok [= <- <-]. simpl.
  assert (Hlook : ∀ name, s_tasks (with_tasks (fmap (λ tk, if is_due now tk
      then set_next_run (next loc (tk_sched tk) now) tk else tk)) s) !! name =
    (λ tk, if is_due now tk then set_next_run (next loc (tk_sched tk) now) tk else tk)
       <$> s_tasks s !! name) by (intros name; apply lookup_fmap).
  split_and!; [|..|done|].
  - intros tk. rewrite elem_of_due, is_due_spec. tauto.
  - by apply due_names.
  - apply elem_of_nil_inv. intros tk. rewrite elem_of_due. intros [Hd [name Hm]].
    rewrite Hlook in Hm. destruct (s_tasks s !! name) as [tk0|] eqn:E; [|done].
    injection Hm as <-. destruct (is_due now tk0) eqn:E0; [|congruence].
    rewrite advanced_not_due in Hd; [done|]. by apply Hok in E as [_ ?].
  - intros name tk. rewrite Hlook. destruct (s_tasks s !! name) as [tk0|] eqn:E; [|done].
    intros [= <-]. apply Hok in E. by destruct (is_due now tk0).
Qed.

(** Two tasks added at noon: one every five minutes, one at two in the morning. *)
Definition demo : scheduler :=
  let s := new_scheduler (Some "node-a") in
  let add name spec s := match (add_task utc name spec noon s (Reliable unheld)).1 with
                         | Ok s => s | Fail _ => s end in
  add "cleanup" "@every 5m" (add "backup-daily" "0 2 * * *" s).

Lemma demo_ok : tasks_ok demo.
Proof.
  assert (Hadd : ∀ name spec s, tasks_ok s → tasks_ok (match (add_task utc name spec noon s
    (Reliable unheld)).1 with Ok s => s | Fail _ => s end)).
  { intros name spec s Hs. destruct (add_task _ _ _ _ _ _) as [[s'|] w'] eqn:E; simpl; [|done].
    by eapply add_task_ok. }
  apply Hadd, Hadd. intros name tk Hm. discriminate Hm.
Qed.

Lemma run_due_tasks_once_witness :
  map tk_name (run_due_tasks utc (noon + 5 * minute) demo).1 = ["cleanup"] ∧
  (run_due_tasks utc (noon + 5 * minute) (run_due_tasks utc (noon + 5 * minute) demo).2).1 = [].
Proof.
  split; [vm_compute; reflexivity|].
  exact (proj1 (proj2 (proj2 (run_due_tasks_once utc (noon + 5 * minute) demo _ _ demo_ok eq_refl)))).
Defined.

(** * Retries *)

Lemma retry_delays_lookup n : retry_delays !! n =
  match n with 0%nat => Some (5 * minute) | 1%nat => Some (10 * minute)
  | 2%nat => Some (20 * minute) | _ => None end.
Proof. by destruct n as [|[|[|[|]]]]. Qed.

(** A history of runs of one task: when each ended, and whether it failed; between two
    runs the dispatcher may have moved the next run anywhere. *)
Definition run_history (l : list (instant * bool * instant)) (tk : task) : task :=
  foldl (λ tk '(end_, failed, next_run), apply_retry_policy end_ failed (set_next_run next_run tk))
    tk l.

(** The failures at the end of a history. *)
Definition trailing_failures (l : list (instant * bool * instant)) : nat :=
  foldl (λ n '(_, failed, _), if failed : bool then S n else 0%nat) 0%nat l.

Lemma retry_count_apply end_ failed tk :
  (tk_retry_count tk ≤ 3)%nat →
  tk_retry_count (apply_retry_policy end_ failed tk) =
  (if failed then if Nat.eqb (tk_retry_count tk) 3 then 0 else S (tk_retry_count tk) else 0)%nat.
Proof.
  intros Hc. unfold apply_retry_policy. destruct failed; [|done]. simpl.
  rewrite retry_delays_lookup.
  destruct (tk_retry_count tk) as [|[|[|[|n]]]]; [..|lia]; simpl; try done;
    by destruct (_ || _).
Qed.

Lemma mod4_succ n :
  (S n mod 4 = if Nat.eqb (n mod 4) 3 then 0 else S (n mod 4))%nat.
Proof.
  pose proof (Nat.mod_upper_bound n 4 ltac:(lia)). pose proof (Nat.div_mod_eq n 4).
  symmetry. destruct (Nat.eqb_spec (n mod 4) 3).
  - apply (Nat.mod_unique _ _ (S (n / 4))); lia.
  - apply (Nat.mod_unique _ _ (n / 4)); lia.
Qed.

Lemma retry_count_history l tk :
  tk_retry_count tk = 0%nat →
  tk_retry_count (run_history l tk) = (trailing_failures l mod 4)%nat.
Proof.
  intros H0. unfold run_history, trailing_failures.
  induction l as [|[[e f] nr] l IH] using rev_ind; [done|].
  rewrite !foldl_app. cbn [foldl].
  generalize dependent (foldl (λ n '(_, failed, _), if failed : bool then S n else 0%nat) 0%nat l).
  intros n IH. pose proof (Nat.mod_upper_bound n 4 ltac:(lia)).
  rewrite retry_count_apply by (cbn [set_next_run tk_retry_count]; rewrite IH; lia).
  cbn [set_next_run tk_retry_count]. rewrite IH. destruct f; [|done]. symmetry. apply mod4_succ.
Qed.

(** C16: The retry policy, over any history of a task that started with no retry
    pending, whatever the dispatcher did to its next run in between.  After a failure
    that is the first, second or third of its series (counted in cycles of four) the
    task runs again 5, 10 or 20 minutes after the failed run ended, or earlier if its
    schedule says so; after the fourth, and after a success, the policy leaves the
    next run alone. *)
Theorem retry_policy_correct l end_ failed tk0 next_run :
  tk_retry_count tk0 = 0%nat →
  let tk := set_next_run next_run (run_history l tk0) in
  let tk' := apply_retry_policy end_ failed tk in
  let k := (trailing_failures l mod 4)%nat in
  tk_next_run tk' =
    match failed, [5; 10; 20] !! k with
    | true, Some m =>
        if is_zero next_run then end_ + m * minute else Z.min next_run (end_ + m * minute)
    | _, _ => next_run
    end ∧
  tk_retry_count tk' = (if failed then if Nat.eqb k 3 then 0 else S k else 0)%nat ∧
  tk_enabled tk' = tk_enabled tk ∧ tk_sched tk' = tk_sched tk.
Proof.
  intros H0 tk tk' k. pose proof (retry_count_history l tk0 H0) as Hc.
  assert (Hk : (k < 4)%nat) by (apply Nat.mod_upper_bound; lia).
  assert (Hc' : tk_retry_count tk = k) by (exact Hc).
  split; [|split; [rewrite <-Hc'; apply retry_count_apply; lia|]].
  - unfold tk', apply_retry_policy. destruct failed; [|done]. cbn [negb].
    rewrite Hc', retry_delays_lookup. clearbody k. clear Hc Hc'.
    destruct k as [|[|[|[|k]]]]; [..|lia]; simpl; [..|done];
      (destruct (is_zero next_run); simpl; [done|]);
      case_match; bool_facts; simpl; rewrite ?Z.min_l, ?Z.min_r by (unfold_time; lia); done.
  - unfold tk', apply_retry_policy. destruct failed; [|done]. cbn [negb].
    destruct (retry_delays !! _); [|done]. by destruct (_ || _).
Qed.

Lemma retry_policy_correct_witness :
  let tk := Task "backup-daily" "0 2 * * *" (CronSchedule daily_0200) zero_time true None 0 in
  let l := [(noon, true, noon + day_ns); (noon + 5 * minute, true, noon + day_ns)] in
  tk_next_run (apply_retry_policy (noon + hour) true (set_next_run (noon + day_ns) (run_history l tk)))
    = noon + hour + 20 * minute.
Proof.
  intros tk l.
  destruct (retry_policy_correct l (noon + hour) true tk (noon + day_ns) eq_refl) as [H _].
  etransitivity; [exact H|vm_compute; reflexivity].
Defined.

(** * Catch-up at startup *)

(** The whole minutes between two instants. *)
Lemma aligned_div u : u mod minute = 0 → u = minute * (u / minute).
Proof. intros Hu. pose proof (Z.div_mod u minute ltac:(done)). lia. Qed.

(** The walk over a cron schedule: as long as the fuel covers the whole minutes of the
    window, it ends on the last match. *)
Lemma latest_scan_cron loc c now fuel cursor latest :
  0 ≤ cursor ≤ now → now / minute - cursor / minute ≤ Z.of_nat fuel → (fuel <= 512)%nat →
  let r := latest_scan fuel (cron_next loc c) now cursor latest in
  (r = latest ∧ ∀ u, cursor < u ≤ now → u mod minute = 0 → cron_matches loc c u = false) ∨
  (∃ v, r = Some v ∧ cursor < v ≤ now ∧ v mod minute = 0 ∧ cron_matches loc c v = true ∧
     ∀ u, v < u ≤ now → u mod minute = 0 → cron_matches loc c u = false).
Proof.
  revert cursor latest. induction fuel as [|fuel IH]; intros cursor latest Hcur Hf Hmax r.
  - left. split; [done|]. intros u Hu Hmod. exfalso. apply aligned_div in Hmod.
    clear -Hmod Hu Hf. unfold minute, second in *. zlia.
  - assert (Hhor : now ≤ truncate cursor minute + Z.of_nat max_scan_minutes * minute).
    { rewrite max_scan_minutes_Z. unfold truncate. pose proof (Z.div_mod cursor minute ltac:(done)).
      clear -Hf Hmax H. unfold minute, second in *. zlia. }
    unfold r. cbn [latest_scan]. set (n := cron_next loc c cursor).
    assert (Hbefore : ∀ u, cursor < u ≤ now → u mod minute = 0 → cron_matches loc c u = true →
      cursor < n ≤ u) by (intros; apply cron_next_before; [lia|done|lia|done]).
    destruct (Z.ltb_spec cursor n) as [Hn|Hn], (Z.ltb_spec now n) as [Hn'|Hn']; simpl;
      try (left; split; [done|]; intros u Hu Hmod; apply not_true_is_false; intros Hm;
           specialize (Hbefore u Hu Hmod Hm); lia).
    destruct (cron_next_found loc c cursor Hn ltac:(lia)) as [Hnm Hna]. fold n in Hnm, Hna.
    destruct (IH n (Some n)) as [[-> Hnone]|(v & -> & Hv & Hrest)].
    + lia.
    + apply aligned_div in Hna. clear -Hna Hn Hf. unfold minute, second in *. zlia.
    + lia.
    + right. exists n. split_and!; [done|lia|lia|done|done|exact Hnone].
    + right. exists v. split; [done|]. split; [lia|done].
Qed.

(** For a cron schedule and a window of at most 511 minutes (the default is 60),
    [latestOccurrenceBefore] is exact: it finds the last matching minute of the window,
    and nothing only when no minute of the window matches.  The bound of 512 steps is
    never the reason it stops. *)
Theorem catch_up_cron loc c now window :
  0 ≤ window ≤ 511 * minute → window ≤ now →
  match latest_occurrence_before (next loc (CronSchedule c)) now window with
  | Some v => now - window < v ≤ now ∧ v mod minute = 0 ∧ cron_matches loc c v = true ∧
      ∀ u, v < u ≤ now → u mod minute = 0 → cron_matches loc c u = false
  | None => ∀ u, now - window < u ≤ now → u mod minute = 0 → cron_matches loc c u = false
  end.
Proof.
  intros Hw Hnow. unfold latest_occurrence_before.
  change (next loc (CronSchedule c)) with (cron_next loc c).
  destruct (latest_scan_cron loc c now max_catch_up_scan (now - window) None)
    as [[-> Hnone]|(v & -> & Hv)]; [lia| |unfold max_catch_up_scan; lia|exact Hnone|exact Hv].
  change (Z.of_nat max_catch_up_scan) with 512.
  clear -Hw. unfold minute, second in *. zlia.
Qed.

Lemma catch_up_cron_witness :
  let now := date_utc 2024 6 15 2 30 0 0 in
  let v := date_utc 2024 6 15 2 0 0 0 in
  latest_occurrence_before (next utc (CronSchedule daily_0200)) now hour = Some v ∧
  ∀ u, v < u ≤ now → u mod minute = 0 → cron_matches utc daily_0200 u = false.
Proof.
  intros now v.
  assert (E : latest_occurrence_before (next utc (CronSchedule daily_0200)) now hour = Some v)
    by (vm_compute; reflexivity).
  split; [exact E|].
  pose proof (catch_up_cron utc daily_0200 now hour) as H. rewrite E in H.
  apply H; vm_compute; [split; discriminate|discriminate].
Defined.

(** For an interval schedule the walk counts from the edge of the window, not from
    the last run: whenever the interval divides the window (["@every 5m"] and the
    default hour), the "missed occurrence" is the very instant of the start, so every
    such task that has ever run is run again at every startup, however recently it
    ran. *)
Theorem catch_up_interval d now window :
  0 < d → window mod d = 0 → d <= window → window / d <= 512 →
  latest_occurrence_before (next utc (EverySchedule d)) now window = Some now.
Proof.
  intros Hd Hmod Hle H512. unfold latest_occurrence_before.
  pose proof (Z.div_mod window d ltac:(lia)) as Hdm.
  assert (H1 : 1 ≤ window / d) by (apply Z.div_le_lower_bound; lia).
  set (k := window / d) in *. rewrite Hmod in Hdm. clearbody k.
  assert (Hgo : ∀ fuel j cursor latest, 0 ≤ j → j ≤ Z.of_nat fuel → cursor = now - j * d →
    (j = 0 → latest = Some now) →
    latest_scan fuel (next utc (EverySchedule d)) now cursor latest = Some now).
  { induction fuel as [|fuel IH]; intros j cursor latest Hj Hf -> Hl; [apply Hl; lia|].
    cbn [latest_scan next].
    destruct (Z.ltb_spec (now - j * d) (now - j * d + d)); [|lia].
    destruct (Z.ltb_spec now (now - j * d + d)) as [Hlast|Hmore]; simpl.
    - apply Hl. nia.
    - apply (IH (j - 1)); [nia|lia|lia|]. intros Hj1. f_equal. nia. }
  apply (Hgo _ k); [lia| |lia|lia]. change (Z.of_nat max_catch_up_scan) with 512. lia.
Qed.

Lemma catch_up_interval_witness :
  latest_occurrence_before (next utc (EverySchedule (5 * minute))) noon default_catch_up_window
    = Some noon.
Proof. apply catch_up_interval; vm_compute; (reflexivity || discriminate). Defined.

(** * History *)

Lemma newer_sorted l : StronglySorted (λ a b, run_start b <= run_start a) (sort_stable newer l).
Proof.
  assert (H : StronglySorted (λ a b, newer b a = false) (sort_stable newer l)).
  { apply sort_stable_sorted; unfold newer.
    - intros x y z ?%Z.ltb_ge ?%Z.ltb_ge. apply Z.ltb_ge. lia.
    - intros x y ?%Z.ltb_lt. apply Z.ltb_ge. lia. }
  induction H as [|a l' Hs IH Hf]; constructor; [done|].
  eapply Forall_impl; [exact Hf|]. intros b. unfold newer. by intros ?%Z.ltb_ge.
Qed.

(** The runs recorded for a task. *)
Definition recorded (name : string) (t : sched_tables) : list task_run :=
  map task_run_of (filter (λ h, hi_task h = name) (t_history t)).

Section history.
Context `{DatabaseLaws W sched_tables}.

Lemma load_runs_cases name limit (w : W) :
  (∃ w', load_task_runs_newest_first name limit w = (None, w') ∧ tables w' = tables w) ∨
  (∃ w' all, load_task_runs_newest_first name limit w =
       (Some (if (0 <? limit) && (limit <? Z.of_nat (length all))
              then take (Z.to_nat limit) all else all), w') ∧
     tables w' = tables w ∧ all ≡ₚ recorded name (tables w) ∧
     StronglySorted (λ a b, run_start b <= run_start a) all).
Proof.
  unfold load_task_runs_newest_first. exec_case w' E Ht; [right|left; by exists w'].
  set (rows := sort_stable _ _). exists w', (sort_stable newer (map task_run_of rows)).
  split_and!; [done|done| |apply newer_sorted].
  rewrite sort_stable_Permutation. unfold recorded, rows. apply Permutation_map, sort_stable_Permutation.
Qed.

(** The history of a task is its most recent runs, newest first, whatever order,
    time zone or layout the rows were stored in: a list sorted by the parsed start, of
    recorded runs of this task only, no longer than the limit, complete when the limit
    is not reached, and no run it leaves out started after one it lists. *)
Theorem task_history_newest name limit (w w' : W) hist :
  0 < limit →
  load_task_runs_newest_first name limit w = (Some hist, w') →
  StronglySorted (λ a b, run_start b <= run_start a) hist ∧
  Z.of_nat (length hist) = Z.min limit (Z.of_nat (length (recorded name (tables w)))) ∧
  ∃ rest, hist ++ rest ≡ₚ recorded name (tables w) ∧
    ∀ a b, a ∈ hist → b ∈ rest → run_start b <= run_start a.
Proof.
  intros Hlim.
  destruct (load_runs_cases name limit w) as [(w1 & -> & _)|(w1 & all & -> & _ & Hperm & Hs)]; [done|].
  intros [= <- _]. rewrite <-(Permutation_length Hperm).
  assert (Htake : (if (0 <? limit) && (limit <? Z.of_nat (length all))
    then take (Z.to_nat limit) all else all) = take (Z.to_nat limit) all).
  { destruct (_ && _) eqn:E; [done|]. apply andb_false_iff in E. rewrite take_ge; [done|].
    destruct E as [E|E]; bool_facts; lia. }
  rewrite Htake. rewrite <-(take_drop (Z.to_nat limit) all) in Hs.
  apply StronglySorted_app in Hs as (Hall & Hs1 & _).
  split; [done|]. split; [rewrite length_take; lia|].
  exists (drop (Z.to_nat limit) all). rewrite take_drop. split; [done|].
  intros a b Ha Hb. by apply Hall.
Qed.

(** The most recent run. *)
Lemma last_run_cases name (w : W) :
  (∃ w', get_last_task_run name w = (None, w') ∧ tables w' = tables w) ∨
  (∃ w', get_last_task_run name w = (Some None, w') ∧ tables w' = tables w ∧
     recorded name (tables w) = []) ∨
  (∃ w' r, get_last_task_run name w = (Some (Some r), w') ∧ tables w' = tables w ∧
     r ∈ recorded name (tables w) ∧
     ∀ r', r' ∈ recorded name (tables w) → run_start r' <= run_start r).
Proof.
  unfold get_last_task_run.
  destruct (load_runs_cases name 1 w) as [(w1 & -> & Ht)|(w1 & all & -> & Ht & Hperm & Hs)];
    [left; by exists w1|right].
  assert (Hhead : head (if (0 <? 1) && (1 <? Z.of_nat (length all))
    then take (Z.to_nat 1) all else all) = head all)
    by (destruct (_ && _); [by destruct all|done]).
  simpl in *. rewrite Hhead. destruct all as [|r all]; simpl; [left|right].
  - exists w1. split_and!; [done|done|]. by apply Permutation_nil.
  - exists w1, r. split_and!; [done|done|rewrite <-Hperm; left|].
    intros r'. rewrite <-Hperm, elem_of_cons. inversion Hs as [|? ? _ Hf]; subst.
    rewrite Forall_forall in Hf. intros [->|Hr']; [lia|by apply Hf].
Qed.
End history.

Definition two_runs : sched_tables :=
  SchedTables ∅ [HistoryRow 1 "cleanup" (VText "2024-06-15T14:00:00+02:00") VNull 5 "success" None;
                 HistoryRow 2 "cleanup" (VText "2024-06-15 11:00:00") VNull 5 "success" None] [] ∅.

Lemma task_history_newest_witness :
  ∃ hist w', load_task_runs_newest_first "cleanup" 1 (Reliable two_runs) = (Some hist, w') ∧
    Z.of_nat (length hist) = 1 ∧ map run_start hist = [noon].
Proof.
  destruct (load_task_runs_newest_first "cleanup" 1 (Reliable two_runs)) as [[hist|] w'] eqn:E;
    [|vm_compute in E; discriminate E].
  exists hist, w'. split; [reflexivity|].
  destruct (task_history_newest "cleanup" 1 _ _ _ (eq_refl : 0 < 1) E) as (_ & Hlen & _).
  split; [exact Hlen|].
  assert (Hm : map run_start <$> (load_task_runs_newest_first "cleanup" 1 (Reliable two_runs)).1
    = Some [noon]) by (vm_compute; reflexivity).
  rewrite E in Hm. by injection Hm.
Defined.

(** * The queue of missed runs *)

Section missed.
Context `{DatabaseLaws W sched_tables} (loc : location).

(** A task whose last occurrence inside the window came after its last recorded run. *)
Definition missed (now window : instant) (t : sched_tables) (tk : task) (due : instant) : Prop :=
  tk_enabled tk = true ∧
  latest_occurrence_before (next loc (tk_sched tk)) now window = Some due ∧
  recorded (tk_name tk) t ≠ [] ∧
  ∀ r, r ∈ recorded (tk_name tk) t → run_start r < due.

Lemma missed_run_spec now window tk (w : W) m w' :
  missed_run loc now window tk w = (m, w') →
  tables w' = tables w ∧
  (∀ x, m = Some x → x.1 = tk ∧ missed now window (tables w) tk x.2) ∧
  (never_fails W sched_tables → ∀ due, missed now window (tables w) tk due → m = Some (tk, due)).
Proof.
  unfold missed_run, missed. destruct (tk_enabled tk); simpl;
    [|intros [= <- <-]; split_and!; [done|done|by intros _ ? (? & _)]].
  destruct (latest_occurrence_before _ now window) as [due|];
    [|intros [= <- <-]; split_and!; [done|done|by intros _ ? (_ & ? & _)]].
  destruct (last_run_cases (tk_name tk) w)
    as [(w1 & E & Ht)|[(w1 & -> & Ht & Hnil)|(w1 & r & -> & Ht & Hr & Hmax)]].
  - rewrite E. intros [= <- <-]. split_and!; [done|done|]. intros Hup. exfalso.
    unfold get_last_task_run, load_task_runs_newest_first, query in E.
    destruct (exec _ w) as [[x|] w2] eqn:E2; [done|by apply Hup in E2].
  - intros [= <- <-]. split_and!; [done|done|]. intros _ ? (_ & _ & ? & _). congruence.
  - destruct (Z.ltb_spec (run_start r) due) as [Hlt|Hge]; intros [= <- <-]; split; try done.
    + split; [|intros _ ? (_ & [= <-] & _); done]. intros x [= <-]. simpl. split_and!; try done.
      * intros Hnil. rewrite Hnil in Hr. by apply elem_of_nil in Hr.
      * intros r' Hr'. specialize (Hmax r' Hr'). lia.
    + split; [done|]. intros _ ? (_ & [= <-] & _ & Hall). specialize (Hall r Hr). lia.
Qed.

Lemma missed_runs_spec now window cs (w : W) ms w' :
  missed_runs loc now window cs w = (ms, w') →
  tables w' = tables w ∧
  (∀ tk due, (tk, due) ∈ ms → tk ∈ cs ∧ missed now window (tables w) tk due) ∧
  (never_fails W sched_tables → ∀ tk due, tk ∈ cs → missed now window (tables w) tk due →
     (tk, due) ∈ ms).
Proof.
  revert w ms w'. induction cs as [|tk0 cs IH]; intros w ms w'; simpl.
  - intros [= <- <-]. split_and!; [done|by intros ?? ?%elem_of_nil|by intros _ ?? ?%elem_of_nil].
  - destruct (missed_run _ _ _ _ _) as [m w1] eqn:E1.
    destruct (missed_runs _ _ _ _ _) as [ms1 w2] eqn:E2. intros [= <- <-].
    apply missed_run_spec in E1 as (Ht1 & Hs1 & Hc1).
    apply IH in E2 as (Ht2 & Hs2 & Hc2). rewrite Ht1 in *.
    split; [congruence|]. split.
    + intros tk due Hin. assert (m = Some (tk, due) ∨ (tk, due) ∈ ms1) as [Hm|Hin'].
      { destruct m as [x|]; [|by right]. rewrite elem_of_cons in Hin.
        destruct Hin as [->|]; [by left|by right]. }
      * destruct (Hs1 _ Hm) as [[= ->] ?]. split; [left|done].
      * destruct (Hs2 _ _ Hin'). split; [by right|done].
    + intros Hup tk due [->|Hin]%elem_of_cons Hm.
      * rewrite (Hc1 Hup due Hm). left.
      * destruct m; [right|]; by apply Hc2.
Qed.

(** At startup the scheduler replays, in the order of their original times, only
    enabled tasks whose last occurrence lies inside the catch-up window and came after
    every recorded run; when the database answers, it replays all of them; and it
    replays nothing when the window is zero. *)
Theorem missed_queue_correct now cs s (w w' : W) q :
  run_missed_tasks loc now cs s w = (q, w') →
  StronglySorted (λ a b, a.2 <= b.2) q ∧ tables w' = tables w ∧
  (∀ tk due, (tk, due) ∈ q → 0 < s_window s ∧ tk ∈ cs ∧ missed now (s_window s) (tables w) tk due) ∧
  (never_fails W sched_tables → 0 < s_window s → ∀ tk due, tk ∈ cs →
     missed now (s_window s) (tables w) tk due → (tk, due) ∈ q).
Proof.
  unfold run_missed_tasks. destruct (Z.leb_spec (s_window s) 0) as [Hz|Hz].
  { intros [= <- <-]. split_and!; [constructor|done|by intros ?? ?%elem_of_nil|lia]. }
  destruct (missed_runs _ _ _ _ _) as [ms w1] eqn:E. intros [= <- <-].
  apply missed_runs_spec in E as (Ht & Hs & Hc). split_and!; [|done|..].
  - assert (Hsort : StronglySorted (λ a b, earlier b a = false) (sort_stable earlier ms)).
    { apply sort_stable_sorted; unfold earlier.
      - intros x y z ?%Z.ltb_ge ?%Z.ltb_ge. apply Z.ltb_ge. lia.
      - intros x y ?%Z.ltb_lt. apply Z.ltb_ge. lia. }
    induction Hsort as [|a l Hl IH Hf]; constructor; [done|].
    eapply Forall_impl; [exact Hf|]. intros b. unfold earlier. by intros ?%Z.ltb_ge.
  - intros tk due. rewrite sort_stable_Permutation. intros Hin. split; [lia|by apply Hs].
  - intros Hup _ tk due Hin Hm. rewrite sort_stable_Permutation. by apply Hc.
Qed.
End missed.

(** A start at noon, ten minutes after the last run of the five-minute task. *)
Definition history_1150 : sched_tables :=
  SchedTables ∅ [HistoryRow 1 "cleanup" (VText "2024-06-15 11:50:00") VNull 5 "success" None] [] ∅.

Lemma missed_queue_correct_witness :
  ∃ q w', run_missed_tasks utc noon (map_to_list (s_tasks demo)).*2 demo (Reliable history_1150)
    = (q, w') ∧ StronglySorted (λ a b, a.2 <= b.2) q ∧ map (λ m, (tk_name m.1, m.2)) q = [("cleanup", noon)].
Proof.
  destruct (run_missed_tasks utc noon (map_to_list (s_tasks demo)).*2 demo (Reliable history_1150))
    as [q w'] eqn:E. exists q, w'. split; [reflexivity|].
  split; [exact (proj1 (missed_queue_correct _ _ _ _ _ _ _ E))|].
  assert (H : map (λ m, (tk_name m.1, m.2)) (run_missed_tasks utc noon
    (map_to_list (s_tasks demo)).*2 demo (Reliable history_1150)).1 = [("cleanup", noon)])
    by (vm_compute; reflexivity).
  rewrite E in H. exact H.
Defined.

(** * One execution *)

Section execution.
Context `{DatabaseLaws W sched_tables} (affected : state_row → state_row → bool).
Hypothesis affected_changed : ∀ r r', r ≠ r' → affected r r' = true.

Lemma update_row_up id f (w : W) :
  never_fails W sched_tables →
  tables (exec (update_row id f) w).2 = with_state (tables w) (alter f id (t_state (tables w))).
Proof. intros Hup. destruct (exec_up _ (update_row id f) w Hup) as ([] & w' & -> & Ht). by injection Ht. Qed.

(** The rows an execution adds to the audit log: one, when the log is switched on *)
Definition audit_rows (node name : string) (elapsed : duration) (err : option string) (t : sched_tables) : list audit_row :=
  if decide (t_config t !! "audit.enabled" = Some "true")
  then [match err with
        | None => AuditRow node name ("Completed in " +:+ duration_string elapsed) "success"
        | Some e => AuditRow node name ("Failed: " +:+ e) "error"
        end]
  else [].
Lemma log_up node name elapsed err (w : W) : never_fails W sched_tables → let t := tables w in
  tables (log_task_execution node name elapsed err w) =
    SchedTables (t_state t) (t_history t) (audit_rows node name elapsed err t ++ t_audit t) (t_config t).
Proof.
  intros Hup t. unfold log_task_execution, audit_rows, query.
  destruct (exec_up _ (λ t : sched_tables, (t_config t !! "audit.enabled", t)) w Hup) as (a & w1 & -> & E). injection E as <- E.
  fold t in E |- *. assert (Ht : tables w1 = t) by done. destruct (t_config t !! "audit.enabled") as [v|]; cbn.
  2:{ rewrite decide_False by done. rewrite Ht. by destruct t. }
  unfold str_eqb. destruct (decide (v = "true")) as [->|Hv].
  - rewrite decide_True by done. cbn. set (row := match err with Some _ => _ | None => _ end).
    destruct (exec_up _ (λ t : sched_tables, (tt, SchedTables (t_state t) (t_history t) (row :: t_audit t) (t_config t))) w1 Hup)
      as (b & w2 & -> & E2). injection E2 as _ E2. rewrite bool_decide_eq_true_2 by done. cbn [negb snd]. by rewrite <-E2, Ht.
  - rewrite bool_decide_eq_false_2, decide_False by (done || congruence). cbn. rewrite Ht. by destruct t.
Qed.

(** What the end of a run leaves of the row: the outcome, and the lock given back if the node still holds it *)
Definition end_row (node : string) (tk : task) (end_ next_run : instant) (err : option string) (r : state_row) : state_row :=
  let r := persist_row next_run end_ err r in
  if is_global_task (tk_name tk) && bool_decide (st_locked_by r = Some node) then set_lock (st_schedule r) None VNull r else r.

(** Whether the run may start. *)
Definition may_run (node : string) (tk : task) (now2 : instant) (t : sched_tables) : bool :=
  tk_enabled tk &&
  (negb (is_global_task (tk_name tk)) || lockable node now2 (t_state t !! tk_name tk)).

(** The row of the history *)
Definition run_record (name : string) (start end_ : instant) (err : option string) (h : list history_row) : history_row :=
  HistoryRow (next_history_id h) name (VText (format_sql_timestamp start)) (VText (format_sql_timestamp end_))
    (Z.quot (sub end_ start) 1000000) (match err with None => "success" | Some _ => "error" end) (Some (default "" err)).
Lemma record_up name start end_ err (w : W) : never_fails W sched_tables → let t := tables w in
  tables (record_task_run name start end_ err w).2 =
    SchedTables (t_state t) (run_record name start end_ err (t_history t) :: t_history t) (t_audit t) (t_config t).
Proof.
  intros Hup t. unfold record_task_run.
  destruct (exec_up _ (λ t : sched_tables, (tt, SchedTables (t_state t) (run_record name start end_ err (t_history t) :: t_history t)
    (t_audit t) (t_config t))) w Hup) as (a & w' & E & Ht). unfold run_record in E at 1. injection Ht as _ Ht. unfold t. rewrite Ht. cbv beta zeta. fold t. rewrite E. done.
Qed.

Lemma release_up node name (w : W) :
  never_fails W sched_tables →
  tables (release_task_lock node name w).2 =
  if is_global_task name then (lock_clear name node (tables w)).2 else tables w.
Proof.
  intros Hup. unfold release_task_lock. destruct (is_global_task name); [|done]. cbn [negb].
  destruct (exec_up _ (lock_clear name node) w Hup) as (a & w' & -> & Ht). by rewrite Ht.
Qed.

(** The statements after the run, one after the other, as one change *)
Lemma end_row_correct node tk end_ next_run err (m : gmap string state_row) h a c :
  (if is_global_task (tk_name tk)
   then (lock_clear (tk_name tk) node (SchedTables (alter (persist_row next_run end_ err) (tk_name tk) m) h a c)).2
   else SchedTables (alter (persist_row next_run end_ err) (tk_name tk) m) h a c) =
  SchedTables (alter (end_row node tk end_ next_run err) (tk_name tk) m) h a c.
Proof.
  unfold end_row. destruct (is_global_task (tk_name tk)); [|done]. unfold lock_clear. cbn [t_state andb]. rewrite lookup_alter_eq.
  destruct (m !! tk_name tk) as [r|] eqn:E; cbn [fmap option_fmap option_map].
  - case_bool_decide as B; unfold with_state; cbn; f_equal; apply map_eq; intros i; destruct (decide (tk_name tk = i)) as [<-|Hne].
    + rewrite lookup_insert_eq, lookup_alter_eq, E. cbn. by rewrite bool_decide_eq_true_2.
    + by rewrite lookup_insert_ne, !lookup_alter_ne.
    + rewrite !lookup_alter_eq, E. cbn. by rewrite bool_decide_eq_false_2.
    + by rewrite !lookup_alter_ne.
  - cbn. f_equal. apply map_eq. intros i. destruct (decide (tk_name tk = i)) as [<-|Hne]; [by rewrite !lookup_alter_eq, E|by rewrite !lookup_alter_ne].
Qed.

(** C10: One execution over a database that answers.  It runs the task's function
    exactly when the task is enabled and, for a global task, the lock lets this node
    in; otherwise nothing changes.  The function is called once, on a database where
    only the lock of the task's row was taken, and all that follows starts from what the call left:
    a panic is one more failed run, the retry policy is applied and the task is no longer
    active; the row records the run (one more run, one more failure exactly when it
    failed) with the lock given back where the node still holds it, no other row changes,
    the history gets one row with the outcome, the audit log one where it is switched on,
    and the settings stay as the function left them. *)
Theorem execute_task_correct name now1 now2 start end_ fn s (w w' : W) err s' tk :
  never_fails W sched_tables →
  s_tasks s !! name = Some tk → tk_name tk = name →
  execute_task affected name now1 now2 start end_ fn s w = (err, s', w') →
  if may_run (s_node s) tk now2 (tables w) then
    ∃ w1 out w2, fn w1 = (out, w2) ∧
      tables w1 = (if is_global_task name
                   then with_state (tables w) (<[name := locked_row (s_node s) name (tk_schedule tk) now1
                                                   (t_state (tables w) !! name)]> (t_state (tables w)))
                   else tables w) ∧
      let e := run_task_fn out in let t := tables w2 in
      let tk' := apply_retry_policy end_ (bool_decide (is_Some e)) (set_last_run end_ tk) in
      err = Some e ∧ s_tasks s' = <[name := tk']> (s_tasks s) ∧ ¬ (name ∈ s_active s') ∧
      tables w' = SchedTables (alter (end_row (s_node s) tk end_ (tk_next_run tk') e) name (t_state t))
        (run_record name start end_ e (t_history t) :: t_history t)
        (audit_rows (s_node s) name (sub end_ start) e t ++ t_audit t) (t_config t)
  else err = None ∧ s' = s ∧ tables w' = tables w.
Proof.
  intros Hup Hs Hname. unfold execute_task, may_run. rewrite Hs, Hname.
  destruct (tk_enabled tk) eqn:Hen; simpl; [|by intros [= <- <- <-]].
  destruct (acquire_task_lock _ _ _ _ _ _ _) as [got w1] eqn:Eacq.
  assert (Hacq : got = (negb (is_global_task name) ||
      lockable (s_node s) now2 (t_state (tables w) !! name)) ∧
    (got = false → tables w1 = tables w) ∧
    (got = true → tables w1 = (if is_global_task name
       then with_state (tables w) (<[name := locked_row (s_node s) name (tk_schedule tk) now1 (t_state (tables w) !! name)]>
              (t_state (tables w)))
       else tables w))).
  { destruct (is_global_task name) eqn:Eg.
    - apply (acquire_cases affected affected_changed _ _ _ _ _ _ _ _ Eg) in Eacq
        as [(-> & -> & ->)|(-> & Ht & Hl)]; [done|]. by rewrite Hl.
    - unfold acquire_task_lock in Eacq. rewrite Eg in Eacq. injection Eacq as <- <-. done. }
  destruct Hacq as (<- & Hno & Hyes). destruct got; simpl; [|intros [= <- <- <-]; auto].
  specialize (Hyes eq_refl). clear Hno. destruct (fn w1) as [out w2] eqn:Efn.
  set (e := run_task_fn out). set (tk' := apply_retry_policy _ _ _).
  pose proof (log_up (s_node s) name (sub end_ start) e w2 Hup) as Ht3. set (w3 := log_task_execution _ _ _ _ _) in *. cbv zeta in Ht3.
  pose proof (update_row_up (tk_name tk') (persist_row (tk_next_run tk') end_ e) w3 Hup) as Ht4.
  change (exec _ w3).2 with (persist_task_state tk' end_ e w3) in Ht4. set (w4 := persist_task_state _ _ _ _) in *.
  pose proof (record_up name start end_ e w4 Hup) as Ht5. destruct (record_task_run _ _ _ _ w4) as [? w5]. cbn [snd] in Ht5. cbv zeta in Ht5.
  pose proof (release_up (s_node s) name w5 Hup) as Ht6.
  destruct (release_task_lock _ _ w5) as [? w6]. cbn [snd] in Ht6. intros [= <- <- <-].
  assert (Hn' : tk_name tk' = name).
  { unfold tk', apply_retry_policy. destruct (negb _); [done|]. destruct (retry_delays !! _); [|done].
    by destruct (_ || _). }
  exists w1, out, w2. split; [done|]. split; [done|]. split; [done|]. split; [done|].
  split; [by cbn; rewrite not_elem_of_difference, elem_of_singleton; right|].
  rewrite Ht6, Ht5, Ht4, Ht3, Hn'. cbn [t_state t_history t_audit t_config with_state]. rewrite <-Hname. apply end_row_correct.
Qed.
End execution.

(** A daily backup that panics at two o'clock. *)
Definition panicking (w : reliable sched_tables) : fn_outcome * reliable sched_tables :=
  (Panicked "nil map", w).
Definition two_am : instant := date_utc 2024 6 16 2 0 0 0.

Definition backup_task : task :=
  Task "backup-daily" "0 2 * * *" (CronSchedule daily_0200) two_am true None 0.

Lemma execute_task_correct_witness :
  let '(err, s', w') := execute_task always_affected "backup-daily" two_am two_am two_am
     (two_am + second) panicking demo (Reliable unheld) in
  err = Some (Some "task panicked: nil map") ∧ ¬ ("backup-daily" ∈ s_active s').
Proof.
  destruct (execute_task _ _ _ _ _ _ _ _ _) as [[err s'] w'] eqn:E.
  assert (Etk : s_tasks demo !! "backup-daily" = Some backup_task) by (vm_compute; reflexivity).
  pose proof (execute_task_correct always_affected (λ _ _ _, eq_refl) _ _ _ _ _ panicking _ _ _ _ _ _
    (reliable_never_fails _) Etk eq_refl E) as H.
  assert (Hrun : may_run (s_node demo) backup_task two_am unheld = true) by (vm_compute; reflexivity).
  cbn [tables reliable_database r_tables] in H. rewrite Hrun in H.
  destruct H as (w1 & out & w2 & [= <- _] & _ & -> & _ & Ha & _). split; [reflexivity|exact Ha].
Defined.
