(* ===== verification/Cluster.v ===== *)
(** The cluster manager (src/cluster/cluster.go): registration, heartbeats, the health
    check and the election over the shared table cluster_nodes, and the local state a
    node believes it has.  The election is right; what the nodes do with its result is
    not always: the local state of a deposed primary is written back by its next
    heartbeat. *)
From S2P Require Import Prelude GoStrings GoTime Sql DbTime.
Open Scope Z_scope.

(** * Data *)

Inductive node_state := Primary | Secondary | Unknown.
#[export] Instance node_state_eq_dec : EqDecision node_state.
Proof. solve_decision. Defined.

(** A row of cluster_nodes, under its node_id. *)
Record node_row := NodeRow {
  n_address : string; n_state : node_state; n_heartbeat : scanned; n_healthy : bool
}.

(** The tables the manager uses: cluster_nodes, and the keys of server_config. *)
Record cluster_tables := ClusterTables {
  c_nodes : gmap string node_row; c_config : list string
}.
Definition with_nodes (f : gmap string node_row → gmap string node_row) (t : cluster_tables)
  : unit * cluster_tables := (tt, ClusterTables (f (c_nodes t)) (c_config t)).

(** ClusterManager: one per node. *)
Record manager := Manager {
  m_id : string; m_address : string; m_state : node_state; m_enabled : bool
}.
Definition set_state (st : node_state) (m : manager) : manager :=
  Manager (m_id m) (m_address m) st (m_enabled m).

Inductive cluster_error :=
| SqlError
| NoHealthyNodes
| NoHealthyPrimary.

Definition heartbeat_degraded_threshold : duration := 90 * second.
Definition update_chunk_size : nat := 500.
Arguments update_chunk_size : simpl never.

(** NewClusterManager *)
Definition new_cluster_manager (id address : string) (enabled : bool) : manager :=
  Manager id address Unknown enabled.

(** IsPrimary and GetState *)
Definition is_primary (m : manager) : bool := bool_decide (m_state m = Primary).

(** * Statements *)

(** SELECT node_id ... WHERE is_healthy = 1 ORDER BY node_id ASC *)
Definition healthy_ids (t : cluster_tables) : list string :=
  merge_sort String.le (filter (λ p, n_healthy p.2 = true) (map_to_list (c_nodes t))).*1.

Definition heal (b : bool) (r : node_row) : node_row :=
  NodeRow (n_address r) (n_state r) (n_heartbeat r) b.
Definition put_state (st : node_state) (r : node_row) : node_row :=
  NodeRow (n_address r) st (n_heartbeat r) (n_healthy r).
Definition beat (now : instant) (st : node_state) (r : node_row) : node_row :=
  NodeRow (n_address r) st (VText (format_sql_timestamp now)) (n_healthy r).

(** WHERE is_healthy = 1 AND last_heartbeat IS NOT NULL, and the test made in Go *)
Definition stale (cutoff : instant) (r : node_row) : bool :=
  n_healthy r &&
  match parse_stored_timestamp (n_heartbeat r) with Some t => t <? cutoff | None => false end.

Section operations.
Context `{Database W cluster_tables}.

(** The row that a SELECT with LIMIT 1 and no ORDER BY returns is the engine's choice. *)
Context (pick : list node_row → option node_row).

(** registerNode *)
Definition register_node (now : instant) (m : manager) (w : W) : bool * W :=
  let '(r, w) := exec (with_nodes <[m_id m := NodeRow (m_address m) Secondary
                         (VText (format_sql_timestamp now)) true]>) w in
  (bool_decide (is_Some r), w).

(** unregisterNode *)
Definition unregister_node (m : manager) (w : W) : bool * W :=
  let '(r, w) := exec (with_nodes (alter (heal false ∘ put_state Unknown) (m_id m))) w in
  (bool_decide (is_Some r), w).

(** sendHeartbeat: the timestamp, and the state this node believes it is in *)
Definition send_heartbeat (now : instant) (m : manager) (w : W) : bool * W :=
  let '(r, w) := exec (with_nodes (alter (beat now (m_state m)) (m_id m))) w in
  (bool_decide (is_Some r), w).

(** staleNodeIDs *)
Definition stale_node_ids (cutoff : instant) (w : W) : option (list string) * W :=
  query (λ t, (filter (λ p, stale cutoff p.2 = true) (map_to_list (c_nodes t))).*1) w.

(** markNodesUnhealthy *)
Definition mark_chunk (ids : list string) (ns : gmap string node_row) : gmap string node_row :=
  map_imap (λ id r, Some (if bool_decide (id ∈ ids) then heal false r else r)) ns.
Fixpoint mark_chunks (cs : list (list string)) (w : W) : bool * W :=
  match cs with
  | [] => (true, w)
  | c :: cs =>
      let '(r, w) := exec (with_nodes (mark_chunk c)) w in
      match r with None => (false, w) | Some _ => mark_chunks cs w end
  end.
Definition mark_nodes_unhealthy (ids : list string) (w : W) : bool * W :=
  mark_chunks (chunks update_chunk_size ids) w.

(** electPrimary *)
Definition elect_primary (m : manager) (w : W) : result cluster_error manager * W :=
  let '(ids, w) := query healthy_ids w in
  match ids with
  | None => (Fail SqlError, w)
  | Some [] => (Fail NoHealthyNodes, w)
  | Some (new_primary :: _) =>
      let '(r, w) := exec (with_nodes (fmap (put_state Secondary))) w in
      match r with
      | None => (Fail SqlError, w)
      | Some _ =>
          let '(r, w) := exec (with_nodes (alter (put_state Primary) new_primary)) w in
          match r with
          | None => (Fail SqlError, w)
          | Some _ => (Ok (set_state (if str_eqb new_primary (m_id m) then Primary else Secondary) m), w)
          end
      end
  end.

(** checkClusterHealth: an election also when the query of the primary fails *)
Definition primary_rows (t : cluster_tables) : list node_row :=
  filter (λ r, n_state r = Primary) (map_to_list (c_nodes t)).*2.
Definition check_cluster_health (now : instant) (m : manager) (w : W)
  : result cluster_error manager * W :=
  let '(ids, w) := stale_node_ids (now - heartbeat_degraded_threshold) w in
  match ids with
  | None => (Fail SqlError, w)
  | Some ids =>
      let '(ok, w) := mark_nodes_unhealthy ids w in
      if negb ok then (Fail SqlError, w) else
      let '(p, w) := query (pick ∘ primary_rows) w in
      match p with
      | Some (Some r) => if n_healthy r then (Ok m, w) else elect_primary m w
      | _ => elect_primary m w
      end
  end.

(** One turn of heartbeatLoop; errors are only logged. *)
Definition heartbeat_turn (now : instant) (m : manager) (w : W) : manager * W :=
  let '(_, w) := send_heartbeat now m w in
  let '(r, w) := check_cluster_health now m w in
  (match r with Ok m => m | Fail _ => m end, w).

(** StartClusterManager and StopClusterManager *)
Definition start_cluster_manager (now : instant) (m : manager) (w : W) : result cluster_error manager * W :=
  if negb (m_enabled m) then (Ok (set_state Primary m), w) else
  let '(ok, w) := exec (λ t, (tt, t)) w in
  match ok with
  | None => (Fail SqlError, w)
  | Some _ =>
      let '(ok, w) := register_node now m w in
      if negb ok then (Fail SqlError, w) else
      let '(r, w) := elect_primary m w in
      (Ok (match r with Ok m => m | Fail _ => m end), w)
  end.
Definition stop_cluster_manager (m : manager) (w : W) : W :=
  if negb (m_enabled m) then w else (unregister_node m w).2.

(** SyncConfig: the number of settings it counted *)
Definition pull_config_from_primary (w : W) : result cluster_error nat * W :=
  let '(p, w) := query (λ t, pick (filter (λ r, n_healthy r = true) (primary_rows t))) w in
  match p with
  | None => (Fail SqlError, w)
  | Some None => (Fail NoHealthyPrimary, w)
  | Some (Some _) =>
      let '(c, w) := query c_config w in
      (match c with None => Fail SqlError | Some c => Ok (length c) end, w)
  end.
Definition push_config_to_secondaries (w : W) : result cluster_error nat * W :=
  let '(s, w) := query (λ t, filter (λ r, n_state r = Secondary ∧ n_healthy r = true)
                               (map_to_list (c_nodes t)).*2) w in
  match s with
  | None => (Fail SqlError, w)
  | Some [] => (Ok 0%nat, w)
  | Some _ =>
      let '(c, w) := query c_config w in
      (match c with None => Fail SqlError | Some c => Ok (length c) end, w)
  end.
Definition sync_config (m : manager) (w : W) : result cluster_error nat * W :=
  if negb (m_enabled m) then (Ok 0%nat, w)
  else if negb (is_primary m) then pull_config_from_primary w
  else push_config_to_secondaries w.

(** GetClusterInfo: by state descending, then by id *)
Record node := Node {
  nd_id : string; nd_address : string; nd_state : node_state; nd_heartbeat : instant;
  nd_healthy : bool
}.
Definition state_text (st : node_state) : string :=
  match st with Primary => "primary" | Secondary => "secondary" | Unknown => "unknown" end.
Definition info_less (a b : string * node_row) : bool :=
  let sa := state_text (n_state a.2) in let sb := state_text (n_state b.2) in
  bool_decide (String.le sb sa ∧ sa ≠ sb) ||
  (str_eqb sa sb && bool_decide (String.le a.1 b.1 ∧ a.1 ≠ b.1)).
Definition get_cluster_info (w : W) : option (list node) * W :=
  let '(rows, w) := query (λ t, sort_stable info_less (map_to_list (c_nodes t))) w in
  (map (λ p, Node p.1 (n_address p.2) (n_state p.2)
               (default zero_time (parse_stored_timestamp (n_heartbeat p.2))) (n_healthy p.2))
     <$> rows, w).
End operations.

(** * The election *)

Lemma healthy_ids_spec t :
  Sorted String.le (healthy_ids t) ∧
  ∀ id, id ∈ healthy_ids t ↔ ∃ r, c_nodes t !! id = Some r ∧ n_healthy r = true.
Proof.
  unfold healthy_ids. split; [apply Sorted_merge_sort, _|].
  intros id. rewrite merge_sort_Permutation, list_elem_of_fmap. split.
  - intros ([id' r] & -> & [Hh Hm]%list_elem_of_filter). exists r.
    by rewrite elem_of_map_to_list in Hm.
  - intros (r & Hm & Hh). exists (id, r). split; [done|].
    apply list_elem_of_filter. by rewrite elem_of_map_to_list.
Qed.

(** The head of the sorted list is the smallest. *)
Lemma healthy_head t p ids :
  healthy_ids t = p :: ids →
  (∃ r, c_nodes t !! p = Some r ∧ n_healthy r = true) ∧
  ∀ q r, c_nodes t !! q = Some r → n_healthy r = true → String.le p q.
Proof.
  intros E. destruct (healthy_ids_spec t) as [Hs Hin]. rewrite E in *. split.
  - apply Hin. left.
  - intros q r Hq Hr. assert (Hq' : q ∈ p :: ids) by (apply Hin; eauto).
    apply Sorted_StronglySorted in Hs; [|apply _].
    inversion Hs as [|? ? _ Hf]; subst. rewrite Forall_forall in Hf.
    apply elem_of_cons in Hq' as [->|Hq']; [done|by apply Hf].
Qed.

(** What the two updates of an election leave of a row. *)
Definition elected (p id : string) (r : node_row) : node_row :=
  put_state (if str_eqb id p then Primary else Secondary) r.

Lemma election_updates p ns :
  alter (put_state Primary) p (put_state Secondary <$> ns) =
  map_imap (λ id r, Some (elected p id r)) ns.
Proof.
  apply map_eq. intros id. rewrite map_lookup_imap. unfold elected, str_eqb.
  destruct (decide (p = id)) as [<-|Hne].
  - rewrite lookup_alter_eq, lookup_fmap, bool_decide_true by done. by destruct (ns !! p) as [[]|].
  - rewrite lookup_alter_ne, lookup_fmap, bool_decide_false by congruence. by destruct (ns !! id).
Qed.

Section election.
Context `{DatabaseLaws W cluster_tables}.

(** What an election did. *)
Lemma elect_cases m (w : W) r w' :
  elect_primary m w = (r, w') →
  (r = Fail SqlError ∧ tables w' = tables w ∧ ¬ never_fails W cluster_tables) ∨
  (r = Fail NoHealthyNodes ∧ tables w' = tables w ∧ healthy_ids (tables w) = []) ∨
  (r = Fail SqlError ∧ c_nodes (tables w') = put_state Secondary <$> c_nodes (tables w) ∧
     ¬ never_fails W cluster_tables) ∨
  (∃ p ids, healthy_ids (tables w) = p :: ids ∧
     r = Ok (set_state (if str_eqb p (m_id m) then Primary else Secondary) m) ∧
     c_nodes (tables w') = map_imap (λ id r, Some (elected p id r)) (c_nodes (tables w))).
Proof.
  unfold elect_primary. exec_case w1 E1 Ht1.
  2:{ intros [= <- <-]. left. split_and!; [done|done|]. intros Hup. unfold query in E1. by apply Hup in E1. }
  destruct (healthy_ids (tables w)) as [|p ids] eqn:Eh; [intros [= <- <-]; auto|].
  exec_case w2 E2 Ht2.
  2:{ intros [= <- <-]. left. split_and!; [done|congruence|]. intros Hup. by apply Hup in E2. }
  unfold with_nodes in Ht2. injection Ht2 as _ Ht2.
  exec_case w3 E3 Ht3; intros [= <- <-].
  - right. right. right. exists p, ids. split; [done|]. split; [done|].
    unfold with_nodes in Ht3. injection Ht3 as _ Ht3. rewrite <-Ht3, <-Ht2, Ht1. simpl.
    apply election_updates.
  - right. right. left. split_and!; [done|by rewrite Ht3, <-Ht2, Ht1|]. intros Hup. by apply Hup in E3.
Qed.

(** C12: An election that succeeds leaves exactly one primary, the healthy node with
    the smallest id, and the node that ran it knows whether it is the one; an election
    that fails elects nobody: the rows are untouched, or no row is primary any more.
    Heartbeats and health flags never change. *)
Theorem elect_primary_correct m (w : W) r w' :
  elect_primary m w = (r, w') →
  (∀ id, (λ r, (n_address r, n_heartbeat r, n_healthy r)) <$> c_nodes (tables w') !! id =
         (λ r, (n_address r, n_heartbeat r, n_healthy r)) <$> c_nodes (tables w) !! id) ∧
  match r with
  | Ok m' => ∃ p row, c_nodes (tables w) !! p = Some row ∧ n_healthy row = true ∧
      (∀ q row, c_nodes (tables w) !! q = Some row → n_healthy row = true → String.le p q) ∧
      (∀ id row, c_nodes (tables w') !! id = Some row → n_state row = Primary ↔ id = p) ∧
      is_primary m' = str_eqb p (m_id m)
  | Fail _ => tables w' = tables w ∨
      ∀ id row, c_nodes (tables w') !! id = Some row → n_state row ≠ Primary
  end.
Proof.
  intros [(-> & -> & _)|[(-> & -> & _)|[(-> & Hn & _)|(p & ids & Eh & -> & Hn)]]]%elect_cases.
  - by split; [|left].
  - by split; [|left].
  - rewrite Hn. split; [intros id; rewrite lookup_fmap; by destruct (_ !! id)|].
    right. intros id row. rewrite lookup_fmap. intros (r & _ & ->)%fmap_Some_1. done.
  - rewrite Hn. split; [intros id; rewrite map_lookup_imap; by destruct (_ !! id)|].
    apply healthy_head in Eh as [(row & Hp & Hh) Hmin]. exists p, row. split_and!; try done.
    + intros id r. rewrite map_lookup_imap. destruct (_ !! id) as [r0|]; [|done].
      intros [= <-]. unfold elected, str_eqb. by case_bool_decide.
    + unfold is_primary, set_state. simpl. by destruct (str_eqb p (m_id m)).
Qed.
End election.

(** * The health check *)

Lemma mark_chunk_app a b ns : mark_chunk b (mark_chunk a ns) = mark_chunk (a ++ b) ns.
Proof.
  unfold mark_chunk. apply map_eq. intros id. rewrite !map_lookup_imap.
  destruct (ns !! id) as [r|]; [|done]. simpl. f_equal.
  rewrite (bool_decide_ext (id ∈ a ++ b) (id ∈ a ∨ id ∈ b)) by apply elem_of_app.
  destruct (decide (id ∈ a)), (decide (id ∈ b));
    rewrite ?(bool_decide_true (id ∈ a)), ?(bool_decide_false (id ∈ a)),
      ?(bool_decide_true (id ∈ b)), ?(bool_decide_false (id ∈ b)),
      ?(bool_decide_true (_ ∨ _)), ?(bool_decide_false (_ ∨ _)) by tauto; done.
Qed.

Lemma mark_chunk_nil ns : mark_chunk [] ns = ns.
Proof.
  unfold mark_chunk. apply map_eq. intros id. rewrite map_lookup_imap. by destruct (ns !! id).
Qed.

Section health.
Context `{DatabaseLaws W cluster_tables} (pick : list node_row → option node_row).

Lemma mark_chunks_spec cs (w : W) ok w' :
  mark_chunks cs w = (ok, w') →
  ∃ ran rest, cs = ran ++ rest ∧ (ok = true → rest = []) ∧
    (never_fails W cluster_tables → ok = true) ∧
    c_nodes (tables w') = mark_chunk (concat ran) (c_nodes (tables w)).
Proof.
  revert w. induction cs as [|c cs IH]; intros w; simpl.
  - intros [= <- <-]. exists [], []. by rewrite mark_chunk_nil.
  - exec_case w1 E Ht.
    + unfold with_nodes in Ht. injection Ht as _ Ht.
      intros (ran & rest & -> & Hok & Hup & Hn)%IH. exists (c :: ran), rest.
      split_and!; [done|done|done|]. rewrite Hn, <-Ht. simpl. by rewrite mark_chunk_app.
    + intros [= <- <-]. exists [], (c :: cs). rewrite Ht, mark_chunk_nil.
      split_and!; [done|done| |done]. intros Hup. by apply Hup in E.
Qed.

(** The rows to mark are the stale ones. *)
Lemma stale_ids_spec cutoff (t : cluster_tables) id :
  id ∈ (filter (λ p, stale cutoff p.2 = true) (map_to_list (c_nodes t))).*1 ↔
  ∃ r, c_nodes t !! id = Some r ∧ stale cutoff r = true.
Proof.
  rewrite list_elem_of_fmap. split.
  - intros ([id' r] & -> & [Hs Hm]%list_elem_of_filter). exists r.
    by rewrite elem_of_map_to_list in Hm.
  - intros (r & Hm & Hs). exists (id, r). split; [done|].
    apply list_elem_of_filter. by rewrite elem_of_map_to_list.
Qed.

Lemma elect_keeps m (w : W) r w' :
  elect_primary m w = (r, w') →
  ∀ id row, c_nodes (tables w) !! id = Some row →
  ∃ row', c_nodes (tables w') !! id = Some row' ∧ n_heartbeat row' = n_heartbeat row ∧
          n_healthy row' = n_healthy row.
Proof.
  intros E id row Hid. apply elect_cases in E as [(_ & -> & _)|[(_ & -> & _)|[(_ & Hn & _)|(p & ids & _ & _ & Hn)]]];
    [by eauto|by eauto|..]; rewrite Hn.
  - rewrite lookup_fmap, Hid. by eexists.
  - rewrite map_lookup_imap, Hid. by eexists.
Qed.

(** What the check's marking phase does to a row. *)
Lemma mark_stale cutoff (w : W) ok w' id row :
  mark_nodes_unhealthy (filter (λ p, stale cutoff p.2 = true) (map_to_list (c_nodes (tables w)))).*1 w
    = (ok, w') →
  c_nodes (tables w) !! id = Some row →
  ∃ row', c_nodes (tables w') !! id = Some row' ∧ n_heartbeat row' = n_heartbeat row ∧
    (n_healthy row = false → n_healthy row' = false) ∧
    (stale cutoff row = false → n_healthy row' = n_healthy row) ∧
    (ok = true → n_healthy row' = n_healthy row && negb (stale cutoff row)) ∧
    (never_fails W cluster_tables → ok = true).
Proof.
  intros E Hid. unfold mark_nodes_unhealthy in E.
  apply mark_chunks_spec in E as (ran & rest & Hcs & Hok & Hup & Hn).
  set (ids := (filter _ _).*1) in *.
  assert (Hids : concat ran ++ concat rest = ids).
  { rewrite <-concat_app, <-Hcs. apply chunks_concat. unfold update_chunk_size. lia. }
  assert (Hstale : id ∈ ids ↔ stale cutoff row = true).
  { unfold ids. rewrite stale_ids_spec. split; [intros (r0 & ? & ?); congruence|eauto]. }
  exists (if bool_decide (id ∈ concat ran) then heal false row else row).
  rewrite Hn. unfold mark_chunk. rewrite map_lookup_imap, Hid. split; [done|].
  case_bool_decide as Hin.
  - assert (stale cutoff row = true) as ->
      by (apply Hstale; rewrite <-Hids; apply elem_of_app; by left).
    split_and!; try done. intros _. by rewrite andb_false_r.
  - split_and!; try done. intros ->. rewrite Hok, app_nil_r in Hids by done.
    rewrite Hids, Hstale in Hin. apply not_true_is_false in Hin as ->. by rewrite andb_true_r.
Qed.

(** What the check leaves of a row, whichever of its statements fails. *)
Lemma check_row now m (w : W) r w' id row :
  check_cluster_health pick now m w = (r, w') →
  c_nodes (tables w) !! id = Some row →
  let cutoff := now - heartbeat_degraded_threshold in
  ∃ row', c_nodes (tables w') !! id = Some row' ∧ n_heartbeat row' = n_heartbeat row ∧
    (n_healthy row = false → n_healthy row' = false) ∧
    (stale cutoff row = false → n_healthy row' = n_healthy row) ∧
    (never_fails W cluster_tables → n_healthy row' = n_healthy row && negb (stale cutoff row)).
Proof.
  intros E Hid. cbv zeta. unfold check_cluster_health, stale_node_ids in E. revert E.
  exec_case w1 E1 Ht1.
  2:{ intros [= _ <-]. rewrite Ht1. exists row. split_and!; try done.
      intros Hup. unfold query in E1. by apply Hup in E1. }
  rewrite <-Ht1 in Hid |- *.
  destruct (mark_nodes_unhealthy _ w1) as [ok w2] eqn:E2.
  destruct (mark_stale _ _ _ _ id row E2 Hid) as (row2 & Hid2 & Hb & H1 & H2 & H3 & H4).
  intros Hrest.
  enough (∃ row', c_nodes (tables w') !! id = Some row' ∧
      n_heartbeat row' = n_heartbeat row2 ∧ n_healthy row' = n_healthy row2)
    as (row' & Hid' & Hb' & Hh')
    by (exists row'; rewrite Hb', Hh'; split_and!; auto).
  destruct ok; simpl in Hrest; [|injection Hrest as _ <-; by exists row2].
  revert Hrest. exec_case w3 E3 Ht3; rewrite <-Ht3 in Hid2.
  - destruct ((pick ∘ primary_rows) (tables w2)) as [p|];
      [destruct (n_healthy p); [intros [= _ <-]; by exists row2|]|];
      intros Hel; by eapply elect_keeps.
  - intros Hel; by eapply elect_keeps.
Qed.

(** One turn of a node's heartbeat loop never marks another live node: whichever of
    its statements fails, another node's healthy row stays healthy unless its stored
    heartbeat is readable and more than 90 seconds old; when the database answers,
    exactly those rows lose the flag; no row gets it back, and no other node's heartbeat
    is touched. *)
Theorem health_check_correct now m (w : W) m' w' id row :
  heartbeat_turn pick now m w = (m', w') →
  c_nodes (tables w) !! id = Some row → id ≠ m_id m →
  let cutoff := now - heartbeat_degraded_threshold in
  ∃ row', c_nodes (tables w') !! id = Some row' ∧ n_heartbeat row' = n_heartbeat row ∧
    (n_healthy row = false → n_healthy row' = false) ∧
    (stale cutoff row = false → n_healthy row' = n_healthy row) ∧
    (never_fails W cluster_tables → n_healthy row' = n_healthy row && negb (stale cutoff row)).
Proof.
  intros E Hid Hne. unfold heartbeat_turn, send_heartbeat in E. revert E.
  exec_case w1 E1 Ht1; destruct (check_cluster_health _ _ _ w1) as [r w2] eqn:E2; intros [= _ <-];
    apply (check_row _ _ _ _ _ _ _ E2).
  - injection Ht1 as _ Ht1. rewrite <-Ht1. simpl. by rewrite lookup_alter_ne.
  - by rewrite Ht1.
Qed.
End health.

(** * Split brain *)

Section split_brain.
Context `{DatabaseLaws W cluster_tables} (Hup : never_fails W cluster_tables).
Context (pick : list node_row → option node_row).
Hypothesis pick_some : ∀ l, l ≠ [] → ∃ r, pick l = Some r ∧ r ∈ l.

(** A row whose node is alive at [now], as the check sees it. *)
Definition fresh (slack : duration) (now : instant) (r : node_row) : Prop :=
  n_healthy r = true ∧
  ∃ u, parse_stored_timestamp (n_heartbeat r) = Some u ∧ now - slack <= u.

Lemma fresh_not_stale now r : fresh (60 * second) now r → stale (now - heartbeat_degraded_threshold) r = false.
Proof.
  intros [Hh (u & Hu & Hle)]. unfold stale. rewrite Hh, Hu. simpl. apply Z.ltb_ge.
  unfold heartbeat_degraded_threshold, second in *. lia.
Qed.

Lemma beat_fresh now st r :
  0 <= now < date_utc 10000 1 1 0 0 0 0 → n_healthy r = true →
  fresh second now (beat now st r).
Proof.
  intros Hnow Hh. split; [done|]. exists (truncate now second). split.
  - cbn [beat n_heartbeat parse_stored_timestamp]. by apply parse_format_text.
  - unfold truncate, second. pose proof (Z.mod_pos_bound now 1000000000). lia.
Qed.

Lemma fresh_later slack d now r : fresh slack now r → 0 <= d → slack + d <= 60 * second →
  fresh (60 * second) (now + d) r.
Proof. intros [Hh (u & Hu & Hle)] ? ?. split; [done|]. exists u. split; [done|lia]. Qed.

Lemma fresh_now now st r : 0 <= now < date_utc 10000 1 1 0 0 0 0 → n_healthy r = true →
  fresh (60 * second) now (beat now st r).
Proof.
  intros Hnow Hh. rewrite <-(Z.add_0_r now) at 1. apply (fresh_later second); [by apply beat_fresh|lia|].
  unfold second. lia.
Qed.

Lemma exec_nodes f (w : W) :
  ∃ w', exec (with_nodes f) w = (Some tt, w') ∧ c_nodes (tables w') = f (c_nodes (tables w)).
Proof.
  destruct (exec_up _ (with_nodes f) w Hup) as ([] & w' & E & Ht). exists w'.
  unfold with_nodes in Ht. injection Ht as Ht. by rewrite <-Ht.
Qed.

(** When every node is alive and one is a healthy primary, the check changes nothing. *)
Lemma check_quiet now m (w : W) p rp :
  (∀ id r, c_nodes (tables w) !! id = Some r → fresh (60 * second) now r) →
  c_nodes (tables w) !! p = Some rp → n_state rp = Primary →
  ∃ w', check_cluster_health pick now m w = (Ok m, w') ∧ c_nodes (tables w') = c_nodes (tables w).
Proof.
  intros Hfresh Hp Hprim. unfold check_cluster_health, stale_node_ids.
  exec_case w1 E1 Ht1; [|unfold query in E1; by apply Hup in E1].
  replace (filter _ (map_to_list (c_nodes (tables w)))) with ([] : list (string * node_row)).
  2:{ symmetry. apply filter_none. intros [id r] Hin. rewrite elem_of_map_to_list in Hin.
      apply Hfresh, fresh_not_stale in Hin. simpl. congruence. }
  unfold mark_nodes_unhealthy. cbn [fmap list_fmap chunks chunks_fuel length mark_chunks negb].
  exec_case w2 E2 Ht2; [|unfold query in E2; by apply Hup in E2].
  destruct (pick_some (primary_rows (tables w1))) as (r & Hr & Hin).
  { intros Hnil. assert (Hin : rp ∈ primary_rows (tables w1)); [|rewrite Hnil in Hin; by apply elem_of_nil in Hin].
    apply list_elem_of_filter. split; [done|]. apply list_elem_of_fmap. exists (p, rp).
    by rewrite elem_of_map_to_list, Ht1. }
  unfold compose. rewrite Hr.
  apply list_elem_of_filter in Hin as [_ Hin]. apply list_elem_of_fmap in Hin as ([id r'] & -> & Hin).
  rewrite elem_of_map_to_list, Ht1 in Hin. apply Hfresh in Hin as [Hh _].
  simpl. rewrite Hh.
  exists w2. split; [done|congruence].
Qed.

(** One turn of a node that believes it is the primary, while every node is alive. *)
Lemma turn_quiet now m (w : W) :
  0 <= now < date_utc 10000 1 1 0 0 0 0 →
  (∀ id r, c_nodes (tables w) !! id = Some r → fresh (60 * second) now r) →
  is_Some (c_nodes (tables w) !! m_id m) → m_state m = Primary →
  ∃ w', heartbeat_turn pick now m w = (m, w') ∧
    c_nodes (tables w') = alter (beat now Primary) (m_id m) (c_nodes (tables w)).
Proof.
  intros Hnow Hfresh [r Hr] Hm. unfold heartbeat_turn, send_heartbeat. rewrite Hm.
  destruct (exec_nodes (alter (beat now Primary) (m_id m)) w) as (w1 & -> & Hn1).
  destruct (check_quiet now m w1 (m_id m) (beat now Primary r)) as (w2 & -> & Hn2).
  - intros id r'. rewrite Hn1. destruct (decide (m_id m = id)) as [<-|].
    + rewrite lookup_alter_eq, Hr. intros [= <-]. apply fresh_now; [done|by apply (Hfresh _ _ Hr)].
    + rewrite lookup_alter_ne by done. apply Hfresh.
  - by rewrite Hn1, lookup_alter_eq, Hr.
  - done.
  - exists w2. by rewrite Hn2, Hn1.
Qed.

(** [k] rounds of the heartbeat loops of two nodes, 30 seconds apart. *)
Fixpoint rounds (k : nat) (now : instant) (ma mb : manager) (w : W) : manager * manager * W :=
  match k with
  | O => (ma, mb, w)
  | S k =>
      let '(ma, w) := heartbeat_turn pick now ma w in
      let '(mb, w) := heartbeat_turn pick now mb w in
      rounds k (now + 30 * second) ma mb w
  end.

(** The two rows, both nodes alive. *)
Definition both_alive (now : instant) (a b : string) (w : W) : Prop :=
  a ≠ b ∧ is_Some (c_nodes (tables w) !! a) ∧ is_Some (c_nodes (tables w) !! b) ∧
  ∀ id r, c_nodes (tables w) !! id = Some r → (id = a ∨ id = b) ∧ fresh (60 * second) now r.

Lemma rounds_quiet k now ma mb (w : W) :
  0 <= now → now + Z.of_nat k * (30 * second) < date_utc 10000 1 1 0 0 0 0 →
  both_alive now (m_id ma) (m_id mb) w → m_state ma = Primary → m_state mb = Primary →
  ∃ w', rounds k now ma mb w = (ma, mb, w') ∧
    (k <> 0%nat → ∀ id r, c_nodes (tables w') !! id = Some r → n_state r = Primary ∧ n_healthy r = true).
Proof.
  intros Hnow Hend Halive Ha Hb. revert now w Hnow Hend Halive.
  induction k as [|k IH]; intros now w Hnow Hend (Hne & [ra Hra] & [rb Hrb] & Hall); [by eexists|].
  assert (Hyear : 0 <= now < date_utc 10000 1 1 0 0 0 0) by (unfold second in *; lia).
  cbn [rounds].
  destruct (turn_quiet now ma w) as (w1 & -> & Hn1);
    [done|intros id r Hr; by apply (Hall id)|by eexists|done|].
  assert (Hf1 : ∀ id r, c_nodes (tables w1) !! id = Some r → fresh (60 * second) now r).
  { intros id r. rewrite Hn1. destruct (decide (m_id ma = id)) as [<-|].
    - rewrite lookup_alter_eq, Hra. intros [= <-]. apply fresh_now; [done|by apply (Hall _ _ Hra)].
    - rewrite lookup_alter_ne by done. intros Hr. by apply (Hall id). }
  assert (Hrb1 : c_nodes (tables w1) !! m_id mb = Some rb) by (by rewrite Hn1, lookup_alter_ne).
  destruct (turn_quiet now mb w1) as (w2 & -> & Hn2); [done|done|by eexists|done|].
  assert (Hrows : ∀ id r, c_nodes (tables w2) !! id = Some r →
    (id = m_id ma ∨ id = m_id mb) ∧ fresh second now r ∧ n_state r = Primary).
  { intros id r. rewrite Hn2. destruct (decide (m_id mb = id)) as [<-|].
    - rewrite lookup_alter_eq, Hrb1. intros [= <-]. split; [by right|]. split; [|done].
      apply beat_fresh; [done|by apply (Hall _ _ Hrb)].
    - rewrite lookup_alter_ne by done. intros Hr. rewrite Hn1 in Hr.
      destruct (decide (m_id ma = id)) as [<-|].
      + rewrite lookup_alter_eq, Hra in Hr. injection Hr as <-. split; [by left|]. split; [|done].
        apply beat_fresh; [done|by apply (Hall _ _ Hra)].
      + rewrite lookup_alter_ne in Hr by done. apply Hall in Hr as [[->| ->] _]; done. }
  destruct k as [|k].
  - exists w2. split; [done|]. intros _ id r Hr. destruct (Hrows id r Hr) as (_ & [? _] & ?). done.
  - destruct (IH (now + 30 * second) w2) as (w' & -> & Hfin).
    + unfold second. lia.
    + unfold second in *. lia.
    + split; [done|]. split; [|split].
      * rewrite Hn2, lookup_alter_ne, Hn1, lookup_alter_eq, Hra by done. by eexists.
      * rewrite Hn2, lookup_alter_eq, Hrb1. by eexists.
      * intros id r Hr. destruct (Hrows id r Hr) as (Hid & Hf & Hp). split; [done|].
        apply (fresh_later second); [done|unfold second; lia..].
    + exists w'. split; [done|]. intros _. apply Hfin. done.
Qed.

(** A node whose id precedes those of the healthy nodes elects itself when it starts. *)
Lemma start_elects now m (w : W) :
  m_enabled m = true →
  (∀ id r, c_nodes (tables w) !! id = Some r → n_healthy r = true → String.le (m_id m) id) →
  ∃ w', start_cluster_manager now m w = (Ok (set_state Primary m), w') ∧
    c_nodes (tables w') = map_imap (λ id r, Some (elected (m_id m) id r))
      (<[m_id m := NodeRow (m_address m) Secondary (VText (format_sql_timestamp now)) true]>
         (c_nodes (tables w))).
Proof.
  intros Hen Hmin. unfold start_cluster_manager, register_node. rewrite Hen. cbn [negb].
  destruct (exec_up _ (λ t : cluster_tables, (tt, t)) w Hup) as ([] & w1 & -> & Ht1).
  injection Ht1 as Ht1.
  destruct (exec_nodes <[m_id m := NodeRow (m_address m) Secondary
    (VText (format_sql_timestamp now)) true]> w1) as (w2 & -> & Hn2).
  cbn [negb]. rewrite bool_decide_true by done. cbn [negb].
  destruct (elect_primary m w2) as [r w3] eqn:E.
  assert (Hself : m_id m ∈ healthy_ids (tables w2)).
  { apply healthy_ids_spec. rewrite Hn2, lookup_insert_eq. by eexists. }
  apply elect_cases in E as [(_ & _ & Hf)|[(_ & _ & Hnil)|[(_ & _ & Hf)|(p & ids & Eh & -> & Hn3)]]];
    [done|by rewrite Hnil in Hself; apply elem_of_nil in Hself|done|].
  assert (p = m_id m) as ->.
  { destruct (healthy_head _ _ _ Eh) as [(r & Hp & Hh) Hle].
    apply (anti_symm String.le); [by eapply Hle; [rewrite Hn2; apply lookup_insert_eq|]|].
    rewrite Hn2 in Hp. destruct (decide (m_id m = p)) as [->|Hne]; [done|].
    rewrite lookup_insert_ne in Hp by done. eapply Hmin; [by rewrite Ht1|done]. }
  exists w3. unfold str_eqb. rewrite bool_decide_true by done. split; [done|].
  by rewrite Hn3, Hn2, <-Ht1.
Qed.

(** Two primaries, for good.  Node b runs alone and is the primary; node a, with a
    smaller id, starts, wins the election and is the primary; nobody tells b, whose next
    heartbeat writes its own state back.  From then on, in every round of heartbeats and
    health checks, both nodes hold [IsPrimary] and both rows are healthy primaries. *)
Theorem two_primaries a b addr_a addr_b t k (w : W) :
  a ≠ b → String.le a b → c_nodes (tables w) = ∅ →
  0 <= t → t + Z.of_nat (S (S k)) * (30 * second) < date_utc 10000 1 1 0 0 0 0 →
  ∃ ma mb w1 w2 w',
    start_cluster_manager t (new_cluster_manager b addr_b true) w = (Ok mb, w1) ∧
    start_cluster_manager (t + 10 * second) (new_cluster_manager a addr_a true) w1 = (Ok ma, w2) ∧
    rounds (S k) (t + 20 * second) ma mb w2 = (ma, mb, w') ∧
    is_primary ma = true ∧ is_primary mb = true ∧
    ∀ id r, c_nodes (tables w') !! id = Some r → n_state r = Primary ∧ n_healthy r = true.
Proof.
  intros Hne Hle Hempty Ht Hend.
  destruct (start_elects t (new_cluster_manager b addr_b true) w) as (w1 & E1 & Hn1);
    [done|intros id r; by rewrite Hempty|].
  rewrite Hempty in Hn1. cbn [new_cluster_manager m_id m_address] in *.
  destruct (start_elects (t + 10 * second) (new_cluster_manager a addr_a true) w1)
    as (w2 & E2 & Hn2); [done| |].
  { intros id r Hid _. rewrite Hn1, map_lookup_imap in Hid.
    destruct (decide (b = id)) as [->|]; [done|]. by rewrite lookup_insert_ne, lookup_empty in Hid. }
  cbn [new_cluster_manager m_id m_address] in *.
  eexists _, _, w1, w2.
  destruct (rounds_quiet (S k) (t + 20 * second) (set_state Primary (new_cluster_manager a addr_a true))
    (set_state Primary (new_cluster_manager b addr_b true)) w2) as (w' & Er & Hfin);
    [unfold second in *; lia..| |done|done|].
  - assert (Hrow : ∀ d u, 0 <= d <= 20 → u = t + d * second → ∀ p id addr,
      fresh (60 * second) (t + 20 * second)
        (elected p id (NodeRow addr Secondary (VText (format_sql_timestamp u)) true))).
    { intros d u Hd -> p id addr. split; [done|]. exists (truncate (t + d * second) second).
      cbn [elected put_state n_heartbeat parse_stored_timestamp].
      split; [apply parse_format_text; unfold second in *; lia|].
      unfold truncate, second. pose proof (Z.mod_pos_bound (t + d * 1000000000) 1000000000). lia. }
    split; [done|]. rewrite Hn2, Hn1. split; [|split].
    + rewrite map_lookup_imap, lookup_insert_eq. by eexists.
    + rewrite map_lookup_imap, lookup_insert_ne, map_lookup_imap, lookup_insert_eq by done. by eexists.
    + intros id r. rewrite map_lookup_imap. destruct (decide (a = id)) as [<-|Ha].
      * rewrite lookup_insert_eq. intros [= <-]. split; [by left|]. by apply (Hrow 10); [lia|].
      * rewrite lookup_insert_ne, map_lookup_imap by done. destruct (decide (b = id)) as [<-|Hb].
        -- rewrite lookup_insert_eq. intros [= <-]. split; [by right|].
           apply (Hrow 0); [lia|]. lia.
        -- by rewrite lookup_insert_ne, lookup_empty.
  - exists w'. by split_and!; [..|apply Hfin].
Qed.
End split_brain.

(** A node marked unhealthy stays out: its own heartbeats, and every turn of every
    other node, leave the flag down.  Only a new registration raises it. *)
Lemma unhealthy_is_final `{DatabaseLaws W cluster_tables} pick now m (w w' : W) m' id row :
  heartbeat_turn pick now m w = (m', w') →
  c_nodes (tables w) !! id = Some row → n_healthy row = false →
  ∃ row', c_nodes (tables w') !! id = Some row' ∧ n_healthy row' = false.
Proof.
  intros E Hid Hh. unfold heartbeat_turn, send_heartbeat in E. revert E.
  exec_case w1 E1 Ht1.
  - injection Ht1 as _ Ht1.
    assert (Hid1 : ∃ row1, c_nodes (tables w1) !! id = Some row1 ∧ n_healthy row1 = false).
    { rewrite <-Ht1. simpl. destruct (decide (m_id m = id)) as [<-|].
      - rewrite lookup_alter_eq, Hid. by eexists.
      - rewrite lookup_alter_ne by done. by eexists. }
    destruct Hid1 as (row1 & Hid1 & Hh1).
    destruct (check_cluster_health _ _ _ w1) as [r w2] eqn:E2. intros [= _ <-].
    destruct (check_row _ _ _ _ _ _ _ _ E2 Hid1) as (row2 & ? & _ & Hdown & _). eauto.
  - destruct (check_cluster_health _ _ _ w1) as [r w2] eqn:E2. intros [= _ <-]. rewrite <-Ht1 in Hid.
    destruct (check_row _ _ _ _ _ _ _ _ E2 Hid) as (row2 & ? & _ & Hdown & _). eauto.
Qed.

(** * Concrete runs *)

Definition june : instant := date_utc 2024 6 15 12 0 0 0.
Definition fleet : cluster_tables :=
  ClusterTables {["node-a" := NodeRow "10.0.0.1:80" Primary (VText "2024-06-15 11:58:00") true;
                  "node-b" := NodeRow "10.0.0.2:80" Secondary (VText "2024-06-15 11:59:45") true]} [].
Definition node_b : manager := Manager "node-b" "10.0.0.2:80" Secondary true.

Lemma elect_primary_correct_witness :
  match elect_primary node_b (Reliable fleet) with
  | (Ok m', _) => is_primary m' = false
  | _ => False
  end.
Proof.
  destruct (elect_primary node_b (Reliable fleet)) as [[m'|e] w'] eqn:E;
    [|vm_compute in E; discriminate E].
  destruct (elect_primary_correct _ _ _ _ E) as [_ (p & row & Hp & _ & _ & Hstate & ->)].
  unfold str_eqb. apply bool_decide_eq_false. intros ->.
  assert (Hb : n_state <$> c_nodes (tables (elect_primary node_b (Reliable fleet)).2) !! "node-b"
    = Some Secondary) by (vm_compute; reflexivity).
  rewrite E in Hb. apply fmap_Some_1 in Hb as (r & Hr & Hsec).
  apply Hstate in Hr as [_ Hr]. rewrite <-Hsec in Hr. discriminate (Hr eq_refl).
Defined.

Lemma health_check_correct_witness :
  match heartbeat_turn head june node_b (Reliable fleet) with
  | (_, w') => n_healthy <$> c_nodes (tables w') !! "node-a" = Some false
  end.
Proof.
  destruct (heartbeat_turn head june node_b (Reliable fleet)) as [m' w'] eqn:E.
  destruct (health_check_correct head june node_b (Reliable fleet) m' w' "node-a"
    (NodeRow "10.0.0.1:80" Primary (VText "2024-06-15 11:58:00") true) E
    (eq_refl) ltac:(discriminate)) as (row' & Hr & _ & _ & _ & Hh).
  rewrite Hr. simpl. rewrite (Hh (reliable_never_fails _)). vm_compute. reflexivity.
Defined.

Lemma two_primaries_witness :
  ∃ ma mb w2 w', rounds head 11 (june + 20 * second) ma mb w2 = (ma, mb, w') ∧
    is_primary ma = true ∧ is_primary mb = true.
Proof.
  destruct (two_primaries (reliable_never_fails _) head) with (a := "node-a") (b := "node-b")
    (addr_a := "10.0.0.1:80") (addr_b := "10.0.0.2:80") (t := june) (k := 10%nat)
    (w := Reliable (ClusterTables ∅ []))
    as (ma & mb & w1 & w2 & w' & _ & _ & Er & Hma & Hmb & _).
  - intros [|r l] Hl; [done|]. exists r. split; [done|left].
  - discriminate.
  - reflexivity.
  - reflexivity.
  - vm_compute. discriminate.
  - vm_compute. reflexivity.
  - by exists ma, mb, w2, w'.
Defined.
