(* ===== verification/Retention.v ===== *)
(** Backup retention (src/backup/retention.go): the validation of the settings, the
    size-cap parser, the recognition of backup files by name, and the sweep that keeps
    the newest backups of each tier and then enforces the cap.  The backup directory is
    a store whose operations may fail ([Sql]'s interface: a glob, a stat and a remove
    are its statements). *)
From S2P Require Import Prelude GoStrings GoFloat GoTime Sql DbTime.
From Stdlib Require Import Ascii SpecFloat.
Open Scope Z_scope.

(** * Settings *)

Record retention_config := RetentionConfig {
  r_max_backups : Z; r_weekly : Z; r_monthly : Z; r_yearly : Z; r_max_total_size : string
}.

(** DefaultRetention *)
Definition default_retention : retention_config := RetentionConfig 1 0 0 0 "10%".

Definition retention_falsey_values : list string :=
  ["0"; "false"; "no"; "none"; "disable"; "disabled"; "off"].
Definition is_falsey_retention_value (s : string) : bool :=
  bool_decide (to_lower (trim_space s) ∈ retention_falsey_values).

(** One count of the table: its corrected value and the warnings. *)
Definition normalize_count (name : string) (low def high v : Z) (note : string)
  : Z * list string :=
  if v <? low then
    (def, [name +:+ ": " +:+ itoa v +:+ " invalid, using default " +:+ itoa def])
  else if high <? v then
    (v, [name +:+ ": " +:+ itoa v +:+ " exceeds recommended " +:+ itoa high +:+ note])
  else (v, []).

(** Normalize *)
Definition normalize (r : retention_config) : retention_config * list string :=
  let '(mb, w1) := normalize_count "max_backups" 1 1 7 (r_max_backups r)
                     (" (" +:+ itoa (r_max_backups r) +:+ " days of daily backups)") in
  let '(kw, w2) := normalize_count "keep_weekly" 0 0 8 (r_weekly r)
                     " (more than 2 months of weekly backups)" in
  let '(km, w3) := normalize_count "keep_monthly" 0 0 12 (r_monthly r)
                     " (more than a year of monthly backups)" in
  let '(ky, w4) := normalize_count "keep_yearly" 0 0 2 (r_yearly r)
                     " (more than 2 years of yearly backups)" in
  (RetentionConfig mb kw km ky
     (if is_empty (trim_space (r_max_total_size r)) then "10%" else r_max_total_size r),
   w1 ++ w2 ++ w3 ++ w4).

(** * The size cap *)

(** sizeSpecPattern: the number and the unit; under (?i) the Kelvin sign is also a K. *)
Fixpoint span (f : ascii → bool) (l : list ascii) : list ascii * list ascii :=
  match l with
  | [] => ([], [])
  | c :: l' => if f c then let '(a, b) := span f l' in (c :: a, b) else ([], l)
  end.
Definition regex_space (c : ascii) : bool := bool_decide (code c ∈ [9; 10; 12; 13; 32]%N).
Definition upper_bytes (l : list ascii) : list ascii := map upper_byte l.
Definition kelvin : list ascii := utf8 [226; 132; 170]%N.
Definition size_units : list (list ascii) :=
  map bytes [""; "TB"; "GB"; "MB"; "KB"; "B"; "T"; "G"; "M"; "K"] ++
  [kelvin; kelvin ++ bytes "B"].
Definition size_spec (s : string) : option (string * string) :=
  let '(int_part, l) := span is_digit (bytes s) in
  if bool_decide (int_part = []) then None else
  let '(number, l) :=
    match l with
    | c :: l' =>
        if decide (c = dot) then
          let '(frac, l'') := span is_digit l' in
          if bool_decide (frac = []) then (int_part, l) else (int_part ++ dot :: frac, l'')
        else (int_part, l)
    | [] => (int_part, l)
    end in
  let '(_, unit) := span regex_space l in
  let unit := upper_bytes unit in
  if bool_decide (unit ∈ size_units) then Some (of_bytes number, of_bytes unit) else None.

Definition multiplier (unit : string) : Z :=
  if bool_decide (unit ∈ ["K"; "KB"]) then 2 ^ 10
  else if bool_decide (unit ∈ ["M"; "MB"]) then 2 ^ 20
  else if bool_decide (unit ∈ ["G"; "GB"]) then 2 ^ 30
  else if bool_decide (unit ∈ ["T"; "TB"]) then 2 ^ 40
  else 1.

Inductive size_error := InvalidPercent (spec : string) | InvalidSize (spec : string).

(** ParseMaxTotalSizeBytes *)
Definition parse_max_total_size_bytes (spec : string) (volume_total : Z) : result size_error Z :=
  let trimmed := trim_space spec in
  if is_empty trimmed || is_falsey_retention_value trimmed then Ok 0
  else if has_suffix trimmed "%" then
    match parse_float (trim_space (trim_suffix trimmed "%")) with
    | None => Fail (InvalidPercent spec)
    | Some pct =>
        if f_le pct (f_of_Z 0) then Fail (InvalidPercent spec)
        else if volume_total <=? 0 then Ok 0
        else Ok (f_to_int64 (f_div (f_mul (f_of_Z volume_total) pct) (f_of_Z 100)))
    end
  else
    match size_spec trimmed with
    | None => Fail (InvalidSize spec)
    | Some (number, unit) =>
        match parse_float number with
        | None => Fail (InvalidSize spec)
        | Some value =>
            if f_lt value (f_of_Z 0) then Fail (InvalidSize spec)
            else Ok (f_to_int64 (f_mul value (f_of_Z (multiplier unit))))
        end
    end.

Example size_caps :
  map (λ s, parse_max_total_size_bytes s 1000)
    ["10%"; " off "; "50G"; "1.5 kb"; "-1%"; "5X"; "512MB"; "9999999T"] =
  [Ok 100; Ok 0; Ok (50 * 2 ^ 30); Ok 1536; Fail (InvalidPercent "-1%"); Fail (InvalidSize "5X");
   Ok (512 * 2 ^ 20); Ok min_int64].
Proof. vm_compute. reflexivity. Qed.

(** * Names *)

Definition archive_suffix (l : list ascii) : bool :=
  bool_decide (of_bytes l ∈ [".tar.gz"; ".tar.gz.enc"]).

(** backupNamePattern: the text of its date *)
Definition backup_name_date (name : string) : option (list ascii) :=
  if negb (has_prefix name "wthr_backup_") then None else
  let l := drop 12 (bytes name) in
  let date := take 10 l in
  let shape := match date with
    | [a; b; c; d; s1; e; f; s2; g; h] =>
        forallb is_digit [a; b; c; d; e; f; g; h] && bool_decide (s1 = dash) && bool_decide (s2 = dash)
    | _ => false
    end in
  let rest := drop 10 l in
  let timed := match rest with
    | u :: rest => bool_decide (u = byte 95) && forallb is_digit (take 6 rest) &&
                   bool_decide (length (take 6 rest) = 6%nat) && archive_suffix (drop 6 rest)
    | [] => false
    end in
  if shape && (archive_suffix rest || timed) then Some date else None.

(** incrementalNamePattern *)
Definition incremental_name (name : string) : bool :=
  bool_decide (name ∈ ["wthr-daily.tar.gz"; "wthr-daily.tar.gz.enc";
                       "wthr-hourly.tar.gz"; "wthr-hourly.tar.gz.enc"]).

(** The date of a full backup: a day that exists. *)
Definition backup_date (name : string) : option instant :=
  d ← backup_name_date name; time_parse ymd d.

Example backup_names :
  map backup_date ["wthr_backup_2024-06-15.tar.gz"; "wthr_backup_2024-06-15_093000.tar.gz.enc";
                   "wthr_backup_2024-02-30.tar.gz"; "wthr_backup_2024-06-15.tar.gz.tmp"; "notes.txt"] =
  [Some (date_utc 2024 6 15 0 0 0 0); Some (date_utc 2024 6 15 0 0 0 0); None; None; None].
Proof. vm_compute. reflexivity. Qed.

(** * The directory *)

Record file := File { f_mtime : instant; f_size : Z }.
Abbreviation dir := (gmap string file).

Record retained := Retained { b_name : string; b_date : instant; b_size : Z }.

Inductive sweep_error := DeleteFailed (name : string).

(** keepNewest, on a list ordered oldest first: the names it adds. *)
Definition keep_newest (l : list retained) (n : Z) : list retained :=
  if n <=? 0 then [] else drop (Z.to_nat (Z.max 0 (Z.of_nat (length l) - n))) l.

(** The tiers: which days qualify, and how many are kept. *)
Definition is_yearly (b : retained) : bool :=
  (month_of utc (b_date b) =? 1) && (dom_of utc (b_date b) =? 1).
Definition is_monthly (b : retained) : bool := dom_of utc (b_date b) =? 1.
Definition is_weekly (b : retained) : bool := weekday_of utc (b_date b) =? 0.
Definition is_daily (b : retained) : bool := true.
Definition tiers (r : retention_config) : list ((retained → bool) * Z) :=
  [(is_yearly, r_yearly r); (is_monthly, r_monthly r); (is_weekly, r_weekly r);
   (is_daily, r_max_backups r)].
Definition tier_of (p : retained → bool) (bs : list retained) : list retained :=
  filter (λ b, p b = true) bs.
Definition kept_names (r : retention_config) (bs : list retained) : gset string :=
  list_to_set (concat (map (λ '(p, n), map b_name (keep_newest (tier_of p bs) n)) (tiers r))).

Section sweep.
Context `{Database W dir} (sort_slice : ∀ A, (A → A → bool) → list A → list A).

(** filepath.Glob sorts what it finds and reports no I/O error; both patterns contain
    every name the two regular expressions accept. *)
Definition glob (w : W) : list string * W :=
  let '(r, w) := query (λ d, merge_sort String.le (map_to_list d).*1) w in (default [] r, w).

(** os.Stat of a file that may be gone *)
Definition stat (name : string) (w : W) : option file * W :=
  let '(r, w) := query (λ d, d !! name) w in (mjoin r, w).

(** os.Remove *)
Definition remove (name : string) (w : W) : bool * W :=
  let '(r, w) := exec (λ d, (bool_decide (is_Some (d !! name)), delete name d)) w in
  (default false r, w).

Fixpoint stat_dated (names : list string) (w : W) : list retained * W :=
  match names with
  | [] => ([], w)
  | name :: names =>
      match backup_date name with
      | None => stat_dated names w
      | Some date =>
          let '(info, w) := stat name w in
          let '(bs, w) := stat_dated names w in
          (Retained name date (match info with Some f => f_size f | None => 0 end) :: bs, w)
      end
  end.
Definition older (a b : retained) : bool := b_date a <? b_date b.

(** listRetainedBackups and CountBackups *)
Definition list_retained_backups (w : W) : list retained * W :=
  let '(names, w) := glob w in
  let '(bs, w) := stat_dated names w in (sort_slice _ older bs, w).
Definition count_backups (w : W) : nat * W :=
  let '(bs, w) := list_retained_backups w in (length bs, w).

Fixpoint stat_incremental (names : list string) (w : W) : list retained * W :=
  match names with
  | [] => ([], w)
  | name :: names =>
      if negb (incremental_name name) then stat_incremental names w else
      let '(info, w) := stat name w in
      let '(bs, w) := stat_incremental names w in
      (match info with Some f => Retained name (f_mtime f) (f_size f) :: bs | None => bs end, w)
  end.

(** listIncrementalBackups *)
Definition list_incremental_backups (w : W) : list retained * W :=
  let '(names, w) := glob w in
  let '(bs, w) := stat_incremental names w in (sort_slice _ older bs, w).

(** The sweep over the tiers: the survivors, the names deleted, and an error. *)
Fixpoint prune (kept : gset string) (bs remaining : list retained) (deleted : list string) (w : W)
  : list retained * list string * option sweep_error * W :=
  match bs with
  | [] => (remaining, deleted, None, w)
  | b :: bs =>
      if bool_decide (b_name b ∈ kept) then prune kept bs (remaining ++ [b]) deleted w else
      let '(ok, w) := remove (b_name b) w in
      if negb ok then (remaining, deleted, Some (DeleteFailed (b_name b)), w)
      else prune kept bs remaining (deleted ++ [b_name b]) w
  end.

(** The pass of the size cap, oldest first. *)
Fixpoint enforce_cap (cap total : Z) (bs : list retained) (deleted : list string) (w : W)
  : list string * option sweep_error * W :=
  match bs with
  | [] => (deleted, None, w)
  | b :: bs =>
      if negb (cap <? total) then (deleted, None, w) else
      let '(ok, w) := remove (b_name b) w in
      if negb ok then (deleted, Some (DeleteFailed (b_name b)), w)
      else enforce_cap cap (wrap64 (total - b_size b)) bs (deleted ++ [b_name b]) w
  end.
Definition total_size (bs : list retained) : Z :=
  foldl (λ t b, wrap64 (t + b_size b)) 0 bs.

(** applyRetention *)
Definition apply_retention (r : retention_config) (volume_total : Z) (w : W)
  : list string * option sweep_error * W :=
  let normalized := (normalize r).1 in
  let '(backups, w) := list_retained_backups w in
  let '(remaining, deleted, err, w) := prune (kept_names normalized backups) backups [] [] w in
  match err with
  | Some _ => (deleted, err, w)
  | None =>
      let '(incrementals, w) := list_incremental_backups w in
      let remaining := sort_slice _ older (remaining ++ incrementals) in
      match parse_max_total_size_bytes (r_max_total_size normalized) volume_total with
      | Ok cap =>
          if 0 <? cap then enforce_cap cap (total_size remaining) remaining deleted w
          else (deleted, None, w)
      | Fail _ => (deleted, None, w)
      end
  end.
End sweep.

(** * Settings: what [Normalize] guarantees *)

Lemma normalize_count_value name low def high v note :
  (normalize_count name low def high v note).1 = (if v <? low then def else v).
Proof. unfold normalize_count. by destruct (v <? low), (high <? v). Qed.

Lemma normalize_count_warning name low def high v note :
  (normalize_count name low def high v note).2 = [] ↔ low <= v <= high.
Proof.
  unfold normalize_count.
  destruct (Z.ltb_spec v low), (Z.ltb_spec high v); simpl; split; done || lia.
Qed.

Definition default_size (s : string) : string := if is_empty (trim_space s) then "10%" else s.

Lemma normalize_value r :
  (normalize r).1 =
  RetentionConfig (if r_max_backups r <? 1 then 1 else r_max_backups r)
    (if r_weekly r <? 0 then 0 else r_weekly r) (if r_monthly r <? 0 then 0 else r_monthly r)
    (if r_yearly r <? 0 then 0 else r_yearly r) (default_size (r_max_total_size r)).
Proof.
  unfold normalize.
  do 4 (destruct (normalize_count _ _ _ _ _ _) eqn:E; apply (f_equal fst) in E;
    rewrite normalize_count_value in E; cbn [fst] in E; rewrite E; clear E).
  reflexivity.
Qed.

Lemma normalize_warnings r :
  (normalize r).2 = [] ↔ 1 <= r_max_backups r <= 7 ∧ 0 <= r_weekly r <= 8 ∧
                         0 <= r_monthly r <= 12 ∧ 0 <= r_yearly r <= 2.
Proof.
  unfold normalize.
  set (n1 := " (" +:+ itoa (r_max_backups r) +:+ " days of daily backups)").
  rewrite <-(normalize_count_warning "max_backups" 1 1 7 (r_max_backups r) n1),
    <-(normalize_count_warning "keep_weekly" 0 0 8 (r_weekly r) " (more than 2 months of weekly backups)"),
    <-(normalize_count_warning "keep_monthly" 0 0 12 (r_monthly r) " (more than a year of monthly backups)"),
    <-(normalize_count_warning "keep_yearly" 0 0 2 (r_yearly r) " (more than 2 years of yearly backups)").
  do 4 destruct (normalize_count _ _ _ _ _ _). simpl. rewrite !app_nil. tauto.
Qed.

Lemma default_size_valid s : is_empty (trim_space (default_size s)) = false.
Proof.
  unfold default_size. destruct (is_empty (trim_space s)) eqn:E; [vm_compute; reflexivity|done].
Qed.

(** [Normalize] never refuses: its result is always valid (at least one daily
    backup, no negative count, a size cap that is not blank), it changes no valid
    setting, it is idempotent, and it warns exactly when a count is out of its
    recommended range. *)
Theorem normalize_correct r :
  let n := (normalize r).1 in
  (1 <= r_max_backups n ∧ 0 <= r_weekly n ∧ 0 <= r_monthly n ∧ 0 <= r_yearly n ∧
   is_empty (trim_space (r_max_total_size n)) = false) ∧
  (1 <= r_max_backups r → 0 <= r_weekly r → 0 <= r_monthly r → 0 <= r_yearly r →
   is_empty (trim_space (r_max_total_size r)) = false → n = r) ∧
  (normalize n).1 = n ∧
  ((normalize r).2 = [] ↔ 1 <= r_max_backups r <= 7 ∧ 0 <= r_weekly r <= 8 ∧
                          0 <= r_monthly r <= 12 ∧ 0 <= r_yearly r <= 2).
Proof.
  assert (Hid : ∀ r, 1 <= r_max_backups r → 0 <= r_weekly r → 0 <= r_monthly r → 0 <= r_yearly r →
    is_empty (trim_space (r_max_total_size r)) = false → (normalize r).1 = r).
  { intros [mb kw km ky size] **. rewrite normalize_value. unfold default_size. simpl in *.
    repeat match goal with |- context [?a <? ?b] => destruct (Z.ltb_spec a b); [lia|] end.
    case_match; congruence. }
  assert (Hvalid : let n := (normalize r).1 in 1 <= r_max_backups n ∧ 0 <= r_weekly n ∧
    0 <= r_monthly n ∧ 0 <= r_yearly n ∧ is_empty (trim_space (r_max_total_size n)) = false).
  { rewrite normalize_value. cbn [r_max_backups r_weekly r_monthly r_yearly r_max_total_size].
    split_and!; [| | | |apply default_size_valid]; case_match; bool_facts; lia. }
  cbv zeta in *. split; [done|]. split; [apply Hid|]. split; [|apply normalize_warnings].
  destruct Hvalid as (? & ? & ? & ? & ?). by apply Hid.
Qed.

(** * The tiers *)

Lemma keep_newest_split l n : 0 < n →
  ∃ l1, l = l1 ++ keep_newest l n ∧ Z.of_nat (length (keep_newest l n)) = Z.min n (Z.of_nat (length l)).
Proof.
  intros Hn. unfold keep_newest. destruct (Z.leb_spec n 0); [lia|].
  exists (take (Z.to_nat (Z.max 0 (Z.of_nat (length l) - n))) l). rewrite take_drop.
  split; [done|]. rewrite length_drop. lia.
Qed.

Lemma elem_of_kept r bs name :
  name ∈ kept_names r bs ↔
  ∃ p n b, (p, n) ∈ tiers r ∧ b ∈ keep_newest (tier_of p bs) n ∧ name = b_name b.
Proof.
  unfold kept_names. rewrite elem_of_list_to_set, list_elem_of_In, in_concat. split.
  - intros (x & Hx & Hname). apply in_map_iff in Hx as ([p n] & <- & Hpn).
    apply in_map_iff in Hname as (b & <- & Hb). exists p, n, b. by rewrite !list_elem_of_In.
  - intros (p & n & b & Hpn & Hb & ->). apply list_elem_of_In in Hpn, Hb.
    exists (map b_name (keep_newest (tier_of p bs) n)).
    split; apply in_map_iff; [by exists (p, n)|by exists b].
Qed.

Section tiers.
Context (r : retention_config) (bs : list retained).
Context (bs_sorted : StronglySorted (λ a b, b_date a <= b_date b) bs)
        (bs_names : NoDup (map b_name bs)).

Lemma keep_in_tier p n b : b ∈ keep_newest (tier_of p bs) n → b ∈ bs ∧ p b = true.
Proof.
  intros Hb. assert (Hb' : b ∈ tier_of p bs).
  { unfold keep_newest in Hb. destruct (n <=? 0); [by apply elem_of_nil in Hb|].
    by apply (subseteq_drop _ (tier_of p bs)) in Hb. }
  unfold tier_of in Hb'. by apply list_elem_of_filter in Hb' as [? ?].
Qed.

Lemma same_name b b' : b ∈ bs → b' ∈ bs → b_name b = b_name b' → b = b'.
Proof.
  intros [i Hi]%list_elem_of_lookup [j Hj]%list_elem_of_lookup Hn.
  assert (i = j) as ->; [|congruence].
  apply (NoDup_lookup _ i j (b_name b) bs_names); rewrite list_lookup_fmap;
    [by rewrite Hi|rewrite Hj; simpl; by rewrite Hn].
Qed.

(** A backup that no tier keeps is outnumbered in each of its tiers by survivors that
    are at least as new. *)
Lemma dropped_outnumbered b p n :
  b ∈ bs → b_name b ∉ kept_names r bs → (p, n) ∈ tiers r → p b = true →
  n <= Z.of_nat (length (filter (λ b', p b' = true ∧ b_name b' ∈ kept_names r bs ∧
                                       b_date b <= b_date b') bs)).
Proof.
  intros Hb Hdrop Htier Hp. destruct (Z.leb_spec n 0); [lia|].
  destruct (keep_newest_split (tier_of p bs) n ltac:(lia)) as (l1 & El & Hlen).
  assert (Hb1 : b ∈ l1).
  { assert (Hbt : b ∈ tier_of p bs) by (apply list_elem_of_filter; done).
    rewrite El in Hbt. apply elem_of_app in Hbt as [|Hk]; [done|].
    exfalso. apply Hdrop, elem_of_kept. eauto 6. }
  assert (Hs : StronglySorted (λ a b, b_date a <= b_date b) (tier_of p bs))
    by (by apply StronglySorted_filter).
  assert (Hnd : NoDup (tier_of p bs)) by (apply NoDup_filter; by eapply NoDup_fmap_1).
  rewrite El in Hs, Hnd. apply StronglySorted_app in Hs as (Hle & _).
  apply NoDup_app in Hnd as (_ & _ & Hnd).
  destruct (Z.leb_spec n (Z.of_nat (length (tier_of p bs)))).
  - assert (Hcount : Nat.le (length (keep_newest (tier_of p bs) n)) (length (filter (λ b', p b' = true ∧
      b_name b' ∈ kept_names r bs ∧ b_date b <= b_date b') bs))); [|lia].
    apply length_le_incl; [done|]. intros b' Hb'. destruct (keep_in_tier p n b' Hb') as [Hin Hp'].
    apply list_elem_of_filter. split; [|done]. split; [done|]. split; [|by apply Hle].
    apply elem_of_kept. by exists p, n, b'.
  - exfalso. assert (Hlen0 : length l1 = 0%nat).
    { apply (f_equal length) in El. rewrite length_app in El. lia. }
    destruct l1; [by apply elem_of_nil in Hb1|done].
Qed.

(** A backup that is kept has fewer than [n] newer ones in some tier of its own. *)
Lemma kept_ranked b :
  b ∈ bs → b_name b ∈ kept_names r bs →
  ∃ p n, (p, n) ∈ tiers r ∧ p b = true ∧
    Z.of_nat (length (filter (λ b', p b' = true ∧ b_date b < b_date b') bs)) < n.
Proof.
  intros Hb (p & n & b0 & Htier & Hk & Hname)%elem_of_kept.
  destruct (keep_in_tier p n b0 Hk) as [Hb0 Hp].
  apply same_name in Hname as <-; [|done..]. exists p, n. split; [done|]. split; [done|].
  destruct (Z.leb_spec n 0) as [Hn|Hn].
  { unfold keep_newest in Hk. destruct (Z.leb_spec n 0); [by apply elem_of_nil in Hk|lia]. }
  destruct (keep_newest_split (tier_of p bs) n Hn) as (l1 & El & Hlen).
  apply list_elem_of_split in Hk as (k1 & k2 & Ek).
  assert (Hs : StronglySorted (λ a b, b_date a <= b_date b) (tier_of p bs))
    by (by apply StronglySorted_filter).
  rewrite El, Ek in Hs. apply StronglySorted_app in Hs as (H1 & _ & Hs).
  apply StronglySorted_app in Hs as (H2 & _ & _).
  assert (Hcount : Nat.le (length (filter (λ b', p b' = true ∧ b_date b < b_date b') bs)) (length k2)).
  { apply length_le_incl; [apply NoDup_filter; by eapply NoDup_fmap_1|].
    intros b' [[Hp' Hd] Hin]%list_elem_of_filter.
    assert (Ht : b' ∈ tier_of p bs) by (by apply list_elem_of_filter).
    rewrite El, Ek, !elem_of_app, elem_of_cons in Ht.
    destruct Ht as [Ht|[Ht|[->|Ht]]]; [|..|done].
    - specialize (H1 b' b Ht). rewrite elem_of_app, elem_of_cons in H1. specialize (H1 ltac:(auto)). lia.
    - specialize (H2 b' b Ht). rewrite elem_of_cons in H2. specialize (H2 ltac:(auto)). lia.
    - lia. }
  rewrite Ek, length_app in Hlen. simpl in Hlen. lia.
Qed.
End tiers.

(** * Listing *)

(** The dated backups of a directory, and its incrementals. *)
Definition as_dated (p : string * file) : option retained :=
  (λ t, Retained p.1 t (f_size p.2)) <$> backup_date p.1.
Definition dated (d : dir) : list retained := omap as_dated (map_to_list d).
Definition as_incremental (p : string * file) : option retained :=
  if incremental_name p.1 then Some (Retained p.1 (f_mtime p.2) (f_size p.2)) else None.
Definition incrementals (d : dir) : list retained := omap as_incremental (map_to_list d).

(** No name is of both kinds. *)
Lemma kinds_disjoint name : incremental_name name = true → backup_date name = None.
Proof.
  unfold incremental_name. rewrite bool_decide_eq_true. intros Hin.
  repeat (apply elem_of_cons in Hin as [->|Hin]; [vm_compute; reflexivity|]).
  by apply elem_of_nil in Hin.
Qed.

Section listing.
Context `{DatabaseLaws W dir} (sort_slice : ∀ A, (A → A → bool) → list A → list A)
  `{!SortSlice sort_slice}.

Lemma stat_spec name (w : W) o w' :
  stat name w = (o, w') →
  tables w' = tables w ∧ (∀ f, o = Some f → tables w !! name = Some f) ∧
  (never_fails W dir → o = tables w !! name).
Proof.
  unfold stat. exec_case w1 E Ht; intros [= <- <-].
  - simpl. split_and!; [done| |]; destruct (tables w !! name); done.
  - split_and!; [done|done|]. intros Hup. unfold query in E. by apply Hup in E.
Qed.

Lemma glob_spec (w : W) names w' :
  glob w = (names, w') →
  tables w' = tables w ∧ NoDup names ∧ (∀ n, n ∈ names → is_Some (tables w !! n)) ∧
  (never_fails W dir → ∀ n, is_Some (tables w !! n) → n ∈ names).
Proof.
  unfold glob.
  assert (Hin : ∀ n, n ∈ merge_sort String.le (map_to_list (tables w)).*1 ↔ is_Some (tables w !! n)).
  { intros n. rewrite merge_sort_Permutation, list_elem_of_fmap. split.
    - intros ([n' f] & -> & Hf%elem_of_map_to_list). by eexists.
    - intros [f Hf]. exists (n, f). by rewrite elem_of_map_to_list. }
  exec_case w1 E Ht; intros [= <- <-]; simpl; split_and!; try done.
  - rewrite merge_sort_Permutation. apply NoDup_fst_map_to_list.
  - intros n. apply Hin.
  - intros _ n. apply Hin.
  - apply NoDup_nil_2.
  - by intros n ?%elem_of_nil.
  - intros Hup. unfold query in E. by apply Hup in E.
Qed.

(** The size of a file, or nothing where os.Stat failed *)
Definition size_seen (d : dir) (b : retained) : Prop := b_size b = 0 ∨ ∃ f, d !! b_name b = Some f ∧ b_size b = f_size f.

(** Every entry of the listing is a file with the date of its name. *)
Lemma stat_dated_spec names (w : W) bs w' :
  NoDup names → (∀ n, n ∈ names → is_Some (tables w !! n)) →
  stat_dated names w = (bs, w') →
  tables w' = tables w ∧ NoDup (map b_name bs) ∧
  (∀ b, b ∈ bs → (b_name b ∈ names ∧ backup_date (b_name b) = Some (b_date b)) ∧ size_seen (tables w) b) ∧
  (never_fails W dir → ∀ n f t, n ∈ names → tables w !! n = Some f → backup_date n = Some t →
     Retained n t (f_size f) ∈ bs).
Proof.
  intros Hnd. revert w bs w'. induction Hnd as [|n names Hn Hnd IH]; intros w bs w' Hdom; simpl.
  { intros [= <- <-]. split_and!; [done|apply NoDup_nil_2|by intros b ?%elem_of_nil|].
    by intros _ n f t ?%elem_of_nil. }
  assert (Hdom' : ∀ n, n ∈ names → is_Some (tables w !! n)) by (intros; apply Hdom; by right).
  destruct (backup_date n) as [date|] eqn:Edate.
  - destruct (stat n w) as [info w1] eqn:E1. apply stat_spec in E1 as (Ht1 & Hinfo & Hup1).
    rewrite <-Ht1 in Hdom'.
    destruct (stat_dated names w1) as [bs2 w2] eqn:E2. intros [= <- <-].
    apply IH in E2 as (Ht2 & Hnd2 & Hin2 & Hup2); [|done]. rewrite Ht1 in *.
    split_and!; [congruence| | |].
    + simpl. apply NoDup_cons. split; [|done]. intros (b & Hb & Hbin)%list_elem_of_fmap.
      apply Hn. rewrite Hb. by apply Hin2.
    + intros b [->|Hb]%elem_of_cons; simpl.
      * split; [split; [left|done]|]. unfold size_seen. cbn. destruct info as [f|]; [right|by left]. eauto.
      * destruct (Hin2 b Hb) as [[? ?] ?]. by split; [split; [right|]|].
    + intros Hup n' f t [->|Hn']%elem_of_cons Hf Ht; [|right; by apply Hup2].
      assert (t = date) as -> by congruence. rewrite (Hup1 Hup), Hf. left.
  - intros E. apply IH in E as (Ht2 & Hnd2 & Hin2 & Hup2); [|done]. split_and!; [done|done| |].
    + intros b Hb. destruct (Hin2 b Hb) as [[? ?] ?]. by split; [split; [right|]|].
    + intros Hup n' f t [->|Hn']%elem_of_cons Hf Ht; [congruence|by apply (Hup2 Hup)].
Qed.

Lemma elem_of_dated d b :
  b ∈ dated d ↔ ∃ f, d !! b_name b = Some f ∧ backup_date (b_name b) = Some (b_date b) ∧ b_size b = f_size f.
Proof.
  unfold dated. rewrite list_elem_of_omap. split.
  - intros ([n f] & Hf%elem_of_map_to_list & Hd). unfold as_dated in Hd. simpl in Hd.
    apply fmap_Some in Hd as (t & Ht & ->). by exists f.
  - intros (f & Hf & Hd & Hs). exists (b_name b, f). rewrite elem_of_map_to_list. split; [done|].
    unfold as_dated. simpl. rewrite Hd. simpl. destruct b; simpl in *. by subst.
Qed.

(** What [listRetainedBackups] returns. *)
Lemma list_retained_spec (w : W) bs w' :
  list_retained_backups sort_slice w = (bs, w') →
  tables w' = tables w ∧ NoDup (map b_name bs) ∧ StronglySorted (λ a b, b_date a <= b_date b) bs ∧
  (∀ b, b ∈ bs → (is_Some (tables w !! b_name b) ∧ backup_date (b_name b) = Some (b_date b)) ∧ size_seen (tables w) b) ∧
  (never_fails W dir → ∀ b, b ∈ bs ↔ b ∈ dated (tables w)).
Proof.
  unfold list_retained_backups. destruct (glob w) as [names w1] eqn:E1.
  apply glob_spec in E1 as (Ht1 & Hnd1 & Hdom1 & Hup1).
  destruct (stat_dated names w1) as [l w2] eqn:E2. intros [= <- <-].
  apply stat_dated_spec in E2 as (Ht2 & Hnd2 & Hin2 & Hup2); [|done|by rewrite Ht1].
  rewrite Ht1 in *. split_and!; [done| | | |].
  - by rewrite (Permutation_map b_name (sort_slice_perm _ older l)).
  - apply sort_slice_sorted.
  - intros b. rewrite sort_slice_perm. intros Hb. destruct (Hin2 b Hb) as [[? ?] ?]. auto.
  - intros Hup b. rewrite sort_slice_perm, elem_of_dated. split.
    + intros Hb. destruct (Hin2 b Hb) as [[Hn Hd] _]. destruct (Hdom1 _ Hn) as [f Hf].
      exists f. split_and!; [done|done|].
      specialize (Hup2 Hup _ f _ Hn Hf Hd).
      by rewrite (same_name l Hnd2 b (Retained (b_name b) (b_date b) (f_size f)) Hb Hup2 eq_refl).
    + intros (f & Hf & Hd & Hs). destruct b as [n t s]. simpl in *. subst s.
      apply Hup2; [done|by apply Hup1; [|eexists]|done|done].
Qed.

Lemma elem_of_incrementals d b :
  b ∈ incrementals d ↔ ∃ f, d !! b_name b = Some f ∧ incremental_name (b_name b) = true ∧
    b_date b = f_mtime f ∧ b_size b = f_size f.
Proof.
  unfold incrementals. rewrite list_elem_of_omap. split.
  - intros ([n f] & Hf%elem_of_map_to_list & Hd). unfold as_incremental in Hd. simpl in Hd.
    destruct (incremental_name n) eqn:En; [|done]. injection Hd as <-. by exists f.
  - intros (f & Hf & Hi & Hd & Hs). exists (b_name b, f). rewrite elem_of_map_to_list. split; [done|].
    unfold as_incremental. simpl. rewrite Hi. destruct b; simpl in *. by subst.
Qed.

Lemma stat_incremental_spec names (w : W) bs w' :
  NoDup names → stat_incremental names w = (bs, w') →
  tables w' = tables w ∧ NoDup (map b_name bs) ∧
  (∀ b, b ∈ bs → b_name b ∈ names ∧ b ∈ incrementals (tables w)) ∧
  (never_fails W dir → ∀ b, b ∈ incrementals (tables w) → b_name b ∈ names → b ∈ bs).
Proof.
  intros Hnd. revert w bs w'. induction Hnd as [|n names Hn Hnd IH]; intros w bs w'; simpl.
  { intros [= <- <-]. split_and!; [done|apply NoDup_nil_2|by intros b ?%elem_of_nil|].
    by intros _ b _ ?%elem_of_nil. }
  destruct (incremental_name n) eqn:En; simpl.
  - destruct (stat n w) as [info w1] eqn:E1. apply stat_spec in E1 as (Ht1 & Hinfo & Hup1).
    destruct (stat_incremental names w1) as [bs2 w2] eqn:E2. intros [= <- <-].
    apply IH in E2 as (Ht2 & Hnd2 & Hin2 & Hup2). rewrite Ht1 in *. split; [done|].
    destruct info as [f|].
    + split_and!.
      * simpl. apply NoDup_cons. split; [|done]. intros (b & Hb & Hbin)%list_elem_of_fmap.
        apply Hn. rewrite Hb. by apply Hin2.
      * intros b [->|Hb]%elem_of_cons; simpl.
        -- split; [left|]. apply elem_of_incrementals. exists f. auto.
        -- destruct (Hin2 b Hb). split; [by right|done].
      * intros Hup b Hb [Hbn|Hbn]%elem_of_cons; [|right; by apply Hup2].
        apply elem_of_incrementals in Hb as (f' & Hf' & _ & Hd & Hs).
        rewrite Hbn, (Hinfo f eq_refl) in Hf'. injection Hf' as <-.
        assert (b = Retained n (f_mtime f) (f_size f)) as ->; [|left].
        destruct b; simpl in *; congruence.
    + split_and!; [done| |].
      * intros b Hb. destruct (Hin2 b Hb). split; [by right|done].
      * intros Hup b Hb [Hbn|Hbn]%elem_of_cons; [|by apply Hup2].
        apply elem_of_incrementals in Hb as (f' & Hf' & _). rewrite Hbn, <-(Hup1 Hup) in Hf'. done.
  - intros E. apply IH in E as (Ht2 & Hnd2 & Hin2 & Hup2). split_and!; [done|done| |].
    + intros b Hb. destruct (Hin2 b Hb). split; [by right|done].
    + intros Hup b Hb [Hbn|Hbn]%elem_of_cons; [|by apply Hup2].
      apply elem_of_incrementals in Hb as (f' & _ & Hi & _). congruence.
Qed.

Lemma list_incremental_spec (w : W) bs w' :
  list_incremental_backups sort_slice w = (bs, w') →
  tables w' = tables w ∧ NoDup (map b_name bs) ∧
  (∀ b, b ∈ bs → b ∈ incrementals (tables w)) ∧
  (never_fails W dir → ∀ b, b ∈ incrementals (tables w) → b ∈ bs).
Proof.
  unfold list_incremental_backups. destruct (glob w) as [names w1] eqn:E1.
  apply glob_spec in E1 as (Ht1 & Hnd1 & Hdom1 & Hup1).
  destruct (stat_incremental names w1) as [l w2] eqn:E2. intros [= <- <-].
  apply stat_incremental_spec in E2 as (Ht2 & Hnd2 & Hin2 & Hup2); [|done]. rewrite Ht1 in *.
  split_and!; [done| | |].
  - by rewrite (Permutation_map b_name (sort_slice_perm _ older l)).
  - intros b. rewrite sort_slice_perm. apply Hin2.
  - intros Hup b Hb. rewrite sort_slice_perm. apply Hup2; [done|done|].
    apply Hup1; [done|]. apply elem_of_incrementals in Hb as (f & Hf & _). by eexists.
Qed.

(** * Deleting *)

Definition without (names : list string) (d : dir) : dir := foldl (λ d n, delete n d) d names.

Lemma lookup_without names d n :
  without names d !! n = if decide (n ∈ names) then None else d !! n.
Proof.
  revert d. induction names as [|m names IH]; intros d; cbn [without foldl].
  - case_decide as Hin; [by apply elem_of_nil in Hin|done].
  - fold (without names (delete m d)). rewrite IH. destruct (decide (n ∈ names)), (decide (n ∈ m :: names)) as [Hin|Hin]; try done.
    + by destruct Hin; right.
    + apply elem_of_cons in Hin as [->|]; [by rewrite lookup_delete_eq|done].
    + rewrite lookup_delete_ne; [done|]. intros ->. apply Hin. left.
Qed.

Lemma remove_spec name (w : W) ok w' :
  remove name w = (ok, w') →
  tables w' = (if ok then delete name (tables w) else tables w) ∧
  (ok = true → is_Some (tables w !! name)) ∧
  (never_fails W dir → is_Some (tables w !! name) → ok = true).
Proof.
  unfold remove. exec_case w1 E Ht; intros [= <- <-]; simpl.
  - injection Ht as <- Ht. destruct (decide (is_Some (tables w !! name))) as [Hs|Hs].
    + rewrite bool_decide_true by done. by rewrite <-Ht.
    + rewrite bool_decide_false by done. rewrite <-Ht. split_and!; [|done|done].
      apply delete_id. by apply eq_None_not_Some.
  - split_and!; [done|done|]. intros Hup. by apply Hup in E.
Qed.

Lemma prune_spec kept bs : ∀ rem del (w : W) rem' del' err w',
  prune kept bs rem del w = (rem', del', err, w') →
  ∃ gone, del' = del ++ gone ∧ tables w' = without gone (tables w) ∧
    (∀ n, n ∈ gone → n ∈ map b_name bs ∧ n ∉ kept) ∧
    (NoDup (map b_name bs) → NoDup gone) ∧
    (err = None → rem' = rem ++ filter (λ b, b_name b ∈ kept) bs ∧
       ∀ b, b ∈ bs → b_name b ∉ kept → b_name b ∈ gone) ∧
    (never_fails W dir → NoDup (map b_name bs) → (∀ b, b ∈ bs → is_Some (tables w !! b_name b)) →
       err = None).
Proof.
  induction bs as [|b bs IH]; intros rem del w rem' del' err w'; cbn [prune].
  { intros [= <- <- <- <-]. exists []. rewrite !app_nil_r.
    split_and!; [done|done|by intros n ?%elem_of_nil|intros; apply NoDup_nil_2| |done].
    intros _. split; [done|]. by intros b ?%elem_of_nil. }
  case_bool_decide as Hk.
  - intros E. apply IH in E as (gone & -> & -> & Hg & Hnd & Hok & Hup). exists gone.
    split_and!; [done|done| | | |].
    + intros n Hn. destruct (Hg n Hn). split; [by right|done].
    + intros [_ ?]%NoDup_cons. auto.
    + intros He. destruct (Hok He) as [-> Hall]. split.
      * rewrite filter_cons_True by done. by rewrite <-app_assoc.
      * intros b' [->|Hb']%elem_of_cons Hn; [done|auto].
    + intros Hf [_ ?]%NoDup_cons Hall. apply Hup; [done..|]. intros b' Hb'. apply Hall. by right.
  - destruct (remove (b_name b) w) as [ok w1] eqn:E1. apply remove_spec in E1 as (Ht1 & _ & Hup1).
    destruct ok; cbn [negb]; intros E.
    + apply IH in E as (gone & -> & Ht & Hg & Hnd & Hok & Hup). exists (b_name b :: gone).
      rewrite Ht1 in *. split_and!; [by rewrite <-app_assoc|done| | | |].
      * intros n [->|Hn]%elem_of_cons; [split; [left|done]|]. destruct (Hg n Hn). split; [by right|done].
      * intros [Hb ?]%NoDup_cons. apply NoDup_cons. split; [|auto]. intros Hin. by apply Hg in Hin as [? _].
      * intros He. destruct (Hok He) as [-> Hall]. split; [by rewrite filter_cons_False|].
        intros b' [->|Hb']%elem_of_cons Hn; [left|right; auto].
      * intros Hf [Hb ?]%NoDup_cons Hall. apply Hup; [done..|]. intros b' Hb'.
        rewrite lookup_delete_ne; [apply Hall; by right|]. intros Heq. apply Hb.
        rewrite Heq. apply list_elem_of_fmap. by exists b'.
    + injection E as <- <- <- <-. exists []. rewrite app_nil_r. split_and!; [done|done| | | |].
      * by intros n ?%elem_of_nil.
      * intros. apply NoDup_nil_2.
      * done.
      * intros Hf _ Hall. discriminate (Hup1 Hf (Hall b ltac:(left))).
Qed.

Definition sum_sizes (bs : list retained) : Z := foldr (λ b, Z.add (b_size b)) 0 bs.

(** Sizes are not negative, and their sum fits. *)
Definition sizes_ok (bs : list retained) : Prop :=
  Forall (λ b, 0 <= b_size b) bs ∧ sum_sizes bs <= max_int64.

Lemma sum_sizes_nonneg bs : Forall (λ b, 0 <= b_size b) bs → 0 <= sum_sizes bs.
Proof. induction 1; simpl; lia. Qed.

Lemma sum_sizes_perm bs bs' : bs ≡ₚ bs' → sum_sizes bs = sum_sizes bs'.
Proof. induction 1; simpl; lia. Qed.

Lemma total_size_sum bs : sizes_ok bs → total_size bs = sum_sizes bs.
Proof.
  intros [Hpos Hmax]. unfold total_size.
  assert (Hgo : ∀ acc, 0 <= acc → acc + sum_sizes bs <= max_int64 →
    foldl (λ t b, wrap64 (t + b_size b)) acc bs = acc + sum_sizes bs).
  { clear Hmax. induction Hpos as [|b bs Hb Hpos IH]; intros acc Hacc Hmax; simpl in *; [lia|].
    pose proof (sum_sizes_nonneg bs Hpos).
    rewrite wrap64_id by (unfold_int64; lia). rewrite IH by lia. lia. }
  rewrite Hgo; lia.
Qed.

(** Each of the files [ran] was deleted when it and what the listing had left weighed more than the cap. *)
Definition forced (cap : Z) (ran rest : list retained) : Prop :=
  ∀ before b after, ran = before ++ b :: after → cap < sum_sizes (b :: after ++ rest).

Lemma forced_nil cap rest : forced cap [] rest.
Proof. intros [|? ?] b after; done. Qed.

Lemma enforce_cap_spec cap bs : ∀ total del (w : W) del' err w',
  enforce_cap cap total bs del w = (del', err, w') →
  ∃ ran rest, bs = ran ++ rest ∧ del' = del ++ map b_name ran ∧
    tables w' = without (map b_name ran) (tables w) ∧
    (0 <= cap → total = sum_sizes bs → sizes_ok bs → err = None → sum_sizes rest <= cap) ∧
    (total = sum_sizes bs → sizes_ok bs → forced cap ran rest) ∧
    (never_fails W dir → NoDup (map b_name bs) → (∀ b, b ∈ bs → is_Some (tables w !! b_name b)) →
       err = None).
Proof.
  induction bs as [|b bs IH]; intros total del w del' err w'; cbn [enforce_cap].
  { intros [= <- <- <-]. exists [], []. simpl. rewrite !app_nil_r. split_and!; [done..| | |done]; [intros Hc _ _ _; exact Hc|]. intros _ _. apply forced_nil. }
  destruct (Z.ltb_spec cap total); cbn [negb].
  2:{ intros [= <- <- <-]. exists [], (b :: bs). rewrite app_nil_r. split_and!; try done; [by intros _ <-|]. intros _ _. apply forced_nil. }
  destruct (remove (b_name b) w) as [ok w1] eqn:E1. apply remove_spec in E1 as (Ht1 & _ & Hup1).
  destruct ok; cbn [negb]; intros E.
  - apply IH in E as (ran & rest & -> & -> & Ht & Hcap & Hforced & Hup). exists (b :: ran), rest.
    rewrite Ht1 in *. split_and!; [done|by rewrite <-app_assoc|done| | |].
    + intros Hc -> [Hpos Hmax]. inversion Hpos as [|? ? Hb Hpos']; subst. simpl in Hmax.
      pose proof (sum_sizes_nonneg _ Hpos'). intros He. apply Hcap; [done| |split; [done|lia]|done].
      simpl. rewrite wrap64_id; [lia|]. unfold_int64; lia.
    + intros -> [Hpos Hmax]. inversion Hpos as [|? ? Hb Hpos']; subst. simpl in Hmax.
      pose proof (sum_sizes_nonneg _ Hpos').
      intros [|x before] c after E; injection E as E1 E2; [subst c after; done|].
      apply (Hforced ltac:(simpl; rewrite wrap64_id; [lia|unfold_int64; lia]) ltac:(split; [done|lia]) before c after E2).
    + intros Hf [Hb ?]%NoDup_cons Hall. apply Hup; [done..|]. intros b' Hb'.
      rewrite lookup_delete_ne; [apply Hall; by right|]. intros Heq. apply Hb.
      rewrite Heq. apply list_elem_of_fmap. by exists b'.
  - injection E as <- <- <-. exists [], (b :: bs). rewrite app_nil_r. split_and!; try done; [intros _ _; apply forced_nil|].
    intros Hf _ Hall. discriminate (Hup1 Hf (Hall b ltac:(left))).
Qed.

(** The names of a listing are those of the directory, each once. *)
Lemma omap_names (f : string * file → option retained) l :
  (∀ p b, f p = Some b → b_name b = p.1) → map b_name (omap f l) `sublist_of` l.*1.
Proof.
  intros Hf. induction l as [|p l IH]; simpl; [constructor|].
  destruct (f p) as [b|] eqn:E; simpl; [rewrite (Hf p b E)|]; by constructor.
Qed.

Lemma dated_names d : NoDup (map b_name (dated d)).
Proof.
  eapply sublist_NoDup; [apply (NoDup_fst_map_to_list d)|]. apply omap_names.
  intros p b. unfold as_dated. by intros (t & _ & ->)%fmap_Some.
Qed.

Lemma incremental_names d : NoDup (map b_name (incrementals d)).
Proof.
  eapply sublist_NoDup; [apply (NoDup_fst_map_to_list d)|]. apply omap_names.
  intros p b. unfold as_incremental. destruct (incremental_name p.1); [|done]. by intros [= <-].
Qed.

Lemma same_elements_perm (l k : list retained) :
  NoDup (map b_name l) → NoDup (map b_name k) → (∀ b, b ∈ l ↔ b ∈ k) → l ≡ₚ k.
Proof. intros Hl Hk. apply NoDup_Permutation; by eapply NoDup_fmap_1. Qed.

(** The pass of the cap, whatever the cap is. *)
Lemma cap_phase_spec (cap : result size_error Z) l del (w : W) del' err w' :
  match cap with
  | Ok cap => if 0 <? cap then enforce_cap cap (total_size l) l del w else (del, None, w)
  | Fail _ => (del, None, w)
  end = (del', err, w') →
  ∃ ran rest, ran ++ rest = l ∧ del' = del ++ map b_name ran ∧
    tables w' = without (map b_name ran) (tables w) ∧
    (never_fails W dir → NoDup (map b_name l) → (∀ b, b ∈ l → is_Some (tables w !! b_name b)) →
       err = None) ∧
    (ran ≠ [] → ∃ c, cap = Ok c ∧ 0 < c ∧ (sizes_ok (ran ++ rest) → forced c ran rest)) ∧
    (err = None → match cap with
       | Ok cap => if 0 <? cap then sizes_ok (ran ++ rest) → sum_sizes rest <= cap else ran = []
       | Fail _ => ran = []
       end).
Proof.
  assert (Hquiet : (del, None, w) = (del', err, w') → ∃ ran rest, ran ++ rest = l ∧
    del' = del ++ map b_name ran ∧ tables w' = without (map b_name ran) (tables w) ∧
    err = None ∧ ran = []).
  { intros [= <- <- <-]. exists [], l. simpl. by rewrite app_nil_r. }
  destruct cap as [cap|]; [destruct (Z.ltb_spec 0 cap)|].
  - intros E. apply enforce_cap_spec in E as (ran & rest & -> & -> & Ht & Hcap & Hforced & Hup).
    exists ran, rest. split_and!; try done.
    { intros _. exists cap. split_and!; [done|done|]. intros Hs. apply Hforced; [by apply total_size_sum|done]. }
    intros He Hs. apply Hcap; [lia| |done..].
    by apply total_size_sum.
  - intros (ran & rest & ? & ? & ? & ? & ?)%Hquiet. by exists ran, rest.
  - intros (ran & rest & ? & ? & ? & ? & ?)%Hquiet. by exists ran, rest.
Qed.

(** The whole sweep: the tiers delete [gone], the cap deletes [ran]. *)
Lemma apply_retention_spec r vol (w : W) del err w' :
  apply_retention sort_slice r vol w = (del, err, w') →
  let n := (normalize r).1 in
  ∃ bs gone ran rest,
    NoDup (map b_name bs) ∧ StronglySorted (λ a b, b_date a <= b_date b) bs ∧
    (∀ b, b ∈ bs → (is_Some (tables w !! b_name b) ∧ backup_date (b_name b) = Some (b_date b)) ∧ size_seen (tables w) b) ∧
    (never_fails W dir → bs ≡ₚ dated (tables w) ∧ err = None) ∧
    del = gone ++ map b_name ran ∧ tables w' = without (map b_name ran) (without gone (tables w)) ∧
    NoDup gone ∧ (∀ x, x ∈ gone → x ∈ map b_name bs ∧ x ∉ kept_names n bs) ∧
    NoDup (map b_name (ran ++ rest)) ∧
    (∀ b, b ∈ ran ++ rest → (b ∈ bs ∧ b_name b ∈ kept_names n bs) ∨ b ∈ incrementals (without gone (tables w))) ∧
    (ran ≠ [] → ∃ cap, parse_max_total_size_bytes (r_max_total_size n) vol = Ok cap ∧ 0 < cap ∧
       (sizes_ok (ran ++ rest) → forced cap ran rest)) ∧
    (err = None → (∀ b, b ∈ bs → b_name b ∉ kept_names n bs → b_name b ∈ gone) ∧
       (never_fails W dir → ran ++ rest ≡ₚ filter (λ b, b_name b ∈ kept_names n bs) bs ++
                                            incrementals (without gone (tables w))) ∧
       match parse_max_total_size_bytes (r_max_total_size n) vol with
       | Ok cap => if 0 <? cap then sizes_ok (ran ++ rest) → sum_sizes rest <= cap else ran = []
       | Fail _ => ran = []
       end).
Proof.
  unfold apply_retention. set (n := (normalize r).1). cbv zeta.
  destruct (list_retained_backups sort_slice w) as [bs w1] eqn:E1.
  apply list_retained_spec in E1 as (Ht1 & Hnd & Hsort & Hbs & Hup1).
  destruct (prune _ bs [] [] w1) as [[[rem del1] err1] w2] eqn:E2.
  apply prune_spec in E2 as (gone & -> & Ht2 & Hgone & Hndg & Hok & Hup2). rewrite Ht1 in *.
  simpl. assert (Hexist : ∀ b, b ∈ bs → is_Some (tables w !! b_name b)) by (intros b Hb; by apply Hbs).
  assert (Hperm : never_fails W dir → bs ≡ₚ dated (tables w)).
  { intros Hf. apply same_elements_perm; [done|apply dated_names|by apply Hup1]. }
  destruct err1 as [e|].
  { intros [= <- <- <-]. exists bs, gone, [], []. rewrite app_nil_r. simpl.
    split_and!; try (done || assumption).
    - intros Hf. discriminate (Hup2 Hf Hnd Hexist).
    - by apply Hndg.
    - apply NoDup_nil_2.
    - by intros b ?%elem_of_nil. }
  destruct (Hok eq_refl) as [-> Hall]. clear Hok Hup2. simpl.
  destruct (list_incremental_backups sort_slice w2) as [incs w3] eqn:E3.
  apply list_incremental_spec in E3 as (Ht3 & Hndi & Hin3 & Hup3). rewrite Ht2 in *.
  set (l := sort_slice _ older _).
  assert (Hlperm : l ≡ₚ filter (λ b, b_name b ∈ kept_names n bs) bs ++ incs) by apply sort_slice_perm.
  assert (Hlnd : NoDup (map b_name l)).
  { rewrite (Permutation_map b_name Hlperm), map_app. apply NoDup_app. split_and!; [|..|done].
    - eapply sublist_NoDup; [exact Hnd|]. apply (fmap_sublist b_name), sublist_filter.
    - intros x (b & -> & [_ Hb]%list_elem_of_filter)%list_elem_of_fmap
        (b' & Hn & Hb')%list_elem_of_fmap. apply Hin3, elem_of_incrementals in Hb' as (f & _ & Hi & _).
      apply kinds_disjoint in Hi. rewrite <-Hn in Hi. destruct (Hbs b Hb) as [[_ ?] _]. congruence. }
  assert (Hlin : ∀ b, b ∈ l → (b ∈ bs ∧ b_name b ∈ kept_names n bs) ∨ b ∈ incrementals (without gone (tables w))).
  { intros b. rewrite Hlperm, elem_of_app. intros [[? ?]%list_elem_of_filter|Hb]; [by left|right]. by apply Hin3. }
  assert (Hlup : never_fails W dir → l ≡ₚ filter (λ b, b_name b ∈ kept_names n bs) bs ++
      incrementals (without gone (tables w))).
  { intros Hf. rewrite Hlperm. f_equiv. apply same_elements_perm; [done|apply incremental_names|].
    intros b. split; [apply Hin3|by apply Hup3]. }
  assert (Hlexist : ∀ b, b ∈ l → is_Some (without gone (tables w) !! b_name b)).
  { intros b. rewrite Hlperm, elem_of_app. intros [[Hk Hb]%list_elem_of_filter|Hb].
    - rewrite lookup_without. case_decide as Hg; [by apply Hgone in Hg as [_ ?]|auto].
    - apply Hin3, elem_of_incrementals in Hb as (f & Hf & _). by eexists. }
  clearbody l. clear Hlperm.
  intros Efin. apply cap_phase_spec in Efin as (ran & rest & <- & -> & Ht4 & Hup4 & Hforced & Hcap).
  exists bs, gone, ran, rest. rewrite Ht3 in Ht4, Hup4. split_and!; try done.
  - intros Hf. split; [by apply Hperm|]. by apply Hup4.
  - by apply Hndg.
  - intros He. split; [done|]. split; [done|]. by apply Hcap.
Qed.

(** Weights of lists with the same names *)
Lemma sum_sizes_le l k : NoDup (map b_name l) → Forall (λ b, 0 <= b_size b) k →
  (∀ b, b ∈ l → ∃ b', b' ∈ k ∧ b_name b' = b_name b ∧ b_size b <= b_size b') → sum_sizes l <= sum_sizes k.
Proof.
  revert k. induction l as [|b l IH]; intros k ND Hk Hl; [by apply sum_sizes_nonneg|].
  apply NoDup_cons in ND as [Hb ND]. destruct (Hl b ltac:(left)) as (b' & Hin & Hn & Hle).
  apply elem_of_Permutation in Hin as [k' Ek]. rewrite (sum_sizes_perm _ _ Ek). rewrite Ek in Hk.
  inversion Hk as [|? ? _ Hk']; subst. simpl. enough (sum_sizes l <= sum_sizes k') by lia. apply IH; [done|done|].
  intros c Hc. destruct (Hl c ltac:(by right)) as (c' & Hc' & Hnc & Hlec). rewrite Ek in Hc'.
  apply elem_of_cons in Hc' as [->|Hc']; [|eauto]. destruct Hb. apply list_elem_of_fmap. exists c. split; [congruence|done].
Qed.

(** A file the listing saw weighs what it weighs in the directory, or nothing. *)
Lemma seen_in d bs gone ran rest before b after c :
  (∀ b, b ∈ bs → (is_Some (d !! b_name b) ∧ backup_date (b_name b) = Some (b_date b)) ∧ size_seen d b) →
  (∀ x, x ∈ gone → x ∉ map b_name bs ∨ x ∉ kept_names c bs) →
  (∀ b, b ∈ ran ++ rest → (b ∈ bs ∧ b_name b ∈ kept_names c bs) ∨ b ∈ incrementals (without gone d)) →
  NoDup (map b_name (ran ++ rest)) → ran = before ++ b :: after →
  Forall (λ b, 0 <= b_size b) (dated d ++ incrementals d) →
  let d' := without (map b_name before) (without gone d) in
  ∀ x, x ∈ b :: after ++ rest → ∃ x', x' ∈ dated d' ++ incrementals d' ∧ b_name x' = b_name x ∧ b_size x <= b_size x'.
Proof.
  intros Hbs Hgone Hrun ND -> Hpos d' x Hx. assert (Hx' : x ∈ (before ++ b :: after) ++ rest).
  { rewrite <-app_assoc, elem_of_app. right. exact Hx. }
  assert (Hb : b_name x ∉ map b_name before).
  { rewrite <-app_assoc, map_app, NoDup_app in ND. destruct ND as (_ & ND & _). intros Hin. apply (ND _ Hin).
    change (b_name x ∈ map b_name (b :: after ++ rest)). apply list_elem_of_fmap. eauto. }
  destruct (Hrun x Hx') as [[Hin Hk]|Hi].
  - destruct (Hbs x Hin) as [[[f Hf] Hd] Hsz]. assert (Hg : b_name x ∉ gone).
    { intros [Hn|Hn]%Hgone; [|done]. apply Hn, list_elem_of_fmap. eauto. }
    exists (Retained (b_name x) (b_date x) (f_size f)). rewrite elem_of_app, elem_of_dated. cbn. split_and!; [left|done|].
    + exists f. split; [|done]. unfold d'. rewrite !lookup_without, !decide_False by done. done.
    + rewrite Forall_app in Hpos. destruct Hpos as [Hpos _]. rewrite Forall_forall in Hpos.
      specialize (Hpos (Retained (b_name x) (b_date x) (f_size f))). cbn in Hpos.
      assert (0 <= f_size f) by (apply Hpos, elem_of_dated; by exists f). destruct Hsz as [->|(f' & Hf' & ->)]; [lia|].
      assert (f' = f) as -> by congruence. done.
  - exists x. rewrite elem_of_app. split_and!; [right|done|done]. apply elem_of_incrementals in Hi as (f & Hf & Hi).
    apply elem_of_incrementals. exists f. split; [|done]. unfold d'. rewrite (lookup_without (map b_name before)), decide_False by done. done.
Qed.

Lemma all_names d : NoDup (map b_name (dated d ++ incrementals d)).
Proof.
  rewrite map_app. apply NoDup_app. split_and!; [apply dated_names| |apply incremental_names].
  intros x (b & -> & (f & _ & Hb & _)%elem_of_dated)%list_elem_of_fmap (b' & Hn & (f' & _ & Hb' & _)%elem_of_incrementals)%list_elem_of_fmap.
  apply kinds_disjoint in Hb'. rewrite <-Hn in Hb'. congruence.
Qed.

Lemma still_in l d b : b ∈ dated (without l d) ++ incrementals (without l d) → b ∈ dated d ++ incrementals d.
Proof.
  rewrite !elem_of_app. intros [(f & Hf & Hb)%elem_of_dated|(f & Hf & Hb)%elem_of_incrementals]; rewrite lookup_without in Hf;
    case_decide; try done; [left; apply elem_of_dated|right; apply elem_of_incrementals]; by exists f.
Qed.

(** The listing adds up to no more than the directory. *)
Lemma listing_sizes_ok d bs gone ran rest b ran' c :
  (∀ b, b ∈ bs → (is_Some (d !! b_name b) ∧ backup_date (b_name b) = Some (b_date b)) ∧ size_seen d b) →
  (∀ x, x ∈ gone → x ∉ map b_name bs ∨ x ∉ kept_names c bs) →
  (∀ b, b ∈ ran ++ rest → (b ∈ bs ∧ b_name b ∈ kept_names c bs) ∨ b ∈ incrementals (without gone d)) →
  NoDup (map b_name (ran ++ rest)) → ran = b :: ran' →
  sizes_ok (dated d ++ incrementals d) → sizes_ok (ran ++ rest).
Proof.
  intros Hbs Hgone Hrun ND E [Hpos Hmax]. pose proof (seen_in d bs gone ran rest [] b ran' c Hbs Hgone Hrun ND E Hpos) as Hseen.
  cbn [map without foldl] in Hseen. fold (without gone d) in Hseen. split.
  - apply Forall_forall. intros x Hx. destruct (Hrun x Hx) as [[Hin _]|Hi].
    + destruct (Hbs x Hin) as [[_ Hd] [->|(f & Hf & ->)]]; [done|]. rewrite Forall_forall in Hpos.
      apply (Hpos (Retained (b_name x) (b_date x) (f_size f))), elem_of_app. left. apply elem_of_dated. by exists f.
    + rewrite Forall_forall in Hpos. apply Hpos, (still_in gone), elem_of_app. by right.
  - etransitivity; [|exact Hmax]. apply sum_sizes_le; [done..|]. intros x Hx. subst ran. destruct (Hseen x Hx) as (x' & Hx' & Hn & Hle).
    exists x'. split; [by apply (still_in gone)|done].
Qed.

(** The tests of the tiers look at the date only. *)
Lemma tier_date r p k b b' : (p, k) ∈ tiers r → b_date b = b_date b' → p b = p b'.
Proof.
  unfold tiers. rewrite !elem_of_cons, elem_of_nil. unfold is_yearly, is_monthly, is_weekly, is_daily.
  intros Hp E. destruct Hp as [[= -> _]|[[= -> _]|[[= -> _]|[[= -> _]|[]]]]]; by rewrite ?E.
Qed.

(** What a sweep deletes: backups only, each once, and what it says it deletes. *)
Lemma sweep_deleted r vol (w : W) del err w' :
  apply_retention sort_slice r vol w = (del, err, w') →
  NoDup del ∧ tables w' = without del (tables w) ∧ ∀ n, n ∈ del → is_Some (backup_date n) ∨ incremental_name n = true.
Proof.
  intros (bs & gone & ran & rest & Hnd & _ & Hbs & _ & -> & Ht & Hndg & Hgone & Hndr & Hrun & _)%apply_retention_spec.
  assert (Hbs' : ∀ n, n ∈ map b_name bs → is_Some (backup_date n)).
  { intros n (b & -> & Hb)%list_elem_of_fmap. destruct (Hbs b Hb) as [[_ ->] _]. by eexists. }
  assert (Hran : ∀ n, n ∈ map b_name ran → ∃ b, n = b_name b ∧ b ∈ ran ++ rest).
  { intros n (b & -> & Hb)%list_elem_of_fmap. exists b. rewrite elem_of_app. auto. }
  assert (Hinc : ∀ b, b ∈ incrementals (without gone (tables w)) → incremental_name (b_name b) = true)
    by (by intros b (f & _ & Hi & _)%elem_of_incrementals).
  split_and!.
  - apply NoDup_app. split_and!; [done| |by rewrite map_app, NoDup_app in Hndr; apply Hndr].
    intros n Hg (b & -> & Hb)%Hran. destruct (Hgone _ Hg) as [Hin Hk].
    destruct (Hrun b Hb) as [[_ ?]|Hi%Hinc]; [done|]. apply kinds_disjoint in Hi.
    destruct (Hbs' _ Hin). congruence.
  - rewrite Ht. unfold without. by rewrite foldl_app.
  - intros n [Hg|Hr]%elem_of_app; [left; apply Hbs'; by apply Hgone|].
    apply Hran in Hr as (b & -> & Hb). destruct (Hrun b Hb) as [[Hin _]|Hi%Hinc]; [left|by right].
    destruct (Hbs b Hin) as [[_ ->] _]. by eexists.
Qed.

(** C6: Whichever operation on the directory fails, the sweep touches only backups of
    the program (a dated name with a day that exists, or an incremental), leaves every
    other file as it was, and reports exactly the files it removed, each once.  It removes a
    backup for one of two reasons only: each tier the backup belongs to has its full count
    of backups at least as new as it that were not removed for this reason; or a positive
    size cap is set and the program's backups that were in the directory when it was removed, sizes that add up to
    an int64 given, weighed more than the cap. *)
Theorem retention_safe r vol (w : W) del err w' :
  apply_retention sort_slice r vol w = (del, err, w') →
  NoDup del ∧
  (∀ n, tables w' !! n = if decide (n ∈ del) then None else tables w !! n) ∧
  (∀ n, n ∈ del → is_Some (backup_date n) ∨ incremental_name n = true) ∧
  ∃ tiered capped, del = tiered ++ capped ∧
    (∀ n, n ∈ tiered → ∃ b, b ∈ dated (tables w) ∧ b_name b = n ∧
       ∀ p k, (p, k) ∈ tiers (normalize r).1 → p b = true →
       k <= Z.of_nat (length (filter (λ b', p b' = true ∧ (b_name b' ∉ tiered) ∧ b_date b <= b_date b') (dated (tables w))))) ∧
    (∀ before n after, capped = before ++ n :: after → sizes_ok (dated (tables w) ++ incrementals (tables w)) →
       ∃ cap, parse_max_total_size_bytes (r_max_total_size (normalize r).1) vol = Ok cap ∧ 0 < cap ∧
       let d := without (tiered ++ before) (tables w) in cap < sum_sizes (dated d ++ incrementals d)).
Proof.
  intros E. apply sweep_deleted in E as D. destruct D as (D1 & D2 & D3). split_and!; [done| |done|].
  { intros n. by rewrite D2, lookup_without. }
  apply apply_retention_spec in E as (bs & gone & ran & rest & Hnd & Hsort & Hbs & _ & -> & _ & _ & Hgone & Hndr & Hrun & Hforced & _).
  exists gone, (map b_name ran). split_and!; [done| |].
  - intros n Hn. destruct (Hgone n Hn) as [(b & -> & Hb)%list_elem_of_fmap Hk]. destruct (Hbs b Hb) as [[[f Hf] Hd] _].
      exists (Retained (b_name b) (b_date b) (f_size f)). split; [apply elem_of_dated; by exists f|]. split; [done|].
      intros p k Hp Hpb. rewrite (tier_date (normalize r).1 p k (Retained _ _ _) b Hp eq_refl) in Hpb.
      etransitivity; [by apply (dropped_outnumbered (normalize r).1 bs Hsort Hnd b p k)|]. apply Nat2Z.inj_le.
      rewrite <-(length_map b_name), <-(length_map b_name (filter _ (dated _))). apply length_le_incl.
      { eapply sublist_NoDup; [exact Hnd|]. apply (fmap_sublist b_name), sublist_filter. }
      intros x (c & -> & [(Hpc & Hkc & Hle) Hc]%list_elem_of_filter)%list_elem_of_fmap.
      destruct (Hbs c Hc) as [[[fc Hfc] Hdc] _]. apply list_elem_of_fmap. exists (Retained (b_name c) (b_date c) (f_size fc)).
      split; [done|]. apply list_elem_of_filter. cbn. rewrite (tier_date (normalize r).1 p k (Retained _ _ _) c Hp eq_refl). split; [|apply elem_of_dated; by exists fc].
      split_and!; [done| |done]. intros Hg. by apply Hgone in Hg as [_ ?].
  - intros before n after E Hsizes. apply fmap_app_inv in E as (rb & ra & -> & Era & Er).
      destruct ra as [|b ra]; [discriminate Era|]. injection Era as -> ->. destruct Hforced as (cap & Hc & Hpos & Hforced); [by subst ran; destruct rb|].
      exists cap. split_and!; [done|done|]. cbv zeta. unfold without. rewrite foldl_app. fold (without gone (tables w)).
      fold (without (map b_name rb) (without gone (tables w))).
      assert (Hg' : ∀ x, x ∈ gone → x ∉ map b_name bs ∨ x ∉ kept_names (normalize r).1 bs) by (intros x Hx; right; by apply Hgone).
      assert (Hs : sizes_ok (ran ++ rest)).
      { destruct ran as [|b0 ran]; [by destruct rb|]. by eapply (listing_sizes_ok (tables w) bs gone). }
      destruct Hsizes as [Hnn _].
      pose proof (seen_in (tables w) bs gone ran rest rb b ra _ Hbs Hg' Hrun Hndr Er Hnn) as Hseen.
      eapply Z.lt_le_trans; [by apply (Hforced Hs rb b ra)|]. apply sum_sizes_le; [| |exact Hseen].
    + rewrite Er, <-app_assoc, map_app, NoDup_app in Hndr. apply Hndr.
    + apply Forall_forall. intros x Hx. rewrite Forall_forall in Hnn. by apply Hnn, (still_in gone), (still_in (map b_name rb)).
Qed.

(** The survivors of a sweep. *)
Definition survives (d' : dir) (b : retained) : bool := bool_decide (is_Some (d' !! b_name b)).

(** C17: The tiers, when the size cap is off and the directory answers.  A dated backup
    is deleted only if each tier it belongs to keeps its full count of backups at least
    as new as it; a backup survives only if, in some tier of its own, fewer than that
    tier's count are newer; nothing but dated backups is deleted; and a directory that
    had a backup still has one. *)
Theorem retention_tiers r vol (w : W) del err w' :
  never_fails W dir →
  (∀ cap, parse_max_total_size_bytes (r_max_total_size (normalize r).1) vol = Ok cap → cap <= 0) →
  apply_retention sort_slice r vol w = (del, err, w') →
  let ts := tiers (normalize r).1 in let all := dated (tables w) in
  err = None ∧
  (∀ b p n, b ∈ all → survives (tables w') b = false → (p, n) ∈ ts → p b = true →
     n <= Z.of_nat (length (filter (λ b', p b' = true ∧ survives (tables w') b' = true ∧
                                          b_date b <= b_date b') all))) ∧
  (∀ b, b ∈ all → survives (tables w') b = true → ∃ p n, (p, n) ∈ ts ∧ p b = true ∧
     Z.of_nat (length (filter (λ b', p b' = true ∧ b_date b < b_date b') all)) < n) ∧
  (∀ n, backup_date n = None → tables w' !! n = tables w !! n) ∧
  (all ≠ [] → ∃ b, b ∈ all ∧ survives (tables w') b = true).
Proof.
  intros Hf Hcap (bs & gone & ran & rest & Hnd & Hsort & Hbs & Hup & -> & Ht & _ & Hgone & _ & _ & _ & Hok)%apply_retention_spec.
  destruct (Hup Hf) as [Hperm ->]. destruct (Hok eq_refl) as (Hall & _ & Hran).
  assert (ran = []) as ->.
  { destruct (parse_max_total_size_bytes _ vol) as [cap|]; [|done].
    specialize (Hcap cap eq_refl). by destruct (Z.ltb_spec 0 cap); [lia|]. }
  cbv zeta. set (n := (normalize r).1) in *. cbn [map] in Ht.
  assert (Hsurv : ∀ b, b ∈ bs → survives (tables w') b = bool_decide (b_name b ∈ kept_names n bs)).
  { intros b Hb. unfold survives. rewrite Ht. cbn [without foldl]. apply bool_decide_ext.
    rewrite lookup_without.
    assert (Hb' : b ∈ dated (tables w)) by by rewrite <-Hperm.
    apply elem_of_dated in Hb' as (f & Hfl & _). rewrite Hfl. case_decide as Hg.
    - destruct (Hgone _ Hg) as [_ ?]. split; [by intros [? ?]|done].
    - split; [|by eexists]. intros _. destruct (decide (b_name b ∈ kept_names n bs)); [done|].
      by destruct Hg; apply Hall. }
  assert (Hkept : ∀ b, b ∈ bs → survives (tables w') b = true ↔ b_name b ∈ kept_names n bs)
    by (intros b Hb; rewrite Hsurv by done; apply bool_decide_eq_true).
  assert (Hdrop : ∀ b p k, b ∈ bs → survives (tables w') b = false → (p, k) ∈ tiers n → p b = true →
     k <= Z.of_nat (length (filter (λ b', p b' = true ∧ survives (tables w') b' = true ∧
                                          b_date b <= b_date b') bs))).
  { intros b p k Hb Hs Htier Hp. rewrite Hsurv in Hs by done. apply bool_decide_eq_false in Hs.
    erewrite filter_ext_in; [by eapply dropped_outnumbered|].
    intros b' Hb'. by rewrite (Hkept b' Hb'). }
  split; [done|]. split; [|split; [|split]].
  - intros b p k Hb Hs Htier Hp. rewrite <-Hperm. apply Hdrop; [by rewrite Hperm|done..].
  - intros b Hb Hs. rewrite <-Hperm in Hb. apply Hkept in Hs; [|done].
    destruct (kept_ranked n bs Hsort Hnd b Hb Hs) as (p & k & Htier & Hp & Hlt).
    exists p, k. by rewrite <-Hperm.
  - intros x Hx. rewrite Ht. cbn [without foldl]. rewrite lookup_without. case_decide as Hg; [|done].
    destruct (Hgone _ Hg) as [(b & -> & Hb)%list_elem_of_fmap _]. destruct (Hbs b Hb) as [[_ Hd] _]. congruence.
  - intros Hne. destruct bs as [|b0 bs0] eqn:Ebs; [by apply Permutation_nil_l in Hperm|].
    rewrite <-Ebs in *. assert (Hb0 : b0 ∈ bs) by (rewrite Ebs; left).
    destruct (survives (tables w') b0) eqn:Hs0; [exists b0; by rewrite <-Hperm|].
    assert (Hdaily : (is_daily, r_max_backups n) ∈ tiers n) by (do 3 right; left).
    specialize (Hdrop b0 is_daily _ Hb0 Hs0 Hdaily eq_refl).
    assert (Hmax : 1 <= r_max_backups n).
    { unfold n. rewrite normalize_value. cbn [r_max_backups].
      destruct (Z.ltb_spec (r_max_backups r) 1); lia. }
    clear Hok. destruct (filter _ bs) as [|b1 l1] eqn:Ef; [destruct (Z.le_trans _ _ _ Hmax Hdrop eq_refl)|].
    assert (Hin : b1 ∈ b1 :: l1) by left. rewrite <-Ef in Hin.
    apply list_elem_of_filter in Hin as [(_ & ? & _) ?]. exists b1. by rewrite <-Hperm.
Qed.

Lemma sum_sizes_app l k : sum_sizes (l ++ k) = sum_sizes l + sum_sizes k.
Proof. induction l as [|b l IH]; simpl; lia. Qed.

Lemma sizes_ok_incl l k : NoDup l → (∀ b, b ∈ l → b ∈ k) → sizes_ok k → sizes_ok l.
Proof.
  intros Hl Hin [Hpos Hmax].
  assert (Hsub : l ⊆+ k) by by apply NoDup_submseteq.
  apply submseteq_Permutation in Hsub as [k' Hk]. rewrite (sum_sizes_perm _ _ Hk), sum_sizes_app in Hmax.
  rewrite Hk, Forall_app in Hpos. destruct Hpos as [Hl' Hk'].
  pose proof (sum_sizes_nonneg _ Hk'). split; [done|lia].
Qed.

(** What is left after the sweep, by name. *)
Lemma left_over (d : dir) bs (gone : list string) (ran rest : list retained) n :
  bs ≡ₚ dated d →
  (∀ x, x ∈ gone → x ∈ map b_name bs ∧ x ∉ kept_names n bs) →
  (∀ b, b ∈ bs → b_name b ∉ kept_names n bs → b_name b ∈ gone) →
  NoDup (map b_name (ran ++ rest)) →
  ran ++ rest ≡ₚ filter (λ b, b_name b ∈ kept_names n bs) bs ++ incrementals (without gone d) →
  dated (without (map b_name ran) (without gone d)) ++
  incrementals (without (map b_name ran) (without gone d)) ≡ₚ rest.
Proof.
  intros Hperm Hgone Hall Hnd Hrun.
  set (d' := without (map b_name ran) (without gone d)).
  assert (Hbsd : ∀ b, b ∈ bs ↔ b ∈ dated d) by (intros b; by rewrite Hperm).
  assert (Hdisj : ∀ b b', b ∈ dated d' → b' ∈ incrementals d' → b_name b ≠ b_name b').
  { intros b b' (f & _ & Hb & _)%elem_of_dated (f' & _ & Hb' & _)%elem_of_incrementals Hn.
    apply kinds_disjoint in Hb'. rewrite <-Hn in Hb'. congruence. }
  apply same_elements_perm.
  - rewrite map_app. apply NoDup_app. split_and!; [apply dated_names| |apply incremental_names].
    intros x (b & -> & Hb)%list_elem_of_fmap (b' & Hn & Hb')%list_elem_of_fmap. by eapply Hdisj.
  - rewrite map_app, NoDup_app in Hnd. apply Hnd.
  - assert (Hmem : ∀ b, b ∈ ran ++ rest ↔ b ∈ dated (without gone d) ∨ b ∈ incrementals (without gone d)).
    { intros b. rewrite Hrun, elem_of_app. f_equiv. rewrite list_elem_of_filter, Hbsd, !elem_of_dated.
      setoid_rewrite lookup_without. split.
      - intros [Hk (f & Hf & Hd)]. exists f. split; [|done]. case_decide as Hg; [|done].
        by apply Hgone in Hg as [_ ?].
      - intros (f & Hf & Hd). case_decide as Hg; [done|]. split; [|by eauto].
        destruct (decide (b_name b ∈ kept_names n bs)); [done|]. destruct Hg. apply Hall; [|done].
        apply Hbsd, elem_of_dated. by exists f. }
    intros b. rewrite elem_of_app. unfold d'.
    rewrite elem_of_dated, elem_of_incrementals. setoid_rewrite (lookup_without (map b_name ran)).
    split.
    + intros Hb. assert (Hr : b_name b ∉ map b_name ran).
      { intros Hr. destruct Hb as [(f & Hf & _)|(f & Hf & _)]; by rewrite decide_True in Hf. }
      assert (Hin : b ∈ ran ++ rest).
      { apply Hmem. rewrite elem_of_dated, elem_of_incrementals. by rewrite decide_False in Hb. }
      apply elem_of_app in Hin as [Hin|]; [|done]. destruct Hr. apply list_elem_of_fmap. by exists b.
    + intros Hb. assert (Hr : b_name b ∉ map b_name ran).
      { rewrite map_app, NoDup_app in Hnd. destruct Hnd as (_ & Hnd & _). intros Hr.
        apply (Hnd _ Hr), list_elem_of_fmap. by exists b. }
      assert (Hin : b ∈ ran ++ rest) by (apply elem_of_app; by right).
      apply Hmem in Hin. rewrite elem_of_dated, elem_of_incrementals in Hin. by rewrite decide_False.
Qed.

(** The size cap overrides the tiers: when it is on and the directory answers, what
    the sweep leaves of the program's backups, incrementals included, weighs at most the
    cap, even if that takes the newest one. *)
Theorem retention_cap r vol cap (w : W) del err w' :
  never_fails W dir →
  parse_max_total_size_bytes (r_max_total_size (normalize r).1) vol = Ok cap → 0 < cap →
  sizes_ok (dated (tables w) ++ incrementals (tables w)) →
  apply_retention sort_slice r vol w = (del, err, w') →
  err = None ∧ sum_sizes (dated (tables w') ++ incrementals (tables w')) <= cap.
Proof.
  intros Hf Hcap Hpos Hsizes (bs & gone & ran & rest & Hnd & _ & Hbs & Hup & -> & Ht & _ & Hgone & Hndr & _ & _ & Hok)%apply_retention_spec.
  destruct (Hup Hf) as [Hperm ->]. destruct (Hok eq_refl) as (Hall & Hrun & Hfin).
  specialize (Hrun Hf). rewrite Hcap in Hfin. destruct (Z.ltb_spec 0 cap); [|lia].
  split; [done|]. rewrite Ht.
  rewrite (sum_sizes_perm _ _ (left_over (tables w) bs gone ran rest _ Hperm Hgone Hall Hndr Hrun)).
  apply Hfin. eapply sizes_ok_incl; [by eapply NoDup_fmap_1| |exact Hsizes].
  intros b. rewrite Hrun, !elem_of_app. intros [[_ Hb]%list_elem_of_filter|Hb]; [left|right].
  - by rewrite <-Hperm.
  - apply elem_of_incrementals in Hb as (f & Hfl & Hb). rewrite lookup_without in Hfl.
    apply elem_of_incrementals. exists f. by case_decide.
Qed.
End listing.

(** * A concrete directory *)

Definition fortnight : dir :=
  {["wthr_backup_2024-06-13.tar.gz" := File 0 400; "wthr_backup_2024-06-14.tar.gz" := File 0 500;
    "wthr_backup_2024-06-15_093000.tar.gz.enc" := File 0 600;
    "wthr-daily.tar.gz" := File (date_utc 2024 6 15 2 0 0 0) 50; "notes.txt" := File 0 9]}.

Lemma retention_safe_witness :
  let '(del, err, w') := apply_retention (@sort_stable) default_retention 20000 (Reliable fortnight) in
  tables w' !! "notes.txt" = Some (File 0 9) ∧ err = None.
Proof.
  destruct (apply_retention _ _ _ _) as [[del err] w'] eqn:E.
  destruct (retention_safe (@sort_stable) _ _ _ _ _ _ E) as (_ & Ht & Hdel & _).
  assert (Herr : (apply_retention (@sort_stable) default_retention 20000 (Reliable fortnight)).1.2 = None)
    by (vm_compute; reflexivity).
  rewrite E in Herr. split; [|exact Herr]. rewrite Ht.
  destruct (decide ("notes.txt" ∈ del)) as [Hin|]; [|vm_compute; reflexivity].
  exfalso. apply Hdel in Hin as [[t Hd]|Hd]; vm_compute in Hd; discriminate Hd.
Defined.

Lemma retention_tiers_witness :
  let '(del, err, w') := apply_retention (@sort_stable) default_retention 0 (Reliable fortnight) in
  err = None ∧ ∃ b, b ∈ dated fortnight ∧ survives (tables w') b = true.
Proof.
  destruct (apply_retention _ _ _ _) as [[del err] w'] eqn:E.
  destruct (retention_tiers (@sort_stable) default_retention 0 (Reliable fortnight) del err w'
    (reliable_never_fails _)) as (He & _ & _ & _ & Hleft).
  - intros cap Hcap. assert (Hz : parse_max_total_size_bytes
      (r_max_total_size (normalize default_retention).1) 0 = Ok 0) by (vm_compute; reflexivity).
    rewrite Hz in Hcap. injection Hcap as <-. reflexivity.
  - exact E.
  - split; [exact He|]. apply Hleft.
    assert (Hl : length (dated fortnight) = 3%nat) by (vm_compute; reflexivity).
    intros Hnil. cbn [tables reliable_database r_tables] in Hnil. rewrite Hnil in Hl. discriminate Hl.
Defined.

Lemma retention_cap_witness :
  let r := RetentionConfig 7 0 0 0 "1K" in
  let '(del, err, w') := apply_retention (@sort_stable) r 0 (Reliable fortnight) in
  err = None ∧ sum_sizes (dated (tables w') ++ incrementals (tables w')) <= 1024.
Proof.
  intros r. destruct (apply_retention _ _ _ _) as [[del err] w'] eqn:E.
  apply (retention_cap (@sort_stable) r 0 1024 (Reliable fortnight) del err w'
    (reliable_never_fails _)); [vm_compute; reflexivity|reflexivity| |exact E].
  split; [|vm_compute; discriminate].
  apply Forall_forall. intros b Hb. apply Z.leb_le. apply list_elem_of_In in Hb. revert b Hb.
  apply forallb_forall. vm_compute. reflexivity.
Defined.
