(* ===== verification/Delivery.v ===== *)
(** Notification delivery (src/server/service/delivery_system.go and
    channel_manager.go): the queue with its states, retries and dead letters, the
    channel table with its failure counter, and the concurrency of the workers that
    [ProcessQueue] spawns.  The transport of a channel is a parameter: a function from
    recipient, subject and body to an error or success; so are the contacts of the
    users (users.db) and the JSON decoding of one field of an object. *)
From S2P Require Import Prelude GoStrings GoTime Sql.
From Stdlib Require Import Ascii.
Open Scope Z_scope.

(** * Data *)

Inductive delivery_state := Created | Queued | Sending | Delivered | Failed | DeadLetter.
#[export] Instance delivery_state_eq_dec : EqDecision delivery_state.
Proof. solve_decision. Defined.

(** A row of notification_queue, under its id. *)
Record queue_row := QueueRow {
  q_user : option Z; q_channel : string; q_priority : Z; q_state : delivery_state;
  q_subject : string; q_body : string; q_variables : string;
  q_retry : Z; q_max : Z; q_next_retry : option instant;
  q_delivered_at : option instant; q_failed_at : option instant;
  q_error : option string; q_created_at : instant
}.

Record delivery_event := DeliveryEvent {
  ev_queue : Z; ev_user : option Z; ev_channel : string; ev_status : string;
  ev_error : string; ev_retry : Z; ev_priority : Z
}.

(** A row of server_notification_channels, under its type. *)
Inductive channel_state := CDisabled | CEnabled | CTesting | CFailed.
#[export] Instance channel_state_eq_dec : EqDecision channel_state.
Proof. solve_decision. Defined.
Record channel_row := ChannelRow {
  ch_name : string; ch_enabled : bool; ch_state : channel_state; ch_failures : Z;
  ch_last_error : option string; ch_last_test : option (instant * bool);
  ch_last_success : option instant
}.

Record delivery_tables := DeliveryTables {
  t_queue : gmap Z queue_row;
  t_events : list delivery_event;
  t_channels : gmap string channel_row;
  t_settings : gmap string string
}.
Definition with_queue (f : gmap Z queue_row → gmap Z queue_row) (t : delivery_tables)
  : unit * delivery_tables :=
  (tt, DeliveryTables (f (t_queue t)) (t_events t) (t_channels t) (t_settings t)).
Definition with_channels (f : gmap string channel_row → gmap string channel_row)
    (t : delivery_tables) : unit * delivery_tables :=
  (tt, DeliveryTables (t_queue t) (t_events t) (f (t_channels t)) (t_settings t)).

(** DeliverySystem *)
Record delivery_system := DeliverySystem {
  ds_max_retries : Z; ds_backoff : string; ds_workers : Z; ds_batch : Z; ds_rate : Z
}.
Definition new_delivery_system : delivery_system := DeliverySystem 3 "exponential" 5 100 60.

(** A registered channel: Send and Test, as the error they return. *)
Record channel := Channel {
  c_send : string → string → string → option string;
  c_test : string → option string
}.

(** * Pure parts *)

(** fmt.Sscanf(value, "%d"): leading blanks, a sign, digits; 0 when it fails *)
Fixpoint span_digits (l : list ascii) : list ascii :=
  match l with
  | c :: l' => match digit c with Some _ => c :: span_digits l' | None => [] end
  | [] => []
  end.
Definition sscanf_d (value : string) : Z :=
  let l := drop_while (λ c, bool_decide (code c ∈ [9; 11; 12; 13; 32]%N)) (bytes value) in
  let range z := if decide (in_int64 z) then z else 0 in
  match l with
  | c :: l' =>
      if decide (c = byte 45) then default 0 ((λ z, range (- z)) <$> digits (span_digits l'))
      else if decide (c = byte 43) then default 0 (range <$> digits (span_digits l'))
      else default 0 (range <$> digits (span_digits l))
  | [] => 0
  end.

(** calculateNextRetry, as the delay in minutes: [math.Pow(2, n)] is exact up to the
    cap, and a negative power is truncated to nothing *)
Definition retry_delay_minutes (backoff : string) (retry_count : Z) : Z :=
  if str_eqb backoff "exponential" then
    if retry_count <? 0 then 0 else if 6 <=? retry_count then 60 else 2 ^ retry_count
  else Z.min 60 (wrap64 (retry_count * 5)).
Definition calculate_next_retry (ds : delivery_system) (retry_count : Z) (now : instant) : instant :=
  now + retry_delay_minutes (ds_backoff ds) retry_count * minute.

(** The rows [ProcessQueue] may take; [le] is how the engine orders two stored times. *)
Definition pending_state (st : delivery_state) : bool :=
  match st with Created | Queued | Failed => true | _ => false end.
Definition ready (le : instant → instant → bool) (now : instant) (r : queue_row) : bool :=
  pending_state (q_state r) &&
  match q_next_retry r with None => true | Some t => le t now end.

(** ORDER BY priority DESC, created_at ASC *)
Definition queue_less (le : instant → instant → bool) (a b : Z * queue_row) : bool :=
  (q_priority b.2 <? q_priority a.2) ||
  ((q_priority b.2 =? q_priority a.2) && le (q_created_at a.2) (q_created_at b.2) &&
   negb (le (q_created_at b.2) (q_created_at a.2))).

Definition set_queue_state (st : delivery_state) (r : queue_row) : queue_row :=
  QueueRow (q_user r) (q_channel r) (q_priority r) st (q_subject r) (q_body r) (q_variables r)
    (q_retry r) (q_max r) (q_next_retry r) (q_delivered_at r) (q_failed_at r) (q_error r)
    (q_created_at r).
Definition deliver_row (now : instant) (r : queue_row) : queue_row :=
  QueueRow (q_user r) (q_channel r) (q_priority r) Delivered (q_subject r) (q_body r)
    (q_variables r) (q_retry r) (q_max r) (q_next_retry r) (Some now) (q_failed_at r)
    (q_error r) (q_created_at r).
Definition bury_row (now : instant) (retry : Z) (err : string) (r : queue_row) : queue_row :=
  QueueRow (q_user r) (q_channel r) (q_priority r) DeadLetter (q_subject r) (q_body r)
    (q_variables r) retry (q_max r) (q_next_retry r) (q_delivered_at r) (Some now) (Some err)
    (q_created_at r).
Definition retry_row (at_ : instant) (retry : Z) (err : string) (r : queue_row) : queue_row :=
  QueueRow (q_user r) (q_channel r) (q_priority r) Failed (q_subject r) (q_body r)
    (q_variables r) retry (q_max r) (Some at_) (q_delivered_at r) (q_failed_at r) (Some err)
    (q_created_at r).
Definition requeue_row (r : queue_row) : queue_row :=
  QueueRow (q_user r) (q_channel r) (q_priority r) Queued (q_subject r) (q_body r)
    (q_variables r) 0 (q_max r) None (q_delivered_at r) (q_failed_at r) None (q_created_at r).

(** * Operations *)

Section operations.
Context `{Database W delivery_tables}.
Context (le : instant → instant → bool).
Context (channels : gmap string channel).
(** The users database: the stored preference of a user for a channel, and the e-mail
    address; and one field of a JSON object, rendered with %v. *)
Context (preference : Z → string → option string) (user_email : Z → option string).
Context (json_field : string → string → option string).

(** LoadSettings *)
Definition read_setting (key : string) (w : W) : option string * W :=
  let '(r, w) := query (λ t, t_settings t !! key) w in (mjoin r, w).
Definition load_int (key : string) (old : Z) (w : W) : Z * W :=
  let '(v, w) := read_setting key w in
  (match v with Some v => sscanf_d v | None => old end, w).
Definition load_settings (ds : delivery_system) (w : W) : delivery_system * W :=
  let '(mr, w) := load_int "notifications.retry_max" (ds_max_retries ds) w in
  let '(qw, w) := load_int "notifications.queue_workers" (ds_workers ds) w in
  let '(bs, w) := load_int "notifications.batch_size" (ds_batch ds) w in
  let '(rl, w) := load_int "notifications.rate_limit_per_min" (ds_rate ds) w in
  let '(b, w) := read_setting "notifications.retry_backoff" w in
  (DeliverySystem mr (default (ds_backoff ds) b) qw bs rl, w).

(** Enqueue: the new id *)
Definition next_id (q : gmap Z queue_row) : Z := 1 + foldr Z.max 0 (map_to_list q).*1.
Definition enqueue (ds : delivery_system) (user : option Z) (ctype subject body vars : string)
    (priority : Z) (now : instant) (w : W) : option Z * W :=
  exec (λ t, let id := next_id (t_queue t) in
    (id, (with_queue <[id := QueueRow user ctype priority Created subject body vars 0
                          (ds_max_retries ds) None None None None now]> t).2)) w.

(** The channel table (channel_manager.go) *)
Definition get_channel (ctype : string) : option channel := channels !! ctype.
Definition update_channel (ctype : string) (f : channel_row → channel_row) (w : W) : bool * W :=
  let '(r, w) := exec (with_channels (alter f ctype)) w in (bool_decide (is_Some r), w).
Definition record_success (ctype : string) (now : instant) (w : W) : bool * W :=
  update_channel ctype (λ c, ChannelRow (ch_name c) (ch_enabled c) (ch_state c) 0
    (ch_last_error c) (ch_last_test c) (Some now)) w.
Definition fail_row (err : string) (c : channel_row) : channel_row :=
  ChannelRow (ch_name c) (ch_enabled c)
    (if 5 <=? ch_failures c + 1 then CFailed else ch_state c) (ch_failures c + 1)
    (Some err) (ch_last_test c) (ch_last_success c).
Definition record_failure (ctype err : string) (w : W) : bool * W :=
  update_channel ctype (fail_row err) w.
Definition switch_channel (b : bool) (ctype : string) (w : W) : bool * W :=
  update_channel ctype (λ c, ChannelRow (ch_name c) b (if b then CEnabled else CDisabled)
    (ch_failures c) (ch_last_error c) (ch_last_test c) (ch_last_success c)) w.
Definition enable_channel : string → W → bool * W := switch_channel true.
Definition disable_channel : string → W → bool * W := switch_channel false.
Definition update_channel_state (ctype : string) (st : channel_state) (w : W) : bool * W :=
  update_channel ctype (λ c, ChannelRow (ch_name c) (ch_enabled c) st (ch_failures c)
    (ch_last_error c) (ch_last_test c) (ch_last_success c)) w.
Definition list_enabled_channels (w : W) : option (list string) * W :=
  query (λ t, (filter (λ p, ch_enabled p.2 = true ∧ ch_state p.2 = CEnabled)
                 (map_to_list (t_channels t))).*1) w.

(** TestChannel: its error *)
Definition test_channel (ctype recipient : string) (now : instant) (w : W) : option string * W :=
  match get_channel ctype with
  | None => (Some ("channel not found: " +:+ ctype), w)
  | Some ch =>
      let '(_, w) := update_channel_state ctype CTesting w in
      match c_test ch recipient with
      | Some err =>
          let '(_, w) := update_channel ctype (λ c, ChannelRow (ch_name c) (ch_enabled c) CFailed
            (ch_failures c + 1) (Some err) (Some (now, false)) (ch_last_success c)) w in
          (Some err, w)
      | None =>
          let '(ok, w) := update_channel ctype (λ c, ChannelRow (ch_name c) true CEnabled 0
            None (Some (now, true)) (Some now)) w in
          (if ok : bool then None else Some "database error", w)
      end
  end.

(** getRecipient *)
Definition get_recipient (nq : queue_row) : string :=
  let from_variables := default "" (json_field (q_variables nq) "recipient") in
  match q_user nq with
  | None => from_variables
  | Some u =>
      let address := match preference u (q_channel nq) with
                     | Some config => if is_empty config then None else json_field config "address"
                     | None => None
                     end in
      match address with
      | Some a => a
      | None => if str_eqb (q_channel nq) "email" then default "" (user_email u)
                else from_variables
      end
  end.

(** recordHistory *)
Definition record_history (id : Z) (nq : queue_row) (retry : Z) (status err : string) (w : W) : W :=
  (exec (λ t, (tt, DeliveryTables (t_queue t)
     (DeliveryEvent id (q_user nq) (q_channel nq) status err retry (q_priority nq) :: t_events t)
     (t_channels t) (t_settings t))) w).2.

(** handleSuccess and handleFailure, on the worker's copy [nq] of the row *)
Definition handle_success (id : Z) (nq : queue_row) (now : instant) (w : W) : W :=
  let '(r, w) := exec (with_queue (alter (deliver_row now) id)) w in
  match r with
  | None => w
  | Some _ =>
      let w := record_history id nq (q_retry nq) "delivered" "" w in
      (record_success (q_channel nq) now w).2
  end.
Definition handle_failure (ds : delivery_system) (id : Z) (nq : queue_row) (err : string)
    (now : instant) (w : W) : W :=
  let retry := q_retry nq + 1 in
  let dead := q_max nq <=? retry in
  let '(r, w) := exec (with_queue (alter
    (if dead then bury_row now retry err
     else retry_row (calculate_next_retry ds retry now) retry err) id)) w in
  let w := match r with
           | None => w
           | Some _ => record_history id nq retry (if dead then "dead_letter" else "failed") err w
           end in
  (record_failure (q_channel nq) err w).2.

(** What a worker does with the row: nothing is sent, or a message to a recipient and
    the transport's answer. *)
Definition attempt (nq : queue_row) : option string * option string :=
  match get_channel (q_channel nq) with
  | None => (None, Some ("channel not found: channel not found: " +:+ q_channel nq))
  | Some ch =>
      let recipient := get_recipient nq in
      if is_empty recipient then (None, Some "recipient not found")
      else (Some recipient, c_send ch recipient (q_subject nq) (q_body nq))
  end.

(** processNotification, cut where the worker waits for the transport: the mark, then
    the outcome. *)
Definition mark_sending (id : Z) (w : W) : W :=
  (exec (with_queue (alter (set_queue_state Sending) id)) w).2.
Definition settle (ds : delivery_system) (id : Z) (nq : queue_row) (now : instant) (w : W) : W :=
  match (attempt nq).2 with
  | Some err => handle_failure ds id nq err now w
  | None => handle_success id nq now w
  end.
Definition process_notification (ds : delivery_system) (id : Z) (nq : queue_row) (now : instant)
    (w : W) : W :=
  settle ds id nq now (mark_sending id w).

(** ProcessQueue: the rows it takes, each given to a worker of its own *)
Definition select_rows (ds : delivery_system) (now : instant) (t : delivery_tables)
  : list (Z * queue_row) :=
  let l := sort_stable (queue_less le) (filter (λ p, ready le now p.2 = true)
             (map_to_list (t_queue t))) in
  if ds_batch ds <? 0 then l else take (Z.to_nat (ds_batch ds)) l.
Definition process_queue (ds : delivery_system) (now : instant) (w : W)
  : option (list (Z * queue_row)) * W := query (select_rows ds now) w.

(** CleanupOld and RequeueDeadLetters *)
Definition cleanup_old (cutoff : instant) (w : W) : bool * W :=
  let '(r, w) := exec (with_queue (filter (λ p, ¬ (q_state p.2 = Delivered ∧
    match q_delivered_at p.2 with Some t => negb (le cutoff t) | None => false end = true)))) w in
  (bool_decide (is_Some r), w).
Definition requeue_dead_letters (ids : list Z) (w : W) : bool * W :=
  match ids with
  | [] => (true, w)
  | _ =>
      let '(r, w) := exec (with_queue (map_imap (λ id r, Some
        (if bool_decide (id ∈ ids ∧ q_state r = DeadLetter) then requeue_row r else r)))) w in
      (bool_decide (is_Some r), w)
  end.
End operations.

(** * One worker *)

Section worker.
Context `{DatabaseLaws W delivery_tables}.
Context (channels : gmap string channel) (preference : Z → string → option string)
  (user_email : Z → option string) (json_field : string → string → option string).

Abbreviation attempt := (attempt channels preference user_email json_field).
Abbreviation process := (process_notification channels preference user_email json_field).

(** Statements on the queue, on the channels and on the history, over a database that
    answers. *)
Lemma exec_queue f (w : W) :
  never_fails W delivery_tables →
  ∃ w', exec (with_queue f) w = (Some tt, w') ∧ tables w' = (with_queue f (tables w)).2.
Proof.
  intros Hup. destruct (exec_up _ (with_queue f) w Hup) as ([] & w' & E & Ht). exists w'.
  split; [done|]. by injection Ht.
Qed.

Lemma update_channel_up ctype f (w : W) :
  never_fails W delivery_tables →
  tables (update_channel ctype f w).2 = (with_channels (alter f ctype) (tables w)).2.
Proof.
  intros Hup. unfold update_channel.
  destruct (exec_up _ (with_channels (alter f ctype)) w Hup) as ([] & w' & -> & Ht).
  simpl. by injection Ht.
Qed.

Lemma record_history_up id nq retry status err (w : W) :
  never_fails W delivery_tables →
  tables (record_history id nq retry status err w) =
  DeliveryTables (t_queue (tables w))
    (DeliveryEvent id (q_user nq) (q_channel nq) status err retry (q_priority nq) :: t_events (tables w))
    (t_channels (tables w)) (t_settings (tables w)).
Proof.
  intros Hup. unfold record_history.
  destruct (exec_up _ (λ t : delivery_tables, (tt, DeliveryTables (t_queue t)
     (DeliveryEvent id (q_user nq) (q_channel nq) status err retry (q_priority nq) :: t_events t)
     (t_channels t) (t_settings t))) w Hup) as ([] & w' & -> & Ht).
  simpl. by injection Ht.
Qed.

(** Whatever fails, a worker touches no other row of the queue. *)
Lemma exec_alter_other f id id' (w : W) r w' :
  exec (with_queue (alter f id)) w = (r, w') → id ≠ id' →
  t_queue (tables w') !! id' = t_queue (tables w) !! id'.
Proof.
  intros E Hne. destruct (exec_cases _ (with_queue (alter f id)) w) as [(a & w1 & E1 & Ht)|(w1 & E1 & Ht)];
    rewrite E in E1; injection E1 as -> ->.
  - injection Ht as _ Ht. rewrite <-Ht. simpl. by apply lookup_alter_ne.
  - by rewrite Ht.
Qed.

Lemma record_history_queue id nq retry status err (w : W) :
  t_queue (tables (record_history id nq retry status err w)) = t_queue (tables w).
Proof. unfold record_history. exec_case w1 E Ht; simpl; [injection Ht as _ Ht; by rewrite <-Ht|by rewrite Ht]. Qed.

Lemma update_channel_queue ctype f (w : W) :
  t_queue (tables (update_channel ctype f w).2) = t_queue (tables w).
Proof. unfold update_channel. exec_case w1 E Ht; simpl; [injection Ht as _ Ht; by rewrite <-Ht|by rewrite Ht]. Qed.

Lemma process_other ds id id' nq now (w : W) :
  id ≠ id' → t_queue (tables (process ds id nq now w)) !! id' = t_queue (tables w) !! id'.
Proof.
  intros Hne. unfold process_notification, settle, mark_sending.
  destruct (exec _ w) as [r0 w0] eqn:E0. apply (exec_alter_other _ _ id') in E0; [|done]. simpl.
  rewrite <-E0. destruct (attempt nq).2 as [err|].
  - unfold handle_failure, record_failure.
    destruct (exec _ w0) as [r1 w1] eqn:E1. apply (exec_alter_other _ _ id') in E1; [|done].
    rewrite <-E1, update_channel_queue. destruct r1; [by rewrite record_history_queue|done].
  - unfold handle_success, record_success.
    destruct (exec _ w0) as [r1 w1] eqn:E1. apply (exec_alter_other _ _ id') in E1; [|done].
    rewrite <-E1. destruct r1; [|done]. cbv zeta. by rewrite update_channel_queue, record_history_queue.
Qed.

(** The row after one attempt that the database records. *)
Definition settled (ds : delivery_system) (nq : queue_row) (now : instant) : queue_row → queue_row :=
  match (attempt nq).2 with
  | None => deliver_row now
  | Some err =>
      if q_max nq <=? q_retry nq + 1 then bury_row now (q_retry nq + 1) err
      else retry_row (calculate_next_retry ds (q_retry nq + 1) now) (q_retry nq + 1) err
  end.

Lemma process_row ds id nq now (w : W) r :
  never_fails W delivery_tables → t_queue (tables w) !! id = Some r →
  t_queue (tables (process ds id nq now w)) !! id =
    Some (settled ds nq now (set_queue_state Sending r)) ∧
  ∃ ev, t_events (tables (process ds id nq now w)) = ev :: t_events (tables w) ∧ ev_queue ev = id ∧
    ev_status ev = match (attempt nq).2 with
                   | None => "delivered"
                   | Some _ => if q_max nq <=? q_retry nq + 1 then "dead_letter" else "failed"
                   end.
Proof.
  intros Hup Hr. unfold process_notification, settle, mark_sending, settled.
  destruct (exec_queue (alter (set_queue_state Sending) id) w Hup) as (w0 & -> & Ht0). simpl in Ht0 |- *.
  destruct (attempt nq).2 as [err|]; simpl.
  - unfold handle_failure, record_failure.
    destruct (exec_queue (alter (if q_max nq <=? q_retry nq + 1 then bury_row now (q_retry nq + 1) err
      else retry_row (calculate_next_retry ds (q_retry nq + 1) now) (q_retry nq + 1) err) id) w0 Hup)
      as (w1 & -> & Ht1).
    rewrite (update_channel_up _ _ _ Hup), record_history_up by done. simpl.
    rewrite Ht1. simpl. rewrite Ht0. simpl. rewrite lookup_alter_eq, lookup_alter_eq, Hr. split; [done|].
    eexists. split; [done|]. by simpl.
  - unfold handle_success, record_success.
    destruct (exec_queue (alter (deliver_row now) id) w0 Hup) as (w1 & -> & Ht1).
    rewrite (update_channel_up _ _ _ Hup), record_history_up by done. simpl.
    rewrite Ht1. simpl. rewrite Ht0. simpl. rewrite lookup_alter_eq, lookup_alter_eq, Hr. split; [done|].
    eexists. split; [done|]. by simpl.
Qed.

(** The attempts a queued message goes through, each by a worker that takes the row as
    it stands. *)
Definition attempts (ds : delivery_system) (id : Z) (times : list instant) (w : W) : W :=
  foldl (λ w t, match t_queue (tables w) !! id with
                | Some nq => process ds id nq t w
                | None => w
                end) w times.

(** The delays in minutes: the powers of two, or the multiples of five, cut at an hour *)
Lemma retry_delay_spec backoff n : 1 <= n → n * 5 <= max_int64 →
  retry_delay_minutes backoff n = Z.min 60 (if decide (backoff = "exponential") then 2 ^ n else 5 * n).
Proof.
  intros Hn Hmax. unfold retry_delay_minutes, str_eqb. destruct (decide (backoff = "exponential")) as [->|Hne].
  - rewrite bool_decide_eq_true_2 by done. destruct (Z.ltb_spec n 0); [lia|]. destruct (Z.leb_spec 6 n).
    + assert (2 ^ 6 <= 2 ^ n) by (apply Z.pow_le_mono_r; lia). lia.
    + assert (2 ^ n <= 2 ^ 5) by (apply Z.pow_le_mono_r; lia). lia.
  - rewrite bool_decide_eq_false_2 by done. rewrite wrap64_id by (unfold_int64; lia). by rewrite Z.mul_comm.
Qed.

(** C11: Retries are bounded and spaced.  A message whose transport keeps failing, taken by
    one dispatcher after the other on a database that answers, is
    attempted at most [max_retries] times: after the k-th attempt it is failed with
    counter k and due again after 2, 4, 8 ... 2^k minutes, or 5, 10 ... 5*k,
    never more than 60; the attempt that reaches the maximum makes it a dead letter,
    which no pass over the queue takes any more; and every attempt leaves one event in
    the history. *)
Theorem retries_bounded ds id times last (w : W) r err :
  never_fails W delivery_tables →
  t_queue (tables w) !! id = Some r → (attempt r).2 = Some err →
  0 <= q_retry r → q_retry r + Z.of_nat (length times) < q_max r → q_max r * 5 <= max_int64 →
  let n := q_retry r + Z.of_nat (length times) + 1 in
  let w' := attempts ds id (times ++ [last]) w in
  (∃ r', t_queue (tables w') !! id = Some r' ∧ q_retry r' = n ∧ q_max r' = q_max r ∧
     q_body r' = q_body r ∧ q_error r' = Some err ∧
     if q_max r <=? n then q_state r' = DeadLetter ∧ ∀ le now, ready le now r' = false
     else q_state r' = Failed ∧
          q_next_retry r' = Some (last + Z.min 60 (if decide (ds_backoff ds = "exponential") then 2 ^ n else 5 * n) * minute)) ∧
  length (t_events (tables w')) = (length (t_events (tables w)) + length times + 1)%nat.
Proof.
  intros Hup Hr Herr H0 Hlt Hmax.
  assert (Hgo : ∃ r0, t_queue (tables (attempts ds id times w)) !! id = Some r0 ∧
    q_retry r0 = q_retry r + Z.of_nat (length times) ∧ q_max r0 = q_max r ∧ q_body r0 = q_body r ∧
    (attempt r0).2 = Some err ∧
    length (t_events (tables (attempts ds id times w))) = (length (t_events (tables w)) + length times)%nat).
  { induction times as [|t times IH] using rev_ind.
    - exists r. simpl. split_and!; try done; lia.
    - rewrite length_app in Hlt |- *. simpl in Hlt |- *.
      destruct IH as (r0 & Hr0 & Hn & Hm & Hb & He & Hev); [lia|].
      unfold attempts. rewrite foldl_app. fold (attempts ds id times w). cbn [foldl]. rewrite Hr0.
      destruct (process_row ds id r0 t (attempts ds id times w) r0 Hup Hr0) as (Hrow & ev & Hevs & _).
      rewrite Hrow, Hevs. unfold settled. rewrite He, Hm, Hn.
      destruct (Z.leb_spec (q_max r) (q_retry r + Z.of_nat (length times) + 1)); [lia|].
      eexists. split; [done|]. simpl. split_and!; try done; try lia. }
  destruct Hgo as (r0 & Hr0 & Hn & Hm & Hb & He & Hev).
  unfold attempts. rewrite foldl_app. fold (attempts ds id times w). cbn [foldl]. rewrite Hr0.
  destruct (process_row ds id r0 last (attempts ds id times w) r0 Hup Hr0) as (Hrow & ev & Hevs & _).
  rewrite Hrow, Hevs. unfold settled. rewrite He, Hm, Hn. split; [|simpl; lia].
  destruct (Z.leb_spec (q_max r) (q_retry r + Z.of_nat (length times) + 1)); (eexists; split; [done|]);
    simpl; split_and!; try done.
  unfold calculate_next_retry. by rewrite retry_delay_spec by lia.
Qed.
End worker.

(** * Messages stuck in [sending] *)

(** What else may happen to the queue: a new message, a pass of [ProcessQueue] with all
    its workers, a cleanup, a requeue of dead letters. *)
Inductive queue_op :=
| OpEnqueue (user : option Z) (ctype subject body vars : string) (priority : Z) (now : instant)
| OpProcess (now : instant)
| OpCleanup (cutoff : instant)
| OpRequeue (ids : list Z).

Section stuck.
Context `{DatabaseLaws W delivery_tables} (le : instant → instant → bool).
Context (channels : gmap string channel) (preference : Z → string → option string)
  (user_email : Z → option string) (json_field : string → string → option string).

Definition run_op (ds : delivery_system) (op : queue_op) (w : W) : W :=
  match op with
  | OpEnqueue u c s b v p now => (enqueue ds u c s b v p now w).2
  | OpProcess now =>
      let '(rows, w) := process_queue le ds now w in
      foldl (λ w '(id, nq), process_notification channels preference user_email json_field ds id nq now w)
        w (default [] rows)
  | OpCleanup cutoff => (cleanup_old le cutoff w).2
  | OpRequeue ids => (requeue_dead_letters ids w).2
  end.

Lemma selected_ready ds now t id nq :
  (id, nq) ∈ select_rows le ds now t → t_queue t !! id = Some nq ∧ ready le now nq = true.
Proof.
  unfold select_rows. set (l := sort_stable _ _). intros Hin.
  assert (Hl : (id, nq) ∈ l).
  { destruct (ds_batch ds <? 0); [done|]. by apply (subseteq_take (Z.to_nat (ds_batch ds)) l). }
  unfold l in Hl. rewrite sort_stable_Permutation in Hl.
  apply list_elem_of_filter in Hl as [Hr Hm]. by rewrite elem_of_map_to_list in Hm.
Qed.

Lemma next_id_fresh q id r : q !! id = Some r → next_id q ≠ id.
Proof.
  intros Hq. unfold next_id. assert (Hle : id <= foldr Z.max 0 (map_to_list q).*1); [|lia].
  assert (Hin : id ∈ (map_to_list q).*1)
    by (apply list_elem_of_fmap; exists (id, r); by rewrite elem_of_map_to_list).
  induction (map_to_list q).*1 as [|i l IH]; [by apply elem_of_nil in Hin|].
  simpl. apply elem_of_cons in Hin as [->|Hin]; [lia|]. specialize (IH Hin). lia.
Qed.

(** A message left in [sending] (the process died, or the write of its outcome
    failed) is lost: no later pass of the queue, new message, requeue of dead letters or
    cleanup, in any order and under any failure, ever changes its row again. *)
Theorem sending_is_final ds ops id (w : W) r :
  t_queue (tables w) !! id = Some r → q_state r = Sending →
  t_queue (tables (foldl (λ w op, run_op ds op w) w ops)) !! id = Some r.
Proof.
  intros Hr Hs. revert w Hr. induction ops as [|op ops IH]; intros w Hr; [done|].
  simpl. apply IH. clear IH. destruct op as [u c sb b v p now|now|cutoff|ids]; simpl.
  - unfold enqueue. exec_case w1 E Ht; simpl; [|by rewrite Ht].
    injection Ht as _ Ht. rewrite <-Ht. simpl. rewrite lookup_insert_ne; [done|]. by eapply next_id_fresh.
  - unfold process_queue. exec_case w1 E Ht; simpl; [|by rewrite Ht].
    rewrite <-Ht in Hr. assert (Hsel : ∀ i nq, (i, nq) ∈ select_rows le ds now (tables w) → i ≠ id).
    { intros i nq Hin ->. apply selected_ready in Hin as [Hq Hready]. rewrite <-Ht, Hr in Hq.
      injection Hq as <-. unfold ready in Hready. by rewrite Hs in Hready. }
    clear E Ht. revert w1 Hr. induction (select_rows le ds now (tables w)) as [|[i nq] l IH]; intros w1 Hr; [done|].
    simpl. apply IH; [intros i' nq' Hin; eapply Hsel; by right|].
    rewrite process_other; [done|]. eapply Hsel. left.
  - unfold cleanup_old. exec_case w1 E Ht; simpl; [|by rewrite Ht].
    injection Ht as _ Ht. rewrite <-Ht. simpl. apply map_lookup_filter_Some. split; [done|].
    simpl. rewrite Hs. by intros [? _].
  - unfold requeue_dead_letters. destruct ids as [|i ids]; [done|].
    exec_case w1 E Ht; simpl; [|by rewrite Ht].
    injection Ht as _ Ht. rewrite <-Ht. simpl. rewrite map_lookup_imap, Hr. simpl.
    rewrite bool_decide_false; [done|]. rewrite Hs. by intros [_ ?].
Qed.
End stuck.

(** * The failure counter of a channel *)

Section breaker.
Context `{DatabaseLaws W delivery_tables}.

(** The failure counter of a channel counts consecutive failures: five in a row
    mark it failed, a success resets the count; but nothing in the delivery path clears
    the mark (a success leaves it), and the mark never touches [enabled]. *)
Theorem breaker_counts ctype errs now (w : W) c :
  never_fails W delivery_tables →
  t_channels (tables w) !! ctype = Some c → 0 <= ch_failures c → ch_state c ≠ CFailed →
  let w' := foldl (λ w e, (record_failure ctype e w).2) w errs in
  let w'' := (record_success ctype now w').2 in
  ∃ c' c'', t_channels (tables w') !! ctype = Some c' ∧ t_channels (tables w'') !! ctype = Some c'' ∧
    ch_failures c' = ch_failures c + Z.of_nat (length errs) ∧
    (ch_state c' = CFailed ↔ errs ≠ [] ∧ 5 <= ch_failures c') ∧
    ch_failures c'' = 0 ∧ ch_state c'' = ch_state c' ∧
    ch_enabled c' = ch_enabled c ∧ ch_enabled c'' = ch_enabled c.
Proof.
  intros Hup Hc H0 Hst.
  assert (Hgo : ∃ c', t_channels (tables (foldl (λ w e, (record_failure ctype e w).2) w errs)) !! ctype = Some c' ∧
    ch_failures c' = ch_failures c + Z.of_nat (length errs) ∧
    (ch_state c' = CFailed ↔ errs ≠ [] ∧ 5 <= ch_failures c') ∧ ch_enabled c' = ch_enabled c).
  { induction errs as [|e errs IH] using rev_ind; [exists c; simpl; split_and!; try done; [lia|]|].
    - split; [done|by intros [? _]].
    - destruct IH as (c' & Hc' & Hn & Hs & He). rewrite foldl_app. simpl.
      unfold record_failure at 1. rewrite (update_channel_up _ _ _ Hup). simpl.
      rewrite lookup_alter_eq, Hc'. eexists. split; [done|]. rewrite length_app. simpl.
      split; [lia|]. split; [|done]. destruct (Z.leb_spec 5 (ch_failures c' + 1)) as [H5|H5].
      + split; [|done]. intros _. split; [by destruct errs|done].
      + rewrite Hs. split; [intros [_ ?]; lia|intros [_ ?]; lia]. }
  destruct Hgo as (c' & Hc' & Hn & Hs & He). cbv zeta.
  unfold record_success. rewrite (update_channel_up _ _ _ Hup). simpl.
  rewrite lookup_alter_eq, Hc'. eexists _, _. do 2 (split; [done|]). by simpl.
Qed.
End breaker.

(** * Concrete runs *)

(** One message for a webhook channel that is disabled in the database, and a transport
    that works or fails. *)
Definition start_at : instant := date_utc 2024 6 15 12 0 0 0.
Definition hello : queue_row :=
  QueueRow None "webhook" 5 Created "Storm" "Take cover" "{}" 0 3 None None None None start_at.
Definition one_message : delivery_tables :=
  DeliveryTables {[1 := hello]} []
    {["webhook" := ChannelRow "Generic Webhook" false CDisabled 0 None None None]} ∅.
Definition transport (answer : option string) : gmap string channel :=
  {["webhook" := Channel (λ _ _ _, answer) (λ _, answer)]}.
Definition no_preference (u : Z) (c : string) : option string := None.
Definition no_email (u : Z) : option string := None.
Definition hook_field (json key : string) : option string := Some "https://hook.example".
Definition by_time (a b : instant) : bool := a <=? b.

Lemma retries_bounded_witness :
  let w' := attempts (transport (Some "timeout")) no_preference no_email hook_field
              new_delivery_system 1 [start_at; start_at + 2 * minute; start_at + 6 * minute]
              (Reliable one_message) in
  ∃ r', t_queue (tables w') !! 1 = Some r' ∧ q_retry r' = 3 ∧ q_state r' = DeadLetter.
Proof.
  destruct (retries_bounded (transport (Some "timeout")) no_preference no_email hook_field
    new_delivery_system 1 [start_at; start_at + 2 * minute] (start_at + 6 * minute)
    (Reliable one_message) hello "timeout") as [(r' & Hr' & Hn & _ & _ & _ & Hd) _].
  - apply reliable_never_fails.
  - reflexivity.
  - vm_compute. reflexivity.
  - discriminate.
  - reflexivity.
  - discriminate.
  - exists r'. split; [exact Hr'|]. split; [exact Hn|]. exact (proj1 Hd).
Defined.

Lemma sending_is_final_witness :
  let w := Reliable (DeliveryTables {[1 := set_queue_state Sending hello]} [] ∅ ∅) in
  t_queue (tables (foldl (λ w op, run_op by_time (transport None) no_preference no_email hook_field
    new_delivery_system op w) w [OpProcess start_at; OpRequeue [1]; OpCleanup start_at])) !! 1
  = Some (set_queue_state Sending hello).
Proof. apply sending_is_final; reflexivity. Defined.

Lemma breaker_counts_witness :
  let w' := foldl (λ w e, (record_failure "webhook" e w).2) (Reliable one_message)
              ["e1"; "e2"; "e3"; "e4"; "e5"] in
  ∃ c', t_channels (tables w') !! "webhook" = Some c' ∧ ch_state c' = CFailed.
Proof.
  destruct (breaker_counts "webhook" ["e1"; "e2"; "e3"; "e4"; "e5"] start_at (Reliable one_message)
    (ChannelRow "Generic Webhook" false CDisabled 0 None None None))
    as (c' & c'' & Hc' & _ & Hn & Hs & _).
  - apply reliable_never_fails.
  - reflexivity.
  - discriminate.
  - discriminate.
  - exists c'. split; [exact Hc'|]. apply Hs. split; [discriminate|].
    rewrite Hn. discriminate.
Defined.

(** The first retry of the exponential policy is after two minutes. *)
Lemma first_backoff : map (retry_delay_minutes "exponential") [1; 2; 3; 4; 5; 6; 7] =
  [2; 4; 8; 16; 32; 60; 60].
Proof. reflexivity. Qed.

(** A disabled channel still sends: the worker looks at the registered transport, never
    at the channel's row. *)
Lemma disabled_channel_sends :
  let w' := process_notification (transport None) no_preference no_email hook_field
              new_delivery_system 1 hello start_at (Reliable one_message) in
  (q_state <$> t_queue (tables w') !! 1) = Some Delivered ∧
  (ch_enabled <$> t_channels (tables w') !! "webhook") = Some false.
Proof. vm_compute. done. Qed.

(** The row is not claimed by the pass that takes it: a second pass before the worker's
    first statement takes it again, and both workers send it. *)
Lemma double_dispatch :
  let '(rows, w) := process_queue by_time new_delivery_system start_at (Reliable one_message) in
  let '(again, _) := process_queue by_time new_delivery_system (start_at + second) w in
  rows = Some [(1, hello)] ∧ again = Some [(1, hello)] ∧
  (attempt (transport None) no_preference no_email hook_field hello).1 = Some "https://hook.example".
Proof. vm_compute. done. Qed.
