(* ===== verification/WebSocket.v ===== *)
(** The WebSocket hub (src/server/service/websocket_hub.go): the clients as shared
    objects with a bounded send buffer, the registry by client id, the three queues of
    the hub goroutine, and its steps.  A step runs, panics (a send on a closed channel,
    or a second close) or blocks for ever (the hub goroutine sending to its own full
    queue).  The network connection and its pumps appear as the events they cause. *)
From S2P Require Import Prelude GoStrings GoTime.
Open Scope Z_scope.

(** * Data *)

Inductive message := Notification (text : string) | Ping (at_ : instant).

(** WebSocketClient: an object shared by the hub and its two pumps. *)
Record client := Client {
  w_id : string; w_user : option Z; w_admin : option Z;
  w_buffer : list message; w_room : nat; w_closed : bool; w_conn : bool; w_last_ping : instant
}.
Abbreviation ref := nat.

(** WebSocketHub, with the objects it can reach. *)
Record hub := Hub {
  h_heap : gmap ref client;
  h_clients : gmap string ref;
  h_register : list ref;
  h_unregister : list ref;
  h_broadcast : list message
}.
Definition register_capacity : nat := 10.
Definition unregister_capacity : nat := 10.
Definition broadcast_capacity : nat := 100.

(** NewWebSocketHub *)
Definition new_hub : hub := Hub ∅ ∅ [] [] [].

Inductive panic := SendOnClosed (c : ref) | CloseOfClosed (c : ref) | NilClient (c : ref).
Inductive outcome := Running (h : hub) | Panicking (p : panic) | BlockedForever.

Definition bind_hub (o : outcome) (f : hub → outcome) : outcome :=
  match o with Running h => f h | _ => o end.

(** A loop that runs [f] on every element, until one does not return. *)
Definition run_all {A} (f : A → hub → outcome) (l : list A) (h : hub) : outcome :=
  foldl (λ o a, bind_hub o (f a)) (Running h) l.

Definition set_client (c : ref) (o : client) (h : hub) : hub :=
  Hub (<[c := o]> (h_heap h)) (h_clients h) (h_register h) (h_unregister h) (h_broadcast h).
Definition set_buffer (b : list message) (o : client) : client :=
  Client (w_id o) (w_user o) (w_admin o) b (w_room o) (w_closed o) (w_conn o) (w_last_ping o).
Definition close_client (o : client) : client :=
  Client (w_id o) (w_user o) (w_admin o) (w_buffer o) (w_room o) true (w_conn o) (w_last_ping o).
Definition drop_conn (o : client) : client :=
  Client (w_id o) (w_user o) (w_admin o) (w_buffer o) (w_room o) (w_closed o) false (w_last_ping o).
Definition set_last_ping (t : instant) (o : client) : client :=
  Client (w_id o) (w_user o) (w_admin o) (w_buffer o) (w_room o) (w_closed o) (w_conn o) t.
Definition set_clients (m : gmap string ref) (h : hub) : hub :=
  Hub (h_heap h) m (h_register h) (h_unregister h) (h_broadcast h).
Definition set_unregister (l : list ref) (h : hub) : hub :=
  Hub (h_heap h) (h_clients h) (h_register h) l (h_broadcast h).
Definition set_register (l : list ref) (h : hub) : hub :=
  Hub (h_heap h) (h_clients h) l (h_unregister h) (h_broadcast h).
Definition set_broadcast (l : list message) (h : hub) : hub :=
  Hub (h_heap h) (h_clients h) (h_register h) (h_unregister h) l.

(** ClientIDForUser and ClientIDForAdmin *)
Definition client_id_for_user (user : Z) : string := "user-" +:+ itoa user.
Definition client_id_for_admin (admin : Z) : string := "admin-" +:+ itoa admin.

(** * Operations *)

(** close(client.Send) *)
Definition close_send (c : ref) (h : hub) : outcome :=
  match h_heap h !! c with
  | None => Panicking (NilClient c)
  | Some o => if w_closed o then Panicking (CloseOfClosed c) else Running (set_client c (close_client o) h)
  end.

(** sendToClient; the send on the unregister queue blocks when it is full, which for
    the hub goroutine, its only reader, is for ever *)
Definition send_to_client (c : ref) (m : message) (h : hub) : outcome :=
  match h_heap h !! c with
  | None => Panicking (NilClient c)
  | Some o =>
      if w_closed o then Panicking (SendOnClosed c)
      else if decide (length (w_buffer o) < w_room o)%nat
      then Running (set_client c (set_buffer (w_buffer o ++ [m]) o) h)
      else if decide (length (h_unregister h) < unregister_capacity)%nat
      then Running (set_client c (drop_conn o) (set_unregister (h_unregister h ++ [c]) h))
      else BlockedForever
  end.

(** broadcastToAll and pingClients, over a snapshot of the registry in the order [refs] *)
Definition send_all (refs : list ref) (m : message) (h : hub) : outcome :=
  run_all (λ c, send_to_client c m) refs h.

(** The registration arm of the loop. *)
Definition do_register (c : ref) (h : hub) : outcome :=
  match h_heap h !! c with
  | None => Panicking (NilClient c)
  | Some o => Running (set_clients (<[w_id o := c]> (h_clients h)) h)
  end.

(** The unregistration arm: whoever has the id goes, the given client is closed. *)
Definition do_unregister (c : ref) (h : hub) : outcome :=
  match h_heap h !! c with
  | None => Panicking (NilClient c)
  | Some o =>
      match h_clients h !! w_id o with
      | None => Running h
      | Some _ => close_send c (set_clients (delete (w_id o) (h_clients h)) h)
      end
  end.

(** cleanupStaleConnections, over the registry in the order [refs] *)
Definition stale_client (now : instant) (h : hub) (c : ref) : bool :=
  match h_heap h !! c with
  | Some o => 2 * minute <? sub now (w_last_ping o)
  | None => false
  end.
Definition drop_stale (c : ref) (h : hub) : outcome :=
  match h_heap h !! c with
  | None => Panicking (NilClient c)
  | Some o =>
      bind_hub (close_send c (set_clients (delete (w_id o) (h_clients h)) h))
        (λ h, match h_heap h !! c with
              | Some o => Running (set_client c (drop_conn o) h)
              | None => Panicking (NilClient c)
              end)
  end.
Definition cleanup_stale (now : instant) (refs : list ref) (h : hub) : outcome :=
  run_all drop_stale (filter (λ c, stale_client now h c = true) refs) h.

(** The registered clients. *)
Definition registered (h : hub) : list ref := (map_to_list (h_clients h)).*2.

(** BroadcastToUser and BroadcastToAdmin find the client and then send, without the lock
    in between; BroadcastToAllUsers and BroadcastToAllAdmins start one send for each. *)
Definition user_target (user : Z) (h : hub) : option ref := h_clients h !! client_id_for_user user.
Definition admin_target (admin : Z) (h : hub) : option ref := h_clients h !! client_id_for_admin admin.
Definition user_targets (h : hub) : list ref :=
  filter (λ c, is_Some (h_heap h !! c ≫= w_user)) (registered h).
Definition admin_targets (h : hub) : list ref :=
  filter (λ c, is_Some (h_heap h !! c ≫= w_admin)) (registered h).

(** GetConnectedCount, GetConnectedUserCount, IsUserConnected and their like *)
Definition connected_count (h : hub) : nat := length (registered h).
Definition user_count (h : hub) : nat := length (user_targets h).
Definition admin_count (h : hub) : nat := length (admin_targets h).
Definition is_user_connected (user : Z) (h : hub) : bool :=
  bool_decide (is_Some (h_clients h !! client_id_for_user user)).

Definition is_admin_connected (admin : Z) (h : hub) : bool :=
  bool_decide (is_Some (h_clients h !! client_id_for_admin admin)).

(** A caller's send to the register or unregister queue: it waits while the queue is full. *)
Definition register_client (c : ref) (h : hub) : hub :=
  if decide (length (h_register h) < register_capacity)%nat
  then set_register (h_register h ++ [c]) h else h.
Definition unregister_client (c : ref) (h : hub) : hub :=
  if decide (length (h_unregister h) < unregister_capacity)%nat
  then set_unregister (h_unregister h ++ [c]) h else h.

(** WritePump takes what waits in the buffer; ReadPump notes a pong. *)
Definition write_pump (c : ref) (h : hub) : hub :=
  match h_heap h !! c with Some o => set_client c (set_buffer [] o) h | None => h end.
Definition read_pump_pong (c : ref) (now : instant) (h : hub) : hub :=
  match h_heap h !! c with Some o => set_client c (set_last_ping now o) h | None => h end.

(** What happens to the hub: a pump or a handler queues something or is served by the
    peer, or the hub goroutine takes one of its cases; an event of the hub goroutine on
    an empty queue, or a caller's on a full one, does not happen.  [EvDeliver] is the
    sending half of BroadcastToUser and its like, in the caller's goroutine. *)
Inductive hub_event :=
| EvConnect (c : ref) (o : client)
| EvLeave (c : ref)
| EvDrain (c : ref)
| EvPong (c : ref) (now : instant)
| EvDeliver (c : ref) (m : message)
| EvPost (m : message)
| EvRegister
| EvUnregister
| EvBroadcast (refs : list ref)
| EvPing (now : instant) (refs : list ref)
| EvCleanup (now : instant) (refs : list ref).

Definition hub_step (e : hub_event) (h : hub) : outcome :=
  match e with
  | EvConnect c o =>
      if decide (length (h_register h) < register_capacity)%nat
      then Running (register_client c (set_client c o h)) else Running h
  | EvLeave c => Running (unregister_client c h)
  | EvDrain c => Running (write_pump c h)
  | EvPong c now => Running (read_pump_pong c now h)
  | EvDeliver c m =>
      match send_to_client c m h with BlockedForever => Running h | o => o end
  | EvPost m =>
      if decide (length (h_broadcast h) < broadcast_capacity)%nat
      then Running (set_broadcast (h_broadcast h ++ [m]) h) else Running h
  | EvRegister =>
      match h_register h with
      | c :: l => do_register c (set_register l h)
      | [] => Running h
      end
  | EvUnregister =>
      match h_unregister h with
      | c :: l => do_unregister c (set_unregister l h)
      | [] => Running h
      end
  | EvBroadcast refs =>
      match h_broadcast h with
      | m :: l => send_all refs m (set_broadcast l h)
      | [] => Running h
      end
  | EvPing now refs => send_all refs (Ping now) h
  | EvCleanup now refs => cleanup_stale now refs h
  end.
Definition hub_run (es : list hub_event) (h : hub) : outcome :=
  run_all hub_step es h.

(** * Invariant *)

(** How the program uses the hub: a connection is a new object; what leaves is an object
    of the heap; the hub goroutine takes the registry in some order; a caller's send goes to
    a client found some time earlier, which may have left since.  That no two connections share an id is what the
    code leaves to chance: an id names a user, not a connection. *)
Definition well_used (h : hub) (e : hub_event) : Prop :=
  match e with
  | EvConnect c o =>
      h_heap h !! c = None ∧ w_closed o = false ∧ w_buffer o = [] ∧
      (∀ c' o', h_heap h !! c' = Some o' → w_id o' ≠ w_id o)
  | EvLeave c | EvDeliver c _ => is_Some (h_heap h !! c)
  | EvBroadcast refs | EvPing _ refs | EvCleanup _ refs => refs ≡ₚ registered h
  | _ => True
  end.

Inductive hub_reach : hub → Prop :=
| reach_new : hub_reach new_hub
| reach_step h e h' :
    hub_reach h → well_used h e → hub_step e h = Running h' → hub_reach h'.

Definition open_client (h : hub) (c : ref) : Prop :=
  ∃ o, h_heap h !! c = Some o ∧ w_closed o = false.

Record hub_ok (h : hub) : Prop := HubOk {
  ok_registry : ∀ id c, h_clients h !! id = Some c →
    ∃ o, h_heap h !! c = Some o ∧ w_id o = id ∧ w_closed o = false;
  ok_ids : ∀ c c' o o', h_heap h !! c = Some o → h_heap h !! c' = Some o' →
    w_id o = w_id o' → c = c';
  ok_leaving : ∀ c, c ∈ h_unregister h → is_Some (h_heap h !! c);
  ok_joining : ∀ c, c ∈ h_register h →
    ¬ (c ∈ registered h) ∧ ∃ o, h_heap h !! c = Some o ∧ w_closed o = false;
  ok_joining_once : NoDup (h_register h);
  ok_buffers : ∀ c o, h_heap h !! c = Some o → (length (w_buffer o) ≤ w_room o)%nat;
  ok_queue : (length (h_unregister h) ≤ unregister_capacity)%nat
}.

Lemma elem_of_registered h c : c ∈ registered h ↔ ∃ id, h_clients h !! id = Some c.
Proof.
  unfold registered. rewrite list_elem_of_fmap. split.
  - intros [[id c'] [-> ?%elem_of_map_to_list]]. eauto.
  - intros [id ?]. exists (id, c). by rewrite elem_of_map_to_list.
Qed.

Lemma registered_open h c : hub_ok h → c ∈ registered h → open_client h c.
Proof.
  intros OK [id E]%elem_of_registered. destruct (ok_registry _ OK _ _ E) as (o & ? & _ & ?). by exists o.
Qed.

Lemma registered_nodup h : hub_ok h → NoDup (registered h).
Proof.
  intros OK. unfold registered. apply NoDup_fmap_2_strong, NoDup_map_to_list.
  intros [i c] [j c'] Hi%elem_of_map_to_list Hj%elem_of_map_to_list [= <-].
  destruct (ok_registry _ OK _ _ Hi) as (o & H1 & E1 & _), (ok_registry _ OK _ _ Hj) as (o' & H2 & E2 & _).
  cbn in *. congruence.
Qed.

(** A client changes without changing its id or whether it is open. *)
Lemma set_client_ok c o o' h :
  hub_ok h → h_heap h !! c = Some o → w_id o' = w_id o → w_closed o' = w_closed o →
  (length (w_buffer o') ≤ w_room o')%nat → hub_ok (set_client c o' h).
Proof.
  intros [R I L J N B Q] E Eid Ecl Hb. constructor; cbn; try done.
  - intros id c' Hc. destruct (R _ _ Hc) as (o1 & H1 & H2 & H3).
    destruct (decide (c = c')) as [<-|]; [|rewrite lookup_insert_ne; by eauto].
    rewrite lookup_insert_eq. exists o'. split_and!; congruence.
  - intros c1 c2 o1 o2. rewrite !lookup_insert. repeat case_decide; subst; intros [=] [=]; subst; eauto; intros; symmetry; eauto; eapply I; eauto; congruence.
  - intros c' Hc. rewrite lookup_insert. case_decide; [by eexists | auto].
  - intros c' Hc. destruct (J _ Hc) as (H1 & o1 & H2 & H3). split; [exact H1|].
    rewrite lookup_insert. case_decide; [subst; exists o'; split; congruence | eauto].
  - intros c1 o1. rewrite lookup_insert. case_decide; [by intros [= <-] | apply B].
Qed.

(** * Broadcasting *)

(** What a send does to the client it goes to. *)
Definition deliver (m : message) (o : client) : client :=
  if decide (length (w_buffer o) < w_room o)%nat then set_buffer (w_buffer o ++ [m]) o else drop_conn o.
Definition is_full (h : hub) (c : ref) : bool :=
  match h_heap h !! c with
  | Some o => bool_decide (w_room o ≤ length (w_buffer o))%nat
  | None => false
  end.

Lemma send_to_client_exact c m h :
  open_client h c →
  send_to_client c m h =
    let leaving := if is_full h c then [c] else [] in
    if decide (length leaving = 0 ∨ length (h_unregister h) < unregister_capacity)%nat
    then Running (Hub (alter (deliver m) c (h_heap h)) (h_clients h) (h_register h)
                    (h_unregister h ++ leaving) (h_broadcast h))
    else BlockedForever.
Proof.
  intros (o & E & Ho). unfold send_to_client, is_full, deliver. rewrite E, Ho.
  assert (A : ∀ f, alter f c (h_heap h) = <[c := f o]> (h_heap h)).
  { intros f. apply map_eq. intros i. rewrite lookup_insert.
    case_decide; [subst; by rewrite lookup_alter_eq, E | by rewrite lookup_alter_ne]. }
  rewrite A. case_decide.
  - rewrite bool_decide_false by lia. cbn. rewrite app_nil_r. case_decide; [done | lia].
  - rewrite bool_decide_true by lia. cbn. repeat case_decide; try lia; done.
Qed.

Lemma run_all_cons {A} (f : A → hub → outcome) a l h :
  run_all f (a :: l) h = bind_hub (f a h) (run_all f l).
Proof.
  unfold run_all. cbn [foldl bind_hub]. destruct (f a h) as [h'|p|]; cbn [bind_hub]; [done|..];
    induction l as [|b l IH]; cbn; auto.
Qed.

(** Once the queue is full the loop stops at the next full client. *)
Lemma send_all_exact refs m h :
  Forall (open_client h) refs → NoDup refs → (length (h_unregister h) ≤ unregister_capacity)%nat →
  send_all refs m h =
    let full := filter (λ c, is_full h c = true) refs in
    if decide (length (h_unregister h) + length full ≤ unregister_capacity)%nat
    then Running (Hub (foldl (λ H c, alter (deliver m) c H) (h_heap h) refs) (h_clients h)
                    (h_register h) (h_unregister h ++ full) (h_broadcast h))
    else BlockedForever.
Proof.
  unfold send_all. revert h. induction refs as [|c refs IH]; intros h HO ND HQ.
  { cbn. rewrite app_nil_r. case_decide; [by destruct h | lia]. }
  apply Forall_cons_1 in HO as [Hc HO]. apply NoDup_cons in ND as [Hn ND].
  rewrite run_all_cons, send_to_client_exact by done. cbn zeta.
  set (L := if is_full h c then [c] else []).
  assert (F : filter (λ c, is_full h c = true) (c :: refs) = L ++ filter (λ c, is_full h c = true) refs).
  { rewrite filter_cons. unfold L. destruct (is_full h c); [rewrite decide_True by done | rewrite decide_False by done]; done. }
  rewrite F, length_app. assert (length L ≤ 1)%nat by (unfold L; destruct (is_full h c); cbn; lia).
  case_decide as D; [|rewrite decide_False by lia; done].
  cbn [bind_hub]. rewrite IH; cbn [h_heap h_unregister h_clients h_register h_broadcast].
  - rewrite (filter_ext_in _ (λ c, is_full h c = true)).
    2:{ intros c' Hc'. unfold is_full. cbn. rewrite lookup_alter_ne; [done|]. intros ->. contradiction. }
    rewrite length_app, <-app_assoc. repeat case_decide; first [done | lia].
  - apply Forall_forall. intros c' Hc'. rewrite Forall_forall in HO.
    destruct (HO _ Hc') as (o & E & Ho). exists o. split; [|exact Ho]. cbn.
    rewrite lookup_alter_ne; [done|]. intros ->. contradiction.
  - done.
  - rewrite length_app. lia.
Qed.

Lemma deliver_id m o : w_id (deliver m o) = w_id o.
Proof. unfold deliver. by case_decide. Qed.
Lemma deliver_closed m o : w_closed (deliver m o) = w_closed o.
Proof. unfold deliver. by case_decide. Qed.
Lemma deliver_room m o :
  (length (w_buffer o) ≤ w_room o)%nat → (length (w_buffer (deliver m o)) ≤ w_room (deliver m o))%nat.
Proof. unfold deliver. case_decide; cbn; [rewrite length_app; cbn; lia | done]. Qed.

Lemma lookup_deliver_all m refs (H : gmap ref client) c :
  NoDup refs →
  foldl (λ H c, alter (deliver m) c H) H refs !! c = (if decide (c ∈ refs) then deliver m <$> H !! c else H !! c).
Proof.
  revert H. induction refs as [|c' refs IH]; intros H ND; cbn [foldl].
  { by rewrite decide_False by apply not_elem_of_nil. }
  apply NoDup_cons in ND as [Hn ND]. rewrite IH by done.
  destruct (decide (c = c')) as [->|Hc].
  - rewrite decide_False by done. rewrite decide_True by left. apply lookup_alter_eq.
  - rewrite lookup_alter_ne by done.
    erewrite (decide_ext (c ∈ refs) (c ∈ c' :: refs)); [done|]. rewrite elem_of_cons. tauto.
Qed.

(** * Preservation *)

Definition outcome_ok (o : outcome) : Prop :=
  match o with Running h => hub_ok h | Panicking _ => False | BlockedForever => True end.

Lemma connect_ok c o h :
  hub_ok h → h_heap h !! c = None → w_closed o = false → w_buffer o = [] →
  (∀ c' o', h_heap h !! c' = Some o' → w_id o' ≠ w_id o) →
  hub_ok (set_register (h_register h ++ [c]) (set_client c o h)).
Proof.
  intros OK Hc Ho Hb Hid. pose proof (λ c, registered_open h c OK) as RO. destruct OK as [R I L J N B Q].
  constructor; cbn; try done.
  - intros id c' E. destruct (R _ _ E) as (o1 & ? & ?). exists o1. rewrite lookup_insert_ne; [done|congruence].
  - intros c1 c2 o1 o2. rewrite !lookup_insert. repeat case_decide; intros H1 H2 Eid; simplify_eq; try done.
    + exfalso. by eapply Hid.
    + exfalso. by eapply Hid.
    + by eapply I.
  - intros c' Hc'. rewrite lookup_insert. case_decide; [by eexists | auto].
  - intros c' [Hc'| ->%list_elem_of_singleton]%elem_of_app.
    + destruct (J _ Hc') as (H1 & o1 & H2 & H3). split; [exact H1|]. exists o1.
      rewrite lookup_insert_ne; [done|congruence].
    + split; [|exists o; by rewrite lookup_insert_eq].
      intros Hr. destruct (RO c Hr) as (o1 & E & _). congruence.
  - apply NoDup_app. split_and!; [done| |apply NoDup_singleton].
    intros c' Hc' ->%list_elem_of_singleton. destruct (J _ Hc') as (_ & o1 & H2 & _). congruence.
  - intros c' o'. rewrite lookup_insert. case_decide; [intros [= <-]; rewrite Hb; cbn; lia | apply B].
Qed.

Lemma register_ok c l h :
  hub_ok h → h_register h = c :: l → outcome_ok (do_register c (set_register l h)).
Proof.
  intros [R I L J N B Q] El. rewrite El in J, N. apply NoDup_cons in N as [Hn N].
  destruct (J c) as (Hr & o & E & Ho); [left|]. unfold do_register. cbn [h_heap set_register]. rewrite E.
  constructor; cbn; try done.
  - intros id c'. rewrite lookup_insert. case_decide; [intros [= <-]; subst; eauto | apply R].
  - intros c' Hc'. destruct (J c') as (H1 & H2); [by right|]. split; [|exact H2].
    intros [id Hid]%elem_of_registered. cbn in Hid. rewrite lookup_insert in Hid. case_decide.
    + injection Hid as ->. contradiction.
    + apply H1, elem_of_registered. eauto.
Qed.

Lemma close_registered id c o h :
  hub_ok h → h_clients h !! id = Some c → h_heap h !! c = Some o →
  hub_ok (set_client c (close_client o) (set_clients (delete id (h_clients h)) h)).
Proof.
  intros [R I L J N B Q] Hid E. destruct (R _ _ Hid) as (o0 & E0 & Eid & Ho). rewrite E in E0. injection E0 as <-.
  constructor; cbn; try done.
  - intros id' c'. rewrite lookup_delete_Some. intros [Hne Hc']. destruct (R _ _ Hc') as (o1 & H1 & H2 & H3).
    exists o1. rewrite lookup_insert_ne; [done|]. intros ->. congruence.
  - intros c1 c2 o1 o2. rewrite !lookup_insert. repeat case_decide; intros H1 H2 Heq; simplify_eq; try done.
    + by eapply (I _ _ o o2).
    + by eapply (I _ _ o1 o).
    + by eapply I.
  - intros c' Hc'. rewrite lookup_insert. case_decide; [by eexists | auto].
  - intros c' Hc'. destruct (J _ Hc') as (H1 & o1 & H2 & H3). split.
    + intros [i Hi]%elem_of_registered. cbn in Hi. apply lookup_delete_Some in Hi as [_ Hi].
      apply H1, elem_of_registered. eauto.
    + exists o1. rewrite lookup_insert_ne; [done|]. intros ->. apply H1, elem_of_registered. eauto.
  - intros c1 o1. rewrite lookup_insert. case_decide; [intros [= <-]; cbn; by eapply B | apply B].
Qed.

Lemma close_send_registered id c o h :
  hub_ok h → h_clients h !! id = Some c → h_heap h !! c = Some o →
  close_send c (set_clients (delete id (h_clients h)) h) =
    Running (set_client c (close_client o) (set_clients (delete id (h_clients h)) h)).
Proof.
  intros OK Hid E. destruct (ok_registry _ OK _ _ Hid) as (o0 & E0 & _ & Ho).
  rewrite E in E0. injection E0 as <-. unfold close_send. cbn. by rewrite E, Ho.
Qed.

Lemma unregister_ok c l h :
  hub_ok h → h_unregister h = c :: l → outcome_ok (do_unregister c (set_unregister l h)).
Proof.
  intros OK El. destruct (ok_leaving _ OK c) as [o E]; [rewrite El; left|].
  assert (OK' : hub_ok (set_unregister l h)).
  { destruct OK as [R I L J N B Q]. rewrite El in L, Q. constructor; cbn; try done.
    - intros c' ?. apply L. by right.
    - cbn in Q. lia. }
  unfold do_unregister. cbn [h_heap h_clients set_unregister]. rewrite E.
  destruct (h_clients h !! w_id o) as [c0|] eqn:Hid; [|exact OK'].
  destruct (ok_registry _ OK _ _ Hid) as (o0 & E0 & Eid & Ho).
  assert (c0 = c) as -> by exact (ok_ids _ OK _ _ _ _ E0 E Eid).
  change (h_clients h) with (h_clients (set_unregister l h)) in Hid |- *.
  rewrite (close_send_registered _ _ o); [|done..]. by apply close_registered.
Qed.

(** A send to an open client keeps the registry. *)
Lemma open_send_ok c o m h :
  hub_ok h → h_heap h !! c = Some o → w_closed o = false →
  outcome_ok (send_to_client c m h) ∧
  match send_to_client c m h with Running h' => h_clients h' = h_clients h | _ => True end.
Proof.
  intros OK E Ho. rewrite send_to_client_exact by by exists o. cbn zeta. case_decide as D; [|done]. split; [|done]. cbn.
  assert (OK' : hub_ok (set_client c (deliver m o) h)).
  { eapply set_client_ok; eauto using deliver_id, deliver_closed, deliver_room, ok_buffers. }
  replace (alter (deliver m) c (h_heap h)) with (<[c := deliver m o]> (h_heap h)).
  2:{ apply map_eq. intros i. rewrite lookup_insert.
      case_decide; [subst; by rewrite lookup_alter_eq, E | by rewrite lookup_alter_ne]. }
  destruct OK' as [R I L J N B Q]. constructor; cbn in *; try done.
  - intros c' [Hc'|Hc']%elem_of_app; [auto|]. destruct (is_full h c); [|by apply not_elem_of_nil in Hc'].
    apply list_elem_of_singleton in Hc' as ->. rewrite lookup_insert_eq. by eexists.
  - rewrite length_app. unfold unregister_capacity in *. destruct (is_full h c); cbn in *; lia.
Qed.
Lemma send_ok c m h :
  hub_ok h → c ∈ registered h →
  outcome_ok (send_to_client c m h) ∧
  match send_to_client c m h with Running h' => h_clients h' = h_clients h | _ => True end.
Proof. intros OK Hr. destruct (registered_open _ _ OK Hr) as (o & E & Ho). by apply (open_send_ok c o). Qed.

(** What a step may do: only a caller's send, to a client that has left, panics. *)
Definition step_ok (e : hub_event) (h : hub) : Prop :=
  match hub_step e h with
  | Running h' => hub_ok h'
  | Panicking p => ∃ c m, e = EvDeliver c m ∧ p = SendOnClosed c ∧ ¬ (c ∈ registered h)
  | BlockedForever => True
  end.
Lemma deliver_ok c m h : hub_ok h → is_Some (h_heap h !! c) → step_ok (EvDeliver c m) h.
Proof.
  intros OK [o E]. unfold step_ok. cbn [hub_step]. destruct (w_closed o) eqn:Ho.
  - unfold send_to_client. rewrite E, Ho. exists c, m. split_and!; [done|done|].
    intros (o' & E' & Ho')%registered_open; [|done]. congruence.
  - destruct (open_send_ok c o m h OK E Ho) as [H _]. by destruct (send_to_client c m h).
Qed.
Lemma outcome_step_ok e h : outcome_ok (hub_step e h) → step_ok e h.
Proof. unfold step_ok. by destruct (hub_step e h). Qed.

Lemma run_all_ok {A} (f : A → hub → outcome) (P : hub → A → Prop) l h :
  (∀ a l h, hub_ok h → NoDup (a :: l) → Forall (P h) (a :: l) →
     match f a h with Running h' => hub_ok h' ∧ Forall (P h') l | Panicking _ => False | _ => True end) →
  hub_ok h → NoDup l → Forall (P h) l → outcome_ok (run_all f l h).
Proof.
  intros Hf. revert h. induction l as [|a l IH]; intros h OK ND HP; [done|].
  rewrite run_all_cons. specialize (Hf a l h OK ND HP). destruct (f a h); cbn [bind_hub]; try done.
  destruct Hf. apply NoDup_cons in ND as []. by apply IH.
Qed.

Lemma send_all_ok refs m h :
  hub_ok h → refs ≡ₚ registered h → outcome_ok (send_all refs m h).
Proof.
  intros OK Hp. apply (run_all_ok _ (λ h c, c ∈ registered h)); [|done|rewrite Hp; by apply registered_nodup|].
  - intros c l h1 OK1 _ [Hc Hl]%Forall_cons_1. destruct (send_ok c m h1 OK1 Hc) as [H1 H2].
    destruct (send_to_client c m h1); [|done..]. split; [done|]. unfold registered. by rewrite H2.
  - apply Forall_forall. intros c. by rewrite Hp.
Qed.

Lemma cleanup_ok now refs h :
  hub_ok h → refs ≡ₚ registered h → outcome_ok (cleanup_stale now refs h).
Proof.
  intros OK Hp. apply (run_all_ok _ (λ h c, c ∈ registered h)).
  - intros c l h1 OK1 ND [Hc Hl]%Forall_cons_1. apply elem_of_registered in Hc as [id Hid].
    destruct (ok_registry _ OK1 _ _ Hid) as (o & E & Eid & Ho). unfold drop_stale. rewrite E, Eid.
    rewrite (close_send_registered _ _ o) by done. cbn [bind_hub h_heap set_client]. rewrite lookup_insert_eq.
    pose proof (close_registered _ _ _ _ OK1 Hid E) as OK2. split.
    + eapply set_client_ok; [exact OK2|apply lookup_insert_eq|done..|]. cbn. exact (ok_buffers _ OK1 _ _ E).
    + apply NoDup_cons in ND as [Hn _]. apply Forall_forall. intros c' Hc'. rewrite Forall_forall in Hl.
      destruct (proj1 (elem_of_registered _ _) (Hl _ Hc')) as [id' Hid']. apply elem_of_registered. exists id'. cbn.
      rewrite lookup_delete_ne; [done|]. intros <-. congruence.
  - done.
  - apply NoDup_filter. rewrite Hp. by apply registered_nodup.
  - apply Forall_forall. intros c [_ Hc]%list_elem_of_filter. by rewrite <- Hp.
Qed.

Lemma hub_step_ok e h : hub_ok h → well_used h e → step_ok e h.
Proof.
  intros OK W. destruct e as [c o|c|c|c now|c m|m| | |refs|now refs|now refs]; [| | | |by apply deliver_ok|..];
    apply outcome_step_ok; cbn [hub_step well_used] in *.
  - case_decide as D; [|exact OK]. destruct W as (? & ? & ? & ?). unfold register_client.
    cbn [h_register set_client]. rewrite decide_True by exact D. by apply connect_ok.
  - unfold unregister_client. case_decide; [|exact OK]. destruct OK as [R I L J N B Q]. constructor; cbn; try done.
    + intros c' [Hc'| ->%list_elem_of_singleton]%elem_of_app; auto.
    + rewrite length_app. cbn. lia.
  - unfold write_pump. destruct (h_heap h !! c) as [o|] eqn:E; [|exact OK]. eapply set_client_ok; eauto. cbn. lia.
  - unfold read_pump_pong. destruct (h_heap h !! c) as [o|] eqn:E; [|exact OK]. eapply set_client_ok; eauto. cbn. by eapply ok_buffers.
  - case_decide; [|exact OK]. by destruct OK.
  - destruct (h_register h) as [|c l] eqn:E; [exact OK|]. by apply register_ok.
  - destruct (h_unregister h) as [|c l] eqn:E; [exact OK|]. by apply unregister_ok.
  - destruct (h_broadcast h) as [|m l] eqn:E; [exact OK|]. apply send_all_ok; [by destruct OK | exact W].
  - by apply send_all_ok.
  - by apply cleanup_ok.
Qed.

Lemma hub_reach_ok h : hub_reach h → hub_ok h.
Proof.
  induction 1 as [|h e h' _ OK W E].
  - constructor; cbn; [by intros * ?%lookup_empty_Some|by intros * ?%lookup_empty_Some|..|by intros * ?%lookup_empty_Some|lia].
    + by intros * ?%not_elem_of_nil.
    + by intros * ?%not_elem_of_nil.
    + apply NoDup_nil_2.
  - pose proof (hub_step_ok e h OK W) as H. unfold step_ok in H. by rewrite E in H.
Qed.


(** * Properties *)

(** C14: As long as every connection has an id of its own, the hub goroutine cannot panic:
    in every state it reaches, whatever its next case or its callers do, no send of it goes
    to a closed channel and no channel is closed twice; the one thing that can panic is the
    send of a caller that found its client earlier, to that client's closed channel, when the
    client has left the registry since.  And every entry of the registry is an open
    client with that id and no more waiting messages than its buffer holds. *)
Theorem hub_safe h e :
  hub_reach h → well_used h e →
  (∀ p, hub_step e h = Panicking p → ∃ c m, e = EvDeliver c m ∧ p = SendOnClosed c ∧ ¬ (c ∈ registered h)) ∧
  (∀ id c, h_clients h !! id = Some c →
     ∃ o, h_heap h !! c = Some o ∧ w_id o = id ∧ w_closed o = false ∧
          (length (w_buffer o) ≤ w_room o)%nat).
Proof.
  intros OK%hub_reach_ok W. split.
  - intros p E. pose proof (hub_step_ok e h OK W) as H. unfold step_ok in H. by rewrite E in H.
  - intros id c E. destruct (ok_registry _ OK _ _ E) as (o & ? & ? & ?). eauto 10 using ok_buffers.
Qed.

Definition sample_client (id : string) (room : nat) : client :=
  Client id (Some 1) None [] room false true 0.
Definition sample_hub : hub :=
  Hub {[0%nat := sample_client "user-1" 1]} {["user-1"%string := 0%nat]} [] [] [].

Lemma sample_hub_reach : hub_reach sample_hub.
Proof.
  apply (reach_step (Hub {[0%nat := sample_client "user-1" 1]} ∅ [0%nat] [] []) EvRegister); [|done..].
  apply (reach_step new_hub (EvConnect 0 (sample_client "user-1" 1))); [apply reach_new| |done].
  split_and!; [done..|]. intros c' o' H. cbn in H. by apply lookup_empty_Some in H.
Qed.

Lemma hub_safe_witness :
  hub_step (EvPing 0 [0%nat]) sample_hub ≠ Panicking (SendOnClosed 0).
Proof.
  destruct (hub_safe sample_hub (EvPing 0 [0%nat]) sample_hub_reach) as [H _]; [exact (Permutation_refl _)|].
  intros E. destruct (H _ E) as (c & m & E' & _). discriminate E'.
Defined.

(** A broadcast to a registry of connections with distinct ids: when the clients whose
    buffer is full still fit in the queue of departures, every other registered client
    gets the message once, at the end of its buffer, the full ones lose their connection
    and are queued to leave, nothing else changes and the registry stays; when they do
    not fit, the hub goroutine blocks for ever on the queue only it reads. *)
Theorem broadcast_delivers h m l refs :
  hub_reach h → h_broadcast h = m :: l → refs ≡ₚ registered h →
  let full := filter (λ c, is_full h c = true) refs in
  if decide (length (h_unregister h) + length full ≤ unregister_capacity)%nat
  then ∃ h', hub_step (EvBroadcast refs) h = Running h' ∧
         h_clients h' = h_clients h ∧ h_register h' = h_register h ∧
         h_unregister h' = h_unregister h ++ full ∧ h_broadcast h' = l ∧
         (∀ c o, h_heap h !! c = Some o →
            h_heap h' !! c = Some (
              if decide (c ∈ registered h)
              then if is_full h c then drop_conn o else set_buffer (w_buffer o ++ [m]) o
              else o))
  else hub_step (EvBroadcast refs) h = BlockedForever.
Proof.
  intros OK%hub_reach_ok Eb Hp full. cbn [hub_step]. rewrite Eb.
  assert (ND : NoDup refs) by (rewrite Hp; by apply registered_nodup).
  assert (HO : Forall (open_client (set_broadcast l h)) refs).
  { apply Forall_forall. intros c. rewrite Hp. by apply registered_open. }
  pose proof (send_all_exact refs m (set_broadcast l h) HO ND (ok_queue _ OK)) as HS. cbv zeta in HS.
  change (filter (λ c, is_full (set_broadcast l h) c = true) refs) with full in HS.
  cbn [h_unregister set_broadcast] in HS. rewrite HS.
  case_decide; [|done]. eexists. split; [done|]. split_and!; try done.
  intros c o E. cbn. rewrite lookup_deliver_all by done. rewrite E.
  rewrite (decide_ext (c ∈ refs) (c ∈ registered h)) by (by rewrite Hp).
  case_decide; [|done]. cbn. unfold deliver, is_full. rewrite E.
  case_decide; [rewrite bool_decide_false by lia | rewrite bool_decide_true by lia]; done.
Qed.

Definition posted_hub : hub := set_broadcast [Notification "a"] sample_hub.
Lemma broadcast_delivers_witness :
  ∃ h', hub_step (EvBroadcast [0%nat]) posted_hub = Running h' ∧
        h_heap h' !! 0%nat = Some (set_buffer [Notification "a"] (sample_client "user-1" 1)).
Proof.
  assert (R : hub_reach posted_hub).
  { apply (reach_step sample_hub (EvPost (Notification "a"))); [apply sample_hub_reach | done..]. }
  destruct (broadcast_delivers posted_hub _ _ [0%nat] R eq_refl (Permutation_refl _))
    as (h' & H & _ & _ & _ & _ & Hh).
  exists h'. split; [exact H|]. exact (Hh 0%nat _ eq_refl).
Defined.

(** Without distinct ids the hub does panic.  A client whose buffer is full is queued
    to leave by the send and again by its own reader; when the same user has connected
    anew before the second departure is served, the hub takes the new connection out of
    the registry and closes the old one's channel a second time.  One departure alone
    already removes the connection that replaced it; and a send that looked its client
    up before a departure was served sends on a closed channel. *)
Theorem shared_id_panics :
  let t := 0 in
  let a := sample_client "user-1" 1 in
  hub_run [EvConnect 0 a; EvRegister; EvPing t [0%nat]; EvPing t [0%nat]; EvLeave 0; EvUnregister;
           EvConnect 1 a; EvRegister; EvUnregister] new_hub = Panicking (CloseOfClosed 0) ∧
  (∃ h, hub_run [EvConnect 0 a; EvRegister; EvConnect 1 a; EvRegister; EvLeave 0; EvUnregister] new_hub
        = Running h ∧ h_clients h = ∅ ∧ (w_closed <$> h_heap h !! 1%nat) = Some false) ∧
  user_target 1 sample_hub = Some 0%nat ∧
  hub_run [EvLeave 0; EvUnregister; EvDeliver 0 (Ping t)] sample_hub = Panicking (SendOnClosed 0).
Proof.
  split; [vm_compute; reflexivity|]. split; [|split; vm_compute; reflexivity].
  eexists. split; [reflexivity|]. split; vm_compute; reflexivity.
Qed.
