(* ===== verification/PathSecurity.v ===== *)
(** Request paths (src/server/middleware/path_security.go): the two middlewares every
    request passes, URLNormalizeMiddleware and then PathSecurityMiddleware, and the safe
    path helpers.  A path is its list of bytes; [clean] is the path.Clean of Go's
    standard library, which filepath.Clean equals on Unix.  filepath.Abs asks the
    process for its working directory, a parameter here. *)
From S2P Require Import Prelude GoStrings.
From Stdlib Require Import Ascii.

Abbreviation path := (list ascii).
#[local] Arguments slash : simpl never.
#[local] Arguments dot : simpl never.

(** * Pieces of the strings and path packages on byte lists *)

(** strings.Contains *)
Fixpoint infix (p l : path) : bool :=
  is_prefixb p l || match l with [] => false | _ :: l' => infix p l' end.

Definition ends_with (p l : path) : bool := is_prefixb (reverse p) (reverse l).

(** strings.Split and strings.Join at a slash *)
Fixpoint segments (l : path) : list path :=
  match l with
  | [] => [[]]
  | c :: l' =>
      if decide (c = slash) then [] :: segments l'
      else match segments l' with
           | [] => [[c]]
           | w :: ws => (c :: w) :: ws
           end
  end.
Fixpoint join_path (ws : list path) : path :=
  match ws with
  | [] => []
  | [w] => w
  | w :: ws' => w ++ slash :: join_path ws'
  end.

(** strings.Trim with a slash *)
Definition is_slash (c : ascii) : bool := bool_decide (c = slash).
Definition trim_slashes (l : path) : path := drop_while_end is_slash (drop_while is_slash l).

(** path.Clean: the segments seen so far, the last one first. *)
Definition dots : path := [dot; dot].
Definition clean_step (rooted : bool) (out : list path) (w : path) : list path :=
  if decide (w = [] ∨ w = [dot]) then out
  else if decide (w = dots) then
    match out with
    | [] => if rooted then [] else [dots]
    | top :: rest => if decide (top = dots) then dots :: out else rest
    end
  else w :: out.
Definition rooted (l : path) : bool := is_prefixb [slash] l.
Definition clean (l : path) : path :=
  let body := join_path (reverse (foldl (clean_step (rooted l)) [] (segments l))) in
  if rooted l then slash :: body
  else match body with [] => [dot] | _ => body end.

(** * The safe path helpers *)

Inductive path_error := PathTraversal | InvalidPath | PathTooLong | NoWorkingDirectory.

(** validPathSegment *)
Definition segment_char (c : ascii) : bool :=
  bool_decide (97 ≤ code c ∧ code c ≤ 122)%N || bool_decide (48 ≤ code c ∧ code c ≤ 57)%N ||
  bool_decide (code c = 95)%N || bool_decide (code c = 45)%N.
Definition valid_path_segment (w : path) : bool :=
  match w with [] => false | _ => forallb segment_char w end.

(** validatePathSegment *)
Definition validate_path_segment (w : path) : option path_error :=
  if decide (w = []) then Some InvalidPath
  else if decide (64 < length w)%nat then Some PathTooLong
  else if negb (valid_path_segment w) then Some InvalidPath
  else if decide (w = [dot] ∨ w = dots) then Some PathTraversal
  else None.

Fixpoint first_error (ws : list path) : option path_error :=
  match ws with
  | [] => None
  | w :: ws' => match validate_path_segment w with Some e => Some e | None => first_error ws' end
  end.

(** validatePath *)
Definition validate_path (p : path) : option path_error :=
  if decide (2048 < length p)%nat then Some PathTooLong
  else if infix dots p then Some PathTraversal
  else match trim_slashes p with
       | [] => None
       | n => first_error (segments n)
       end.

(** normalizePath *)
Definition normalize_path (input : path) : path :=
  match input with
  | [] => []
  | _ => let cleaned := trim_slashes (clean input) in
         if infix dots cleaned then [] else cleaned
  end.

(** SafePath *)
Definition safe_path (input : path) : result path_error path :=
  match validate_path input with
  | Some e => Fail e
  | None => Ok (normalize_path input)
  end.

(** filepath.Join of two elements, filepath.Abs *)
Definition join2 (a b : path) : path :=
  match a, b with
  | [], [] => []
  | [], _ => clean b
  | _, [] => clean a
  | _, _ => clean (a ++ slash :: b)
  end.

Section Paths.
Variable getwd : option path.

Definition abs (p : path) : result path_error path :=
  if rooted p then Ok (clean p)
  else match getwd with
       | Some d => Ok (join2 d p)
       | None => Fail NoWorkingDirectory
       end.

(** SafeFilePath *)
Definition safe_file_path (base user : path) : result path_error path :=
  let? safe := safe_path user in
  let? abs_path := abs (join2 base safe) in
  let? abs_base := abs base in
  if negb (is_prefixb (abs_base ++ [slash]) abs_path) && negb (bool_decide (abs_path = abs_base))
  then Fail PathTraversal
  else Ok abs_path.
End Paths.

(** * The middlewares *)

(** A request's URL: the decoded path, and the encoded one when it differs. *)
Record url := Url { u_path : path; u_raw_path : path }.

(** strings.ReplaceAll of two slashes by one, and the loop around it *)
Fixpoint replace_slashes (l : path) : path :=
  match l with
  | [] => []
  | c :: l' =>
      match l' with
      | d :: l'' =>
          if decide (c = slash ∧ d = slash) then slash :: replace_slashes l''
          else c :: replace_slashes l'
      | [] => [c]
      end
  end.
Fixpoint collapse_slashes (fuel : nat) (l : path) : path :=
  if infix [slash; slash] l
  then match fuel with O => l | S fuel => collapse_slashes fuel (replace_slashes l) end
  else l.

Definition txt_suffix : path := bytes ".txt".
Definition literal_txt_paths : list path :=
  map (λ s, bytes s) ["/robots.txt"; "/security.txt"; "/.well-known/security.txt"].

(** URLNormalizeMiddleware: the path passed on, and whether the client asked for text *)
Definition url_normalize (u : url) : url * bool :=
  let p := collapse_slashes (length (u_path u)) (u_path u) in
  if ends_with txt_suffix p && negb (bool_decide (p ∈ literal_txt_paths)) then
    let trimmed := take (length p - length txt_suffix) p in
    (Url (match trimmed with [] => [slash] | _ => trimmed end) (u_raw_path u), true)
  else (Url p (u_raw_path u), false).

(** PathSecurityMiddleware: [None] is the 400 answer *)
Definition path_security (u : url) : option url :=
  let original := u_path u in
  let raw_path := match u_raw_path u with [] => u_path u | r => r end in
  if infix dots original || infix dots raw_path || infix (bytes "%2e") (lower_bytes raw_path) then None
  else
    let cleaned := clean original in
    let cleaned := if rooted cleaned then cleaned else slash :: cleaned in
    let cleaned :=
      if negb (bool_decide (original = [slash])) && ends_with [slash] original && negb (ends_with [slash] cleaned)
      then cleaned ++ [slash] else cleaned in
    Some (Url cleaned (u_raw_path u)).

(** The chain in the order main.go installs it. *)
Definition serve_path (u : url) : option (url * bool) :=
  let '(u, text) := url_normalize u in
  match path_security u with
  | Some u => Some (u, text)
  | None => None
  end.

Example clean_examples :
  map (λ s, of_bytes (clean (bytes s)))
    [""; "/"; "a//b/./c"; "../a"; "/../a/../b/"; "a/../.."; "abc/.."]%string =
    ["."; "/"; "a/b/c"; "../a"; "/b"; ".."; "."]%string.
Proof. vm_compute. reflexivity. Qed.

Example serve_examples :
  map (λ s, match serve_path (Url (bytes s) []) with Some (u, t) => Some (of_bytes (u_path u), t) | None => None end)
    ["/api//v1///weather.txt"; "/a/./b/"; "/.txt"; "/robots.txt"; "/a..b"; "//"; "*"; "/a/."]%string =
    [Some ("/api/v1/weather", true); Some ("/a/b/", false); Some ("/", true); Some ("/robots.txt", false); None;
     Some ("/", false); Some ("/*", false); Some ("/a", false)]%string.
Proof. vm_compute. reflexivity. Qed.

(** * Segments *)

Definition sep_free (w : path) : Prop := ¬ (slash ∈ w).

Lemma is_prefixb_app p l : is_prefixb p l = true ↔ ∃ k, l = p ++ k.
Proof.
  revert l. induction p as [|a p IH]; intros l; cbn [is_prefixb].
  - split; [intros _; by exists l | done].
  - destruct l as [|b l]; [split; [done | by intros [k [=]]]|]. case_decide as D.
    + subst b. rewrite IH. split; intros [k Hk]; exists k; cbn in *; congruence.
    + split; [done | intros [k [=]]; congruence].
Qed.

Lemma segments_head l : ∃ w ws, segments l = w :: ws.
Proof.
  destruct l as [|a l]; cbn; [eauto|]. destruct (decide _); [eauto|]. destruct (segments l); eauto.
Qed.

Lemma segments_cons c l : c ≠ slash →
  ∃ w ws, segments l = w :: ws ∧ segments (c :: l) = (c :: w) :: ws.
Proof.
  intros Hc. destruct (segments_head l) as (w & ws & E).
  exists w, ws. split; [exact E|]. cbn. rewrite decide_False by done. by rewrite E.
Qed.

Lemma segments_free l : Forall sep_free (segments l).
Proof.
  induction l as [|c l IH]; [repeat constructor; apply not_elem_of_nil|].
  destruct (decide (c = slash)) as [->|Hc].
  - cbn. constructor; [apply not_elem_of_nil | exact IH].
  - destruct (segments_cons c l Hc) as (w & ws & E & ->). rewrite E in IH.
    apply Forall_cons_1 in IH as [H1 H2]. constructor; [|exact H2].
    unfold sep_free in *. rewrite elem_of_cons. intros [?|?]; [congruence|contradiction].
Qed.

Lemma segments_app l k : ∃ w ws v vs,
  segments l = ws ++ [w] ∧ segments k = v :: vs ∧ segments (l ++ k) = ws ++ (w ++ v) :: vs.
Proof.
  induction l as [|c l IH]; cbn [app].
  - destruct (segments_head k) as (v & vs & E).
    exists [], [], v, vs. by rewrite E.
  - destruct IH as (w & ws & v & vs & El & Ek & Ea).
    destruct (decide (c = slash)) as [->|Hc].
    + exists w, ([] :: ws), v, vs. cbn. by rewrite El, Ek, Ea.
    + destruct (segments_cons c l Hc) as (w1 & ws1 & E1 & ->).
      destruct (segments_cons c (l ++ k) Hc) as (w2 & ws2 & E2 & ->).
      rewrite E1 in El. rewrite E2 in Ea. destruct ws as [|x ws]; cbn in El, Ea; simplify_eq.
      * exists (c :: w), [], v, vs. by cbn.
      * exists w, ((c :: x) :: ws), v, vs. by cbn.
Qed.

Lemma segments_sep l k : segments (l ++ slash :: k) = segments l ++ segments k.
Proof.
  destruct (segments_app l (slash :: k)) as (w & ws & v & vs & El & Ek & ->).
  cbn in Ek. injection Ek as <- <-. by rewrite El, app_nil_r, <-app_assoc.
Qed.

Lemma segments_word w : sep_free w → segments w = [w].
Proof.
  induction w as [|c w IH]; [done|]. unfold sep_free. rewrite not_elem_of_cons. intros [Hc Hw].
  destruct (segments_cons c w) as (w1 & ws & E & ->); [congruence|]. rewrite IH in E by done. by injection E as <- <-.
Qed.

Lemma join_path_cons w v vs : join_path (w :: v :: vs) = w ++ slash :: join_path (v :: vs).
Proof. done. Qed.

Lemma segments_join ws : ws ≠ [] → Forall sep_free ws → segments (join_path ws) = ws.
Proof.
  induction ws as [|w ws IH]; [done|]. intros _ [Hw Hws]%Forall_cons_1.
  destruct ws as [|v vs]; [by apply segments_word|].
  rewrite join_path_cons, segments_sep, segments_word by done. by rewrite IH.
Qed.

Lemma join_segments l : join_path (segments l) = l.
Proof.
  induction l as [|c l IH]; [done|]. destruct (decide (c = slash)) as [->|Hc].
  - cbn [segments]. rewrite decide_True by done. destruct (segments_head l) as (w & ws & E).
    rewrite E in *. by rewrite join_path_cons, IH.
  - destruct (segments_cons c l Hc) as (w & ws & E & ->). rewrite E in IH. destruct ws; cbn in *; congruence.
Qed.

Lemma join_path_app us vs : us ≠ [] → vs ≠ [] →
  join_path (us ++ vs) = join_path us ++ slash :: join_path vs.
Proof.
  intros Hu Hv. induction us as [|u us IH]; [done|]. destruct us as [|u' us].
  - destruct vs as [|v vs]; [done|]. done.
  - change ((u :: u' :: us) ++ vs) with (u :: u' :: (us ++ vs)). rewrite !join_path_cons.
    change (u' :: us ++ vs) with ((u' :: us) ++ vs). rewrite IH by done. by rewrite <-app_assoc.
Qed.

(** A pattern without slashes occurs in a path when it occurs in a segment. *)
Lemma infix_segments l : infix dots l = existsb (infix dots) (segments l).
Proof.
  induction l as [|c l IH]; [done|]. destruct (decide (c = slash)) as [->|Hc].
  - cbn. rewrite IH. reflexivity.
  - destruct (segments_cons c l Hc) as (w & ws & E & ->). rewrite E in IH.
    cbn [infix existsb] in *. rewrite IH, <-orb_assoc, orb_assoc. rewrite orb_assoc. f_equal. f_equal.
    assert (H : is_prefixb [dot] l = is_prefixb [dot] w).
    { destruct l as [|a l]; [by injection E as <- <-|]. destruct (decide (a = slash)) as [->|Ha].
      - cbn in E. injection E as <- _. reflexivity.
      - destruct (segments_cons a l Ha) as (w' & ws' & _ & E'). rewrite E' in E. injection E as <- _. done. }
    cbn in *. destruct (decide _); [exact H | done].
Qed.

Lemma no_dots_segments l w : infix dots l = false → w ∈ segments l → infix dots w = false.
Proof.
  rewrite infix_segments. intros H Hw. destruct (infix dots w) eqn:E; [|done].
  rewrite <-H. symmetry. apply existsb_exists. exists w. split; [by apply list_elem_of_In | done].
Qed.

Lemma no_dots_join ws : Forall sep_free ws → Forall (λ w, infix dots w = false) ws →
  infix dots (join_path ws) = false.
Proof.
  intros Hf Hd. destruct ws as [|w ws]; [done|]. rewrite infix_segments, segments_join by done.
  apply not_true_iff_false. intros (v & Hv%list_elem_of_In & E)%existsb_exists.
  rewrite Forall_forall in Hd. rewrite Hd in E by done. done.
Qed.

(** * Cleaning *)

(** The segments cleaning keeps when there is no [..]. *)
Definition useful (w : path) : bool := bool_decide (w ≠ [] ∧ w ≠ [dot]).
Definition kept (l : path) : list path := filter (λ w, useful w = true) (segments l).
Definition good (w : path) : Prop := sep_free w ∧ infix dots w = false ∧ useful w = true.

Lemma kept_good l : infix dots l = false → Forall good (kept l).
Proof.
  intros H. apply Forall_forall. intros w [Hu Hw]%list_elem_of_filter. split_and!; [|by eapply no_dots_segments|done].
  pose proof (segments_free l) as F. rewrite Forall_forall in F. auto.
Qed.

Lemma good_free ws : Forall good ws → Forall sep_free ws.
Proof. intros H. eapply Forall_impl; [exact H|]. by intros w (? & _). Qed.
Lemma good_dots ws : Forall good ws → Forall (λ w, infix dots w = false) ws.
Proof. intros H. eapply Forall_impl; [exact H|]. by intros w (_ & ? & _). Qed.
Lemma good_nonempty w : good w → w ≠ [].
Proof. intros (_ & _ & H). by apply bool_decide_eq_true in H as []. Qed.

Lemma clean_steps r ws out : Forall (λ w, w ≠ dots) ws →
  foldl (clean_step r) out ws = reverse (filter (λ w, useful w = true) ws) ++ out.
Proof.
  revert out. induction ws as [|w ws IH]; intros out H; [done|]. apply Forall_cons_1 in H as [Hw H].
  cbn [foldl]. rewrite IH by done. rewrite filter_cons. unfold clean_step, useful.
  destruct (decide (w = [] ∨ w = [dot])) as [D|D].
  - rewrite decide_False; [done|]. rewrite bool_decide_eq_true. tauto.
  - rewrite (decide_True (P := bool_decide _ = true)) by (rewrite bool_decide_eq_true; tauto).
    rewrite decide_False by done. by rewrite reverse_cons, <-app_assoc.
Qed.

Lemma clean_kept l : infix dots l = false →
  clean l = (if rooted l then slash :: join_path (kept l)
             else match join_path (kept l) with [] => [dot] | b => b end).
Proof.
  intros H. unfold clean. rewrite clean_steps.
  - rewrite app_nil_r, reverse_involutive. change (filter _ _) with (kept l).
    by destruct (rooted l), (join_path (kept l)).

  - apply Forall_forall. intros w Hw ->. by apply no_dots_segments in Hw.
Qed.

Lemma rooted_cons l : rooted (slash :: l) = true.
Proof. by destruct l. Qed.

Lemma join_rooted ws : Forall good ws → rooted (join_path ws) = false.
Proof.
  destruct ws as [|w ws]; [done|]. intros [Hw _]%Forall_cons_1. pose proof (good_nonempty _ Hw) as Hn.
  destruct Hw as (Hf & _ & _). destruct w as [|c w]; [done|].
  assert (c ≠ slash) by (intros ->; apply Hf; left).
  assert (∃ k, join_path ((c :: w) :: ws) = c :: k) as [k ->] by (destruct ws; cbn; eauto).
  unfold rooted. cbn. by rewrite decide_False.
Qed.

Lemma ends_with_last c l d : ends_with [c] (l ++ [d]) = bool_decide (c = d).
Proof. unfold ends_with. rewrite reverse_app. cbn. repeat case_bool_decide; case_decide; done. Qed.

Lemma join_last ws : ws ≠ [] → Forall good ws → ∃ k c, join_path ws = k ++ [c] ∧ c ≠ slash.
Proof.
  intros Hn H. destruct (exists_last Hn) as (us & w & ->). apply Forall_app in H as [Hu [Hw _]%Forall_cons_1].
  destruct (exists_last (good_nonempty _ Hw)) as (v & c & ->).
  assert (c ≠ slash). { intros ->. destruct Hw as (Hf & _). apply Hf, elem_of_app. right. left. }
  destruct us as [|u us]; [by exists v, c|].
  rewrite join_path_app by done. exists (join_path (u :: us) ++ slash :: v), c. split; [|done].
  cbn [join_path]. by rewrite <-app_assoc.
Qed.

(** * Properties *)

(** The canonical path of some segments. *)
Definition canonical (ws : list path) (dir : bool) : path :=
  slash :: join_path ws ++ (if dir && negb (bool_decide (ws = [])) then [slash] else []).

Lemma canonical_segments ws dir : Forall good ws → kept (canonical ws dir) = ws.
Proof.
  intros H. assert (F : filter (λ w, useful w = true) ws = ws).
  { apply filter_all. intros w Hw. rewrite Forall_forall in H. by destruct (H w Hw) as (_ & _ & ?). }
  unfold kept, canonical. change (slash :: ?l) with ([] ++ slash :: l).
  destruct ws as [|w ws]; [by rewrite andb_false_r|]. rewrite segments_sep.
  case_bool_decide; [done|]. rewrite filter_app. destruct dir; cbn [andb negb].
  - rewrite segments_sep, segments_join by (done || by apply good_free). rewrite filter_app, F. cbn. by rewrite app_nil_r.
  - rewrite app_nil_r, segments_join by (done || by apply good_free). by rewrite F.
Qed.

Lemma canonical_no_dots ws dir : Forall good ws → infix dots (canonical ws dir) = false.
Proof.
  intros H. assert (E : segments (canonical ws dir) = [] :: segments (join_path ws ++ (if dir && negb (bool_decide (ws = [])) then [slash] else []))).
  { done. }
  rewrite infix_segments, E. cbn [existsb infix is_prefixb dots orb]. rewrite <-infix_segments.
  destruct (dir && _).
  - rewrite infix_segments, segments_sep, existsb_app, <-infix_segments, no_dots_join by auto using good_free, good_dots. done.
  - rewrite app_nil_r. by rewrite no_dots_join by auto using good_free, good_dots.
Qed.

Definition blocked (u : url) : bool :=
  let raw_path := match u_raw_path u with [] => u_path u | r => r end in
  infix dots (u_path u) || infix dots raw_path || infix (bytes "%2e") (lower_bytes raw_path).

Lemma rooted_eq l : rooted l = true → ∃ k, l = slash :: k.
Proof. destruct l as [|c l]; [done|]. unfold rooted. cbn. case_decide; [|done]. subst. eauto. Qed.

Lemma canonical_ends ws dir : Forall good ws →
  ends_with [slash] (canonical ws dir) = bool_decide (ws = []) || dir.
Proof.
  intros H. unfold canonical. case_bool_decide as D.
  - subst. by rewrite andb_false_r.
  - destruct (join_last ws D H) as (k & c & -> & Hc). destruct dir; cbn [andb negb orb].
    + change (slash :: ?l ++ [slash]) with ((slash :: l) ++ [slash]). rewrite ends_with_last. by apply bool_decide_eq_true.
    + rewrite app_nil_r. change (slash :: k ++ [c]) with ((slash :: k) ++ [c]). rewrite ends_with_last.
      by apply bool_decide_eq_false.
Qed.

Lemma path_security_rooted u : rooted (u_path u) = true → blocked u = false →
  path_security u = Some (Url (canonical (kept (u_path u)) (ends_with [slash] (u_path u))) (u_raw_path u)).
Proof.
  intros R B. unfold path_security. change (_ || _) with (blocked u). rewrite B.
  apply orb_false_iff in B as [[B _]%orb_false_iff _]. rewrite clean_kept, R, rooted_cons by done.
  pose proof (kept_good _ B) as G. set (ws := kept (u_path u)) in *.
  change (slash :: join_path ws) with (slash :: join_path ws) in *.
  assert (E : ends_with [slash] (slash :: join_path ws) = bool_decide (ws = [])).
  { pose proof (canonical_ends ws false G) as E. unfold canonical in E. cbn [andb] in E. rewrite app_nil_r, orb_false_r in E. exact E. }
  rewrite E. f_equal. f_equal. unfold canonical.
  assert (Eroot : u_path u = [slash] → ws = []) by (intros Eu; unfold ws; by rewrite Eu).
  destruct (ends_with [slash] (u_path u)); [|by rewrite andb_false_r, app_nil_r].
  rewrite andb_true_r. cbn [andb]. repeat case_bool_decide; cbn [andb negb]; rewrite ?app_nil_r; try done.
  exfalso; auto.
Qed.

(** C36: What PathSecurityMiddleware does to a request whose path starts with a slash: it
    answers 400 exactly when the path or the encoded path has [..], or the encoded path in
    lower case has a percent-encoded dot, [%2e], be it a single one; otherwise it passes on the
    path of the segments that are neither empty nor a dot, with the trailing slash it had.  No
    segment passed on is empty, [.] or holds [..], and a path that went through once goes
    through unchanged. *)
Theorem path_security_correct u :
  rooted (u_path u) = true →
  let ws := kept (u_path u) in
  let p := canonical ws (ends_with [slash] (u_path u)) in
  path_security u = (if blocked u then None else Some (Url p (u_raw_path u))) ∧
  (blocked u = false →
     Forall good ws ∧ infix dots p = false ∧
     ∀ r u', path_security (Url p r) = Some u' → u_path u' = p).
Proof.
  intros R ws p. split.
  { destruct (blocked u) eqn:B; [|by apply path_security_rooted].
    unfold path_security. change (_ || _) with (blocked u). by rewrite B. }
  intros B. pose proof B as [[Bd _]%orb_false_iff _]%orb_false_iff.
  pose proof (kept_good _ Bd) as G. fold ws in G. split_and!; [done|by apply canonical_no_dots|].
  intros r u' E. destruct (blocked (Url p r)) eqn:B'.
  { unfold path_security in E. change (_ || _) with (blocked (Url p r)) in E. by rewrite B' in E. }
  rewrite path_security_rooted in E by done. injection E as <-. cbn [u_path].
  unfold p. rewrite canonical_segments, canonical_ends by done. unfold canonical.
  case_bool_decide; cbn [negb]; by rewrite ?andb_false_r.
Qed.

Lemma path_security_correct_witness :
  path_security (Url (bytes "/api//v1/./weather/") []) = Some (Url (bytes "/api/v1/weather/") []).
Proof. refine (proj1 (path_security_correct (Url (bytes "/api//v1/./weather/") []) _)). reflexivity. Defined.

(** A request without a path, as an absolute request target without one has, gets a dot. *)
Lemma empty_path_becomes_dot :
  serve_path (Url [] []) = Some (Url (bytes "/.") [], false).
Proof. reflexivity. Qed.

(** * Collapsing slashes *)

Definition two_slashes : path := [slash; slash].

(** A slash goes when another follows it. *)
Fixpoint squeeze (l : path) : path :=
  match l with
  | [] => []
  | c :: l' => if decide (c = slash ∧ head l' = Some slash) then squeeze l' else c :: squeeze l'
  end.

Lemma infix_two_slashes c l :
  infix two_slashes (c :: l) = bool_decide (c = slash ∧ head l = Some slash) || infix two_slashes l.
Proof.
  cbn [infix]. f_equal. unfold two_slashes. destruct l as [|d l]; cbn [head is_prefixb].
  - rewrite bool_decide_false by (intros [??]; congruence). by case_decide.
  - destruct (decide (slash = c)) as [<-|Hc], (decide (slash = d)) as [<-|Hd]; symmetry;
      [by apply bool_decide_eq_true | apply bool_decide_eq_false; intros [??]; congruence..].
Qed.

Lemma replace_step c d l :
  replace_slashes (c :: d :: l) =
    if decide (c = slash ∧ d = slash) then slash :: replace_slashes l else c :: replace_slashes (d :: l).
Proof. done. Qed.

Lemma head_replace l : head (replace_slashes l) = head l.
Proof. destruct l as [|c [|d l]]; [done..|]. cbn. case_decide as D; [by destruct D as [-> _]|done]. Qed.

Lemma head_squeeze l : head (squeeze l) = head l.
Proof.
  induction l as [|c l IH]; [done|]. cbn. case_decide as D; [|done]. destruct D as [-> D]. by rewrite IH.
Qed.

Lemma squeeze_head c l k : head l = head k → squeeze l = squeeze k → squeeze (c :: l) = squeeze (c :: k).
Proof. intros H E. cbn. by rewrite H, E. Qed.

Lemma squeeze_replace n l : (length l ≤ n)%nat → squeeze (replace_slashes l) = squeeze l.
Proof.
  revert l. induction n as [|n IH]; intros [|c [|d l]] Hn; try (done || (cbn in Hn; lia)).
  cbn [length] in Hn. cbn [replace_slashes]. case_decide as D.
  - destruct D as [-> ->]. transitivity (squeeze (slash :: l)).
    + apply squeeze_head; [apply head_replace | apply IH; lia].
    + cbn [squeeze head]. by rewrite (decide_True (P := slash = slash ∧ Some slash = Some slash)) by done.
  - apply squeeze_head; [apply (head_replace (d :: l)) | apply (IH (d :: l)); cbn; lia].
Qed.

Lemma squeeze_fix l : infix two_slashes l = false → squeeze l = l.
Proof.
  induction l as [|c l IH]; [done|]. rewrite infix_two_slashes.
  intros [H%bool_decide_eq_false Hl]%orb_false_iff. cbn. rewrite decide_False by done. by rewrite IH.
Qed.

Lemma squeeze_single l : infix two_slashes (squeeze l) = false.
Proof.
  induction l as [|c l IH]; [done|]. cbn [squeeze]. case_decide as D; [done|].
  rewrite infix_two_slashes, head_squeeze, IH, bool_decide_false by done. done.
Qed.

Lemma replace_shortens n l : (length l ≤ n)%nat →
  (length (replace_slashes l) ≤ length l)%nat ∧
  (infix two_slashes l = true → (length (replace_slashes l) < length l)%nat).
Proof.
  revert l. induction n as [|n IH]; intros [|c [|d l]] Hn; try (cbn in Hn; lia); try (cbn; split; [lia|done]).
  - split; [done|]. rewrite infix_two_slashes. cbn. by rewrite bool_decide_false by (intros [??]; congruence).
  - cbn [length] in Hn. rewrite infix_two_slashes. rewrite replace_step. cbn [head]. case_decide as D.
    + destruct (IH l) as [H _]; [lia|]. cbn [length]. split; [lia|]. intros _. lia.
    + destruct (IH (d :: l)) as [H1 H2]; [cbn; lia|]. cbn [length] in *. split; [lia|].
      rewrite bool_decide_false by (intros [? [= ->]]; tauto). intros H%H2. lia.
Qed.

Lemma collapse_squeeze fuel l : (length l ≤ fuel)%nat → collapse_slashes fuel l = squeeze l.
Proof.
  revert l. induction fuel as [|fuel IH]; intros l Hl; cbn [collapse_slashes];
    change [slash; slash] with two_slashes; destruct (infix two_slashes l) eqn:E.
  - destruct l; [done | cbn in Hl; lia].
  - symmetry. by apply squeeze_fix.
  - destruct (replace_shortens _ l (Nat.le_refl _)) as [_ H]. specialize (H E).
    rewrite IH by lia. by eapply squeeze_replace.
  - symmetry. by apply squeeze_fix.
Qed.

Definition nonempty_segments (l : path) : list path := filter (λ w, w ≠ []) (segments l).

Lemma head_word k w ws : segments k = w :: ws → w = [] ↔ head k = Some slash ∨ head k = None.
Proof.
  destruct k as [|a k]; [cbn; intros [= <- <-]; split; auto|]. destruct (decide (a = slash)) as [->|Ha].
  - cbn. intros [= <- <-]. split; auto.
  - destruct (segments_cons a k Ha) as (w' & ws' & _ & ->). cbn. intros [= <- _]. split; [done|]. intros [[=]|[=]]. congruence.
Qed.

Lemma squeeze_segments l : nonempty_segments (squeeze l) = nonempty_segments l.
Proof.
  unfold nonempty_segments. induction l as [|c l IH]; [done|]. cbn [squeeze]. case_decide as D.
  - destruct D as [-> _]. rewrite IH. cbn. done.
  - destruct (decide (c = slash)) as [->|Hc].
    + cbn. exact IH.
    + destruct (segments_cons c (squeeze l) Hc) as (w & ws & Ek & ->), (segments_cons c l Hc) as (v & vs & El & ->).
      rewrite Ek, El in IH. pose proof (head_word _ _ _ Ek) as H1. pose proof (head_word _ _ _ El) as H2.
      rewrite head_squeeze, <-H2 in H1. rewrite !(filter_cons_True (λ w, w ≠ [])) by done.
      destruct (decide (v = [])) as [->|Hv].
      * rewrite (proj2 H1 eq_refl) in *. f_equal. exact IH.
      * assert (Hw : w ≠ []) by (intros ->; by apply Hv, H1).
        rewrite !(filter_cons_True (λ w, w ≠ [])) in IH by done. congruence.
Qed.

(** The loop of URLNormalizeMiddleware ends within as many rounds as the path has
    bytes, and computes what one pass does that drops a slash before another: the result
    has no double slash and the same non-empty segments.  The suffix .txt goes, and the
    request counts as one for text, unless the path is one of the literal documents;
    nothing is left empty that was not. *)
Theorem url_normalize_correct u :
  let p := squeeze (u_path u) in
  infix two_slashes p = false ∧ nonempty_segments p = nonempty_segments (u_path u) ∧
  ((∃ k, p = k ++ txt_suffix ∧ ¬ (p ∈ literal_txt_paths) ∧
         url_normalize u = (Url (match k with [] => [slash] | _ => k end) (u_raw_path u), true)) ∨
   ((p ∈ literal_txt_paths ∨ ∀ k, p ≠ k ++ txt_suffix) ∧
    url_normalize u = (Url p (u_raw_path u), false))).
Proof.
  intros p. split_and!; [apply squeeze_single|apply squeeze_segments|].
  unfold url_normalize. rewrite collapse_squeeze by done. fold p.
  assert (E : ends_with txt_suffix p = true ↔ ∃ k, p = k ++ txt_suffix).
  { clearbody p. unfold ends_with. rewrite is_prefixb_app. split; intros [k Hk].
    - exists (reverse k). apply (f_equal reverse) in Hk. rewrite reverse_involutive, reverse_app, reverse_involutive in Hk. exact Hk.
    - exists (reverse k). by rewrite Hk, reverse_app. }
  destruct (ends_with txt_suffix p) eqn:B; cbn [andb].
  - destruct (proj1 E eq_refl) as [k Hk]. case_bool_decide as D; cbn [negb]; [right; by auto|].
    left. exists k. split_and!; [done|done|]. rewrite Hk, length_app, Nat.add_sub, take_app_length. done.
  - right. split; [|done]. right. intros k Hk. discriminate (proj2 E (ex_intro _ k Hk)).
Qed.

(** * Safe file paths *)

Lemma all_slashes k : Forall (λ c, is_slash c = true) k → k = replicate (length k) slash.
Proof. induction 1 as [|c k Hc _ IH]; [done|]. apply bool_decide_eq_true in Hc. cbn. by rewrite Hc, <-IH. Qed.

Lemma trim_slashes_spec l : ∃ a b, l = replicate a slash ++ trim_slashes l ++ replicate b slash.
Proof.
  destruct (drop_while_suffix is_slash l) as (k & E & Hk%all_slashes),
    (drop_while_end_prefix is_slash (drop_while is_slash l)) as (k' & E' & Hk'%all_slashes).
  exists (length k), (length k'). rewrite E at 1. rewrite E' at 1. unfold trim_slashes. by rewrite <-Hk, <-Hk'.
Qed.

Lemma segments_slashes a l : segments (replicate a slash ++ l) = replicate a [] ++ segments l.
Proof. induction a as [|a IH]; [done|]. cbn [replicate app segments]. by rewrite decide_True, IH by done. Qed.

Lemma trim_segments l : ∃ a b, segments l = replicate a [] ++ segments (trim_slashes l) ++ replicate b [].
Proof.
  destruct (trim_slashes_spec l) as (a & b & E). exists a, b. rewrite E at 1. rewrite segments_slashes. f_equal.
  destruct b as [|b]; [by rewrite !app_nil_r|]. cbn [replicate]. rewrite segments_sep. f_equal.
  pose proof (segments_slashes b []) as H. rewrite app_nil_r in H. rewrite H. cbn [segments].
  symmetry. apply (replicate_cons_app b).
Qed.

Lemma trim_slashes_ends l : head (trim_slashes l) ≠ Some slash ∧ last (trim_slashes l) ≠ Some slash.
Proof.
  assert (Hs : is_slash slash = true) by by apply bool_decide_eq_true. split.
  - unfold trim_slashes. set (t := drop_while is_slash l). intros Hh.
    destruct (drop_while_end_prefix is_slash t) as (k & E & _).
    assert (Ht : head t = Some slash) by (rewrite E; destruct (drop_while_end is_slash t); done).
    apply drop_while_head in Ht. congruence.
  - intros Hl%drop_while_end_last. congruence.
Qed.

Lemma trim_slashes_id l : head l ≠ Some slash → last l ≠ Some slash → trim_slashes l = l.
Proof.
  intros Hh Hl. unfold trim_slashes. rewrite drop_while_id.
  - destruct (last l) as [c|] eqn:E; [|apply last_None in E as ->; done].
    apply (drop_while_end_id _ _ c); [done|]. apply bool_decide_eq_false. congruence.
  - intros c Hc. apply bool_decide_eq_false. congruence.
Qed.

Lemma plain_nil_segments a : filter (λ w, useful w = true) (replicate a ([] : path)) = [].
Proof. induction a; [done|]. cbn [replicate]. rewrite filter_cons. by rewrite decide_False. Qed.

Lemma trim_kept l : kept (trim_slashes l) = kept l.
Proof.
  destruct (trim_segments l) as (a & b & E). unfold kept. rewrite E, !filter_app, !plain_nil_segments.
  by rewrite app_nil_r.
Qed.

Lemma trim_dots l : infix dots (trim_slashes l) = infix dots l.
Proof.
  destruct (trim_segments l) as (a & b & E). rewrite (infix_segments l), E, !existsb_app, <-infix_segments.
  assert (H : ∀ n, existsb (infix dots) (replicate n []) = false) by (induction n; [done|]; cbn; done).
  by rewrite !H, orb_false_r.
Qed.

Definition valid_segment (w : path) : Prop := valid_path_segment w = true ∧ (length w ≤ 64)%nat.

Lemma valid_no_dot w : valid_path_segment w = true → ¬ (dot ∈ w).
Proof.
  intros H Hd. assert (F : forallb segment_char w = true) by (by destruct w).
  rewrite forallb_forall in F. apply list_elem_of_In in Hd. by apply F in Hd.
Qed.

Lemma infix_elem l : infix dots l = true → dot ∈ l.
Proof.
  induction l as [|c l IH]; [done|]. cbn [infix is_prefixb dots]. intros [H|H]%orb_true_iff.
  - case_decide; [subst; left|done].
  - right. auto.
Qed.

Lemma validate_segment_None w : validate_path_segment w = None ↔ valid_segment w.
Proof.
  unfold validate_path_segment, valid_segment. case_decide; [subst; split; [done | intros [[=] _]]|].
  case_decide; [split; [done|lia]|]. destruct (valid_path_segment w) eqn:V; cbn [negb]; [|split; [done | intros [[=] _]]].
  pose proof (valid_no_dot w V) as Hd. rewrite decide_False; [split; [split; [done|lia]|done]|].
  intros [-> | ->]; apply Hd; left.
Qed.

Lemma first_error_None ws : first_error ws = None ↔ Forall valid_segment ws.
Proof.
  induction ws as [|w ws IH]; [split; [constructor|done]|]. cbn [first_error]. rewrite Forall_cons, <-validate_segment_None.
  destruct (validate_path_segment w); [split; [done | intros [[=] _]]|]. rewrite IH. tauto.
Qed.

Lemma valid_useful ws : Forall valid_segment ws → filter (λ w, useful w = true) ws = ws.
Proof.
  intros H. apply filter_all. intros w Hw. rewrite Forall_forall in H. destruct (H w Hw) as [V _].
  apply bool_decide_eq_true. split; intros ->; [done|]. by eapply valid_no_dot; [exact V|left].
Qed.

Lemma normalize_valid l : infix dots l = false →
  trim_slashes l = [] ∨ Forall valid_segment (segments (trim_slashes l)) → normalize_path l = trim_slashes l.
Proof.
  intros Hd Hv. unfold normalize_path. destruct l as [|c l']; [done|]. set (l := c :: l') in *.
  assert (K : join_path (kept l) = trim_slashes l).
  { rewrite <-trim_kept. unfold kept. destruct Hv as [->|Hv]; [done|]. rewrite (valid_useful _ Hv). apply join_segments. }
  assert (C : trim_slashes (clean l) = trim_slashes l).
  { rewrite clean_kept, K by done. destruct (trim_slashes_ends l) as [H1 H2].
    destruct (rooted l) eqn:R.
    - unfold trim_slashes at 1. change (drop_while is_slash (slash :: ?k)) with (drop_while is_slash k).
      fold (trim_slashes (trim_slashes l)). by apply trim_slashes_id.
    - destruct (trim_slashes l) eqn:E; [|rewrite <-E in *; by apply trim_slashes_id].
      exfalso. destruct (trim_slashes_spec l) as (a & b & El). rewrite E in El. destruct a, b; cbn in El; try done.
      all: rewrite El in R; by rewrite rooted_cons in R. }
  rewrite C, trim_dots, Hd. done.
Qed.

(** SafePath accepts exactly the paths of short plain segments, and then only trims. *)
Lemma safe_path_spec l :
  match safe_path l with
  | Ok r => r = trim_slashes l ∧ (length l ≤ 2048)%nat ∧ (r = [] ∨ Forall valid_segment (segments r))
  | Fail _ => ¬ ((length l ≤ 2048)%nat ∧ infix dots l = false ∧
                 (trim_slashes l = [] ∨ Forall valid_segment (segments (trim_slashes l))))
  end.
Proof.
  unfold safe_path, validate_path. case_decide; [lia|]. destruct (infix dots l) eqn:D; [intros (_ & [=] & _)|].
  destruct (trim_slashes l) as [|c t] eqn:T.
  - rewrite normalize_valid by (rewrite ?T; auto). rewrite T. split_and!; [done|lia|by left].
  - destruct (first_error (segments (c :: t))) eqn:F.
    + intros (_ & _ & [Hn|Hn%first_error_None]); congruence.
    + apply first_error_None in F. rewrite normalize_valid by (rewrite ?T; auto). rewrite T.
      split_and!; [done|lia|by right].
Qed.

(** * Cleaning a rooted path *)

Definition plain (w : path) : Prop := sep_free w ∧ useful w = true ∧ w ≠ dots.
Definition rooted_segments (l : path) : list path := reverse (foldl (clean_step true) [] (segments l)).

Lemma rooted_segments_plain l : Forall plain (rooted_segments l).
Proof.
  apply Forall_reverse. pose proof (segments_free l) as F.
  assert (H : ∀ ws out, Forall sep_free ws → Forall plain out → Forall plain (foldl (clean_step true) out ws)); [|by apply H].
  clear. induction ws as [|w ws IH]; intros out Hw Ho; [done|]. apply Forall_cons_1 in Hw as [Hw Hws].
  cbn [foldl]. apply IH; [done|]. unfold clean_step. case_decide as D; [done|]. case_decide as D2.
  - destruct out as [|top rest]; [done|]. apply Forall_cons_1 in Ho as [Ht Hr]. case_decide; [|done].
    by destruct Ht as (_ & _ & ?).
  - constructor; [|done]. split_and!; [done| |done]. apply bool_decide_eq_true. tauto.
Qed.

Lemma clean_rooted l : rooted l = true → clean l = slash :: join_path (rooted_segments l).
Proof. intros R. unfold clean. by rewrite R. Qed.

Lemma plain_free ws : Forall plain ws → Forall sep_free ws.
Proof. intros H. eapply Forall_impl; [exact H|]. by intros w (? & _). Qed.
Lemma plain_dots ws : Forall plain ws → Forall (λ w, w ≠ dots) ws.
Proof. intros H. eapply Forall_impl; [exact H|]. by intros w (_ & _ & ?). Qed.
Lemma plain_filter ws : Forall plain ws → filter (λ w, useful w = true) ws = ws.
Proof. intros H. apply filter_all. intros w Hw. rewrite Forall_forall in H. by destruct (H w Hw) as (_ & ? & _). Qed.

(** Cleaning what plain segments make changes nothing; cleaning a directory with plain
    segments below it cleans the directory. *)
Lemma clean_plain ws : Forall plain ws → clean (slash :: join_path ws) = slash :: join_path ws.
Proof.
  intros H. rewrite clean_rooted by apply rooted_cons. do 2 f_equal. unfold rooted_segments. cbn [segments].
  rewrite decide_True by done. cbn [foldl]. unfold clean_step at 2. rewrite decide_True by by left.
  destruct ws as [|w ws]; [done|]. rewrite segments_join by (done || by apply plain_free).
  rewrite clean_steps by by apply plain_dots. by rewrite app_nil_r, reverse_involutive, plain_filter.
Qed.

Lemma clean_below l r : rooted l = true → Forall plain (segments r) →
  clean (l ++ slash :: r) = slash :: join_path (rooted_segments l ++ segments r).
Proof.
  intros R H. rewrite clean_rooted by (by destruct l as [|c l]). do 2 f_equal.
  unfold rooted_segments. rewrite segments_sep, foldl_app, clean_steps by by apply plain_dots.
  by rewrite reverse_app, reverse_involutive, plain_filter.
Qed.

Lemma clean_root l : rooted l = true → clean l = [slash] ↔ rooted_segments l = [].
Proof.
  intros R. rewrite clean_rooted by done. split; [|by intros ->]. intros [= H].
  pose proof (rooted_segments_plain l) as P. destruct (rooted_segments l) as [|w ws]; [done|]. exfalso.
  apply Forall_cons_1 in P as [(_ & Hu & _) _]. apply bool_decide_eq_true in Hu as [Hu _].
  destruct w; [done|]. by destruct ws.
Qed.

Lemma valid_plain ws : Forall sep_free ws → Forall valid_segment ws → Forall plain ws.
Proof.
  rewrite !Forall_forall. intros F H w Hw. specialize (H w Hw) as [V _]. pose proof (valid_no_dot w V) as Hd.
  split_and!; [by apply F| |].
  - apply bool_decide_eq_true. split; intros ->; [done|]. apply Hd. left.
  - intros ->. apply Hd. left.
Qed.

(** SafeFilePath below an absolute directory: an error of SafePath is the answer;
    otherwise the result is the directory itself for an empty path, and else the cleaned
    directory, a slash and the trimmed path, whose segments are short and plain, so that
    it stays below the directory.  Only the root directory, whose name ends in the
    separator the check appends, refuses every path but the empty one. *)
Theorem safe_file_path_within getwd base user :
  rooted base = true →
  match safe_path user with
  | Fail e => safe_file_path getwd base user = Fail e
  | Ok r =>
      r = trim_slashes user ∧ (r = [] ∨ Forall valid_segment (segments r)) ∧
      safe_file_path getwd base user =
        if decide (r = []) then Ok (clean base)
        else if decide (clean base = [slash]) then Fail PathTraversal
        else Ok (clean base ++ slash :: r)
  end.
Proof.
  intros R. pose proof (safe_path_spec user) as S. unfold safe_file_path.
  destruct (safe_path user) as [r|e]; [|done]. destruct S as (Er & _ & Hr). split_and!; [done..|].
  assert (Ab : ∀ p, rooted p = true → abs getwd p = Ok (clean p)) by (intros p Hp; unfold abs; by rewrite Hp).
  destruct base as [|c b]; [done|]. set (base := c :: b) in *. rewrite (Ab base R).
  assert (Cb : clean (clean base) = clean base).
  { rewrite (clean_rooted base R). apply clean_plain, rooted_segments_plain. }
  case_decide as D.
  { subst r. rewrite D. cbn [join2]. change (join2 base []) with (clean base).
    rewrite Ab by (rewrite clean_rooted by done; apply rooted_cons). rewrite Cb.
    rewrite (bool_decide_true (clean base = clean base)) by done. by rewrite andb_false_r. }
  destruct Hr as [|Hr]; [done|]. pose proof (valid_plain _ (segments_free r) Hr) as Hp.
  assert (J : join2 base r = slash :: join_path (rooted_segments base ++ segments r)).
  { rewrite <-clean_below by done. by destruct r. }
  rewrite J, Ab by apply rooted_cons.
  rewrite clean_plain by (apply Forall_app; split; [apply rooted_segments_plain | done]).
  assert (Sr : segments r ≠ []) by (destruct (segments_head r) as (w & ws & ->); done).
  pose proof (clean_root base R) as CR. case_decide as D2.
  - rewrite (proj1 CR D2), D2. cbn [app]. rewrite join_segments.
    rewrite bool_decide_false by congruence. cbn [app is_prefixb negb andb].
    assert (H : is_prefixb [slash] r = false).
    { destruct (trim_slashes_ends user) as [Hh _]. rewrite <-Er in Hh. destruct r as [|d r]; [done|]. cbn.
      rewrite decide_False by (intros <-; by apply Hh). done. }
    cbn in H |- *. rewrite H. reflexivity.
  - assert (Rs : rooted_segments base ≠ []) by tauto.
    rewrite join_path_app, join_segments by done. rewrite clean_rooted by done.
    change (slash :: ?l ++ slash :: r) with ((slash :: l) ++ slash :: r).
    rewrite (proj2 (is_prefixb_app _ _)); [done|]. exists r. by rewrite <-app_assoc.
Qed.

Lemma safe_file_path_within_witness :
  safe_file_path None (bytes "/srv//wthr/../data") (bytes "/cache/2026/") = Ok (bytes "/srv/data/cache/2026").
Proof.
  refine (proj2 (proj2 (safe_file_path_within None (bytes "/srv//wthr/../data") (bytes "/cache/2026/") _))).
  reflexivity.
Defined.
