(* ===== verification/FileSystem.v ===== *)
(** What the program asks of package os: directories, files and symbolic links at the places of
    a tree, and Stat, ReadFile, MkdirAll, Create, WriteFile, Chmod, Remove and filepath.Walk on
    them.  A place is the segments of an absolute path; the mode of a directory, and times, are left out. *)
From S2P Require Import Prelude GoStrings PathSecurity.
From stdpp Require Import sorting.
From Stdlib Require Import Ascii.
Open Scope Z_scope.

Abbreviation place := (list path).
(** A link has the length of its text, and the place it points to. *)
Inductive node := NDir | NFile (mode : Z) (data : list Z) | NLink (size : nat) (target : place).
Abbreviation files := (gmap place node).

Definition place_of (p : path) : place := rooted_segments p.
Definition node_at (fs : files) (p : place) : option node := match p with [] => Some NDir | _ => fs !! p end.

(** The place a path leads to, links followed; the kernel gives up after forty. *)
Fixpoint resolve (links : nat) (fs : files) (base todo : place) : option place :=
  (fix go (base todo : place) : option place :=
    match todo with
    | [] => Some base
    | w :: todo =>
        match fs !! (base ++ [w]) with
        | Some (NLink _ target) =>
            match links with O => None | S links => resolve links fs [] (target ++ todo) end
        | _ => go (base ++ [w]) todo
        end
    end) base todo.
Definition max_links : nat := 40.
Definition follow (fs : files) (p : place) : option place := resolve max_links fs [] p.
Definition parent (p : place) : place := take (pred (length p)) p.

(** os.Stat, os.Lstat and os.ReadFile; None is an error *)
Definition stat (fs : files) (p : place) : option node := q ← follow fs p; node_at fs q.
Definition real (fs : files) (p : place) : option place := (λ q, q ++ drop (pred (length p)) p) <$> follow fs (parent p).
Definition lstat (fs : files) (p : place) : option node := q ← real fs p; node_at fs q.
Definition read_file (fs : files) (p : place) : option (list Z) :=
  match stat fs p with Some (NFile _ data) => Some data | _ => None end.

(** os.MkdirAll: the directories made before an error stay. *)
Fixpoint mkdir_go (fs : files) (base todo : place) : bool * files :=
  match todo with
  | [] => (true, fs)
  | w :: todo =>
      let q := base ++ [w] in
      match stat fs q with
      | Some NDir => mkdir_go fs q todo
      | Some _ => (false, fs)
      | None =>
          match real fs q with
          | None => (false, fs)
          | Some r => match fs !! r with
                      | Some _ => (false, fs)
                      | None => mkdir_go (<[r := NDir]> fs) q todo
                      end
          end
      end
  end.
Definition mkdir_all (fs : files) (p : place) : bool * files := mkdir_go fs [] p.

(** os.OpenFile with O_CREATE and O_TRUNC, and the octets written to it: a file that is there keeps its mode. *)
Definition put_file (fs : files) (p : place) (mode : Z) (data : list Z) : option files :=
  match follow fs p with
  | None => None
  | Some r =>
      match node_at fs r with
      | Some (NFile m _) => Some (<[r := NFile m data]> fs)
      | Some _ => None
      | None => match node_at fs (parent r) with Some NDir => Some (<[r := NFile mode data]> fs) | _ => None end
      end
  end.
(** A device that may fail: how many octets of a write arrive before it fails (None: all of them, and it succeeds), and
    whether a removal fails *)
Record device := Device { dv_write : files → place → list Z → option nat; dv_stuck : files → place → bool }.
Definition sound_device : device := Device (λ _ _ _, None) (λ _ _, false).
(** os.WriteFile, and os.Create with io.Copy: what arrived before an error stays. *)
Definition write_file (dv : device) (fs : files) (p : place) (mode : Z) (data : list Z) : bool * files :=
  let cut := dv_write dv fs p data in
  match put_file fs p mode (match cut with Some n => take n data | None => data end) with
  | None => (false, fs)
  | Some fs' => (bool_decide (cut = None), fs')
  end.
Definition chmod (fs : files) (p : place) (mode : Z) : option files :=
  match follow fs p with
  | None => None
  | Some r => match node_at fs r with
              | Some (NFile _ data) => Some (<[r := NFile mode data]> fs)
              | Some _ => Some fs
              | None => None
              end
  end.
(** os.Remove of what is not a directory, its error dropped *)
Definition remove_file (dv : device) (fs : files) (p : place) : files :=
  if dv_stuck dv fs p then fs else
  match real fs p with
  | Some r => match fs !! r with Some (NFile _ _) | Some (NLink _ _) => delete r fs | _ => fs end
  | None => fs
  end.

(** The order of filepath.Walk: by name within a directory, a directory before what is in it *)
Fixpoint name_leb (a b : path) : bool :=
  match a, b with
  | [], _ => true
  | _ :: _, [] => false
  | x :: a, y :: b => if (code x <? code y)%N then true else if (code x =? code y)%N then name_leb a b else false
  end.
Fixpoint place_leb (p q : place) : bool :=
  match p, q with
  | [], _ => true
  | _ :: _, [] => false
  | v :: p, w :: q => if bool_decide (v = w) then place_leb p q else name_leb v w
  end.
Definition walk_order (a b : place * node) : Prop := place_leb a.1 b.1 = true.
#[export] Instance walk_order_dec a b : Decision (walk_order a b).
Proof. unfold walk_order. apply _. Defined.
(** What filepath.Walk visits, relative to the root: links are visited, not followed. *)
Definition walk (fs : files) (p : place) : list (place * node) :=
  match real fs p with
  | None => []
  | Some r =>
      let below := filter (λ e, r `prefix_of` e.1) (map_to_list fs) in
      merge_sort walk_order (map (λ e, (drop (length r) e.1, e.2)) below)
  end.

(** * Without links on the way a path leads to its own place *)

Definition no_links_to (fs : files) (p : place) : Prop := ∀ q s t, q `prefix_of` p → fs !! q ≠ Some (NLink s t).

Lemma resolve_id n fs base todo : no_links_to fs (base ++ todo) → resolve n fs base todo = Some (base ++ todo).
Proof.
  revert base. induction todo as [|w todo IH]; intros base Hno; [destruct n; cbn; by rewrite app_nil_r|].
  rewrite (assoc (++) base [w] todo) in Hno. change (w :: todo) with ([w] ++ todo). rewrite (assoc (++) base [w] todo).
  specialize (IH (base ++ [w]) Hno). destruct n as [|n]; cbn in IH |- *;
    (destruct (fs !! (base ++ [w])) as [[|m d|s t]|] eqn:E; [exact IH|exact IH| |exact IH];
     destruct (Hno (base ++ [w]) s t); [by apply prefix_app_r|done]).
Qed.
Lemma follow_id fs p : no_links_to fs p → follow fs p = Some p.
Proof. apply (resolve_id max_links fs [] p). Qed.
Lemma parent_app p w : parent (p ++ [w]) = p.
Proof. unfold parent. rewrite length_app. cbn. rewrite Nat.add_1_r. cbn. by rewrite take_app_length. Qed.
Lemma no_links_prefix fs p q : p `prefix_of` q → no_links_to fs q → no_links_to fs p.
Proof. intros Hpq H r s t Hr. apply H. by transitivity p. Qed.
Lemma real_id fs p w : no_links_to fs p → real fs (p ++ [w]) = Some (p ++ [w]).
Proof.
  intros H. unfold real. rewrite parent_app, follow_id by done. cbn. rewrite length_app. cbn. rewrite Nat.add_1_r. cbn.
  by rewrite drop_app_length.
Qed.
Lemma stat_id fs p : no_links_to fs p → stat fs p = node_at fs p.
Proof. intros H. unfold stat. by rewrite follow_id. Qed.

(** MkdirAll adds directories on the way and nothing else. *)
Definition dirs_added (p : place) (fs fs' : files) : Prop :=
  ∀ q, fs' !! q = fs !! q ∨ (q `prefix_of` p ∧ q ≠ [] ∧ fs !! q = None ∧ fs' !! q = Some NDir).
Definition no_files_to (fs : files) (p : place) : Prop := ∀ q m d, q `prefix_of` p → fs !! q ≠ Some (NFile m d).

Lemma dirs_added_no_links p q fs fs' : dirs_added p fs fs' → no_links_to fs q → no_links_to fs' q.
Proof. intros Ha Hn r s t Hr E. destruct (Ha r) as [H|(_ & _ & _ & H)]; [rewrite H in E; by apply (Hn r s t)|congruence]. Qed.
Lemma dirs_added_trans p fs1 fs2 fs3 : dirs_added p fs1 fs2 → dirs_added p fs2 fs3 → dirs_added p fs1 fs3.
Proof.
  intros H1 H2 q. destruct (H2 q) as [E2|(Hp & Hq & E2 & E3)], (H1 q) as [E1|(Hp' & Hq' & E1 & E1')].
  - left. congruence.
  - right. split_and!; [done..|congruence].
  - right. split_and!; [done..|congruence|done].
  - congruence.
Qed.
Lemma mkdir_go_spec fs base todo ok fs' : no_links_to fs (base ++ todo) → node_at fs base = Some NDir → mkdir_go fs base todo = (ok, fs') →
  dirs_added (base ++ todo) fs fs' ∧ (ok = true → node_at fs' (base ++ todo) = Some NDir) ∧ (no_files_to fs (base ++ todo) → ok = true).
Proof.
  revert fs base. induction todo as [|w todo IH]; intros fs base Hno Hbase; cbn [mkdir_go].
  { intros [= <- <-]. rewrite app_nil_r. split_and!; [by left|done|done]. }
  rewrite (assoc (++) base [w] todo : base ++ w :: todo = (base ++ [w]) ++ todo) in *.
  assert (Hno1 : no_links_to fs (base ++ [w])) by (eapply no_links_prefix; [by apply prefix_app_r|exact Hno]).
  assert (Hno0 : no_links_to fs base) by (eapply no_links_prefix; [by apply prefix_app_r|exact Hno1]).
  rewrite stat_id, real_id by done. assert (Hnode : node_at fs (base ++ [w]) = fs !! (base ++ [w])) by by destruct base.
  rewrite Hnode. destruct (fs !! (base ++ [w])) as [[|m d|s t]|] eqn:E.
  - intros R. apply IH in R; [done..|by rewrite Hnode].
  - intros [= <- <-]. split_and!; [by left|done|]. intros Hf. destruct (Hf (base ++ [w]) m d); [by apply prefix_app_r|done].
  - by destruct (Hno (base ++ [w]) s t); [apply prefix_app_r|].
  - intros R.
    assert (Hadd : dirs_added ((base ++ [w]) ++ todo) fs (<[base ++ [w] := NDir]> fs)).
    { intros q. destruct (decide (q = base ++ [w])) as [->|Hne]; [right|left; by rewrite lookup_insert_ne].
      rewrite lookup_insert_eq. split_and!; [by apply prefix_app_r|by destruct base|done|done]. }
    apply IH in R as (H1 & H2 & H3); [|by eapply dirs_added_no_links|].
    + split_and!; [by eapply dirs_added_trans|done|]. intros Hf. apply H3. intros q m d Hq Hm.
      destruct (Hadd q) as [Ha|(_ & _ & _ & Ha)]; [rewrite Ha in Hm; by apply (Hf q m d)|congruence].
    + assert (node_at (<[base ++ [w] := NDir]> fs) (base ++ [w]) = (<[base ++ [w] := NDir]> fs) !! (base ++ [w])) as -> by by destruct base.
      by rewrite lookup_insert_eq.
Qed.
Lemma mkdir_all_spec fs p ok fs' : no_links_to fs p → mkdir_all fs p = (ok, fs') →
  dirs_added p fs fs' ∧ (ok = true → node_at fs' p = Some NDir) ∧ (no_files_to fs p → ok = true).
Proof. intros H. by apply (mkdir_go_spec fs [] p). Qed.

(** A file is written where its path says, into a directory that is there. *)
Lemma node_at_here fs p : p ≠ [] → node_at fs p = fs !! p.
Proof. by destruct p. Qed.
Lemma put_file_spec fs p mode data : no_links_to fs p →
  match put_file fs p mode data with
  | Some fs' => node_at fs p ≠ Some NDir ∧ ∃ m, fs' = <[p := NFile m data]> fs ∧ (fs !! p = None → m = mode)
  | None => node_at fs p = Some NDir ∨ (fs !! p = None ∧ node_at fs (parent p) ≠ Some NDir)
  end.
Proof.
  intros Hno. unfold put_file. rewrite follow_id by done. destruct (decide (p = [])) as [->|Hne]; [by left|].
  rewrite node_at_here by done. destruct (fs !! p) as [[|m d|s t]|] eqn:E; [by left|by split; [|exists m]|by destruct (Hno p s t)|].
  destruct (node_at fs (parent p)) as [[]|]; [split; [done|by exists mode]|right; by split..].
Qed.
(** A write that fails has left nothing, or the beginning of the file. *)
Lemma write_file_spec dv fs p mode data ok fs' : no_links_to fs p → write_file dv fs p mode data = (ok, fs') →
  (fs' = fs ∧ ok = false ∧ (node_at fs p = Some NDir ∨ (fs !! p = None ∧ node_at fs (parent p) ≠ Some NDir))) ∨
  node_at fs p ≠ Some NDir ∧ ∃ m written, fs' = <[p := NFile m written]> fs ∧ (fs !! p = None → m = mode) ∧
    (if ok then dv_write dv fs p data = None ∧ written = data else ∃ n, dv_write dv fs p data = Some n ∧ written = take n data).
Proof.
  intros Hno. unfold write_file. set (l := match dv_write dv fs p data with Some n => take n data | None => data end).
  pose proof (put_file_spec fs p mode l Hno) as S. destruct (put_file fs p mode l) as [fs1|]; intros [= <- <-]; [right|by left].
  destruct S as (Hd & m & -> & Hm). split; [done|]. exists m, l. split_and!; [done|done|]. unfold l.
  destruct (dv_write dv fs p data) as [n|]; [rewrite bool_decide_eq_false_2 by done; eauto|by rewrite bool_decide_eq_true_2].
Qed.
Lemma chmod_spec fs p mode m data : no_links_to fs p → p ≠ [] → fs !! p = Some (NFile m data) → chmod fs p mode = Some (<[p := NFile mode data]> fs).
Proof. intros Hno Hne E. unfold chmod. rewrite follow_id by done. assert (node_at fs p = fs !! p) as -> by by destruct p. by rewrite E. Qed.

(** * A directory without links on the way to it or below it *)

Definition link_free (d : place) (fs : files) : Prop := ∀ q s t, q `prefix_of` d ∨ d `prefix_of` q → fs !! q ≠ Some (NLink s t).
Definition no_new_links (fs fs' : files) : Prop := ∀ q s t, fs' !! q = Some (NLink s t) → fs !! q = Some (NLink s t).

Lemma link_free_to d fs p : link_free d fs → d `prefix_of` p → no_links_to fs p.
Proof. intros H Hp q s t Hq. apply H. by apply (prefix_weak_total q d p). Qed.
Lemma link_free_up d fs : link_free d fs → no_links_to fs d.
Proof. intros H q s t Hq. apply H. by left. Qed.
Lemma no_new_links_free d fs fs' : no_new_links fs fs' → link_free d fs → link_free d fs'.
Proof. intros H Hd q s t Hq E%H. by apply (Hd q s t). Qed.
Lemma no_new_links_trans fs1 fs2 fs3 : no_new_links fs1 fs2 → no_new_links fs2 fs3 → no_new_links fs1 fs3.
Proof. intros H1 H2 q s t E. by apply H1, H2. Qed.
Lemma dirs_added_links p fs fs' : dirs_added p fs fs' → no_new_links fs fs'.
Proof. intros H q s t E. destruct (H q) as [H'|(_ & _ & _ & H')]; congruence. Qed.
Lemma written_links p m d fs : no_new_links fs (<[p := NFile m d]> fs).
Proof. intros q s t. rewrite lookup_insert. by case_decide. Qed.

(** What walking a directory visits: everything below it *)
Lemma walk_spec fs p rel n : p ≠ [] → link_free p fs → (rel, n) ∈ walk fs p ↔ fs !! (p ++ rel) = Some n.
Proof.
  intros Hne Hlf. assert (Hreal : real fs p = Some p).
  { destruct p as [|w p _] using rev_ind; [done|]. apply real_id. eapply no_links_prefix; [by apply prefix_app_r|by apply link_free_up]. }
  unfold walk. rewrite Hreal, merge_sort_Permutation. rewrite list_elem_of_fmap. split.
  - intros ([q n'] & E & [[k Hk] Hin%elem_of_map_to_list]%list_elem_of_filter). cbn in E, Hk. subst q. rewrite drop_app_length in E.
    by injection E as -> ->.
  - intros E. exists (p ++ rel, n). cbn. rewrite drop_app_length. split; [done|]. apply list_elem_of_filter.
    split; [by apply prefix_app_r|by apply elem_of_map_to_list].
Qed.
