(* ===== verification/Failover.v ===== *)
(** Database failover (src/database/failover.go): the read-only mode, the queue of writes
    and the recovery, as a transition function whose steps are the pieces of code between
    two takings of the manager's lock.  A write is a statement with its arguments; the
    primary is the list of the writes it has carried out, and its answers come with the
    events.  The monitor is a goroutine of its own: it waits in a select whose channel is
    read once, when the select is entered. *)
From S2P Require Import Prelude GoTime.

Section Failover.
Context {Wr : Type}.

(** * State *)

(** QueuedWrite *)
Record queued := Queued { q_write : Wr; q_time : instant }.

(** Where monitorPrimaryDB is: at the top of its loop, in the select with a ticker's channel
    or with one that never receives, replaying the copied queue, or gone. *)
Inductive monitor := AtTop | Waiting (ticker : bool) | Replaying (rest : list queued) | Gone.

(** FailoverManager, with the writes under way: each has read the mode at its start. *)
Record manager := Manager {
  fm_read_only : bool;
  fm_queue : list queued;
  fm_last_error : option string;
  fm_last_error_at : instant;
  fm_ticker : bool;
  fm_closed : bool;
  fm_monitor : monitor;
  fm_calls : list (Wr * bool);
  fm_primary : list Wr
}.

(** NewFailoverManager *)
Definition new_failover_manager : manager := Manager false [] None zero_time false false AtTop [] [].

(** * Operations *)

Definition set_monitor (mo : monitor) (s : manager) : manager :=
  Manager (fm_read_only s) (fm_queue s) (fm_last_error s) (fm_last_error_at s) (fm_ticker s) (fm_closed s)
    mo (fm_calls s) (fm_primary s).
Definition set_calls (l : list (Wr * bool)) (s : manager) : manager :=
  Manager (fm_read_only s) (fm_queue s) (fm_last_error s) (fm_last_error_at s) (fm_ticker s) (fm_closed s)
    (fm_monitor s) l (fm_primary s).
Definition set_queue (l : list queued) (s : manager) : manager :=
  Manager (fm_read_only s) l (fm_last_error s) (fm_last_error_at s) (fm_ticker s) (fm_closed s)
    (fm_monitor s) (fm_calls s) (fm_primary s).
Definition carry_out (w : Wr) (s : manager) : manager :=
  Manager (fm_read_only s) (fm_queue s) (fm_last_error s) (fm_last_error_at s) (fm_ticker s) (fm_closed s)
    (fm_monitor s) (fm_calls s) (fm_primary s ++ [w]).

(** queueWrite *)
Definition queue_write (w : Wr) (now : instant) (s : manager) : manager :=
  set_queue (fm_queue s ++ [Queued w now]) s.

(** handlePrimaryFailure *)
Definition handle_primary_failure (err : string) (now : instant) (s : manager) : manager :=
  if fm_read_only s then s
  else Manager true (fm_queue s) (Some err) now true (fm_closed s) (fm_monitor s) (fm_calls s) (fm_primary s).

(** Exec: its start reads the mode, its end queues the write or tries it on the primary *)
Definition exec_start (w : Wr) (s : manager) : manager := set_calls (fm_calls s ++ [(w, fm_read_only s)]) s.
Definition exec_end (k : nat) (answer : option string) (now : instant) (s : manager) : manager :=
  match (fm_calls s !! k : option (Wr * bool)) with
  | None => s
  | Some (w, read_only) =>
      let s := set_calls (delete k (fm_calls s)) s in
      if read_only then queue_write w now s
      else match answer with
           | None => carry_out w s
           | Some err => queue_write w now (handle_primary_failure err now s)
           end
  end.

(** Query: which database answers, after a try on the primary *)
Inductive source_db := PrimaryDB | CacheDB.
Definition query_db (answer : option string) (now : instant) (s : manager) : source_db * manager :=
  if fm_read_only s then (CacheDB, s)
  else match answer with
       | None => (PrimaryDB, s)
       | Some err => (CacheDB, handle_primary_failure err now s)
       end.
(** QueryRow has no fallback. *)
Definition query_row_db (s : manager) : source_db := if fm_read_only s then CacheDB else PrimaryDB.

(** attemptRecovery up to the copy of the queue, then the loop of replayWrites, then the end *)
Definition attempt_recovery (alive : bool) (s : manager) : manager :=
  if fm_read_only s && alive then set_monitor (Replaying (fm_queue s)) (set_queue [] s)
  else set_monitor AtTop s.
Definition replay_write (q : queued) (rest : list queued) (answer : option string) (now : instant)
    (s : manager) : manager :=
  set_monitor (Replaying rest)
    match answer with
    | None => carry_out (q_write q) s
    | Some _ => queue_write (q_write q) now s
    end.
Definition leave_read_only (s : manager) : manager :=
  Manager false (fm_queue s) None (fm_last_error_at s) false (fm_closed s) AtTop (fm_calls s) (fm_primary s).

Definition queued_write_count (s : manager) : nat := length (fm_queue s).
Definition is_read_only (s : manager) : bool := fm_read_only s.
Definition get_last_error (s : manager) : instant * option string := (fm_last_error_at s, fm_last_error s).

(** Close *)
Definition close (s : manager) : manager :=
  Manager (fm_read_only s) (fm_queue s) (fm_last_error s) (fm_last_error_at s) (fm_ticker s) true
    (fm_monitor s) (fm_calls s) (fm_primary s).

Inductive event :=
| ExecStart (w : Wr)
| ExecEnd (k : nat) (answer : option string) (now : instant)
| Query (answer : option string) (now : instant)
| MonitorSelect
| MonitorTick (alive : bool)
| MonitorReplay (answer : option string) (now : instant)
| MonitorStop
| Close.

(** monitorPrimaryDB: an event its state does not allow does not happen. *)
Definition monitor_step (e : event) (s : manager) : manager :=
  match e, fm_monitor s with
  | MonitorSelect, AtTop => set_monitor (Waiting (fm_ticker s)) s
  | MonitorTick alive, Waiting true => attempt_recovery alive s
  | MonitorReplay answer now, Replaying (q :: rest) => replay_write q rest answer now s
  | MonitorReplay _ _, Replaying [] => leave_read_only s
  | MonitorStop, Waiting _ => if fm_closed s then set_monitor Gone s else s
  | _, _ => s
  end.

Definition step (e : event) (s : manager) : manager :=
  match e with
  | ExecStart w => exec_start w s
  | ExecEnd k answer now => exec_end k answer now s
  | Query answer now => (query_db answer now s).2
  | Close => close s
  | _ => monitor_step e s
  end.
Definition run (es : list event) (s : manager) : manager := foldl (λ s e, step e s) s es.

(** * The specification: every write handed in is somewhere, once *)

Definition handed_in (e : event) : list Wr := match e with ExecStart w => [w] | _ => [] end.
Definition being_replayed (s : manager) : list Wr :=
  match fm_monitor s with Replaying rest => map q_write rest | _ => [] end.
(** The abstract state: what the primary has carried out and what it still owes. *)
Definition owed (s : manager) : list Wr :=
  map q_write (fm_queue s) ++ being_replayed s ++ map fst (fm_calls s).

Definition account (s : manager) : list Wr := fm_primary s ++ owed s.
End Failover.
Arguments manager : clear implicits.
Arguments monitor : clear implicits.
Arguments event : clear implicits.
Arguments queued : clear implicits.

Section Laws.
Context {Wr : Type}.
Implicit Types (s : manager Wr) (e : event Wr).

Lemma handle_failure_account err now s : account (handle_primary_failure err now s) = account s.
Proof. unfold handle_primary_failure. by destruct (fm_read_only s). Qed.

Lemma queue_write_account w now s : account (queue_write w now s) ≡ₚ w :: account s.
Proof.
  unfold account, owed, being_replayed, queue_write. cbn. rewrite map_app. cbn. solve_Permutation.
Qed.

Lemma carry_out_account w s : account (carry_out w s) ≡ₚ w :: account s.
Proof. unfold account, owed, being_replayed, carry_out. cbn. solve_Permutation. Qed.

Lemma exec_end_account k answer now s : account (exec_end k answer now s) ≡ₚ account s.
Proof.
  unfold exec_end. destruct (fm_calls s !! k) as [[w ro]|] eqn:E; [|done].
  assert (H : w :: account (set_calls (delete k (fm_calls s)) s) ≡ₚ account s).
  { unfold account, owed, being_replayed. cbn. apply delete_Permutation in E.
    apply (fmap_Permutation fst) in E. cbn in E. change (list_fmap _ _ fst) with (map (@fst Wr bool)) in E.
    rewrite E. solve_Permutation. }
  rewrite <-H. destruct ro; [apply queue_write_account|]. destruct answer.
  - by rewrite queue_write_account, handle_failure_account.
  - apply carry_out_account.
Qed.

Lemma attempt_account alive s : fm_monitor s = Waiting true → account (attempt_recovery alive s) ≡ₚ account s.
Proof.
  intros M. unfold attempt_recovery, account, owed, being_replayed. rewrite M.
  destruct (fm_read_only s && alive); cbn; [|done]. solve_Permutation.
Qed.

Lemma replay_account q rest answer now s : fm_monitor s = Replaying (q :: rest) →
  account (replay_write q rest answer now s) ≡ₚ account s.
Proof.
  intros M. unfold account, owed, being_replayed, replay_write. rewrite M.
  destruct answer; cbn; rewrite ?map_app; cbn; solve_Permutation.
Qed.

Lemma leave_account s : fm_monitor s = Replaying [] → account (leave_read_only s) = account s.
Proof. intros M. unfold account, owed, being_replayed, leave_read_only. by rewrite M. Qed.

Lemma monitor_account e s : account (monitor_step e s) ≡ₚ account s.
Proof.
  unfold monitor_step. destruct e; try done; destruct (fm_monitor s) as [|t|rest|] eqn:M; try done.
  - unfold account, owed, being_replayed. by rewrite M.
  - destruct t; [by apply attempt_account | done].
  - destruct rest; [by rewrite leave_account | by apply replay_account].
  - destruct (fm_closed s); [|done]. unfold account, owed, being_replayed. by rewrite M.
Qed.

Lemma step_account e s : account (step e s) ≡ₚ account s ++ handed_in e.
Proof.
  destruct e as [w|k answer now|answer now| | | | |]; cbn [step handed_in];
    rewrite ?app_nil_r; try apply monitor_account.
  - unfold account, owed, being_replayed. cbn. rewrite map_app. cbn. solve_Permutation.
  - apply exec_end_account.
  - unfold query_db. destruct (fm_read_only s); [done|]. destruct answer; cbn [snd]; [by rewrite handle_failure_account|done].
  - done.
Qed.

Lemma run_app es es' s : run (es ++ es') s = run es' (run es s).
Proof. apply foldl_app. Qed.

(** C37: However calls, failures, recoveries and replays interleave, every write handed to
    the manager is at each moment in exactly one place: carried out by the primary, in
    the queue, in the copy being replayed, or in a call still under way. *)
Theorem no_write_lost (es : list (event Wr)) :
  account (run es new_failover_manager) ≡ₚ flat_map handed_in es.
Proof.
  induction es as [|e es IH] using rev_ind; [done|].
  rewrite run_app, flat_map_app. cbn [run foldl flat_map]. by rewrite step_account, IH, app_nil_r.
Qed.

(** * Recovery *)

Definition succeeded (p : queued Wr * option string) : bool := bool_decide (p.2 = None).
Definition replays (now : instant) (answers : list (option string)) : list (event Wr) :=
  map (λ a, MonitorReplay a now) answers.

Lemma replay_all now answers rest s :
  fm_monitor s = Replaying rest → length answers = length rest →
  let pairs := zip rest answers in
  let s' := run (replays now answers) s in
  fm_monitor s' = Replaying [] ∧ fm_read_only s' = fm_read_only s ∧
  fm_primary s' = fm_primary s ++ map (λ p, q_write p.1) (filter (λ p, succeeded p = true) pairs) ∧
  map q_write (fm_queue s') =
    map q_write (fm_queue s) ++ map (λ p, q_write p.1) (filter (λ p, succeeded p = false) pairs).
Proof.
  revert answers s. induction rest as [|q rest IH]; intros [|a answers] s M HL; cbn zeta; try done.
  { cbn. by rewrite !app_nil_r. }
  cbn [replays map run foldl step monitor_step zip zip_with]. rewrite M.
  destruct (IH answers (replay_write q rest a now s)) as (H1 & H2 & H3 & H4); [by destruct a|by injection HL|].
  unfold run, replays in *. rewrite !filter_cons. unfold replay_write in *.
  destruct a as [err|]; cbn in H2, H3, H4 |- *; split_and!; try done;
    rewrite ?H3, ?H4, ?map_app; cbn; by rewrite <-?app_assoc.
Qed.

(** A recovery that finds the primary alive leaves the read-only mode after trying
    every queued write once, in the order they were queued: those that succeed are
    carried out, and those that fail are queued again, where they stay although the
    manager is no longer read-only. *)
Theorem recovery_replays now answers s :
  fm_monitor s = Waiting true → fm_read_only s = true → length answers = length (fm_queue s) →
  let pairs := zip (fm_queue s) answers in
  let s' := run (MonitorTick true :: replays now answers ++ [MonitorReplay None now]) s in
  fm_read_only s' = false ∧
  fm_primary s' = fm_primary s ++ map (λ p, q_write p.1) (filter (λ p, succeeded p = true) pairs) ∧
  map q_write (fm_queue s') = map (λ p, q_write p.1) (filter (λ p, succeeded p = false) pairs).
Proof.
  intros M R HL pairs. cbn zeta. change (MonitorTick true :: ?l) with ([MonitorTick true] ++ l).
  rewrite !run_app. cbn [run foldl step monitor_step]. rewrite M. unfold attempt_recovery. rewrite R. cbn [andb].
  set (s0 := set_monitor (Replaying (fm_queue s)) (set_queue [] s)).
  destruct (replay_all now answers (fm_queue s) s0) as (H1 & _ & H3 & H4); [done..|].
  unfold run in *. rewrite H1. cbn. by rewrite H3, H4.
Qed.

(** * The monitor that never looks *)

Definition blind (s : manager Wr) : Prop := fm_monitor s = Waiting false ∨ fm_monitor s = Gone.

Lemma step_monitor e s : blind s →
  blind (step e s) ∧ (fm_read_only s = true → fm_read_only (step e s) = true).
Proof.
  unfold blind. intros B.
  assert (HF : ∀ err now s0, fm_monitor (handle_primary_failure err now s0) = fm_monitor s0 ∧
    (fm_read_only s0 = true → fm_read_only (handle_primary_failure err now s0) = true)).
  { intros err now s0. unfold handle_primary_failure. by destruct (fm_read_only s0) eqn:E. }
  destruct e as [w|k answer now|answer now| |alive|answer now| |]; cbn [step]; try done.
  - unfold exec_end. destruct (_ !! _) as [[w ro]|]; [|done]. destruct ro; [done|]. destruct answer as [err|]; [|done].
    cbn. destruct (HF err now (set_calls (delete k (fm_calls s)) s)) as [-> H]. split; [exact B|exact H].
  - unfold query_db. destruct (fm_read_only s) eqn:E; [done|]. destruct answer as [err|]; [|done]. cbn.
    destruct (HF err now s) as [-> H]. by split.
  - unfold monitor_step. destruct B as [M|M]; rewrite !M; cbn; rewrite ?M; auto.
  - unfold monitor_step. destruct B as [M|M]; rewrite !M; cbn; rewrite ?M; auto.
  - unfold monitor_step. destruct B as [M|M]; rewrite !M; cbn; rewrite ?M; auto.
  - unfold monitor_step. destruct B as [M|M]; rewrite M; [|auto]. destruct (fm_closed s); cbn; rewrite ?M; auto.
Qed.

Lemma run_blind es s : blind s →
  blind (run es s) ∧ (fm_read_only s = true → fm_read_only (run es s) = true).
Proof.
  revert s. induction es as [|e es IH]; intros s B; [done|]. cbn [run foldl].
  destruct (step_monitor e s B) as [B' R']. destruct (IH _ B') as [B'' R'']. unfold run in *. auto.
Qed.

Lemma step_stuck e s : blind s → fm_read_only s = true → Forall (λ c, c.2 = true) (fm_calls s) →
  fm_primary (step e s) = fm_primary s ∧ Forall (λ c, c.2 = true) (fm_calls (step e s)).
Proof.
  unfold blind. intros B R F. destruct e as [w|k answer now|answer now| |alive|answer now| |]; cbn [step]; try done.
  - cbn. split; [done|]. apply Forall_app. split; [done|]. by repeat constructor.
  - unfold exec_end. destruct (_ !! _) as [[w ro]|] eqn:E; [|done].
    pose proof (Forall_lookup_1 _ _ _ _ F E) as H. cbn in H. subst ro. cbn. split; [done|]. by apply Forall_delete.
  - unfold query_db. by rewrite R.
  - unfold monitor_step. by destruct B as [-> | ->].
  - unfold monitor_step. by destruct B as [-> | ->].
  - unfold monitor_step. by destruct B as [-> | ->].
  - unfold monitor_step. destruct B as [-> | ->]; [|done]. by destruct (fm_closed s).
Qed.

Lemma run_stuck es s : blind s → fm_read_only s = true → Forall (λ c, c.2 = true) (fm_calls s) →
  fm_primary (run es s) = fm_primary s.
Proof.
  revert s. induction es as [|e es IH]; intros s B R F; [done|]. cbn [run foldl].
  destruct (step_stuck e s B R F) as [<- F']. destruct (step_monitor e s B) as [B' R'].
  unfold run in *. by apply IH; auto.
Qed.

(** When the monitor reaches its select before the first failure, as it does unless
    the database fails while the program starts, the channel it waits on never receives:
    whatever happens later it attempts no recovery, the read-only mode never ends, and
    once the calls that began before the failure are done no write reaches the primary. *)
Theorem failover_never_recovers (es es' : list (event Wr)) :
  let s := run (MonitorSelect :: es) new_failover_manager in
  let s' := run es' s in
  (fm_monitor s' = Waiting false ∨ fm_monitor s' = Gone) ∧
  (fm_read_only s = true → fm_read_only s' = true) ∧
  (fm_read_only s = true → Forall (λ c, c.2 = true) (fm_calls s) → fm_primary s' = fm_primary s).
Proof.
  intros s s'. assert (B : blind s).
  { unfold s. cbn [run foldl step monitor_step new_failover_manager fm_monitor].
    apply (run_blind es (set_monitor (Waiting false) new_failover_manager)). by left. }
  destruct (run_blind es' s B) as [B' R']. split_and!; [exact B'|exact R'|]. intros R F. by apply run_stuck.
Qed.
End Laws.

(** A replay that fails, and a failure the monitor sleeps through. *)
Lemma recovery_replays_witness :
  let s := Manager true [Queued 7 0; Queued 8 0] (Some "down") 0 true false (Waiting true) [] [] : manager Z in
  fm_primary (run (MonitorTick true :: replays 0 [Some "locked"; None] ++ [MonitorReplay None 0]) s) = [8].
Proof.
  exact (proj1 (proj2 (recovery_replays 0 [Some "locked"; None]
    (Manager true [Queued 7 0; Queued 8 0] (Some "down") 0 true false (Waiting true) [] []) eq_refl eq_refl eq_refl))).
Defined.

Example sleeping_monitor :
  let s := run [MonitorSelect; ExecStart 7; ExecEnd 0 (Some "down") 0; MonitorTick true; ExecStart 8; ExecEnd 0 None 0]
             (new_failover_manager : manager Z) in
  (fm_read_only s, fm_primary s, map q_write (fm_queue s)) = (true, [], [7; 8]).
Proof. reflexivity. Qed.
