(* ===== verification/Notifications.v ===== *)
(** Stored notifications (src/server/model/notification.go): the rows of one recipient
    table, what the two models write and read, the page and the counters computed in Go,
    and the preferences.  UserNotificationModel and AdminNotificationModel are the same
    code on user_notifications and server_admin_notifications; each operation is stated
    once for a table and named again for the other one.  Identifiers are ULIDs the caller
    draws; the JSON text of an action and the engine's ORDER BY are parameters. *)
From S2P Require Import Prelude GoStrings GoTime Sql DbTime.
Open Scope Z_scope.

(** * Data *)

(** Notification types and displays, with the CHECK of the schema. *)
Definition notification_types : list string := ["success"; "info"; "warning"; "error"; "security"].
Definition notification_displays : list string := ["toast"; "banner"; "center"].

(** NotificationAction *)
Record notification_action := NotificationAction { na_label : string; na_url : string }.

(** The columns of a row besides its id and expires_at. *)
Record notif_cols := NotifCols {
  n_owner : Z; n_type : string; n_display : string; n_title : string; n_message : string;
  n_action : option string; n_read : bool; n_dismissed : bool; n_created : scanned
}.
Abbreviation notif_row := (row notif_cols).

(** Notification *)
Record notification := Notification {
  no_id : string; no_owner : Z; no_type : string; no_display : string; no_title : string;
  no_message : string; no_action : option notification_action; no_read : bool; no_dismissed : bool;
  no_created : instant; no_expires : option instant
}.

(** NotificationPreferences *)
Record preferences := Preferences {
  p_toast : bool; p_banner : bool; p_center : bool; p_sound : bool;
  p_success : Z; p_info : Z; p_warning : Z
}.
Record pref_row := PrefRow { pr_prefs : preferences; pr_updated : scanned }.

(** One database as the models see it. *)
Record notif_tables := NotifTables { t_rows : list notif_row; t_prefs : gmap Z pref_row }.
Definition put_rows (l : list notif_row) (t : notif_tables) : notif_tables := NotifTables l (t_prefs t).

(** NotificationStatistics *)
Record statistics := Statistics {
  s_total : nat; s_unread : nat; s_read : nat; s_by_type : gmap string nat; s_by_display : gmap string nat
}.

Inductive model_error := DriverError | NotFound | NotOwned | EncodeFailed.

(** The id of a row as text: the column is TEXT. *)
Definition id_text (r : notif_row) : string :=
  match r_id r with VText s | VBytes s => s | _ => "" end.

Definition set_flags (read dismissed : bool) (r : notif_row) : notif_row :=
  let c := r_rest r in
  Row (r_id r) (r_stamp r) (NotifCols (n_owner c) (n_type c) (n_display c) (n_title c) (n_message c)
    (n_action c) read dismissed (n_created c)).
Definition mark_read (r : notif_row) : notif_row := set_flags true (n_dismissed (r_rest r)) r.
Definition mark_dismissed (r : notif_row) : notif_row := set_flags (n_read (r_rest r)) true r.

Definition owned_by (owner : Z) (r : notif_row) : bool := n_owner (r_rest r) =? owner.
Definition is_target (id : string) (owner : Z) (r : notif_row) : bool :=
  str_eqb (id_text r) id && owned_by owner r.
Definition unseen (r : notif_row) : bool := negb (n_read (r_rest r)) && negb (n_dismissed (r_rest r)).

(** A row whose expires_at parses to an instant after [now]: the test of every read. *)
Definition live (now : instant) (r : notif_row) : bool :=
  match parse_stored_timestamp (r_stamp r) with Some e => now <? e | None => false end.

(** * Reading rows in Go *)

Section Reading.
Context (decode_action : string → option notification_action).

Definition decode_row (r : notif_row) : notification :=
  let c := r_rest r in
  Notification (id_text r) (n_owner c) (n_type c) (n_display c) (n_title c) (n_message c)
    (match n_action c with Some j => if is_empty j then None else decode_action j | None => None end)
    (n_read c) (n_dismissed c) (default zero_time (parse_stored_timestamp (n_created c)))
    (parse_stored_timestamp (r_stamp r)).

(** scanUnexpiredNotifications: the loop, with what it has skipped and taken *)
Fixpoint scan_loop (now : instant) (offset limit : Z) (skipped : Z) (taken : list notification)
    (rows : list notif_row) : list notification :=
  match rows with
  | [] => taken
  | r :: rows =>
      if negb (live now r) then scan_loop now offset limit skipped taken rows
      else if skipped <? offset then scan_loop now offset limit (skipped + 1) taken rows
      else
        let taken := taken ++ [decode_row r] in
        if (0 <? limit) && (limit <=? Z.of_nat (length taken)) then taken
        else scan_loop now offset limit skipped taken rows
  end.
Definition scan_unexpired (now : instant) (offset limit : Z) (rows : list notif_row) : list notification :=
  if limit =? 0 then []
  else scan_loop now (if offset <? 0 then 0 else offset) limit 0 [] rows.
Definition no_notification_limit : Z := -1.

(** countUnexpiredRows *)
Definition count_unexpired (now : instant) (rows : list notif_row) : nat :=
  foldl (λ n r, if live now r then S n else n) 0%nat rows.

(** tallyNotificationStatistics *)
Definition bump (k : string) (m : gmap string nat) : gmap string nat := <[k := S (default 0%nat (m !! k))]> m.
Definition tally_row (now : instant) (s : statistics) (r : notif_row) : statistics :=
  if live now r then
    let c := r_rest r in
    Statistics (S (s_total s)) (if unseen r then S (s_unread s) else s_unread s)
      (if n_read c then S (s_read s) else s_read s)
      (bump (n_type c) (s_by_type s)) (bump (n_display c) (s_by_display s))
  else s.
Definition tally (now : instant) (rows : list notif_row) : statistics :=
  foldl (tally_row now) (Statistics 0 0 0 ∅ ∅) rows.
End Reading.
Arguments no_notification_limit : simpl never.

(** * The operations of a model on its table *)

Section Model.
Context `{Database W notif_tables}.
Context (encode_action : notification_action → option string)
  (decode_action : string → option notification_action).
(** ORDER BY created_at DESC *)
Context (newest_first : list notif_row → list notif_row).

(** GetByID *)
Definition get_by_id (id : string) (w : W) : result model_error notification * W :=
  let '(rows, w) := query (λ t, filter (λ r, id_text r = id) (t_rows t)) w in
  match rows with
  | None => (Fail DriverError, w)
  | Some [] => (Fail NotFound, w)
  | Some (r :: _) => (Ok (decode_row decode_action r), w)
  end.

(** time.Now().AddDate(0, 0, 30), in the process's location *)
Definition expires_at (loc : location) (now : instant) : instant :=
  from_local loc (local_ns loc now + 30 * day_ns).

(** INSERT, unless the key exists or a CHECK of the schema fails *)
Definition insert_row (r : notif_row) (t : notif_tables) : bool * notif_tables :=
  if bool_decide (n_type (r_rest r) ∈ notification_types) &&
     bool_decide (n_display (r_rest r) ∈ notification_displays) &&
     negb (existsb (λ r', str_eqb (id_text r') (id_text r)) (t_rows t))
  then (true, put_rows (t_rows t ++ [r]) t)
  else (false, t).

(** CreateUserNotification; [id] is the ULID drawn, [now1] and [now2] the two readings of
    the clock *)
Definition create_notification (id : string) (loc : location) (now1 now2 : instant) (owner : Z)
    (type display title message : string) (action : option notification_action) (w : W)
  : result model_error notification * W :=
  let expires := expires_at loc now1 in
  match match action with None => Some None | Some a => Some <$> encode_action a end with
  | None => (Fail EncodeFailed, w)
  | Some action_json =>
      let r := Row (VText id) (VText (format_sql_timestamp expires))
        (NotifCols owner type display title message action_json false false
           (VText (format_sql_timestamp now2))) in
      let '(done_, w) := exec (insert_row r) w in
      match done_ with
      | Some true => get_by_id id w
      | _ => (Fail DriverError, w)
      end
  end.

(** GetByUserID *)
Definition get_by_owner (owner limit offset : Z) (now : instant) (w : W)
  : option (list notification) * W :=
  let '(rows, w) := query (λ t, newest_first
    (filter (λ r, owned_by owner r && bool_decide (r_stamp r ≠ VNull) = true) (t_rows t))) w in
  ((λ rows, scan_unexpired decode_action now offset limit rows) <$> rows, w).

(** GetUnread *)
Definition unread_rows (owner : Z) (t : notif_tables) : list notif_row :=
  filter (λ r, owned_by owner r && unseen r && bool_decide (r_stamp r ≠ VNull) = true) (t_rows t).
Definition get_unread (owner : Z) (now : instant) (w : W) : option (list notification) * W :=
  let '(rows, w) := query (λ t, newest_first (unread_rows owner t)) w in
  ((λ rows, scan_unexpired decode_action now 0 no_notification_limit rows) <$> rows, w).

(** GetUnreadCount *)
Definition get_unread_count (owner : Z) (now : instant) (w : W) : option nat * W :=
  let '(rows, w) := query (unread_rows owner) w in (count_unexpired now <$> rows, w).

(** An UPDATE of the rows a test selects, with the number of rows affected. *)
Definition update_rows (p : notif_row → bool) (f : notif_row → notif_row) (t : notif_tables)
  : nat * notif_tables :=
  (length (filter (λ r, p r = true) (t_rows t)),
   put_rows (map (λ r, if p r then f r else r) (t_rows t)) t).
Definition affected (n : option nat) : result model_error unit :=
  match n with None => Fail DriverError | Some 0%nat => Fail NotOwned | Some _ => Ok tt end.

(** MarkAsRead *)
Definition mark_as_read (id : string) (owner : Z) (w : W) : result model_error unit * W :=
  let '(n, w) := exec (update_rows (is_target id owner) mark_read) w in (affected n, w).

(** MarkAllAsRead *)
Definition mark_all_as_read (owner : Z) (w : W) : result model_error unit * W :=
  let '(n, w) := exec (update_rows (λ r, owned_by owner r && negb (n_read (r_rest r))) mark_read) w in
  (match n with None => Fail DriverError | Some _ => Ok tt end, w).

(** Dismiss *)
Definition dismiss (id : string) (owner : Z) (w : W) : result model_error unit * W :=
  let '(n, w) := exec (update_rows (is_target id owner) mark_dismissed) w in (affected n, w).

(** A DELETE of the rows a test selects. *)
Definition delete_rows (p : notif_row → bool) (t : notif_tables) : nat * notif_tables :=
  (length (filter (λ r, p r = true) (t_rows t)),
   put_rows (filter (λ r, p r = false) (t_rows t)) t).

(** DeleteUserNotification *)
Definition delete_notification (id : string) (owner : Z) (w : W) : result model_error unit * W :=
  let '(n, w) := exec (delete_rows (is_target id owner)) w in (affected n, w).

(** CleanupExpired, on the rows of the table *)
Definition cleanup_expired (now : instant) (w : W) : (nat * bool) * W :=
  @delete_rows_before _ _ (part_database t_rows put_rows) now true w.

(** EnforceLimit: LIMIT takes every row when it is negative *)
Definition sql_limit {A} (limit : Z) (l : list A) : list A :=
  if limit <? 0 then l else take (Z.to_nat limit) l.
Definition kept_ids (owner limit : Z) (t : notif_tables) : list string :=
  map id_text (sql_limit limit (newest_first (filter (λ r, owned_by owner r = true) (t_rows t)))).
Definition over_limit (owner limit : Z) (t : notif_tables) (r : notif_row) : bool :=
  owned_by owner r && negb (bool_decide (id_text r ∈ kept_ids owner limit t)).
Definition enforce_limit (owner limit : Z) (w : W) : option nat * W :=
  exec (λ t, delete_rows (over_limit owner limit t) t) w.

(** GetStatistics *)
Definition get_statistics (owner : Z) (now : instant) (w : W) : option statistics * W :=
  let '(rows, w) := query (λ t,
    filter (λ r, owned_by owner r && bool_decide (r_stamp r ≠ VNull) = true) (t_rows t)) w in
  (tally now <$> rows, w).

(** GetUserPreferences and UpdateUserPreferences: [None] as the error *)
Definition default_preferences : preferences := Preferences true true true false 5 5 10.
Definition get_preferences (owner : Z) (now : instant) (w : W) : option (preferences * instant) * W :=
  let '(r, w) := query (λ t, t_prefs t !! owner) w in
  match r with
  | None => (None, w)
  | Some None => (Some (default_preferences, now), w)
  | Some (Some p) =>
      (Some (pr_prefs p, default zero_time (parse_stored_timestamp (pr_updated p))), w)
  end.
Definition update_preferences (owner : Z) (p : preferences) (now : instant) (w : W) : bool * W :=
  let '(r, w) := exec (λ t, (tt, NotifTables (t_rows t)
    (<[owner := PrefRow p (VText (format_sql_timestamp now))]> (t_prefs t)))) w in
  (bool_decide (is_Some r), w).

(** scheduler/notification_cleanup.go: enforceRecipientLimits over the distinct
    recipients, which the engine lists in some order *)
Definition max_notifications_per_recipient : Z := 100.
Fixpoint enforce_each (ids : list Z) (total : nat) (w : W) : (nat * bool) * W :=
  match ids with
  | [] => ((total, true), w)
  | id :: ids =>
      let '(n, w) := enforce_limit id max_notifications_per_recipient w in
      match n with
      | None => ((total, false), w)
      | Some n => enforce_each ids (total + n) w
      end
  end.
Definition enforce_recipient_limits (distinct : list notif_row → list Z) (w : W) : (nat * bool) * W :=
  let '(ids, w) := query (λ t, distinct (t_rows t)) w in
  match ids with
  | None => ((0%nat, false), w)
  | Some ids => enforce_each ids 0 w
  end.
End Model.

(** * The page *)

(** The window of a list that LIMIT and OFFSET denote. *)
Definition window {A} (offset limit : Z) (l : list A) : list A :=
  if limit =? 0 then [] else sql_limit limit (drop (Z.to_nat offset) l).

Section Pages.
Context (decode_action : string → option notification_action).

Lemma scan_loop_spec now offset limit rows skipped taken :
  0 <= skipped <= offset → (0 < limit → Z.of_nat (length taken) < limit) →
  (taken = [] ∨ skipped = offset) →
  scan_loop decode_action now offset limit skipped taken rows =
    taken ++ map (decode_row decode_action)
      (sql_limit (if 0 <? limit then limit - Z.of_nat (length taken) else -1)
         (drop (Z.to_nat (offset - skipped)) (filter (λ r, live now r = true) rows))).
Proof.
  revert skipped taken. induction rows as [|r rows IH]; intros skipped taken Hs Hl Ht; cbn [scan_loop].
  { rewrite filter_nil, drop_nil. unfold sql_limit. case_match; by rewrite ?take_nil, app_nil_r. }
  rewrite filter_cons. destruct (live now r) eqn:L; cbn [negb]; [|rewrite decide_False by done; by apply IH].
  rewrite decide_True by done. destruct (skipped <? offset) eqn:S.
  { apply Z.ltb_lt in S. rewrite IH; [|lia|done|left; destruct Ht; [done|lia]].
    by replace (Z.to_nat (offset - skipped)) with (Datatypes.S (Z.to_nat (offset - (skipped + 1)))) by lia. }
  apply Z.ltb_ge in S. replace (offset - skipped) with 0 by lia. cbn [Z.to_nat drop].
  rewrite length_app. cbn [length]. destruct (0 <? limit) eqn:L0; cbn [andb].
  - apply Z.ltb_lt in L0. specialize (Hl L0). destruct (limit <=? _) eqn:L1.
    + apply Z.leb_le in L1. unfold sql_limit. replace (limit - _ <? 0) with false by (symmetry; apply Z.ltb_ge; lia).
      by replace (Z.to_nat (limit - Z.of_nat (length taken))) with 1%nat by lia.
    + apply Z.leb_gt in L1. rewrite IH; [|lia|rewrite length_app; cbn; lia|right; lia].
      replace (0 <? limit) with true by (symmetry; by apply Z.ltb_lt).
      rewrite length_app. cbn [length]. replace (offset - skipped) with 0 by lia. cbn [Z.to_nat drop].
      unfold sql_limit. replace (limit - _ <? 0) with false by (symmetry; apply Z.ltb_ge; lia).
      replace (limit - _ <? 0) with false by (symmetry; apply Z.ltb_ge; lia).
      replace (Z.to_nat (limit - Z.of_nat (length taken)))
        with (Datatypes.S (Z.to_nat (limit - Z.of_nat (length taken + 1)))) by lia.
      cbn [take map]. by rewrite <-app_assoc.
  - rewrite IH; [|lia|apply Z.ltb_ge in L0; lia|right; lia]. replace (offset - skipped) with 0 by lia.
    cbn. by rewrite <-app_assoc.
Qed.

Lemma scan_unexpired_spec now offset limit rows :
  scan_unexpired decode_action now offset limit rows =
    map (decode_row decode_action) (window offset limit (filter (λ r, live now r = true) rows)).
Proof.
  unfold scan_unexpired, window. destruct (limit =? 0) eqn:E; [done|]. apply Z.eqb_neq in E.
  rewrite scan_loop_spec; [|destruct (offset <? 0) eqn:O; [lia|apply Z.ltb_ge in O; lia]|cbn; lia|by left].
  cbn [app length].
  assert (HL : ∀ l : list notif_row, sql_limit (if 0 <? limit then limit - Z.of_nat 0 else -1) l = sql_limit limit l).
  { intros l. destruct (0 <? limit) eqn:L; [by replace (limit - Z.of_nat 0) with limit by lia|].
    apply Z.ltb_ge in L. unfold sql_limit. by replace (limit <? 0) with true by (symmetry; apply Z.ltb_lt; lia). }
  rewrite HL. do 3 f_equal. destruct (offset <? 0) eqn:O; [apply Z.ltb_lt in O|apply Z.ltb_ge in O]; lia.
Qed.
End Pages.

(** * Properties *)

Section Laws.
Context `{DatabaseLaws W notif_tables}.
(** * Changes by a recipient *)

Inductive change := MarkRead | Dismiss | Remove.
Definition apply_change (c : change) (id : string) (owner : Z) (w : W) : result model_error unit * W :=
  match c with
  | MarkRead => mark_as_read id owner w
  | Dismiss => dismiss id owner w
  | Remove => delete_notification id owner w
  end.
(** What is left of a row that is changed. *)
Definition changed (c : change) (r : notif_row) : list notif_row :=
  match c with MarkRead => [mark_read r] | Dismiss => [mark_dismissed r] | Remove => [] end.
Definition change_rows (c : change) (p : notif_row → bool) (rows : list notif_row) : list notif_row :=
  flat_map (λ r, if p r then changed c r else [r]) rows.

Lemma update_change c p t : c ≠ Remove →
  let f := match c with MarkRead => mark_read | _ => mark_dismissed end in
  update_rows p f t = (length (filter (λ r, p r = true) (t_rows t)), put_rows (change_rows c p (t_rows t)) t).
Proof.
  intros Hc f. unfold update_rows. do 2 f_equal. induction (t_rows t) as [|r l IH]; [done|].
  unfold change_rows in *. cbn [map flat_map]. rewrite IH. destruct (p r); [|done]. by destruct c.
Qed.

Lemma delete_change p t :
  delete_rows p t = (length (filter (λ r, p r = true) (t_rows t)), put_rows (change_rows Remove p (t_rows t)) t).
Proof.
  unfold delete_rows. do 2 f_equal. induction (t_rows t) as [|r l IH]; [done|].
  unfold change_rows in *. rewrite filter_cons. cbn [flat_map]. rewrite IH. by destruct (p r).
Qed.

Lemma no_target c p rows : length (filter (λ r, p r = true) rows) = 0%nat → change_rows c p rows = rows.
Proof.
  unfold change_rows. induction rows as [|r l IH]; [done|]. rewrite filter_cons. cbn [flat_map].
  destruct (p r); [done|]. intros HL. by rewrite IH.
Qed.

Lemma change_rows_others c (p : notif_row → bool) rows :
  (∀ r r', r' ∈ changed c r → p r' = p r) →
  filter (λ r, p r = false) (change_rows c p rows) = filter (λ r, p r = false) rows.
Proof.
  intros Hp. unfold change_rows. induction rows as [|r l IH]; [done|]. cbn [flat_map].
  rewrite filter_app, IH, (filter_cons _ r l). destruct (p r) eqn:T; cbn [filter].
  - rewrite filter_none; [done|]. intros r' Hr'. rewrite (Hp r r' Hr'). by rewrite T.
  - by rewrite filter_cons, T.
Qed.

Lemma apply_change_cases c id owner (w w' : W) r :
  apply_change c id owner w = (r, w') →
  (r = affected (Some (length (filter (λ r, is_target id owner r = true) (t_rows (tables w))))) ∧
   tables w' = put_rows (change_rows c (is_target id owner) (t_rows (tables w))) (tables w)) ∨
  (r = Fail DriverError ∧ tables w' = tables w).
Proof.
  destruct c; cbn [apply_change]; unfold mark_as_read, dismiss, delete_notification;
    exec_case w1 E Ht; intros [= <- <-]; auto; left.
  - rewrite (update_change MarkRead) in Ht by done. by injection Ht as <- <-.
  - rewrite (update_change Dismiss) in Ht by done. by injection Ht as <- <-.
  - rewrite delete_change in Ht. by injection Ht as <- <-.
Qed.

(** Marking as read, dismissing and deleting touch one's own notification and nothing
    else: success means a row with that id and owner existed, and exactly the rows with
    both are changed; without one the answer says so and nothing changes; and a driver
    error changes nothing.  Whatever the answer, no row of another owner or with another
    id is lost, added or altered. *)
Theorem change_own_only c id owner (w w' : W) r :
  apply_change c id owner w = (r, w') →
  let target := is_target id owner in
  filter (λ r, target r = false) (t_rows (tables w')) = filter (λ r, target r = false) (t_rows (tables w)) ∧
  t_prefs (tables w') = t_prefs (tables w) ∧
  match r with
  | Ok tt => (∃ r0, r0 ∈ t_rows (tables w) ∧ target r0 = true) ∧
             t_rows (tables w') = change_rows c target (t_rows (tables w))
  | Fail NotOwned => Forall (λ r0, target r0 = false) (t_rows (tables w)) ∧ tables w' = tables w
  | Fail e => e = DriverError ∧ tables w' = tables w
  end.
Proof.
  intros [[-> Ht]|[-> Ht]]%apply_change_cases target; rewrite Ht; cbn [t_rows put_rows t_prefs]; [|done].
  split_and!; [|done|].
  - apply change_rows_others. intros r r' Hr. unfold target.
    destruct c; apply list_elem_of_singleton in Hr || apply not_elem_of_nil in Hr; by subst.
  - unfold affected. destruct (length _) eqn:L.
    + split.
      * apply Forall_forall. intros r Hr. destruct (target r) eqn:T; [|done].
        apply length_zero_iff_nil in L. assert (r ∈ []) as []%not_elem_of_nil. rewrite <-L. by apply list_elem_of_filter.
      * rewrite no_target by done. by destruct (tables w).
    + split; [|done]. destruct (filter _ _) as [|r0 l] eqn:F; [done|]. exists r0.
      assert (Hr : r0 ∈ r0 :: l) by left. rewrite <-F in Hr. apply list_elem_of_filter in Hr. tauto.
Qed.

Context (encode_action : notification_action → option string)
  (decode_action : string → option notification_action).
(** The engine's order on the values of created_at. *)
Context (le : scanned → scanned → bool) (newest_first : list notif_row → list notif_row).
Definition no_older (a b : notif_row) : bool := le (n_created (r_rest b)) (n_created (r_rest a)).
Context `{!OrderBy no_older newest_first}.

Lemma live_stamp now r : live now r = true → r_stamp r ≠ VNull.
Proof. unfold live. intros L E. by rewrite E in L. Qed.

(** A page of notifications is the window that offset and limit denote of the owner's
    rows that are still live, in the order of created_at with the newest first: a limit
    of zero gives none, a negative one all that remain, a negative offset counts as zero,
    and rows without a readable expiry never appear. *)
Theorem page_correct owner limit offset now (w w' : W) page :
  get_by_owner decode_action newest_first owner limit offset now w = (Some page, w') →
  ∃ rows, rows ≡ₚ filter (λ r, owned_by owner r && live now r = true) (t_rows (tables w)) ∧
    StronglySorted (λ a b, no_older a b = true) rows ∧
    page = map (decode_row decode_action) (window offset limit rows) ∧
    tables w' = tables w.
Proof.
  unfold get_by_owner. exec_case w1 E Ht; [|done]. cbn [fmap option_fmap option_map]. intros [= <- <-].
  set (sel := filter (λ r, owned_by owner r && bool_decide (r_stamp r ≠ VNull) = true) (t_rows (tables w))).
  exists (filter (λ r, live now r = true) (newest_first sel)). split_and!.
  - rewrite order_perm. unfold sel. rewrite list_filter_filter. rewrite (filter_ext_in _ (λ r, owned_by owner r && live now r = true)); [done|].
    intros r _. rewrite !andb_true_iff, bool_decide_eq_true. split; [tauto|]. intros [Ho L]. eauto using live_stamp.
  - apply StronglySorted_filter, order_sorted.
  - apply scan_unexpired_spec.
  - done.
Qed.

(** * The limit *)

Definition mine (owner : Z) (rows : list notif_row) : list notif_row := filter (λ r, owned_by owner r = true) rows.
Definition others (owner : Z) (rows : list notif_row) : list notif_row := filter (λ r, owned_by owner r = false) rows.
Definition ids_unique (rows : list notif_row) : Prop := NoDup (map id_text rows).

Lemma id_text_inj rows r r' : ids_unique rows → r ∈ rows → r' ∈ rows → id_text r = id_text r' → r = r'.
Proof.
  intros ND Hr Hr' E. apply list_elem_of_lookup in Hr as [i Hi], Hr' as [j Hj].
  assert (i = j) as ->; [|congruence].
  by apply (NoDup_lookup _ i j (id_text r) ND); rewrite list_lookup_fmap; [rewrite Hi|rewrite Hj; cbn; rewrite E].
Qed.

Lemma ids_unique_rows rows : ids_unique rows → NoDup rows.
Proof. apply NoDup_fmap_1. Qed.

Lemma ids_unique_filter (P : notif_row → Prop) `{∀ r, Decision (P r)} rows :
  ids_unique rows → ids_unique (filter P rows).
Proof. apply NoDup_map_filter. Qed.

Lemma sql_limit_split {A} limit (l : list A) : ∃ rest, l = sql_limit limit l ++ rest.
Proof.
  unfold sql_limit. destruct (limit <? 0); [exists []; by rewrite app_nil_r|].
  exists (drop (Z.to_nat limit) l). by rewrite take_drop.
Qed.

Lemma sql_limit_length {A} limit (l : list A) :
  length (sql_limit limit l) = if limit <? 0 then length l else (Z.to_nat limit `min` length l)%nat.
Proof. unfold sql_limit. destruct (limit <? 0); [done|]. apply length_take. Qed.

Lemma enforce_limit_spec owner limit (w w' : W) n :
  ids_unique (t_rows (tables w)) → enforce_limit newest_first owner limit w = (Some n, w') →
  let rows := t_rows (tables w) in
  let kept := sql_limit limit (newest_first (mine owner rows)) in
  others owner (t_rows (tables w')) = others owner rows ∧ t_prefs (tables w') = t_prefs (tables w) ∧
  mine owner (t_rows (tables w')) ≡ₚ kept ∧
  (n + length (t_rows (tables w')) = length rows)%nat ∧ ids_unique (t_rows (tables w')).
Proof.
  intros ND E rows kept. unfold enforce_limit in E. apply exec_ok in E. unfold delete_rows in E. injection E as <- Ht.
  rewrite <-Ht. cbn [t_rows t_prefs put_rows]. fold rows.
  set (gone := over_limit newest_first owner limit (tables w)).
  assert (Hk : ∀ r, r ∈ rows → gone r = false ↔ owned_by owner r = false ∨ r ∈ kept).
  { intros r Hr. unfold gone, over_limit. rewrite andb_false_iff, negb_false_iff, bool_decide_eq_true.
    assert (Hm : id_text r ∈ kept_ids newest_first owner limit (tables w) ↔ r ∈ kept).
    { unfold kept_ids. fold rows. change (filter _ rows) with (mine owner rows). fold kept.
      rewrite list_elem_of_fmap. split; [intros (r' & E & Hr')|intros; by exists r].
      assert (r' ∈ rows) as Hin; [|by rewrite (id_text_inj rows r r' ND Hr Hin E)].
      destruct (sql_limit_split limit (newest_first (mine owner rows))) as [rest Es].
      assert (Hn : r' ∈ newest_first (mine owner rows)) by (rewrite Es; apply elem_of_app; by left).
      rewrite order_perm in Hn. by apply list_elem_of_filter in Hn as [_ ?]. }
    by rewrite Hm. }
  split_and!.
  - unfold others. rewrite list_filter_filter. apply filter_ext_in. intros r Hr. rewrite (Hk r Hr). tauto.
  - done.
  - apply NoDup_Permutation.
    + apply NoDup_filter, NoDup_filter, ids_unique_rows, ND.
    + destruct (sql_limit_split limit (newest_first (mine owner rows))) as [rest Es].
      assert (Hn : NoDup (newest_first (mine owner rows))) by (rewrite order_perm; apply NoDup_filter, ids_unique_rows, ND).
      rewrite Es in Hn. by apply NoDup_app in Hn as [? _].
    + intros r. unfold mine at 1. rewrite !list_elem_of_filter. split.
      * intros (Ho & Hg & Hr). apply Hk in Hg as [Hg|Hg]; [congruence|done|done].
      * intros Hr. destruct (sql_limit_split limit (newest_first (mine owner rows))) as [rest Es].
        assert (Hn : r ∈ newest_first (mine owner rows)) by (rewrite Es; apply elem_of_app; by left).
        rewrite order_perm in Hn. apply list_elem_of_filter in Hn as [Ho Hin]. split_and!; [done| |done].
        apply Hk; auto.
  - clear. induction rows as [|r l IH]; [done|]. rewrite !filter_cons. repeat case_decide; cbn [length]; try lia; by destruct (gone r).
  - by apply ids_unique_filter.
Qed.

(** EnforceLimit leaves the recipient's newest rows by created_at, as many as the limit
    (all of them for a negative one), and every row of everybody else; no row it deletes
    is newer than one it keeps, and the number it reports is the number of rows gone. *)
Theorem enforce_limit_correct owner limit (w w' : W) n :
  ids_unique (t_rows (tables w)) → enforce_limit newest_first owner limit w = (Some n, w') →
  let rows := t_rows (tables w) in
  let rows' := t_rows (tables w') in
  others owner rows' = others owner rows ∧
  length (mine owner rows') =
    (if limit <? 0 then length (mine owner rows) else (Z.to_nat limit `min` length (mine owner rows))%nat) ∧
  (∀ kept gone, kept ∈ mine owner rows' → gone ∈ mine owner rows → ¬ (gone ∈ rows') →
     kept ∈ rows ∧ no_older kept gone = true) ∧
  (n + length rows' = length rows)%nat.
Proof.
  intros ND E rows rows'. destruct (enforce_limit_spec _ _ _ _ _ ND E) as (H1 & _ & H3 & H4 & _).
  fold rows rows' in H1, H3, H4.
  destruct (sql_limit_split limit (newest_first (mine owner rows))) as [rest Es].
  split_and!; [done| | |done].
  - rewrite H3, sql_limit_length. by rewrite (Permutation_length (order_perm (mine owner rows))).
  - intros kept gone Hk Hg Hn. rewrite H3 in Hk. split.
    + assert (Hin : kept ∈ newest_first (mine owner rows)) by (rewrite Es; apply elem_of_app; by left).
      rewrite order_perm in Hin. by apply list_elem_of_filter in Hin as [_ ?].
    + pose proof (order_sorted (mine owner rows)) as Hs. rewrite Es in Hs.
      apply (StronglySorted_app_1_elem_of _ _ _ _ _ Hs Hk). assert (Hin : gone ∈ mine owner rows) by done.
      rewrite <-(order_perm (mine owner rows)), Es in Hin. apply elem_of_app in Hin as [Hin|Hin]; [|done].
      exfalso. rewrite <-H3 in Hin. apply list_elem_of_filter in Hin as [_ Hin]. contradiction.
Qed.

(** The rows of each recipient after a sweep over [ids]. *)
Lemma enforce_each_spec ids total (w w' : W) n ok :
  ids_unique (t_rows (tables w)) → enforce_each newest_first ids total w = ((n, ok), w') →
  ids_unique (t_rows (tables w')) ∧
  (n + length (t_rows (tables w')) = total + length (t_rows (tables w)))%nat ∧
  (∀ owner, length (mine owner (t_rows (tables w'))) ≤ length (mine owner (t_rows (tables w))))%nat ∧
  (∀ owner, (length (mine owner (t_rows (tables w))) ≤ 100)%nat →
     mine owner (t_rows (tables w')) ≡ₚ mine owner (t_rows (tables w))) ∧
  (ok = true → ∀ owner, owner ∈ ids → (length (mine owner (t_rows (tables w'))) ≤ 100)%nat).
Proof.
  revert total w. induction ids as [|id ids IH]; intros total w ND; cbn [enforce_each].
  { intros [= <- <- <-]. split_and!; auto. by intros _ owner ?%not_elem_of_nil. }
  destruct (enforce_limit newest_first id max_notifications_per_recipient w) as [[k|] w1] eqn:E.
  2:{ intros [= <- <- <-]. apply exec_fail in E. rewrite E. split_and!; auto. done. }
  intros Hrun. destruct (enforce_limit_spec _ _ _ _ _ ND E) as (H1 & _ & H3 & H4 & ND1).
  destruct (IH _ _ ND1 Hrun) as (ND' & Hn & Hle & Hsmall & Hok).
  set (rows := t_rows (tables w)) in *. set (rows1 := t_rows (tables w1)) in *.
  assert (Hother : ∀ owner, owner ≠ id → mine owner rows1 = mine owner rows).
  { intros owner Hne. assert (Hf : ∀ l, mine owner l = mine owner (others id l)).
    { intros l. unfold mine, others. rewrite list_filter_filter. apply filter_ext_in. intros r _. unfold owned_by.
      rewrite Z.eqb_eq, Z.eqb_neq. split; [intros ->; split; auto|tauto]. }
    by rewrite (Hf rows1), (Hf rows), H1. }
  assert (Hlen : length (mine id rows1) = (100 `min` length (mine id rows))%nat).
  { rewrite H3, sql_limit_length. by rewrite (Permutation_length (order_perm (mine id rows))). }
  assert (Hid : (length (mine id rows) ≤ 100)%nat → mine id rows1 ≡ₚ mine id rows).
  { intros Hl. rewrite H3. unfold sql_limit. cbn. rewrite take_ge; [apply order_perm|].
    rewrite (Permutation_length (order_perm (mine id rows))). exact Hl. }
  split_and!; [done|lia| | |].
  - intros owner. specialize (Hle owner). destruct (decide (owner = id)) as [->|Hne]; [lia|]. by rewrite <-(Hother owner Hne).
  - intros owner Hl. destruct (decide (owner = id)) as [->|Hne].
    + rewrite Hsmall; [by apply Hid|]. by rewrite (Hid Hl).
    + rewrite Hsmall; rewrite (Hother owner Hne); done.
  - intros -> owner [->|Hin]%elem_of_cons; [|by apply Hok]. specialize (Hle id). lia.
Qed.

(** The nightly sweep over the recipients a table names: however it ends, its total is
    the number of rows gone, and no recipient within the limit loses a row; when it ends
    without an error every recipient has at most a hundred. *)
Theorem recipients_limited (distinct : list notif_row → list Z) (w w' : W) n ok :
  ids_unique (t_rows (tables w)) → (∀ rows r, r ∈ rows → n_owner (r_rest r) ∈ distinct rows) →
  enforce_recipient_limits newest_first distinct w = ((n, ok), w') →
  (n + length (t_rows (tables w')) = length (t_rows (tables w)))%nat ∧
  (∀ owner, (length (mine owner (t_rows (tables w))) ≤ 100)%nat →
     mine owner (t_rows (tables w')) ≡ₚ mine owner (t_rows (tables w))) ∧
  (ok = true → ∀ owner, (length (mine owner (t_rows (tables w'))) ≤ 100)%nat).
Proof.
  intros ND Hd. unfold enforce_recipient_limits. exec_case w1 E Ht; [|intros [= <- <- <-]; by rewrite Ht].
  intros Hrun. rewrite <-Ht in ND. destruct (enforce_each_spec _ _ _ _ _ _ ND Hrun) as (_ & Hn & Hle & Hs & Hok).
  rewrite Ht in Hn, Hle, Hs. split_and!; [exact Hn|exact Hs|]. intros Hb owner.
  destruct (mine owner (t_rows (tables w))) as [|r l] eqn:M.
  - specialize (Hle owner). rewrite M in Hle. cbn in Hle. lia.
  - apply Hok; [done|]. assert (Hr : r ∈ mine owner (t_rows (tables w))) by (rewrite M; left).
    apply list_elem_of_filter in Hr as [<-%Z.eqb_eq Hin]. by apply Hd.
Qed.

(** * Counters *)

Lemma count_unexpired_spec now rows : count_unexpired now rows = length (filter (λ r, live now r = true) rows).
Proof.
  unfold count_unexpired. change (length (filter (λ r, live now r = true) rows)) with (0 + length (filter (λ r, live now r = true) rows))%nat.
  generalize 0%nat. induction rows as [|r l IH]; intros k; [cbn; lia|]. cbn [foldl]. rewrite IH, filter_cons.
  destruct (live now r); [rewrite decide_True by done; cbn; lia|by rewrite decide_False].
Qed.

Definition counts (k : string) (f : notif_cols → string) (rows : list notif_row) : nat :=
  length (filter (λ r, f (r_rest r) = k) rows).

Lemma bump_lookup k k' m : default 0%nat (bump k m !! k') = (default 0%nat (m !! k') + if decide (k = k') then 1 else 0)%nat.
Proof.
  unfold bump. destruct (decide (k = k')) as [->|Hne]; [rewrite lookup_insert_eq; cbn; lia|].
  rewrite lookup_insert_ne by done. lia.
Qed.

Lemma tally_spec now rows s :
  let s' := foldl (tally_row now) s rows in
  let alive := filter (λ r, live now r = true) rows in
  s_total s' = (s_total s + length alive)%nat ∧
  s_unread s' = (s_unread s + length (filter (λ r, unseen r = true) alive))%nat ∧
  s_read s' = (s_read s + length (filter (λ r, n_read (r_rest r) = true) alive))%nat ∧
  (∀ k, default 0%nat (s_by_type s' !! k) = (default 0%nat (s_by_type s !! k) + counts k n_type alive)%nat) ∧
  (∀ k, default 0%nat (s_by_display s' !! k) = (default 0%nat (s_by_display s !! k) + counts k n_display alive)%nat).
Proof.
  unfold counts. revert s. induction rows as [|r l IH]; intros s; cbn zeta; [cbn; split_and!; intros; lia|].
  cbn [foldl]. destruct (IH (tally_row now s r)) as (H1 & H2 & H3 & H4 & H5). rewrite H1, H2, H3.
  unfold tally_row in *. rewrite filter_cons. destruct (live now r) eqn:L.
  2:{ rewrite decide_False by done. split_and!; auto. }
  rewrite decide_True by done. rewrite !filter_cons. cbn [s_total s_unread s_read s_by_type s_by_display length] in *.
  split_and!; [lia|destruct (unseen r); [rewrite decide_True by done|rewrite decide_False by done]; cbn; lia
              |destruct (n_read (r_rest r)); [rewrite decide_True by done|rewrite decide_False by done]; cbn; lia
              |intros k; rewrite H4|intros k; rewrite H5]; rewrite bump_lookup, filter_cons; repeat case_decide; cbn [length]; lia || done.
Qed.

(** The counters of the notification centre agree: when the three queries of one
    recipient succeed on the same rows, the number the statistics call unread, the unread
    count and the length of the unread list are one number, the total is the number of
    live rows, and each type and each display is counted exactly. *)
Theorem counters_agree owner now (w w1 w2 w3 : W) s n unread :
  get_statistics owner now w = (Some s, w1) →
  get_unread_count owner now w1 = (Some n, w2) →
  get_unread decode_action newest_first owner now w2 = (Some unread, w3) →
  let alive := filter (λ r, live now r = true) (mine owner (t_rows (tables w))) in
  n = s_unread s ∧ length unread = n ∧ s_total s = length alive ∧
  (∀ k, default 0%nat (s_by_type s !! k) = counts k n_type alive) ∧
  (∀ k, default 0%nat (s_by_display s !! k) = counts k n_display alive).
Proof.
  unfold get_statistics. exec_case v1 E1 Ht1; [|done]. cbn [fmap option_fmap option_map]. intros [= <- <-].
  unfold get_unread_count. exec_case v2 E2 Ht2; [|done]. cbn [fmap option_fmap option_map]. intros [= <- <-].
  unfold get_unread. exec_case v3 E3 Ht3; [|done]. cbn [fmap option_fmap option_map]. intros [= <- <-].
  rewrite Ht2, Ht1. set (alive := filter (λ r, live now r = true) (mine owner (t_rows (tables w)))). set (sel := filter (λ r, owned_by owner r && bool_decide (r_stamp r ≠ VNull) = true) (t_rows (tables w))).
  assert (Ha : filter (λ r, live now r = true) sel = alive).
  { unfold sel, alive, mine. rewrite !list_filter_filter. apply filter_ext_in. intros r _.
    rewrite andb_true_iff, bool_decide_eq_true. split; [tauto|]. intros [L ?]. eauto using live_stamp. }
  assert (Hu : filter (λ r, live now r = true) (unread_rows owner (tables w)) = filter (λ r, unseen r = true) alive).
  { unfold unread_rows, alive, mine. rewrite !list_filter_filter. apply filter_ext_in. intros r _.
    rewrite !andb_true_iff, bool_decide_eq_true. split; [tauto|]. intros [[? L] ?]. eauto using live_stamp. }
  destruct (tally_spec now sel (Statistics 0 0 0 ∅ ∅)) as (H1 & H2 & _ & H4 & H5). rewrite Ha in *.
  unfold tally. split_and!.
  - by rewrite count_unexpired_spec, Hu, H2.
  - rewrite scan_unexpired_spec, length_map, count_unexpired_spec. unfold window, no_notification_limit. cbn [Z.eqb].
    unfold sql_limit. cbn. by rewrite drop_0, (order_perm (order := newest_first) (unread_rows owner (tables w))).
  - exact H1.
  - intros k. rewrite H4. cbn [s_by_type]. by rewrite lookup_empty.
  - intros k. rewrite H5. cbn [s_by_display]. by rewrite lookup_empty.
Qed.

(** * Creation *)

(** The row a creation writes. *)
Definition new_row (id : string) (loc : location) (now1 now2 : instant) (owner : Z)
    (type display title message : string) (action_json : option string) : notif_row :=
  Row (VText id) (VText (format_sql_timestamp (expires_at loc now1)))
    (NotifCols owner type display title message action_json false false (VText (format_sql_timestamp now2))).

Lemma insert_row_cases r t b t' : insert_row r t = (b, t') →
  (b = true ∧ t' = put_rows (t_rows t ++ [r]) t ∧ Forall (λ r', id_text r' ≠ id_text r) (t_rows t) ∧
   n_type (r_rest r) ∈ notification_types ∧ n_display (r_rest r) ∈ notification_displays) ∨
  (b = false ∧ t' = t).
Proof.
  unfold insert_row. destruct (_ && _) eqn:E; intros [= <- <-]; [left|by right].
  apply andb_true_iff in E as [[?%bool_decide_eq_true ?%bool_decide_eq_true]%andb_true_iff E].
  split_and!; try done. apply Forall_forall. intros r' Hr' Heq. apply negb_true_iff in E.
  assert (existsb (λ r', str_eqb (id_text r') (id_text r)) (t_rows t) = true); [|congruence].
  apply existsb_exists. exists r'. split; [by apply list_elem_of_In|]. by apply bool_decide_eq_true.
Qed.

Lemma get_by_id_cases id (w w' : W) r : get_by_id decode_action id w = (r, w') →
  tables w' = tables w ∧
  match r with
  | Ok n => ∃ row rest, filter (λ r, id_text r = id) (t_rows (tables w)) = row :: rest ∧ n = decode_row decode_action row
  | Fail NotFound => filter (λ r, id_text r = id) (t_rows (tables w)) = []
  | Fail e => e = DriverError
  end.
Proof.
  unfold get_by_id. exec_case w1 E Ht; [|by intros [= <- <-]].
  destruct (filter _ _) as [|row rest] eqn:F; intros [= <- <-]; [done|]. split; [done|]. eauto.
Qed.

Lemma create_cases id loc now1 now2 owner ty disp title msg action (w w' : W) r :
  create_notification encode_action decode_action id loc now1 now2 owner ty disp title msg action w = (r, w') →
  (tables w' = tables w ∧ ∃ e, r = Fail e ∧ (e = EncodeFailed ∨ e = DriverError)) ∨
  (∃ json, match action with None => json = None | Some a => json = encode_action a ∧ is_Some json end ∧
    let row := new_row id loc now1 now2 owner ty disp title msg json in
    ty ∈ notification_types ∧ disp ∈ notification_displays ∧
    Forall (λ r', id_text r' ≠ id) (t_rows (tables w)) ∧
    tables w' = put_rows (t_rows (tables w) ++ [row]) (tables w) ∧
    (r = Ok (decode_row decode_action row) ∨ r = Fail DriverError)).
Proof.
  unfold create_notification.
  destruct (match action with None => _ | Some a => _ end) as [json|] eqn:J.
  2:{ intros [= <- <-]. left. split; [done|]. eauto. }
  fold (new_row id loc now1 now2 owner ty disp title msg json).
  exec_case w1 E Ht; [|intros [= <- <-]; left; split; [done|]; eauto].
  apply insert_row_cases in Ht as [(-> & Ht & Hf & Hty & Hd)|(-> & Ht)];
    [|intros [= <- <-]; left; split; [done|]; eauto].
  intros [Ht' Hr]%get_by_id_cases. right. exists json. split.
  { destruct action as [a|]; [|congruence]. destruct (encode_action a); cbn in J; [|done]. injection J as <-. eauto. }
  cbn [new_row r_rest n_type n_display] in Hty, Hd. split_and!; try done; [by rewrite Ht', Ht|].
  rewrite Ht in Hr. cbn [t_rows put_rows] in Hr. rewrite filter_app, filter_none in Hr.
  2:{ rewrite Forall_forall in Hf. exact Hf. }
  rewrite filter_cons, decide_True, filter_nil in Hr by done. destruct r as [n|[]]; try (by right); try done.
  left. destruct Hr as (row & rest & [= <- <-] & ->). done.
Qed.

(** A notification that is created reads back as it was given: owner, texts, type and
    display, unread and not dismissed, its two times cut to the second with the expiry 30
    days on, and its action if the JSON text of it decodes to it; it is live until then;
    and it is one new row under an id nobody had.  When the answer is an error, either
    nothing was stored or the row was stored and only reading it back failed. *)
Theorem create_reads_back id loc now1 now2 owner ty disp title msg action (w w' : W) r :
  0 <= now2 < date_utc 10000 1 1 0 0 0 0 → 0 <= expires_at loc now1 < date_utc 10000 1 1 0 0 0 0 →
  (∀ a j, action = Some a → encode_action a = Some j → j ≠ "" ∧ decode_action j = Some a) →
  create_notification encode_action decode_action id loc now1 now2 owner ty disp title msg action w = (r, w') →
  let expiry := truncate (expires_at loc now1) second in
  match r with
  | Ok n =>
      n = Notification id owner ty disp title msg action false false (truncate now2 second) (Some expiry) ∧
      ∃ row, tables w' = put_rows (t_rows (tables w) ++ [row]) (tables w) ∧ decode_row decode_action row = n ∧
        Forall (λ r', id_text r' ≠ id) (t_rows (tables w)) ∧ ∀ now, live now row = (now <? expiry)
  | Fail e =>
      tables w' = tables w ∨
      e = DriverError ∧ ∃ row, tables w' = put_rows (t_rows (tables w) ++ [row]) (tables w) ∧ id_text row = id
  end.
Proof.
  intros H2 H1 Ha [[Ht (e & -> & _)]|(json & Hj & _ & _ & Hf & Ht & Hr)]%create_cases expiry; [by left|].
  destruct Hr as [-> | ->]; [|right; split; [done|]; eexists; split; [exact Ht|done]].
  pose proof (parse_format_text _ H2) as P2. pose proof (parse_format_text _ H1) as P1. fold expiry in P1.
  assert (D : decode_row decode_action (new_row id loc now1 now2 owner ty disp title msg json) =
    Notification id owner ty disp title msg action false false (truncate now2 second) (Some expiry)).
  { unfold decode_row, new_row. cbn -[format_sql_timestamp]. rewrite P1, P2. f_equal.
    destruct action as [a|]; [|by subst json]. destruct Hj as [-> [j Hj]]. rewrite Hj.
    destruct (Ha a j eq_refl Hj) as [Hne ->]. unfold is_empty, str_eqb. by rewrite bool_decide_false. }
  rewrite D. split; [done|]. eexists. split_and!; [exact Ht|exact D|done|].
  intros now. unfold live, new_row. cbn -[format_sql_timestamp]. by rewrite P1.
Qed.
End Laws.

(** * The laws at work *)

(** An engine that orders by the instant a value denotes, and keeps equal ones in place. *)
Definition stored_key (v : scanned) : Z := default 0 (parse_stored_timestamp v).
Definition stored_le (a b : scanned) : bool := stored_key a <=? stored_key b.
Definition row_key (r : notif_row) : Z := - stored_key (n_created (r_rest r)).
Definition by_created : list notif_row → list notif_row := sort_stable (λ a b, row_key a <? row_key b).

#[export] Instance by_created_order : OrderBy (no_older stored_le) by_created.
Proof.
  split; [intros; apply sort_stable_Permutation|]. intros l.
  pose proof (sort_slice_sorted (sort_slice := @sort_stable) _ row_key l) as H.
  unfold by_created. revert H. generalize (sort_stable (λ a b, row_key a <? row_key b) l). intros k H.
  induction H as [|a l' Hs IH Hf]; constructor; [done|]. eapply Forall_impl; [exact Hf|].
  intros b Hb. unfold row_key in Hb. apply Z.leb_le. lia.
Qed.

Definition note (id : string) (owner : Z) (created expires : string) (read : bool) : notif_row :=
  Row (VText id) (VText expires) (NotifCols owner "info" "toast" "t" "m" None read false (VText created)).
Definition mailbox : notif_tables := NotifTables
  [note "a" 1 "2024-06-01 08:00:00" "2024-07-01 08:00:00" false;
   note "b" 1 "2024-06-03 08:00:00" "2024-07-03 08:00:00" true;
   note "c" 2 "2024-06-02 08:00:00" "2024-07-02 08:00:00" false;
   note "d" 1 "2024-05-01 08:00:00" "2024-05-31 08:00:00" false] ∅.
Definition june_10 : instant := date_utc 2024 6 10 0 0 0 0.
Definition no_json (j : string) : option notification_action := None.
Definition no_text (a : notification_action) : option string := None.

Lemma page_correct_witness :
  ∃ page w', get_by_owner no_json by_created 1 10 0 june_10 (sound mailbox) = (Some page, w') ∧
    map no_id page = ["b"; "a"] ∧ tables w' = mailbox.
Proof.
  destruct (get_by_owner no_json by_created 1 10 0 june_10 (sound mailbox)) as [[page|] w'] eqn:E; [|discriminate E].
  exists page, w'. destruct (page_correct no_json stored_le by_created 1 10 0 june_10 (sound mailbox) w' page E)
    as (rows & _ & _ & _ & Ht).
  split; [reflexivity|]. split; [|exact Ht].
  change (map no_id page) with (map no_id (default [] (fst (Some page, w')))). rewrite <-E. vm_compute. reflexivity.
Defined.

Lemma change_own_only_witness :
  ∃ w', apply_change Dismiss "c" 1 (sound mailbox) = (Fail NotOwned, w') ∧ tables w' = mailbox.
Proof.
  destruct (apply_change Dismiss "c" 1 (sound mailbox)) as [r w'] eqn:E.
  pose proof (change_own_only Dismiss "c" 1 (sound mailbox) w' r E) as (_ & _ & H).
  assert (Er : r = Fail NotOwned) by (change r with (fst (r, w')); rewrite <-E; vm_compute; reflexivity).
  subst r. exists w'. split; [reflexivity|]. exact (proj2 H).
Defined.

Lemma mailbox_unique : ids_unique (t_rows (tables (sound mailbox))).
Proof. apply (bool_decide_unpack _). vm_compute. exact I. Qed.

Lemma enforce_limit_correct_witness :
  ∃ w', enforce_limit by_created 1 2 (sound mailbox) = (Some 1%nat, w') ∧ length (mine 1 (t_rows (tables w'))) = 2%nat.
Proof.
  destruct (enforce_limit by_created 1 2 (sound mailbox)) as [[n|] w'] eqn:E; [|discriminate E].
  destruct (enforce_limit_correct stored_le by_created 1 2 (sound mailbox) w' n mailbox_unique E) as (_ & H & _).
  exists w'. split; [|exact H].
  assert (En : Some n = Some 1%nat) by (change (Some n) with (fst (Some n, w')); rewrite <-E; vm_compute; reflexivity).
  by rewrite En.
Defined.

Definition distinct_owners (rows : list notif_row) : list Z := remove_dups (map (λ r, n_owner (r_rest r)) rows).

Lemma distinct_owners_all rows r : r ∈ rows → n_owner (r_rest r) ∈ distinct_owners rows.
Proof. intros Hr. apply elem_of_remove_dups, list_elem_of_fmap. eauto. Qed.

Lemma recipients_limited_witness :
  ∃ n w', enforce_recipient_limits by_created distinct_owners (sound mailbox) = ((n, true), w') ∧
    mine 2 (t_rows (tables w')) ≡ₚ mine 2 (t_rows mailbox).
Proof.
  destruct (enforce_recipient_limits by_created distinct_owners (sound mailbox)) as [[n ok] w'] eqn:E.
  destruct (recipients_limited stored_le by_created distinct_owners (sound mailbox) w' n ok
    mailbox_unique distinct_owners_all E) as (_ & H & _).
  exists n, w'. split.
  - assert (Eo : ok = true) by (change ok with (snd (fst (n, ok, w'))); rewrite <-E; vm_compute; reflexivity).
    by rewrite Eo.
  - apply H. vm_compute. lia.
Defined.

Lemma counters_agree_witness :
  ∃ s w', get_statistics 1 june_10 (sound mailbox) = (Some s, w') ∧ s_total s = 2%nat ∧ s_unread s = 1%nat.
Proof.
  destruct (get_statistics 1 june_10 (sound mailbox)) as [[s|] w1] eqn:E1; [|discriminate E1].
  destruct (get_unread_count 1 june_10 w1) as [[n|] w2] eqn:E2;
    [|assert (w1 = snd (get_statistics 1 june_10 (sound mailbox))) as -> by (by rewrite E1); vm_compute in E2; discriminate E2].
  destruct (get_unread no_json by_created 1 june_10 w2) as [[l|] w3] eqn:E3.
  2:{ assert (w2 = snd (get_unread_count 1 june_10 (snd (get_statistics 1 june_10 (sound mailbox))))) as ->
        by (by rewrite E1; cbn [snd]; rewrite E2). vm_compute in E3. discriminate E3. }
  destruct (counters_agree no_json stored_le by_created 1 june_10 (sound mailbox) w1 w2 w3 s n l E1 E2 E3)
    as (_ & _ & Ht & _).
  exists s, w1. split; [reflexivity|]. split; [rewrite Ht; vm_compute; reflexivity|].
  change (s_unread s) with (s_unread (default s (fst (Some s, w1)))). rewrite <-E1. vm_compute. reflexivity.
Defined.

Definition action_text (a : notification_action) : option string := Some (na_label a +:+ "|" +:+ na_url a).
Definition read_action (j : string) : option notification_action :=
  match cut_byte j (byte 124) with (l, Some u) => Some (NotificationAction l u) | _ => None end.
Definition view : notification_action := NotificationAction "View" "/dashboard".

Lemma create_reads_back_witness :
  ∃ n w', create_notification action_text read_action "01J" utc june_10 june_10 7 "warning" "toast" "Wind" "40 mph"
            (Some view) (sound mailbox) = (Ok n, w') ∧ no_action n = Some view ∧ no_created n = june_10.
Proof.
  destruct (create_notification action_text read_action "01J" utc june_10 june_10 7 "warning" "toast" "Wind" "40 mph"
    (Some view) (sound mailbox)) as [r w'] eqn:E.
  assert (T : 0 <= june_10 < date_utc 10000 1 1 0 0 0 0) by (vm_compute; split; [discriminate|reflexivity]).
  assert (T' : 0 <= expires_at utc june_10 < date_utc 10000 1 1 0 0 0 0) by (vm_compute; split; [discriminate|reflexivity]).
  assert (A : ∀ a j, Some view = Some a → action_text a = Some j → j ≠ "" ∧ read_action j = Some a).
  { intros a j [= <-] [= <-]. split; [discriminate|]. vm_compute. reflexivity. }
  pose proof (create_reads_back action_text read_action "01J" utc june_10 june_10 7 "warning" "toast" "Wind" "40 mph"
    (Some view) (sound mailbox) w' r T T' A E) as H.
  destruct r as [n|e].
  - exists n, w'. destruct H as [-> _]. split; [reflexivity|]. split; [reflexivity|]. vm_compute. reflexivity.
  - exfalso. assert (Er : is_ok (fst (@Fail model_error notification e, w')) = true) by (rewrite <-E; vm_compute; reflexivity).
    discriminate Er.
Defined.

(** * The admin model: the same operations on server_admin_notifications *)

Section Admin.
Context `{Database W notif_tables}.
Context (encode_action : notification_action → option string)
  (decode_action : string → option notification_action) (newest_first : list notif_row → list notif_row).
Definition create_admin_notification := create_notification encode_action decode_action (W := W).
Definition get_admin_by_id := get_by_id decode_action (W := W).
Definition get_by_admin_id := get_by_owner decode_action newest_first (W := W).
Definition get_admin_unread := get_unread decode_action newest_first (W := W).
Definition get_admin_unread_count := get_unread_count (W := W).
Definition mark_admin_as_read := mark_as_read (W := W).
Definition mark_all_admin_as_read := mark_all_as_read (W := W).
Definition dismiss_admin := dismiss (W := W).
Definition delete_admin_notification := delete_notification (W := W).
Definition cleanup_expired_admin := cleanup_expired (W := W).
Definition enforce_admin_limit := enforce_limit newest_first (W := W).
Definition get_admin_statistics := get_statistics (W := W).
Definition scan_unexpired_admin := scan_unexpired decode_action.
Definition get_admin_preferences := get_preferences (W := W).
Definition update_admin_preferences := update_preferences (W := W).
End Admin.
