(* ===== verification/NotificationService.v ===== *)
(** The notification service (src/server/service/notification_service.go) and the nightly
    notification jobs (src/scheduler/notification_cleanup.go): the stored notifications of
    both databases and the WebSocket hub put together.  A send checks the preferences,
    stores the row, hands the message to the hub when the recipient is connected, and
    leaves the trimming of the recipient's rows to a goroutine, returned here as a job. *)
From S2P Require Import Prelude GoStrings GoTime Sql DbTime Cron WebSocket Notifications.
From Stdlib Require Import Ascii.
Open Scope Z_scope.

Inductive recipient := ToUser (user : Z) | ToAdmin (admin : Z).
Inductive send_error := DisplayDisabled | CreateFailed (e : model_error).

(** shouldSendNotification *)
Definition should_send_notification (display : string) (p : preferences) : bool :=
  if str_eqb display "toast" then p_toast p
  else if str_eqb display "banner" then p_banner p
  else if str_eqb display "center" then p_center p
  else true.

(** ShouldSendEmail and ShouldSendEmailToAdmin *)
Definition should_send_email (user : Z) (severity : string) (smtp : bool) (h : hub) : bool :=
  if negb smtp then false
  else if str_eqb severity "critical" || str_eqb severity "error" then true
  else negb (is_user_connected user h).
Definition should_send_email_to_admin (admin : Z) (severity : string) (smtp : bool) (h : hub) : bool :=
  if negb smtp then false
  else if str_eqb severity "critical" || str_eqb severity "error" then true
  else negb (is_admin_connected admin h).

Section Service.
Context `{Database W notif_tables}.
Context (encode_action : notification_action → option string)
  (decode_action : string → option notification_action) (newest_first : list notif_row → list notif_row).
(** The JSON text of a WebSocket message that carries a notification. *)
Context (encode_message : notification → string).

(** What SendUserNotification and SendAdminNotification share: [w] is the database of the
    recipient's kind, [found] the client that the hub lists for the recipient. *)
Definition send_stored (id : string) (loc : location) (now : instant) (owner : Z)
    (type display title message : string) (action : option notification_action)
    (connected : hub → bool) (target : hub → option ref) (w : W) (h : hub)
  : result send_error notification * W * outcome * list Z :=
  let '(prefs, w) := get_preferences owner now w in
  let enabled := match prefs with None => true | Some (p, _) => should_send_notification display p end in
  if negb enabled then (Fail DisplayDisabled, w, Running h, [])
  else
    let '(r, w) := create_notification encode_action decode_action id loc now now owner type display title message action w in
    match r with
    | Fail e => (Fail (CreateFailed e), w, Running h, [])
    | Ok n =>
        let o :=
          if connected h then
            match target h with
            | Some c => hub_step (EvDeliver c (WebSocket.Notification (encode_message n))) h
            | None => Running h
            end
          else Running h in
        (Ok n, w, o, [owner])
    end.

(** SendUserNotification *)
Definition send_user_notification (id : string) (loc : location) (now : instant) (user : Z)
    (type display title message : string) (action : option notification_action) (w : W) (h : hub) :=
  send_stored id loc now user type display title message action (is_user_connected user) (user_target user) w h.

(** SendAdminNotification *)
Definition send_admin_notification (id : string) (loc : location) (now : instant) (admin : Z)
    (type display title message : string) (action : option notification_action) (w : W) (h : hub) :=
  send_stored id loc now admin type display title message action (is_admin_connected admin) (admin_target admin) w h.

(** SendSuccessToUser and its like *)
Definition send_success_to_user id loc now user title message w h :=
  send_user_notification id loc now user "success" "toast" title message None w h.
Definition send_info_to_user id loc now user title message w h :=
  send_user_notification id loc now user "info" "toast" title message None w h.
Definition send_warning_to_user id loc now user title message w h :=
  send_user_notification id loc now user "warning" "toast" title message None w h.
Definition send_error_to_user id loc now user title message w h :=
  send_user_notification id loc now user "error" "toast" title message None w h.
Definition send_security_to_user id loc now user title message w h :=
  send_user_notification id loc now user "security" "banner" title message None w h.
Definition send_success_to_admin id loc now admin title message w h :=
  send_admin_notification id loc now admin "success" "toast" title message None w h.
Definition send_info_to_admin id loc now admin title message w h :=
  send_admin_notification id loc now admin "info" "toast" title message None w h.
Definition send_warning_to_admin id loc now admin title message w h :=
  send_admin_notification id loc now admin "warning" "toast" title message None w h.
Definition send_error_to_admin id loc now admin title message w h :=
  send_admin_notification id loc now admin "error" "toast" title message None w h.
Definition send_security_to_admin id loc now admin title message w h :=
  send_admin_notification id loc now admin "security" "banner" title message None w h.

(** The goroutine a send leaves behind. *)
Definition trim_job (owner : Z) (w : W) : option nat * W :=
  enforce_limit newest_first owner 100 w.

(** CleanupExpired of the service and CleanupExpiredNotifications of the scheduler: the user
    database, then the admin one unless the first failed *)
Definition cleanup_expired_notifications (now : instant) (users admins : W) : option (nat * nat) * W * W :=
  let '((n, ok), users) := cleanup_expired now users in
  if ok then
    let '((m, ok), admins) := cleanup_expired now admins in
    (if ok then Some (n, m) else None, users, admins)
  else (None, users, admins).

(** NotificationCleaner.EnforceLimits *)
Definition enforce_limits (distinct : list notif_row → list Z) (users admins : W)
  : option (nat * nat) * W * W :=
  let '((n, ok), users) := enforce_recipient_limits newest_first distinct users in
  if ok then
    let '((m, ok), admins) := enforce_recipient_limits newest_first distinct admins in
    (if ok then Some (n, m) else None, users, admins)
  else (None, users, admins).
End Service.

(** dailyCronFromClockTime: the cron expression of an HH:MM time *)
Inductive clock_error := NoColon | BadHour | BadMinute.
Definition in_range (lo hi : Z) (s : string) : option Z :=
  n ← atoi s; if (lo <=? n) && (n <=? hi) then Some n else None.
Definition daily_cron_from_clock_time (target_time : string) : result clock_error string :=
  match cut_byte target_time (byte 58) with
  | (_, None) => Fail NoColon
  | (h, Some m) =>
      match in_range 0 23 h with
      | None => Fail BadHour
      | Some h =>
          match in_range 0 59 m with
          | None => Fail BadMinute
          | Some m => Ok (itoa m +:+ " " +:+ itoa h +:+ " * * *")
          end
      end
  end.

(** * Properties *)

Section Laws.
Context `{DatabaseLaws W notif_tables}.
Context (encode_action : notification_action → option string)
  (decode_action : string → option notification_action) (encode_message : notification → string).

(** What becomes of a connected client that is sent a message. *)
Definition after_send (m : message) (h : hub) (c : ref) (o : client) : client :=
  if is_full h c
  then if decide (length (h_unregister h) < unregister_capacity)%nat then drop_conn o else o
  else set_buffer (w_buffer o ++ [m]) o.

Lemma deliver_event h c m : hub_reach h → c ∈ registered h →
  ∃ h' o, hub_step (EvDeliver c m) h = Running h' ∧ h_heap h !! c = Some o ∧ h_clients h' = h_clients h ∧
    h_heap h' !! c = Some (after_send m h c o) ∧ ∀ c', c' ≠ c → h_heap h' !! c' = h_heap h !! c'.
Proof.
  intros R Hc. destruct (registered_open _ _ (hub_reach_ok _ R) Hc) as (o & E & Ho).
  cbn [hub_step]. rewrite send_to_client_exact by by exists o. cbn zeta. unfold after_send.
  assert (D : is_full h c = false → deliver m o = set_buffer (w_buffer o ++ [m]) o).
  { unfold is_full, deliver. rewrite E. intros ?%bool_decide_eq_false. by rewrite decide_True by lia. }
  assert (D' : is_full h c = true → deliver m o = drop_conn o).
  { unfold is_full, deliver. rewrite E. intros ?%bool_decide_eq_true. by rewrite decide_False by lia. }
  destruct (is_full h c); cbn [length].
  - destruct (decide (1 = 0 ∨ _)%nat) as [Hq|Hq].
    + eexists _, o. rewrite decide_True by (by destruct Hq). split_and!; [done..| |].
      * cbn. by rewrite lookup_alter_eq, E, <-D'.
      * intros c' ?. cbn. by rewrite lookup_alter_ne.
    + exists h, o. by rewrite decide_False by tauto.
  - rewrite decide_True by by left. eexists _, o. split_and!; [done..| |].
    + cbn. by rewrite lookup_alter_eq, E, <-D.
    + intros c' ?. cbn. by rewrite lookup_alter_ne.
Qed.

(** Sending a notification to a user, against any state the hub can reach.  A display
    the user has switched off stores and sends nothing.  A notification that could not be
    stored and read back reaches nobody.  One that was is one new row, is handed once to
    the client the hub lists for the user, if there is one, at the end of its buffer (a
    full client loses its connection instead), never makes the hub panic, and leaves one
    job that trims that user's rows. *)
Theorem send_user_correct id loc now user ty disp title msg action (w w' : W) h r o jobs :
  hub_reach h →
  send_user_notification encode_action decode_action encode_message id loc now user ty disp title msg action w h
    = (r, w', o, jobs) →
  match r with
  | Fail DisplayDisabled =>
      tables w' = tables w ∧ o = Running h ∧ jobs = [] ∧
      ∃ p, should_send_notification disp p = false ∧
           p = match t_prefs (tables w) !! user with Some q => pr_prefs q | None => default_preferences end
  | Fail (CreateFailed e) => o = Running h ∧ jobs = []
  | Ok n =>
      jobs = [user] ∧
      (∃ row, t_rows (tables w') = t_rows (tables w) ++ [row] ∧ decode_row decode_action row = n ∧
              owned_by user row = true) ∧
      match h_clients h !! client_id_for_user user with
      | None => o = Running h
      | Some c => ∃ h' cl, o = Running h' ∧ h_heap h !! c = Some cl ∧ h_clients h' = h_clients h ∧
          h_heap h' !! c = Some (after_send (WebSocket.Notification (encode_message n)) h c cl) ∧
          ∀ c', c' ≠ c → h_heap h' !! c' = h_heap h !! c'
      end
  end.
Proof.
  intros R. unfold send_user_notification, send_stored.
  destruct (get_preferences user now w) as [prefs w1] eqn:P.
  assert (Hp : tables w1 = tables w ∧ ∀ p t, prefs = Some (p, t) →
    p = match t_prefs (tables w) !! user with Some q => pr_prefs q | None => default_preferences end).
  { revert P. unfold get_preferences. exec_case v E Ht; [|intros [= <- <-]; by split].
    destruct (t_prefs (tables w) !! user); intros [= <- <-]; (split; [done|]); by intros p1 t1 [= <- _]. }
  destruct Hp as [Ht1 Hp].
  destruct (match prefs with None => true | Some (p, _) => _ end) eqn:S; cbn [negb].
  2:{ destruct prefs as [[p t]|]; [|done]. intros [= <- <- <- <-]. split_and!; [done..|]. exists p. eauto. }
  destruct (create_notification _ _ _ _ _ _ _ _ _ _ _ _ w1) as [cr w2] eqn:C.
  destruct cr as [n|e]; intros [= <- <- <- <-]; [|done]. split; [done|].
  apply create_cases in C as [(_ & e & [=] & _)|(json & _ & _ & _ & _ & Ht2 & [[= ->]|[=]])]. split.
  { eexists. split_and!; [by rewrite Ht2, Ht1|done|]. apply Z.eqb_refl. }
  unfold is_user_connected, user_target. destruct (h_clients h !! client_id_for_user user) as [c|] eqn:T; [|done].
  rewrite bool_decide_true by by eexists.
  assert (Hr : c ∈ registered h) by (apply elem_of_registered; eauto).
  match goal with |- context [after_send ?m] => destruct (deliver_event h c m R Hr) as (h' & cl & HH) end.
  by exists h', cl.
Qed.
End Laws.

Lemma send_user_correct_witness :
  ∃ n w' h', send_user_notification no_text no_json (λ n, no_title n) "01J" utc june_10 1 "info" "toast" "Rain" "soon"
               None (sound mailbox) sample_hub = (Ok n, w', Running h', [1]) ∧
    h_heap h' !! 0%nat = Some (set_buffer [WebSocket.Notification "Rain"] (sample_client "user-1" 1)).
Proof.
  destruct (send_user_notification no_text no_json (λ n, no_title n) "01J" utc june_10 1 "info" "toast" "Rain" "soon"
    None (sound mailbox) sample_hub) as [[[r w'] o] jobs] eqn:E.
  pose proof (send_user_correct no_text no_json (λ n, no_title n) "01J" utc june_10 1 "info" "toast" "Rain" "soon"
    None (sound mailbox) w' sample_hub r o jobs sample_hub_reach E) as C.
  assert (Er : no_title <$> match r with Ok n => Some n | Fail _ => None end = Some "Rain"%string).
  { change r with (fst (fst (fst (r, w', o, jobs)))). rewrite <-E. vm_compute. reflexivity. }
  destruct r as [n|e]; [|discriminate Er]. injection Er as Et. destruct C as (-> & _ & C).
  change (h_clients sample_hub !! client_id_for_user 1) with (Some 0%nat) in C.
  destruct C as (h' & cl & -> & [= <-] & _ & Hh & _). exists n, w', h'. split; [reflexivity|].
  rewrite Hh. cbn beta. rewrite Et. reflexivity.
Defined.

(** * Daily tasks *)

Definition daily_spec (h m : Z) : string := itoa m +:+ " " +:+ itoa h +:+ " * * *".
Definition daily_fields (h m : Z) : cron_fields :=
  CronFields {[m]} {[h]} (range_set 1 31) (range_set 1 12) (range_set 0 7).

(** The words of the expression, over all clock times; and what each word denotes. *)
Definition daily_words (h m : Z) : bool :=
  let spec := daily_spec h m in
  bool_decide (trim_space spec = spec) && negb (is_empty spec) && negb (has_prefix spec "@") &&
  bool_decide (fields spec = [itoa m; itoa h; "*"; "*"; "*"]).
Definition denotes_itself (hi v : Z) : bool := bool_decide (parse_field (itoa v) 0 hi = Ok {[v]}).

Lemma all_daily_words :
  forallb (λ h, forallb (λ m, daily_words (Z.of_nat h) (Z.of_nat m)) (seq 0 60)) (seq 0 24) = true.
Proof. vm_compute. reflexivity. Qed.
Lemma all_denote_themselves :
  forallb (λ v, denotes_itself 59 (Z.of_nat v)) (seq 0 60) &&
  forallb (λ v, denotes_itself 23 (Z.of_nat v)) (seq 0 24) = true.
Proof. vm_compute. reflexivity. Qed.

Lemma forallb_seq f n z : forallb (λ k, f (Z.of_nat k)) (seq 0 n) = true → 0 <= z < Z.of_nat n → f z = true.
Proof.
  rewrite forallb_forall. intros A Hz. specialize (A (Z.to_nat z)). rewrite in_seq, Z2Nat.id in A by lia.
  apply A. lia.
Qed.

Lemma at_prefix s : has_prefix s "@" = false → has_prefix s "@every " = false.
Proof.
  destruct s as [|a s]; [done|].
  change (has_prefix (String a s) "@") with (if Ascii.ascii_dec "@"%char a then has_prefix s "" else false).
  change (has_prefix (String a s) "@every ") with (if Ascii.ascii_dec "@"%char a then has_prefix s "every " else false).
  destruct (Ascii.ascii_dec "@"%char a); [|done]. by destruct s.
Qed.

Lemma daily_parse h m : 0 <= h < 24 → 0 <= m < 60 →
  parse_schedule (daily_spec h m) = Ok (CronSchedule (daily_fields h m)).
Proof.
  intros Hh Hm. pose proof all_daily_words as W. apply (forallb_seq (λ h, forallb (λ m, daily_words h (Z.of_nat m)) (seq 0 60)) 24 h) in W; [|lia].
  apply (forallb_seq (daily_words h) 60 m) in W; [|lia]. unfold daily_words in W. bool_facts.
  pose proof all_denote_themselves as D. apply andb_true_iff in D as [Dm Dh].
  apply (forallb_seq (denotes_itself 59) 60 m) in Dm; [|lia]. apply (forallb_seq (denotes_itself 23) 24 h) in Dh; [|lia].
  apply bool_decide_eq_true in Dm, Dh. unfold parse_schedule.
  rewrite H, H2, at_prefix, H1 by done. unfold parse_cron. rewrite H0, Dm, Dh. by vm_compute.
Qed.

Lemma in_range_spec lo hi s n : in_range lo hi s = Some n → atoi s = Some n ∧ lo <= n <= hi.
Proof.
  unfold in_range. destruct (atoi s) as [z|]; [|done]. cbn. destruct (_ && _) eqn:B; [|done].
  intros [= <-]. apply andb_true_iff in B as [?%Z.leb_le ?%Z.leb_le]. done.
Qed.

(** C35: every clock time that dailyCronFromClockTime accepts becomes a cron expression that
    the scheduler's parser accepts, and the schedule so parsed fires within 24 hours of any
    instant, at that hour and minute of the local zone, provided its offset is a whole number
    of minutes and does not change in those 24 hours (on the day a clock is put forward over
    the time the task is skipped: [skipped_in_the_gap]). *)
Theorem daily_task_fires loc o target spec t :
  o mod minute = 0 → (∀ u, t < u <= t + day_ns → loc u = o) → daily_cron_from_clock_time target = Ok spec →
  ∃ h m c, (∃ hs ms, cut_byte target (byte 58) = (hs, Some ms) ∧ atoi hs = Some h ∧ atoi ms = Some m) ∧
    parse_schedule spec = Ok (CronSchedule c) ∧
    t < cron_next loc c t <= t + day_ns ∧ hour_of loc (cron_next loc c t) = h ∧ minute_of loc (cron_next loc c t) = m.
Proof.
  intros Ho Hloc. unfold daily_cron_from_clock_time. destruct (cut_byte target (byte 58)) as [hs [ms|]]; [|done].
  destruct (in_range 0 23 hs) as [h|] eqn:Eh; [|done]. destruct (in_range 0 59 ms) as [m|] eqn:Em; [|done].
  apply in_range_spec in Eh as [Eh Hh], Em as [Em Hm]. intros [= <-]. exists h, m, (daily_fields h m).
  assert (F : fires_daily_at (daily_fields h m) h m).
  { unfold daily_fields. split_and!; cbn [c_hour c_minute c_dom c_month c_dow]; try lia; try (by apply elem_of_singleton);
      intros d Hd; apply elem_of_range_set; lia. }
  destruct (cron_daily_fires loc o _ h m t Ho Hloc F) as [Ht Hc]. unfold cron_matches in Hc. bool_facts.
  cbn [c_hour c_minute daily_fields] in *. split_and!; [eauto|by apply daily_parse; lia|lia|lia| |]; [by apply elem_of_singleton in H1|by apply elem_of_singleton in H0].
Qed.

Definition new_york : location := λ _, - 5 * hour.
Lemma daily_task_fires_witness :
  ∃ h m c, parse_schedule "30 3 * * *" = Ok (CronSchedule c) ∧
    hour_of new_york (cron_next new_york c june_10) = h ∧ minute_of new_york (cron_next new_york c june_10) = m.
Proof.
  destruct (daily_task_fires new_york (- 5 * hour) "03:30" "30 3 * * *" june_10 eq_refl (λ _ _, eq_refl) eq_refl) as (h & m & c & _ & P & _ & Hh & Hm).
  exists h, m, c. exact (conj P (conj Hh Hm)).
Defined.

(** A zone that goes from one to two hours east of UTC on 31 March 2024 at 01:00 UTC: a task for 02:30 does not run
    between the evening before and the night after. *)
Definition going_forward : location := λ t, if t <? date_utc 2024 3 31 1 0 0 0 then hour else 2 * hour.
Lemma skipped_in_the_gap : let t := date_utc 2024 3 30 20 0 0 0 in
  match daily_cron_from_clock_time "02:30" with
  | Ok spec => match parse_schedule spec with
               | Ok (CronSchedule c) => cron_next going_forward c t = t + 28 * hour + 30 * minute
               | _ => False
               end
  | Fail _ => False
  end.
Proof. vm_compute. reflexivity. Qed.
