(* ===== verification/Sha256.v ===== *)
(** SHA-256 and hexadecimal text: crypto/sha256 and encoding/hex of Go's standard library,
    which the program stores instead of every bearer secret.  Words are 32-bit integers
    in [Z]; the digest is computed block by block as FIPS 180-4 describes it. *)
From S2P Require Import Prelude GoStrings.
From Stdlib Require Import Ascii.
Open Scope Z_scope.

Definition w32 (z : Z) : Z := z mod 4294967296.
Definition rotr (n x : Z) : Z := Z.lor (Z.shiftr x n) (w32 (Z.shiftl x (32 - n))).
Definition not32 (x : Z) : Z := Z.lxor x 4294967295.

Definition ch (x y z : Z) : Z := Z.lxor (Z.land x y) (Z.land (not32 x) z).
Definition maj (x y z : Z) : Z := Z.lxor (Z.lxor (Z.land x y) (Z.land x z)) (Z.land y z).
Definition big_sigma0 (x : Z) : Z := Z.lxor (Z.lxor (rotr 2 x) (rotr 13 x)) (rotr 22 x).
Definition big_sigma1 (x : Z) : Z := Z.lxor (Z.lxor (rotr 6 x) (rotr 11 x)) (rotr 25 x).
Definition small_sigma0 (x : Z) : Z := Z.lxor (Z.lxor (rotr 7 x) (rotr 18 x)) (Z.shiftr x 3).
Definition small_sigma1 (x : Z) : Z := Z.lxor (Z.lxor (rotr 17 x) (rotr 19 x)) (Z.shiftr x 10).

(** FIPS 180-4 takes its constants from the first primes: the leading 32 bits of the
    fractional parts of their cube roots, and of the square roots of the first eight. *)
Definition primes : list Z :=
  List.filter (λ p, forallb (λ d, negb (p mod d =? 0)) (seqZ 2 (Z.sqrt p - 1))) (seqZ 2 310).
(** The largest [r] with [r ^ 3 <= n], bit by bit *)
Fixpoint cube_root (bits : nat) (r n : Z) : Z :=
  match bits with
  | O => r
  | S i => let r' := r + Z.shiftl 1 (Z.of_nat i) in cube_root i (if r' * r' * r' <=? n then r' else r) n
  end.
Definition cube_root_bits (p : Z) : Z := w32 (cube_root 40 0 (Z.shiftl p 96)).
Definition square_root_bits (p : Z) : Z := w32 (Z.sqrt (Z.shiftl p 64)).

Definition round_constants : list Z := Eval vm_compute in map cube_root_bits primes.

Record state := State { sa : Z; sb : Z; sc : Z; sd : Z; se : Z; sf : Z; sg : Z; sh : Z }.
Definition initial_state : state := Eval vm_compute in
  match map square_root_bits primes with
  | a :: b :: c :: d :: e :: f :: g :: h :: _ => State a b c d e f g h
  | _ => State 0 0 0 0 0 0 0 0
  end.

(** One round, with the round's constant and message word *)
Definition round (k w : Z) (s : state) : state :=
  let t1 := sh s + big_sigma1 (se s) + ch (se s) (sf s) (sg s) + k + w in
  let t2 := big_sigma0 (sa s) + maj (sa s) (sb s) (sc s) in
  State (w32 (t1 + t2)) (sa s) (sb s) (sc s) (w32 (sd s + t1)) (se s) (sf s) (sg s).

(** The rounds of a block: [ws] is the window of the next sixteen message words, each
    round consuming the first and extending the window at its end *)
Definition next_word (ws : list Z) : Z :=
  match ws with
  | w0 :: w1 :: _ :: _ :: _ :: _ :: _ :: _ :: _ :: w9 :: _ :: _ :: _ :: _ :: w14 :: _ =>
      w32 (small_sigma1 w14 + w9 + small_sigma0 w1 + w0)
  | _ => 0
  end.
Fixpoint rounds (ks ws : list Z) (s : state) : state :=
  match ks, ws with
  | k :: ks, w :: ws' => rounds ks (ws' ++ [next_word ws]) (round k w s)
  | _, _ => s
  end.

Definition add_state (s t : state) : state :=
  State (w32 (sa s + sa t)) (w32 (sb s + sb t)) (w32 (sc s + sc t)) (w32 (sd s + sd t))
    (w32 (se s + se t)) (w32 (sf s + sf t)) (w32 (sg s + sg t)) (w32 (sh s + sh t)).

(** Padding: the bit one, zeros, and the length in bits as 64 bits, big-endian *)
Definition be_bytes (n : nat) (z : Z) : list Z := map (λ i, Z.shiftr z (8 * Z.of_nat i) mod 256) (reverse (seq 0 n)).
Definition pad (l : list Z) : list Z :=
  let n := Z.of_nat (length l) in
  l ++ 128 :: replicate (Z.to_nat ((55 - n) mod 64)) 0 ++ be_bytes 8 (8 * n).

Fixpoint words (l : list Z) : list Z :=
  match l with
  | a :: b :: c :: d :: l => (((a * 256 + b) * 256 + c) * 256 + d) :: words l
  | _ => []
  end.

Definition digest_words (l : list Z) : state :=
  foldl (λ s ws, add_state s (rounds round_constants ws s)) initial_state (chunks 16 (words (pad l))).

(** sha256.Sum256 *)
Definition sum_bytes (l : list Z) : list Z :=
  let d := digest_words l in concat (map (be_bytes 4) [sa d; sb d; sc d; sd d; se d; sf d; sg d; sh d]).
Definition sum256 (s : string) : list Z := sum_bytes (map (λ c, Z.of_N (code c)) (bytes s)).

(** crypto/hmac with SHA-256: a key longer than a block is hashed first *)
Definition hmac_sha256 (key msg : list Z) : list Z :=
  let key := if (64 <? length key)%nat then sum_bytes key else key in
  let block := key ++ replicate (64 - length key) 0 in
  sum_bytes (map (Z.lxor 92) block ++ sum_bytes (map (Z.lxor 54) block ++ msg)).

(** hex.EncodeToString *)
Definition hex_digit (n : Z) : ascii := byte (Z.to_N (if n <? 10 then 48 + n else 87 + n)).
Definition hex_encode (l : list Z) : string :=
  of_bytes (concat (map (λ b, [hex_digit (b / 16); hex_digit (b mod 16)]) l)).

Example sum256_empty :
  hex_encode (sum256 "") = "e3b0c44298fc1c149afbf4c8996fb92427ae41e4649b934ca495991b7852b855".
Proof. vm_compute. reflexivity. Qed.
Example sum256_abc :
  hex_encode (sum256 "abc") = "ba7816bf8f01cfea414140de5dae2223b00361a396177a9cb410ff61f20015ad".
Proof. vm_compute. reflexivity. Qed.
Example sum256_two_blocks :
  hex_encode (sum256 "abcdbcdecdefdefgefghfghighijhijkijkljklmklmnlmnomnopnopq") =
  "248d6a61d20638b8e5c026930c3e6039a33ce45964ff2167f6ecedd419db06c1".
Proof. vm_compute. reflexivity. Qed.
Example hmac_rfc4231 :
  hex_encode (hmac_sha256 (map (λ c, Z.of_N (code c)) (bytes "Jefe")) (map (λ c, Z.of_N (code c)) (bytes "what do ya want for nothing?"))) =
  "5bdcc146bf60754e6a042426089575c75a003f089d2739839dec58b964ec3843".
Proof. vm_compute. reflexivity. Qed.
