(* ===== verification/Base64.v ===== *)
(** Base 64 (encoding/base64 of Go's standard library): the two alphabets, with and without
    padding, and the lenient decoders. *)
From S2P Require Import Prelude GoStrings.
From Stdlib Require Import Ascii.
Open Scope Z_scope.

(** []byte(s) and string(l) *)
Definition octets (s : string) : list Z := map (λ c, Z.of_N (code c)) (bytes s).
Definition text_of (l : list Z) : string := of_bytes (map (λ b, byte (Z.to_N b)) l).

(** The characters of 62 and 63 tell the alphabets apart. *)
Record alphabet := Alphabet { c62 : Z; c63 : Z }.
Definition std : alphabet := Alphabet 43 47.
Definition url : alphabet := Alphabet 45 95.

Definition b64_char (a : alphabet) (n : Z) : ascii :=
  byte (Z.to_N (if n <? 26 then 65 + n else if n <? 52 then 71 + n else if n <? 62 then n - 4
                else if n =? 62 then c62 a else c63 a)).
Definition b64_value (a : alphabet) (c : ascii) : option Z :=
  let n := Z.of_N (code c) in
  if (65 <=? n) && (n <=? 90) then Some (n - 65)
  else if (97 <=? n) && (n <=? 122) then Some (n - 71)
  else if (48 <=? n) && (n <=? 57) then Some (n + 4)
  else if n =? c62 a then Some 62
  else if n =? c63 a then Some 63
  else None.

(** EncodeToString: three bytes become four characters; [pad] stands in for the missing ones
    of the last group *)
Fixpoint b64_encode (a : alphabet) (pad : list ascii) (l : list Z) : list ascii :=
  match l with
  | x :: y :: z :: l =>
      [b64_char a (x / 4); b64_char a (x mod 4 * 16 + y / 16); b64_char a (y mod 16 * 4 + z / 64); b64_char a (z mod 64)]
      ++ b64_encode a pad l
  | [x; y] => [b64_char a (x / 4); b64_char a (x mod 4 * 16 + y / 16); b64_char a (y mod 16 * 4)] ++ pad
  | [x] => [b64_char a (x / 4); b64_char a (x mod 4 * 16)] ++ pad ++ pad
  | [] => []
  end.
Definition padding : list ascii := [byte 61].
Definition url_encode (l : list Z) : string := of_bytes (b64_encode url padding l).
Definition std_encode (l : list Z) : string := of_bytes (b64_encode std padding l).
Definition raw_url_encode (l : list Z) : string := of_bytes (b64_encode url [] l).
Definition raw_std_encode (l : list Z) : string := of_bytes (b64_encode std [] l).

(** DecodeString without padding: line ends are skipped, a lone last character is an error,
    the spare bits of the last one are dropped *)
Fixpoint join_sextets (l : list Z) : option (list Z) :=
  match l with
  | w :: x :: y :: z :: l =>
      rest ← join_sextets l; Some (w * 4 + x / 16 :: x mod 16 * 16 + y / 4 :: y mod 4 * 64 + z :: rest)
  | [w; x; y] => Some [w * 4 + x / 16; x mod 16 * 16 + y / 4]
  | [w; x] => Some [w * 4 + x / 16]
  | [_] => None
  | [] => Some []
  end.
Definition line_end (c : ascii) : bool := bool_decide (c = byte 10) || bool_decide (c = byte 13).
Definition raw_decode (a : alphabet) (s : string) : option (list Z) :=
  mapM (b64_value a) (filter (λ c, line_end c = false) (bytes s)) ≫= join_sextets.

(** DecodeString with padding, which ends the text *)
Fixpoint padded_sextets (a : alphabet) (l : list ascii) : option (list Z) :=
  match l with
  | [] => Some []
  | c1 :: c2 :: c3 :: c4 :: l =>
      w ← b64_value a c1; x ← b64_value a c2;
      if bool_decide (c3 ∈ padding) then
        if bool_decide (c4 ∈ padding) && bool_decide (l = []) then Some [w; x] else None
      else y ← b64_value a c3;
        if bool_decide (c4 ∈ padding) then if bool_decide (l = []) then Some [w; x; y] else None
        else z ← b64_value a c4; rest ← padded_sextets a l; Some (w :: x :: y :: z :: rest)
  | _ => None
  end.
Definition padded_decode (a : alphabet) (s : string) : option (list Z) :=
  padded_sextets a (filter (λ c, line_end c = false) (bytes s)) ≫= join_sextets.

Example b64_examples :
  (url_encode [251; 239; 255; 1], raw_std_encode [251; 239; 255; 1], raw_decode std "++//AQ",
   raw_decode std "A", raw_decode url "--__AQ") =
  ("--__AQ==", "++//AQ", Some [251; 239; 255; 1], None, Some [251; 239; 255; 1]).
Proof. vm_compute. reflexivity. Qed.

(** * Decoding what was encoded *)

Abbreviation is_bytes := (Forall (λ b, 0 ≤ b < 256)).
Definition plain_char (c : ascii) : Prop := line_end c = false ∧ c ≠ byte 36.

Lemma b64_char_spec a n : a = std ∨ a = url → 0 ≤ n < 64 →
  b64_value a (b64_char a n) = Some n ∧ plain_char (b64_char a n).
Proof.
  intros Ha Hn. assert (Hin : n ∈ seqZ 0 64) by (apply elem_of_seqZ; lia). cbn in Hin.
  destruct Ha as [-> | ->];
    repeat (apply elem_of_cons in Hin as [->|Hin]; [split; [reflexivity|split; [reflexivity|discriminate]]|]);
    by apply not_elem_of_nil in Hin.
Qed.

Lemma octets_are_bytes s : is_bytes (octets s).
Proof.
  unfold octets. apply Forall_map, Forall_forall. intros c _. cbn. unfold code.
  pose proof (N_ascii_bounded c). lia.
Qed.

Lemma text_of_octets s : text_of (octets s) = s.
Proof.
  unfold text_of, octets. rewrite map_map. rewrite <-(of_bytes_bytes s) at 2. f_equal.
  rewrite <-(map_id (bytes s)) at 2. apply map_ext. intros c. unfold byte, code.
  by rewrite N2Z.id, ascii_N_embedding.
Qed.

(** Lists of bytes, three at a time *)
Lemma triple_ind (P : list Z → Prop) :
  P [] → (∀ x, P [x]) → (∀ x y, P [x; y]) → (∀ x y z l, P l → P (x :: y :: z :: l)) → ∀ l, P l.
Proof.
  intros H0 H1 H2 H3. enough (H : ∀ n l, (length l ≤ n)%nat → P l) by (intros l; by apply (H (length l))).
  induction n as [|n IH]; intros [|x [|y [|z l]]] Hl; cbn in Hl; try lia; auto. apply H3, IH. lia.
Qed.

Section RoundTrip.
Context (a : alphabet) (Ha : a = std ∨ a = url).

Fixpoint sextets (l : list Z) : list Z :=
  match l with
  | x :: y :: z :: l => x / 4 :: x mod 4 * 16 + y / 16 :: y mod 16 * 4 + z / 64 :: z mod 64 :: sextets l
  | [x; y] => [x / 4; x mod 4 * 16 + y / 16; y mod 16 * 4]
  | [x] => [x / 4; x mod 4 * 16]
  | [] => []
  end.

Lemma encode_sextets l : b64_encode a [] l = map (b64_char a) (sextets l).
Proof. induction l as [|x|x y|x y z l IH] using triple_ind; try done. cbn [b64_encode sextets map]. by rewrite IH. Qed.

Lemma sextets_range l : is_bytes l → Forall (λ n, 0 ≤ n < 64) (sextets l).
Proof.
  induction l as [|x|x y|x y z l IH] using triple_ind; intros H; decompose_Forall_hyps; [done| | |];
    cbn [sextets]; repeat (apply Forall_cons; split; [zlia|]); [done|done|by apply IH].
Qed.

Lemma join_split l : is_bytes l → join_sextets (sextets l) = Some l.
Proof.
  induction l as [|x|x y|x y z l IH] using triple_ind; intros H; decompose_Forall_hyps; [done| | |];
    cbn [sextets join_sextets].
  - do 2 f_equal. zlia.
  - do 2 f_equal; [zlia|]. f_equal. zlia.
  - rewrite IH by done. cbn. do 2 f_equal; [zlia|]. f_equal; [zlia|]. f_equal. zlia.
Qed.

Lemma encode_plain l : is_bytes l → Forall plain_char (b64_encode a [] l).
Proof.
  intros H%sextets_range. rewrite encode_sextets. apply Forall_map. eapply Forall_impl; [exact H|].
  intros n Hn. by apply b64_char_spec.
Qed.

Lemma decode_chars k : Forall (λ n, 0 ≤ n < 64) k → mapM (b64_value a) (map (b64_char a) k) = Some k.
Proof.
  induction 1 as [|n k Hn _ IH]; [done|]. cbn [map mapM]. rewrite IH, (proj1 (b64_char_spec a n Ha Hn)). done.
Qed.

Lemma encode_padded_plain l : is_bytes l → Forall plain_char (b64_encode a padding l).
Proof.
  assert (Hp : Forall plain_char padding) by (by repeat constructor).
  intros H. pose proof (encode_plain l H) as Hl. clear H.
  induction l as [|x|x y|x y z l IH] using triple_ind; cbn [b64_encode] in *;
    rewrite ?app_nil_r in Hl; repeat apply Forall_app_2; try done.
  - by apply Forall_app in Hl as [Hl _].
  - apply IH. by apply Forall_app in Hl as [_ Hl].
Qed.

Lemma sextet_unpadded n : 0 ≤ n < 64 → b64_char a n ∉ padding.
Proof.
  intros Hn. assert (Hin : n ∈ seqZ 0 64) by (apply elem_of_seqZ; lia). cbn in Hin.
  destruct Ha as [-> | ->];
    repeat (apply elem_of_cons in Hin as [->|Hin]; [by intros ?%list_elem_of_singleton|]);
    by apply not_elem_of_nil in Hin.
Qed.

Lemma decode_padded l : is_bytes l → padded_sextets a (b64_encode a padding l) = Some (sextets l).
Proof.
  induction l as [|x|x y|x y z l IH] using triple_ind; intros H; decompose_Forall_hyps; [done| | |];
    cbn [b64_encode padding app sextets padded_sextets];
    rewrite ?(λ n Hn, proj1 (b64_char_spec a n Ha Hn)) by zlia; cbn [mbind option_bind];
    repeat (rewrite bool_decide_eq_false_2 by (apply sextet_unpadded; zlia));
    rewrite ?(λ n Hn, proj1 (b64_char_spec a n Ha Hn)) by zlia; cbn [mbind option_bind].
  - done.
  - done.
  - by rewrite IH.
Qed.

Lemma padded_decode_encode l : is_bytes l → padded_decode a (of_bytes (b64_encode a padding l)) = Some l.
Proof.
  intros H. unfold padded_decode. rewrite bytes_of_bytes, filter_all.
  2:{ intros c Hc. pose proof (encode_padded_plain l H) as Hp. rewrite Forall_forall in Hp. by apply Hp in Hc as []. }
  rewrite decode_padded by done. cbn. by apply join_split.
Qed.

Lemma raw_decode_encode l : is_bytes l → raw_decode a (of_bytes (b64_encode a [] l)) = Some l.
Proof.
  intros H. unfold raw_decode. rewrite bytes_of_bytes, filter_all.
  2:{ intros c Hc. pose proof (encode_plain l H) as Hp. rewrite Forall_forall in Hp. by apply Hp in Hc as []. }
  rewrite encode_sextets, decode_chars by (by apply sextets_range). cbn. by apply join_split.
Qed.
End RoundTrip.
