(* ===== verification/Encryption.v ===== *)
(** Secrets at rest (util/encryption.go, and the two-factor secrets of server/model/user.go):
    AES-256-GCM under a configured key, in base 64, with secrets stored before there was
    encryption read as they are.  The cipher is a parameter; the nonce that crypto/rand
    yields is an argument. *)
From S2P Require Import Prelude GoStrings Base64.
From Stdlib Require Import Ascii.
Open Scope Z_scope.

Inductive encryption_error := ErrEncryptionKeyInvalid | NoNonce | NotBase64 | CiphertextTooShort | NotAuthentic.

(** gcm.NonceSize() *)
Definition nonce_size : nat := 12.

Section Encryption.
(** gcm.Seal and gcm.Open of a block cipher: key, nonce, text *)
Context (seal : list Z → list Z → list Z → list Z) (open : list Z → list Z → list Z → option (list Z)).

(** newAESCipher: the key it builds the cipher of *)
Definition new_aes_cipher (base64_key : string) : result encryption_error (list Z) :=
  match padded_decode std base64_key with
  | None => Fail ErrEncryptionKeyInvalid
  | Some key => if (length key =? 32)%nat then Ok key else Fail ErrEncryptionKeyInvalid
  end.

Definition encrypt_at_rest (base64_key plaintext : string) (rand : option (list Z)) : result encryption_error string :=
  let? key := new_aes_cipher base64_key in
  match rand with
  | None => Fail NoNonce
  | Some nonce => Ok (std_encode (nonce ++ seal key nonce (octets plaintext)))
  end.

Definition decrypt_at_rest (base64_key encoded : string) : result encryption_error string :=
  let? key := new_aes_cipher base64_key in
  match padded_decode std encoded with
  | None => Fail NotBase64
  | Some sealed =>
      if (length sealed <? nonce_size)%nat then Fail CiphertextTooShort
      else match open key (take nonce_size sealed) (drop nonce_size sealed) with
           | None => Fail NotAuthentic
           | Some plaintext => Ok (text_of plaintext)
           end
  end.

Definition is_encrypted_at_rest (base64_key value : string) : bool :=
  if is_empty value then false else is_ok (decrypt_at_rest base64_key value).

(** encryptTwoFactorSecret and DecryptTwoFactorSecret; [key] is twoFactorEncryptionKey(), empty
    when none is configured *)
Definition encrypt_two_factor_secret (key secret : string) (rand : option (list Z)) : result encryption_error string :=
  if is_empty key then Ok secret else encrypt_at_rest key secret rand.
Definition decrypt_two_factor_secret (key stored : string) : result encryption_error string :=
  if is_empty stored then Ok ""
  else if negb (is_empty key) && is_encrypted_at_rest key stored then decrypt_at_rest key stored
  else Ok stored.
End Encryption.

(** * What was encrypted is decrypted *)

Section RoundTrip.
Context (seal : list Z → list Z → list Z → list Z) (open : list Z → list Z → list Z → option (list Z)).

(** crypto/cipher documents that Open undoes Seal under the same key and nonce, and that a
    ciphertext is bytes. *)
Hypothesis open_seal : ∀ key nonce text, is_bytes text → open key nonce (seal key nonce text) = Some text.
Hypothesis seal_bytes : ∀ key nonce text, is_bytes text → is_bytes (seal key nonce text).

Lemma at_rest_roundtrip key text nonce stored : length nonce = nonce_size → is_bytes nonce →
  encrypt_at_rest seal key text (Some nonce) = Ok stored →
  stored ≠ "" ∧ decrypt_at_rest open key stored = Ok text.
Proof.
  unfold encrypt_at_rest, decrypt_at_rest. intros Hl Hb. destruct (new_aes_cipher key) as [k|] eqn:K; [|done].
  intros [= <-]. unfold std_encode. rewrite padded_decode_encode; [|by left|].
  2:{ apply Forall_app_2; [done|]. apply seal_bytes, octets_are_bytes. }
  rewrite length_app, (proj2 (Nat.ltb_ge _ _)) by lia. rewrite take_app_length', drop_app_length' by done.
  rewrite open_seal, text_of_octets by apply octets_are_bytes. split; [|done].
  destruct nonce as [|x [|y [|z nonce]]]; [discriminate Hl..|]. discriminate.
Qed.

(** A secret that was stored reads back. *)
Lemma secret_reads_back key secret nonce stored : length nonce = nonce_size → is_bytes nonce →
  encrypt_two_factor_secret seal key secret (Some nonce) = Ok stored → decrypt_two_factor_secret open key stored = Ok secret.
Proof.
  intros Hl Hb. unfold encrypt_two_factor_secret, decrypt_two_factor_secret. destruct (is_empty key) eqn:K.
  - intros [= <-]. destruct (is_empty secret) eqn:S; [by apply is_empty_spec in S as ->|done].
  - intros [Hne D]%at_rest_roundtrip; [|done|done]. assert (is_empty stored = false) as Hs.
    { destruct (is_empty stored) eqn:E; [|done]. by apply is_empty_spec in E. }
    unfold is_encrypted_at_rest. by rewrite Hs, D.
Qed.

(** C34: a two-factor secret reads back.  Whatever key is configured, or none, a secret that
    was stored is read back as it was, and with a key it is recognised as encrypted; a value
    that does not open under the key, such as a secret from before there was one, is read as
    it is; and reading never fails. *)
Theorem secret_roundtrip key secret nonce stored :
  length nonce = nonce_size → is_bytes nonce →
  encrypt_two_factor_secret seal key secret (Some nonce) = Ok stored →
  decrypt_two_factor_secret open key stored = Ok secret ∧
  is_encrypted_at_rest open key stored = negb (is_empty key) && negb (is_empty stored) ∧
  ∀ old, (is_encrypted_at_rest open key old = false → decrypt_two_factor_secret open key old = Ok old) ∧
         is_ok (decrypt_two_factor_secret open key old) = true.
Proof.
  assert (Hread : ∀ old, (is_encrypted_at_rest open key old = false → decrypt_two_factor_secret open key old = Ok old) ∧
    is_ok (decrypt_two_factor_secret open key old) = true).
  { intros old. unfold decrypt_two_factor_secret. destruct (is_empty old) eqn:S; [by apply is_empty_spec in S as ->|].
    destruct (is_encrypted_at_rest open key old) eqn:E; rewrite ?andb_true_r, ?andb_false_r; [|done].
    split; [done|]. destruct (negb (is_empty key)); [|done]. unfold is_encrypted_at_rest in E. rewrite S in E. exact E. }
  intros Hl Hb E. split; [exact (secret_reads_back _ _ _ _ Hl Hb E)|]. split; [|exact Hread].
  unfold encrypt_two_factor_secret in E. unfold is_encrypted_at_rest. destruct (is_empty key) eqn:K.
  - apply is_empty_spec in K as ->. by destruct (is_empty stored).
  - apply at_rest_roundtrip in E as [Hne D]; [|done|done]. rewrite D. destruct (is_empty stored) eqn:S; [|done]. by apply is_empty_spec in S.
Qed.
End RoundTrip.

(** A cipher that adds the key's first byte and a tag of sixteen zeros *)
Definition toy_seal (key nonce text : list Z) : list Z :=
  map (λ b, (b + hd 0 key) mod 256) text ++ replicate 16 0.
Definition toy_open (key nonce text : list Z) : option (list Z) :=
  if bool_decide (drop (length text - 16) text = replicate 16 0)
  then Some (map (λ b, (b - hd 0 key) mod 256) (take (length text - 16) text)) else None.
Definition demo_key : string := std_encode (map Z.of_nat (seq 1 32)).

Lemma toy_open_seal key nonce text : is_bytes text → toy_open key nonce (toy_seal key nonce text) = Some text.
Proof.
  intros H. unfold toy_open, toy_seal. rewrite length_app, length_replicate, Nat.add_sub.
  rewrite drop_app_length, take_app_length, bool_decide_eq_true_2 by done. f_equal. rewrite map_map.
  rewrite <-(map_id text) at 2. apply map_ext_in. intros b Hb%list_elem_of_In.
  rewrite Forall_forall in H. apply H in Hb. rewrite Zminus_mod_idemp_l. replace (b + _ - _) with b by lia.
  by apply Z.mod_small.
Qed.

Lemma toy_seal_bytes key nonce text : is_bytes text → is_bytes (toy_seal key nonce text).
Proof.
  intros H. apply Forall_app_2; [|by repeat constructor]. apply Forall_map, Forall_forall. intros b _. cbn.
  by apply Z.mod_pos_bound.
Qed.

Lemma secret_roundtrip_witness :
  let nonce := map Z.of_nat (seq 0 12) in
  let stored := std_encode (nonce ++ toy_seal (map Z.of_nat (seq 1 32)) nonce (octets "JBSWY3DP")) in
  encrypt_two_factor_secret toy_seal demo_key "JBSWY3DP" (Some nonce) = Ok stored ∧
  decrypt_two_factor_secret toy_open demo_key stored = Ok "JBSWY3DP" ∧
  decrypt_two_factor_secret toy_open demo_key "JBSWY3DP" = Ok "JBSWY3DP".
Proof.
  cbv zeta. assert (E : encrypt_two_factor_secret toy_seal demo_key "JBSWY3DP" (Some (map Z.of_nat (seq 0 12))) =
    Ok (std_encode (map Z.of_nat (seq 0 12) ++ toy_seal (map Z.of_nat (seq 1 32)) (map Z.of_nat (seq 0 12)) (octets "JBSWY3DP"))))
    by (vm_compute; reflexivity).
  assert (Hn : is_bytes (map Z.of_nat (seq 0 12))) by (repeat constructor; lia).
  destruct (secret_roundtrip toy_seal toy_open toy_open_seal toy_seal_bytes demo_key "JBSWY3DP" (map Z.of_nat (seq 0 12)) _ eq_refl Hn E) as (D & _ & Old).
  split; [exact E|]. split; [exact D|]. apply Old. vm_compute. reflexivity.
Defined.
