(* ===== verification/Sessions.v ===== *)
(** User sessions (server/model/session.go, the UserSessionModel of server/model/user.go,
    and the revocation handler of server/handler/user_settings.go).  Both models read and
    write one table, user_sessions, in which a bearer token appears only as its SHA-256
    digest.  The random bytes drawn and the readings of the clock are arguments; the JSON
    codec of the session data and the text database/sql makes of a time.Time are
    parameters. *)
From S2P Require Import Prelude GoStrings GoTime Sql DbTime Sha256 Base64.
From Stdlib Require Import Ascii.
Open Scope Z_scope.

(** * Tokens *)

(** GenerateSessionID, given what crypto/rand yields: 32 bytes, or an error *)
Definition generate_session_id (rand : option (list Z)) : option string := url_encode <$> rand.

(** hashToken and hashUserToken *)
Definition hash_token (raw : string) : string := hex_encode (sum256 raw).
Arguments hash_token : simpl never.

(** * The table *)

Record session_cols := SessionCols {
  u_user : Z; u_hash : string; u_ip : option string; u_agent : option string; u_data : option string;
  u_created : scanned; u_used : scanned
}.
Abbreviation session_row := (row session_cols).

(** user_sessions with its AUTOINCREMENT counter, and the accounts its rows refer to *)
Record session_tables := SessionTables { t_sessions : list session_row; t_next : Z; t_accounts : gset Z }.
Definition put_sessions (l : list session_row) (t : session_tables) : session_tables :=
  SessionTables l (t_next t) (t_accounts t).

Definition row_id (r : session_row) : Z := match r_id r with VInt z => z | _ => 0 end.
Definition has_hash (h : string) (r : session_row) : bool := str_eqb (u_hash (r_rest r)) h.

(** INSERT: the id given to the row, or the violated UNIQUE or FOREIGN KEY constraint *)
Definition insert_session (c : session_cols) (expires : scanned) (t : session_tables) : option Z * session_tables :=
  if bool_decide (u_user c ∈ t_accounts t) && negb (existsb (has_hash (u_hash c)) (t_sessions t))
  then (Some (t_next t), SessionTables (t_sessions t ++ [Row (VInt (t_next t)) expires c]) (t_next t + 1) (t_accounts t))
  else (None, t).

(** An UPDATE and a DELETE of the rows a test selects *)
Definition update_sessions (p : session_row → bool) (f : session_row → session_row) (t : session_tables)
  : unit * session_tables := (tt, put_sessions (map (λ r, if p r then f r else r) (t_sessions t)) t).
Definition delete_sessions (p : session_row → bool) (t : session_tables) : unit * session_tables :=
  (tt, put_sessions (filter (λ r, p r = false) (t_sessions t)) t).

Definition set_data (d : string) (r : session_row) : session_row :=
  let c := r_rest r in
  Row (r_id r) (r_stamp r) (SessionCols (u_user c) (u_hash c) (u_ip c) (u_agent c) (Some d) (u_created c) (u_used c)).
Definition set_expires (e : scanned) (r : session_row) : session_row := Row (r_id r) e (r_rest r).
Definition set_used (v : scanned) (r : session_row) : session_row :=
  let c := r_rest r in
  Row (r_id r) (r_stamp r) (SessionCols (u_user c) (u_hash c) (u_ip c) (u_agent c) (u_data c) (u_created c) v).

(** Some instant that parses and is after [now]: every test of the program *)
Definition unexpired (now : instant) (r : session_row) : bool :=
  match parse_stored_timestamp (r_stamp r) with Some e => now <? e | None => false end.

Inductive session_error :=
| NoRandom | BadUserID | DriverError | NotFound | Expired | CleanupFailed | BadData | NullColumn | Forbidden.

Definition seconds_from (now : instant) (n : Z) : instant := now + wrap64 (n * second).

Section Sessions.
Context `{Database W session_tables} {D : Type}.
Context (decode_data : string → option D) (encode_data : D → option string).

(** ** SessionModel *)

Record session := Session { s_id : string; s_user : Z; s_data : option D; s_expires : instant; s_created : instant }.

(** CreateSession; the id comes in as an interface value *)
Inductive user_id := UserInt (z : Z) | UserOther.
Definition create_session (rand : option (list Z)) (user : user_id) (timeout : Z) (now1 now2 : instant) (w : W)
  : result session_error session * W :=
  match user with
  | UserOther => (Fail BadUserID, w)
  | UserInt uid =>
      match generate_session_id rand with
      | None => (Fail NoRandom, w)
      | Some raw =>
          let expires := seconds_from now1 timeout in
          let '(r, w) := exec (insert_session
            (SessionCols uid (hash_token raw) None None None (VText (format_sql_timestamp now2)) VNull)
            (VText (format_sql_timestamp expires))) w in
          match r with
          | Some (Some _) => (Ok (Session raw uid None expires now2), w)
          | _ => (Fail DriverError, w)
          end
      end
  end.

(** DeleteSession and DeleteByUserID; UserSessionModel's DeleteSession and
    DeleteAllSessionsForUser are the same statements *)
Definition delete_session (raw : string) (w : W) : bool * W :=
  let '(r, w) := exec (delete_sessions (has_hash (hash_token raw))) w in (bool_decide (is_Some r), w).
Definition delete_by_user_id (user : Z) (w : W) : bool * W :=
  let '(r, w) := exec (delete_sessions (λ r, u_user (r_rest r) =? user)) w in (bool_decide (is_Some r), w).

(** GetByID; the row of a UNIQUE digest *)
Definition find_session (raw : string) (t : session_tables) : option session_row :=
  find (has_hash (hash_token raw)) (t_sessions t).
Definition get_by_id (raw : string) (now : instant) (w : W) : result session_error session * W :=
  let '(r, w) := query (find_session raw) w in
  match r with
  | None => (Fail DriverError, w)
  | Some None => (Fail NotFound, w)
  | Some (Some r) =>
      if negb (unexpired now r) then
        let '(ok, w) := delete_session raw w in (Fail (if ok : bool then Expired else CleanupFailed), w)
      else
        let sess d := Session raw (u_user (r_rest r)) d (default zero_time (parse_stored_timestamp (r_stamp r)))
                        (default zero_time (parse_stored_timestamp (u_created (r_rest r)))) in
        match u_data (r_rest r) with
        | None => (Ok (sess None), w)
        | Some j => if is_empty j then (Ok (sess None), w)
                    else match decode_data j with
                         | None => (Fail BadData, w)
                         | Some d => (Ok (sess (Some d)), w)
                         end
        end
  end.

(** UpdateData and Extend *)
Definition update_data (raw : string) (data : D) (w : W) : result session_error unit * W :=
  match encode_data data with
  | None => (Fail BadData, w)
  | Some j =>
      let '(r, w) := exec (update_sessions (has_hash (hash_token raw)) (set_data j)) w in
      (match r with Some _ => Ok tt | None => Fail DriverError end, w)
  end.
Definition extend (raw : string) (timeout : Z) (now : instant) (w : W) : bool * W :=
  let '(r, w) := exec (update_sessions (has_hash (hash_token raw))
    (set_expires (VText (format_sql_timestamp (seconds_from now timeout))))) w in
  (bool_decide (is_Some r), w).

(** CleanupExpired, and DeleteExpiredSessions of the other model *)
Definition cleanup_expired (now : instant) (w : W) : bool * W :=
  let '((_, ok), w) := @delete_rows_before _ _ (part_database t_sessions put_sessions) now false w in (ok, w).

(** ** UserSessionModel *)

Record user_session := UserSession {
  us_id : Z; us_user : Z; us_hash : string; us_ip : string; us_agent : string;
  us_created : instant; us_expires : instant; us_used : instant
}.

Definition create_user_session (rand : option (list Z)) (user : Z) (ip agent : string) (duration : Z) (now : instant)
    (w : W) : result session_error user_session * W :=
  match generate_session_id rand with
  | None => (Fail NoRandom, w)
  | Some raw =>
      let expires := now + duration in
      let '(r, w) := exec (insert_session
        (SessionCols user (hash_token raw) (Some ip) (Some agent) None (VText (format_sql_timestamp now))
           (VText (format_sql_timestamp now))) (VText (format_sql_timestamp expires))) w in
      match r with
      | Some (Some id) => (Ok (UserSession id user raw ip agent now expires now), w)
      | _ => (Fail DriverError, w)
      end
  end.

(** The Scan of a row: NULL does not go into a Go string *)
Definition scan_user_session (r : session_row) : option user_session :=
  let c := r_rest r in
  match u_ip c, u_agent c with
  | Some ip, Some agent =>
      Some (UserSession (row_id r) (u_user c) (u_hash c) ip agent
              (default zero_time (parse_stored_timestamp (u_created c)))
              (default zero_time (parse_stored_timestamp (r_stamp r)))
              (default zero_time (parse_stored_timestamp (u_used c))))
  | _, _ => None
  end.

(** GetSession: no test of the expiry *)
Definition get_session (raw : string) (w : W) : result session_error user_session * W :=
  let '(r, w) := query (find_session raw) w in
  match r with
  | None => (Fail DriverError, w)
  | Some None => (Fail NotFound, w)
  | Some (Some r) => match scan_user_session r with
                     | None => (Fail NullColumn, w)
                     | Some s => (Ok s, w)
                     end
  end.
Definition session_expired (s : user_session) (now : instant) : bool := us_expires s <? now.

(** UpdateSessionLastUsed, DeleteSessionByRowID, GetRowIDByToken *)
Definition update_session_last_used (raw : string) (now : instant) (w : W) : bool * W :=
  let '(r, w) := exec (update_sessions (has_hash (hash_token raw)) (set_used (VText (format_sql_timestamp now)))) w in
  (bool_decide (is_Some r), w).
Definition delete_session_by_row_id (id : Z) (w : W) : bool * W :=
  let '(r, w) := exec (delete_sessions (λ r, row_id r =? id)) w in (bool_decide (is_Some r), w).
Definition get_row_id_by_token (raw : string) (now : instant) (w : W) : result session_error Z * W :=
  let '(r, w) := query (find_session raw) w in
  match r with
  | None => (Fail DriverError, w)
  | Some None => (Ok 0, w)
  | Some (Some r) => (Ok (if is_after (r_stamp r) now then row_id r else 0), w)
  end.

(** GetActiveSessions: the loop ends at the first row that does not scan *)
Fixpoint scan_active (now : instant) (rows : list session_row) : option (list user_session) :=
  match rows with
  | [] => Some []
  | r :: rows =>
      match scan_user_session r with
      | None => None
      | Some s => rest ← scan_active now rows; Some (if unexpired now r then s :: rest else rest)
      end
  end.
Definition later_used (a b : user_session) : bool := us_used b <? us_used a.
Definition get_active_sessions (user : Z) (now : instant) (w : W) : result session_error (list user_session) * W :=
  let '(rows, w) := query (λ t, filter (λ r, u_user (r_rest r) = user) (t_sessions t)) w in
  match rows with
  | None => (Fail DriverError, w)
  | Some rows => match scan_active now rows with
                 | None => (Fail NullColumn, w)
                 | Some l => (Ok (sort_stable later_used l), w)
                 end
  end.

(** ** RevokeSession of the settings handler *)

Context (time_text : instant → string).
(** Scan into a Go string *)
Definition scan_text (v : scanned) : option string :=
  match v with
  | VNull => None
  | VTime t => Some (time_text t)
  | VBytes s | VText s => Some s
  | VInt z => Some (itoa z)
  end.
Definition revoke_session (user id : Z) (now : instant) (w : W) : result session_error unit * W :=
  let '(r, w) := query (λ t, find (λ r, row_id r =? id) (t_sessions t)) w in
  match r with
  | Some (Some r) =>
      match scan_text (r_stamp r) with
      | None => (Fail NotFound, w)
      | Some text =>
          if negb (is_after (VText text) now) then (Fail NotFound, w)
          else if negb (u_user (r_rest r) =? user) then (Fail Forbidden, w)
          else let '(ok, w) := delete_session_by_row_id id w in
               (if ok : bool then Ok tt else Fail DriverError, w)
      end
  | _ => (Fail NotFound, w)
  end.
End Sessions.

Example token_text : generate_session_id (Some (map Z.of_nat (seq 0 32))) =
  Some "AAECAwQFBgcICQoLDA0ODxAREhMUFRYXGBkaGxwdHh8=".
Proof. vm_compute. reflexivity. Qed.

(** * The specification: which digests are good, for whom, until when *)

(** A registry of digests: the account and the instant its session ends, if readable. *)
Abbreviation registry := (gmap string (Z * option instant)).
Definition entry (r : session_row) : Z * option instant := (u_user (r_rest r), parse_stored_timestamp (r_stamp r)).
Definition registry_of (t : session_tables) : registry :=
  list_to_map (map (λ r, (u_hash (r_rest r), entry r)) (t_sessions t)).

Definition good (now : instant) (e : Z * option instant) : bool :=
  match e.2 with Some t => now <? t | None => false end.
(** What reads back from the second-precise text that is stored *)
Definition stored (t : instant) : option instant := parse_stored_timestamp (VText (format_sql_timestamp t)).

(** Keys are unique: digests by constraint, ids because the counter only grows. *)
Definition sessions_ok (t : session_tables) : Prop :=
  NoDup (map (λ r, u_hash (r_rest r)) (t_sessions t)) ∧
  NoDup (map r_id (t_sessions t)) ∧
  (∀ r, r ∈ t_sessions t → ∃ z, r_id r = VInt z ∧ 0 < z < t_next t) ∧ 0 < t_next t.

Lemma has_hash_spec h r : has_hash h r = true ↔ u_hash (r_rest r) = h.
Proof. apply bool_decide_eq_true. Qed.

Lemma registry_lookup t h : registry_of t !! h = entry <$> find (has_hash h) (t_sessions t).
Proof.
  unfold registry_of. induction (t_sessions t) as [|r l IH]; [done|]. cbn [map find]. rewrite list_to_map_cons.
  destruct (has_hash h r) eqn:E.
  - apply has_hash_spec in E as <-. by rewrite lookup_insert_eq.
  - rewrite lookup_insert_ne; [exact IH|]. intros Eh. apply has_hash_spec in Eh. congruence.
Qed.

Lemma find_filter (p q : session_row → bool) l :
  (∀ r r', r ∈ l → r' ∈ l → q r = true → q r' = true → r = r') → NoDup l →
  find q (filter (λ r, p r = false) l) =
  match find q l with Some r => if p r then None else Some r | None => None end.
Proof.
  induction l as [|r l IH]; intros Hq ND; [done|]. apply NoDup_cons in ND as [Hr ND].
  assert (IH' := IH (λ a b Ha Hb, Hq a b (list_elem_of_further _ _ _ Ha) (list_elem_of_further _ _ _ Hb)) ND).
  clear IH. rewrite filter_cons. cbn [find]. destruct (p r) eqn:Ep.
  - rewrite decide_False, IH' by congruence. destruct (q r) eqn:Eq; [|done]. rewrite Ep.
    destruct (find q l) as [r'|] eqn:F; [|done]. apply find_some in F as [Hin Hq'].
    apply list_elem_of_In in Hin. destruct Hr.
    assert (r = r') as -> by (apply Hq; [by left|by right|done|done]). done.
  - rewrite decide_True by done. cbn [find]. destruct (q r); [by rewrite Ep|done].
Qed.

Lemma rows_nodup t : sessions_ok t → NoDup (t_sessions t).
Proof. intros (H & _). by apply NoDup_fmap_1 in H. Qed.

Lemma same_hash t h r r' : sessions_ok t → r ∈ t_sessions t → r' ∈ t_sessions t →
  has_hash h r = true → has_hash h r' = true → r = r'.
Proof.
  intros (ND & _) Hr Hr' E%has_hash_spec E'%has_hash_spec.
  apply list_elem_of_lookup in Hr as [i Hi], Hr' as [j Hj].
  assert (i = j) as ->; [|congruence].
  apply (NoDup_lookup _ i j h ND); rewrite list_lookup_fmap; [rewrite Hi|rewrite Hj]; cbn; by f_equal.
Qed.

Lemma same_id t r r' : sessions_ok t → r ∈ t_sessions t → r' ∈ t_sessions t → row_id r = row_id r' → r = r'.
Proof.
  intros (_ & ND & Hid & _) Hr Hr' E. destruct (Hid r Hr) as (z & Ez & _), (Hid r' Hr') as (z' & Ez' & _).
  unfold row_id in E. rewrite Ez, Ez' in E. subst z'. apply list_elem_of_lookup in Hr as [i Hi], Hr' as [j Hj].
  assert (i = j) as ->; [|congruence].
  apply (NoDup_lookup _ i j (VInt z) ND); rewrite list_lookup_fmap; [rewrite Hi|rewrite Hj]; cbn; by f_equal.
Qed.

(** Deleting rows deletes their entries and keeps the keys unique. *)
Lemma registry_filter t p h : sessions_ok t →
  registry_of (put_sessions (filter (λ r, p r = false) (t_sessions t)) t) !! h =
  match find (has_hash h) (t_sessions t) with Some r => if p r then None else Some (entry r) | None => None end.
Proof.
  intros Hok. rewrite registry_lookup. cbn [put_sessions t_sessions].
  rewrite find_filter; [|intros r r'; by eapply same_hash|by apply rows_nodup].
  destruct (find _ _) as [r|]; [|done]. by destruct (p r).
Qed.

Lemma filter_ok t p : sessions_ok t → sessions_ok (put_sessions (filter (λ r, p r = false) (t_sessions t)) t).
Proof.
  intros (H1 & H2 & H3 & H4). split_and!; cbn [put_sessions t_sessions t_next];
    [by apply NoDup_map_filter|by apply NoDup_map_filter| |done].
  intros r [_ Hr]%list_elem_of_filter. by apply H3.
Qed.

(** Updating rows in place, key and owner kept. *)
Definition same_keys (f : session_row → session_row) : Prop :=
  ∀ r, r_id (f r) = r_id r ∧ u_hash (r_rest (f r)) = u_hash (r_rest r).

Lemma update_ok t p f : same_keys f → sessions_ok t → sessions_ok (update_sessions p f t).2.
Proof.
  intros Hf (H1 & H2 & H3 & H4). unfold update_sessions. cbn [snd].
  split_and!; cbn [put_sessions t_sessions t_next]; [| | |done].
  - rewrite map_map. erewrite map_ext; [exact H1|]. intros r. cbn. destruct (p r); [apply Hf|done].
  - rewrite map_map. erewrite map_ext; [exact H2|]. intros r. cbn. destruct (p r); [apply Hf|done].
  - intros r (r0 & -> & Hr)%list_elem_of_fmap. destruct (H3 r0 Hr) as (z & E & Hz). exists z.
    split; [|done]. destruct (p r0); [|done]. by rewrite (proj1 (Hf r0)).
Qed.

Lemma registry_update t h f h' : same_keys f →
  registry_of (update_sessions (has_hash h) f t).2 !! h' =
  (if decide (h' = h) then (λ r, entry (f r)) <$> find (has_hash h) (t_sessions t) else registry_of t !! h').
Proof.
  intros Hf. rewrite registry_lookup. unfold update_sessions. cbn [snd put_sessions t_sessions].
  rewrite (registry_lookup t). induction (t_sessions t) as [|r l IH]; [by case_decide|]. cbn [map find].
  destruct (has_hash h r) eqn:E.
  - assert (Eh : ∀ k, has_hash k (f r) = has_hash k r) by (intros k; unfold has_hash; by rewrite (proj2 (Hf r))).
    rewrite Eh. apply has_hash_spec in E. destruct (has_hash h' r) eqn:E'.
    + apply has_hash_spec in E'. rewrite decide_True by congruence. done.
    + assert (h' ≠ h) by (intros ->; apply has_hash_spec in E; congruence). by rewrite IH, !decide_False.
  - destruct (has_hash h' r) eqn:E'; [|exact IH]. rewrite decide_False; [done|]. intros ->. congruence.
Qed.

Lemma registry_insert c e t id t' : insert_session c e t = (Some id, t') → sessions_ok t →
  sessions_ok t' ∧ registry_of t !! u_hash c = None ∧
  registry_of t' = <[u_hash c := (u_user c, parse_stored_timestamp e)]> (registry_of t).
Proof.
  unfold insert_session. destruct (_ && _) eqn:E; [|done]. bool_facts. rename H0 into Hh.
  intros [= <- <-] (H1 & H2 & H3 & H4).
  assert (Hnew : ∀ r, r ∈ t_sessions t → has_hash (u_hash c) r = false).
  { intros r Hr. destruct (has_hash (u_hash c) r) eqn:F; [|done]. rewrite <-Hh. symmetry.
    apply existsb_exists. exists r. split; [by apply list_elem_of_In|done]. }
  assert (Hnone : find (has_hash (u_hash c)) (t_sessions t) = None).
  { destruct (find _ _) as [r|] eqn:F; [|done]. apply find_some in F as [Hr F].
    apply list_elem_of_In, Hnew in Hr. congruence. }
  unfold sessions_ok. split_and!.
  - cbn [t_sessions]. rewrite map_app. apply NoDup_app. split_and!; [done| |apply NoDup_singleton].
    intros h (r & -> & Hr)%list_elem_of_fmap Hi%list_elem_of_singleton. cbn in Hi.
    apply Hnew in Hr. apply has_hash_spec in Hi. congruence.
  - cbn [t_sessions]. rewrite map_app. apply NoDup_app. split_and!; [done| |apply NoDup_singleton].
    intros i (r & -> & Hr)%list_elem_of_fmap Hi%list_elem_of_singleton. cbn in Hi.
    destruct (H3 r Hr) as (z & Ez & Hz). rewrite Ez in Hi. injection Hi as ->. lia.
  - intros r [Hr|Hr%list_elem_of_singleton]%elem_of_app.
    + destruct (H3 r Hr) as (z & Ez & Hz). exists z. split; [done|]. cbn. lia.
    + subst r. exists (t_next t). cbn. split; [done|lia].
  - cbn. lia.
  - by rewrite registry_lookup, Hnone.
  - apply map_eq. intros h. rewrite registry_lookup. cbn [t_sessions]. destruct (decide (h = u_hash c)) as [->|Hne].
    + rewrite lookup_insert_eq, find_app, Hnone. cbn [find].
      assert (has_hash (u_hash c) (Row (VInt (t_next t)) e c) = true) as -> by by apply has_hash_spec. done.
    + rewrite lookup_insert_ne, registry_lookup, find_app by congruence. destruct (find (has_hash h) (t_sessions t)); [done|].
      cbn [find]. destruct (has_hash h _) eqn:F; [|done]. apply has_hash_spec in F. cbn in F. congruence.
Qed.

Lemma registry_delete t h : sessions_ok t →
  sessions_ok (delete_sessions (has_hash h) t).2 ∧
  registry_of (delete_sessions (has_hash h) t).2 = delete h (registry_of t).
Proof.
  intros Hok. split; [by apply filter_ok|]. apply map_eq. intros h'. unfold delete_sessions. cbn [snd].
  rewrite registry_filter by done. destruct (decide (h = h')) as [->|Hne].
  - rewrite lookup_delete_eq. destruct (find _ _) as [r|] eqn:F; [|done].
    apply find_some in F as [_ F]. by rewrite F.
  - rewrite lookup_delete_ne, registry_lookup by done. destruct (find _ _) as [r|] eqn:F; [|done].
    apply find_some in F as [_ F]. apply has_hash_spec in F. destruct (has_hash h r) eqn:G; [|done].
    apply has_hash_spec in G. congruence.
Qed.

Lemma registry_delete_user t user : sessions_ok t →
  sessions_ok (delete_sessions (λ r, u_user (r_rest r) =? user) t).2 ∧
  registry_of (delete_sessions (λ r, u_user (r_rest r) =? user) t).2 =
    filter (λ kv, kv.2.1 ≠ user) (registry_of t).
Proof.
  intros Hok. split; [by apply filter_ok|]. apply map_eq. intros h'. unfold delete_sessions. cbn [snd].
  rewrite registry_filter, map_lookup_filter, registry_lookup by done.
  destruct (find _ _) as [r|] eqn:F; [|done]. cbn. destruct (_ =? _) eqn:U; bool_facts.
  - rewrite option_guard_False; [done|]. cbn. tauto.
  - by rewrite option_guard_True.
Qed.

Lemma registry_same t h f : same_keys f → (∀ r, entry (f r) = entry r) →
  registry_of (update_sessions (has_hash h) f t).2 = registry_of t.
Proof.
  intros Hf He. apply map_eq. intros h'. rewrite registry_update by done. case_decide as D; [subst|done].
  rewrite registry_lookup. destruct (find _ _); [|done]. cbn. by rewrite He.
Qed.

Lemma registry_extend t h e :
  registry_of (update_sessions (has_hash h) (set_expires e) t).2 =
  alter (λ x, (x.1, parse_stored_timestamp e)) h (registry_of t).
Proof.
  apply map_eq. intros h'. rewrite registry_update by done. case_decide as D; [subst h'|].
  - rewrite lookup_alter_eq, registry_lookup. by destruct (find _ _).
  - by rewrite lookup_alter_ne.
Qed.

(** * Sequences of operations *)

Section Refinement.
Context `{DatabaseLaws W session_tables} {D : Type}.
Context (decode_data : string → option D) (encode_data : D → option string) (time_text : instant → string).

Inductive op :=
| OpCreate (rand : option (list Z)) (user : user_id) (timeout : Z) (now1 now2 : instant)
| OpCreateUser (rand : option (list Z)) (user : Z) (ip agent : string) (duration : Z) (now : instant)
| OpGet (raw : string) (now : instant)
| OpGetUser (raw : string) (now : instant)
| OpRowId (raw : string) (now : instant)
| OpUpdateData (raw : string) (data : D)
| OpExtend (raw : string) (timeout : Z) (now : instant)
| OpTouch (raw : string) (now : instant)
| OpLogout (raw : string)
| OpLogoutAll (user : Z)
| OpRevoke (user id : Z) (now : instant)
| OpCleanup (now : instant).

(** What an operation answers: the token it created, the session it found, with what IsExpired
    says of it, the id of its row, or whether it reports success *)
Inductive answer :=
| Created (raw : option string)
| Got (r : result session_error (@session D))
| GotUser (r : result session_error user_session) (expired : bool)
| GotRow (r : result session_error Z)
| Done (ok : bool).

Definition run_op (o : op) (w : W) : answer * W :=
  match o with
  | OpCreate rand user timeout now1 now2 =>
      let '(r, w) := create_session (D := D) rand user timeout now1 now2 w in
      (Created (match r with Ok s => Some (s_id s) | Fail _ => None end), w)
  | OpCreateUser rand user ip agent duration now =>
      let '(r, w) := create_user_session rand user ip agent duration now w in
      (Created (match r with Ok s => Some (us_hash s) | Fail _ => None end), w)
  | OpGet raw now => let '(r, w) := get_by_id decode_data raw now w in (Got r, w)
  | OpGetUser raw now =>
      let '(r, w) := get_session raw w in
      (GotUser r (match r with Ok s => session_expired s now | Fail _ => false end), w)
  | OpRowId raw now => let '(r, w) := get_row_id_by_token raw now w in (GotRow r, w)
  | OpUpdateData raw data => let '(r, w) := update_data encode_data raw data w in (Done (is_ok r), w)
  | OpExtend raw timeout now => let '(ok, w) := extend raw timeout now w in (Done ok, w)
  | OpTouch raw now => let '(ok, w) := update_session_last_used raw now w in (Done ok, w)
  | OpLogout raw => let '(ok, w) := delete_session raw w in (Done ok, w)
  | OpLogoutAll user => let '(ok, w) := delete_by_user_id user w in (Done ok, w)
  | OpRevoke user id now => let '(r, w) := revoke_session time_text user id now w in (Done (is_ok r), w)
  | OpCleanup now => let '(ok, w) := cleanup_expired now w in (Done ok, w)
  end.
Fixpoint run_ops (os : list op) (w : W) : list answer * W :=
  match os with
  | [] => ([], w)
  | o :: os => let '(a, w) := run_op o w in let '(l, w) := run_ops os w in (a :: l, w)
  end.

(** What the answer promises about the registry before and after. *)
Definition get_spec (raw : string) (now : instant) (r : result session_error (@session D)) (m m' : registry) : Prop :=
  let e := m !! hash_token raw in
  match r with
  | Ok s => s_id s = raw ∧ e = Some (s_user s, Some (s_expires s)) ∧ now < s_expires s ∧ m' = m
  | Fail NotFound => e = None ∧ m' = m
  | Fail Expired => (∃ x, e = Some x ∧ good now x = false) ∧ m' = delete (hash_token raw) m
  | Fail CleanupFailed => (∃ x, e = Some x ∧ good now x = false) ∧ m' = m ∧ ¬ never_fails W session_tables
  | Fail BadData => (∃ x, e = Some x ∧ good now x = true) ∧ m' = m
  | Fail err => err = DriverError ∧ m' = m ∧ ¬ never_fails W session_tables
  end.
Definition get_user_spec (raw : string) (now : instant) (r : result session_error user_session) (gone : bool) (m m' : registry) : Prop :=
  m' = m ∧
  match r with
  | Ok s => us_hash s = hash_token raw ∧ ∃ e, m !! hash_token raw = Some (us_user s, e) ∧ us_expires s = default zero_time e ∧
      gone = (us_expires s <? now)
  | Fail NotFound => m !! hash_token raw = None
  | Fail NullColumn => is_Some (m !! hash_token raw)
  | Fail err => err = DriverError ∧ ¬ never_fails W session_tables
  end.
Definition row_id_spec (raw : string) (now : instant) (r : result session_error Z) (m m' : registry) : Prop :=
  m' = m ∧
  match r with
  | Ok rid => rid ≠ 0 ↔ ∃ x, m !! hash_token raw = Some x ∧ good now x = true
  | Fail err => err = DriverError ∧ ¬ never_fails W session_tables
  end.
(** A plain statement fails only when the database does. *)
Definition done_spec (ok : bool) (changed m m' : registry) : Prop :=
  if ok then m' = changed else m' = m ∧ ¬ never_fails W session_tables.
Definition created_spec (user : Z) (expires : instant) (raw : option string) (m m' : registry) : Prop :=
  match raw with
  | None => m' = m
  | Some raw => m !! hash_token raw = None ∧ m' = <[hash_token raw := (user, stored expires)]> m
  end.
Definition cleanup_spec (now : instant) (ok : bool) (m m' : registry) : Prop :=
  m' ⊆ m ∧ (∀ h x, m !! h = Some x → good now x = true → m' !! h = Some x) ∧
  (ok = true → ∀ h x t, m' !! h = Some x → x.2 = Some t → now <= t).

Definition spec_op (o : op) (a : answer) (m m' : registry) : Prop :=
  match o, a with
  | OpCreate _ (UserInt user) timeout now1 _, Created raw => created_spec user (seconds_from now1 timeout) raw m m'
  | OpCreate _ UserOther _ _ _, Created raw => raw = None ∧ m' = m
  | OpCreateUser _ user _ _ duration now, Created raw => created_spec user (now + duration) raw m m'
  | OpGet raw now, Got r => get_spec raw now r m m'
  | OpGetUser raw now, GotUser r gone => get_user_spec raw now r gone m m'
  | OpRowId raw now, GotRow r => row_id_spec raw now r m m'
  | OpUpdateData _ _, Done _ => m' = m
  | OpTouch _ _, Done ok => done_spec ok m m m'
  | OpExtend raw timeout now, Done ok => done_spec ok (alter (λ x, (x.1, stored (seconds_from now timeout))) (hash_token raw) m) m m'
  | OpLogout raw, Done ok => done_spec ok (delete (hash_token raw) m) m m'
  | OpLogoutAll user, Done ok => done_spec ok (filter (λ kv, kv.2.1 ≠ user) m) m m'
  | OpRevoke user _ _, Done ok => if ok then ∃ h x, m !! h = Some x ∧ x.1 = user ∧ m' = delete h m else m' = m
  | OpCleanup now, Done ok => cleanup_spec now ok m m'
  | _, _ => False
  end.
Inductive spec_ops : list op → list answer → registry → registry → Prop :=
| spec_nil m : spec_ops [] [] m m
| spec_cons o os a answers m m1 m' :
    spec_op o a m m1 → spec_ops os answers m1 m' → spec_ops (o :: os) (a :: answers) m m'.

(** What an answer claims when a statement failed: nothing changed, and the database does fail. *)
Ltac down E := repeat (split; [done|]); let Hup := fresh in intros Hup; by apply Hup in E.

(** One statement at a time: an update or a deletion that fails leaves the registry. *)
Lemma delete_session_spec raw (w w' : W) ok :
  sessions_ok (tables w) → delete_session raw w = (ok, w') →
  sessions_ok (tables w') ∧ done_spec ok (delete (hash_token raw) (registry_of (tables w))) (registry_of (tables w)) (registry_of (tables w')).
Proof.
  intros Hok. unfold delete_session. exec_case w1 E Ht; intros [= <- <-].
  - cbn. destruct (registry_delete (tables w) (hash_token raw) Hok) as [H1 H2]. by rewrite Ht in H1, H2.
  - cbn. rewrite Ht. down E.
Qed.

Lemma find_row t h r : find (has_hash h) (t_sessions t) = Some r →
  r ∈ t_sessions t ∧ registry_of t !! h = Some (entry r).
Proof.
  intros F. rewrite registry_lookup, F. split; [|done]. apply find_some in F as [F _]. by apply list_elem_of_In.
Qed.

Lemma registry_of_row t r : sessions_ok t → r ∈ t_sessions t → registry_of t !! u_hash (r_rest r) = Some (entry r).
Proof.
  intros Hok Hin. rewrite registry_lookup. destruct (find _ _) as [r'|] eqn:F'.
  - apply find_some in F' as [Hin' Hh]. apply list_elem_of_In in Hin'. cbn. do 2 f_equal.
    by apply (same_hash t (u_hash (r_rest r))); [..|apply has_hash_spec].
  - apply list_elem_of_In in Hin. pose proof (find_none _ _ F' r Hin) as Hn.
    by rewrite (proj2 (has_hash_spec _ _)) in Hn.
Qed.

Lemma get_spec_holds raw now (w w' : W) r :
  sessions_ok (tables w) → get_by_id decode_data raw now w = (r, w') →
  sessions_ok (tables w') ∧ get_spec raw now r (registry_of (tables w)) (registry_of (tables w')).
Proof.
  intros Hok. unfold get_by_id. exec_case w1 E Ht; [|intros [= <- <-]; rewrite Ht; down E].
  rewrite <-Ht in Hok. rewrite <-Ht. clear E Ht w. unfold find_session, get_spec.
  rewrite registry_lookup. destruct (find _ (t_sessions (tables w1))) as [r0|] eqn:F; [|by intros [= <- <-]].
  cbn [fmap option_fmap option_map]. destruct (unexpired now r0) eqn:L; cbn [negb].
  - assert (Hg : good now (entry r0) = true) by done. unfold unexpired in L.
    destruct (parse_stored_timestamp (r_stamp r0)) as [e|] eqn:P; [|done]. apply Z.ltb_lt in L.
    assert (He : entry r0 = (u_user (r_rest r0), Some e)) by (unfold entry; by rewrite P). rewrite He in *.
    destruct (u_data (r_rest r0)) as [j|]; [destruct (is_empty j); [|destruct (decode_data j)]|];
      intros [= <- <-]; cbn; eauto.
  - destruct (delete_session raw w1) as [ok w2] eqn:Ed. intros [= <- <-].
    destruct (delete_session_spec _ _ _ _ Hok Ed) as [Hok' Hm]. split; [done|].
    destruct ok; cbn in *; [rewrite Hm; split; eauto|destruct Hm as [-> Hup]; eauto].
Qed.

Lemma created_spec_holds c e (w w1 : W) r (T : Type) (ok : Z → result session_error T) raw user expires :
  sessions_ok (tables w) → exec (insert_session c e) w = (r, w1) → u_hash c = hash_token raw →
  u_user c = user → e = VText (format_sql_timestamp expires) → (∀ id, is_ok (ok id) = true) →
  let res := match r with Some (Some id) => ok id | _ => Fail DriverError end in
  sessions_ok (tables w1) ∧
  created_spec user expires (if is_ok res then Some raw else None) (registry_of (tables w)) (registry_of (tables w1)).
Proof.
  intros Hok E Hh <- -> Hres.
  destruct r as [a|]; [apply exec_ok in E|apply exec_fail in E; by rewrite E].
  destruct a as [id|]; cbv zeta iota; [rewrite Hres|].
  - unfold created_spec. cbv iota beta. rewrite <-Hh. exact (registry_insert _ _ _ _ _ E Hok).
  - unfold insert_session in E. destruct (_ && _); [done|]. by injection E as <-.
Qed.

Lemma update_spec h f (w : W) r w' :
  exec (update_sessions (has_hash h) f) w = (r, w') → same_keys f → sessions_ok (tables w) →
  sessions_ok (tables w') ∧
  tables w' = match r with Some _ => (update_sessions (has_hash h) f (tables w)).2 | None => tables w end.
Proof.
  intros E Hf Hok. destruct r as [[]|].
  - apply exec_ok in E. assert (Ht : tables w' = (update_sessions (has_hash h) f (tables w)).2) by by rewrite E.
    rewrite Ht. split; [by apply update_ok|done].
  - apply exec_fail in E. by rewrite E.
Qed.

(** Updates that keep the end of a session, and those that move it. *)
Lemma keep_spec h f (w : W) r w' :
  exec (update_sessions (has_hash h) f) w = (r, w') → same_keys f → (∀ r, entry (f r) = entry r) →
  sessions_ok (tables w) → sessions_ok (tables w') ∧ registry_of (tables w') = registry_of (tables w).
Proof.
  intros E Hf He Hok. destruct (update_spec h f w r w' E Hf Hok) as [H1 H2]. split; [done|].
  destruct r; rewrite H2; [by apply registry_same|done].
Qed.
Lemma move_spec h e (w : W) r w' :
  exec (update_sessions (has_hash h) (set_expires e)) w = (r, w') → sessions_ok (tables w) →
  sessions_ok (tables w') ∧ registry_of (tables w') =
    if bool_decide (is_Some r) then alter (λ x, (x.1, parse_stored_timestamp e)) h (registry_of (tables w))
    else registry_of (tables w).
Proof.
  intros E Hok. destruct (update_spec h (set_expires e) w r w' E (λ r, conj eq_refl eq_refl) Hok) as [H1 H2].
  split; [done|]. rewrite H2. destruct r; [apply registry_extend|done].
Qed.

Lemma done_spec_holds (T : Type) (f : session_tables → T * session_tables) g (w w1 : W) r : exec f w = (r, w1) →
  registry_of (tables w1) = (if bool_decide (is_Some r) then g else registry_of (tables w)) →
  done_spec (bool_decide (is_Some r)) g (registry_of (tables w)) (registry_of (tables w1)).
Proof. intros E Hm. destruct r; cbn in *; [done|]. split; [done|]. intros Hup. by apply Hup in E. Qed.

Lemma scanned_session r s : scan_user_session r = Some s →
  us_hash s = u_hash (r_rest r) ∧ us_user s = u_user (r_rest r) ∧
  us_expires s = default zero_time (parse_stored_timestamp (r_stamp r)).
Proof.
  unfold scan_user_session. destruct (u_ip _); [|done]. destruct (u_agent _); [|done]. by intros [= <-].
Qed.
Lemma get_user_spec_holds raw now (w w' : W) r : get_session raw w = (r, w') →
  tables w' = tables w ∧
  get_user_spec raw now r (match r with Ok s => session_expired s now | Fail _ => false end) (registry_of (tables w)) (registry_of (tables w')).
Proof.
  unfold get_session. exec_case w1 E Ht; [|intros [= <- <-]; rewrite Ht; down E].
  rewrite <-Ht. unfold find_session, get_user_spec. destruct (find _ (t_sessions (tables w1))) as [r0|] eqn:F.
  - destruct (find_row _ _ _ F) as [_ Hr]. apply find_some in F as [_ F]. apply has_hash_spec in F.
    destruct (scan_user_session r0) as [s|] eqn:S; intros [= <- <-]; (split; [done|split; [done|]]); [|rewrite Hr; by eexists].
    apply scanned_session in S as (-> & -> & He). split; [done|]. exists (parse_stored_timestamp (r_stamp r0)). split; [by rewrite Hr|by split].
  - intros [= <- <-]. split; [done|]. split; [done|]. by rewrite registry_lookup, F.
Qed.
Lemma row_id_spec_holds raw now (w w' : W) r : sessions_ok (tables w) → get_row_id_by_token raw now w = (r, w') →
  tables w' = tables w ∧ row_id_spec raw now r (registry_of (tables w)) (registry_of (tables w')).
Proof.
  intros Hok. unfold get_row_id_by_token. exec_case w1 E Ht; [|intros [= <- <-]; rewrite Ht; down E].
  rewrite <-Ht in *. unfold find_session, row_id_spec. rewrite registry_lookup.
  destruct (find _ _) as [r0|] eqn:F; intros [= <- <-]; (split; [done|split; [done|]]); [|split; [done|by intros (x & ? & _)]].
  apply find_row in F as [Hin _]. destruct Hok as (_ & _ & Hid & _). destruct (Hid r0 Hin) as (z & Ez & Hz).
  change (is_after (r_stamp r0) now) with (good now (entry r0)). unfold row_id. rewrite Ez. cbn [fmap option_fmap option_map].
  destruct (good now (entry r0)) eqn:G; split; [by eexists|lia|done|]. intros (x & [= <-] & ?). congruence.
Qed.

(** The deletion by age sees the rows only. *)
Lemma cleanup_rows now (w w' : W) ok :
  sessions_ok (tables w) → cleanup_expired now w = (ok, w') →
  ∃ p, tables w' = put_sessions (filter (λ r, p r = false) (t_sessions (tables w))) (tables w) ∧
    (∀ r, r ∈ t_sessions (tables w) → p r = true → expired now false (r_stamp r) = true) ∧
    (ok = true → ∀ r, r ∈ t_sessions (tables w) → expired now false (r_stamp r) = true → p r = true).
Proof.
  intros (H1 & H2 & H3 & H4). unfold cleanup_expired.
  set (P := part_database t_sessions put_sessions).
  assert (L : @DatabaseLaws W (list session_row) P) by by apply part_laws.
  destruct (@delete_rows_before _ _ P now false w) as [[n ok'] w1] eqn:E. intros [= <- <-].
  assert (Hk : keys_ok (@tables W (list session_row) P w)).
  { split.
    - apply Forall_forall. intros r Hr. destruct (H3 r Hr) as (z & -> & _). done.
    - erewrite map_ext_in; [exact H2|]. intros r Hr%list_elem_of_In. destruct (H3 r Hr) as (z & -> & _). done. }
  destruct (delete_rows_before_filter now false w n ok' w1 Hk E) as (p & Ht & Hp & Hall). exists p.
  split_and!; [|done|done].
  pose (all := @tables W session_tables _). change (all w1 = put_sessions
    (filter (λ r, p r = false) (t_sessions (all w))) (all w)).
  assert (F : all w1 = put_sessions (t_sessions (all w1)) (all w)).
  { refine (delete_rows_before_keeps (Database0 := P)
      (λ w1, all w1 = put_sessions (t_sessions (all w1)) (all w)) now false w (n, ok') w1 _ E _); [|by destruct (all w)].
    intros A f w2 r w3 Hw2 E3. change (@exec W session_tables _ _ (on_part t_sessions put_sessions f) w2 = (r, w3)) in E3.
    destruct r as [a|]; [apply exec_ok in E3|apply exec_fail in E3; by unfold all; rewrite E3].
    unfold on_part in E3. destruct (f _) as [a' u]. injection E3 as _ E3. unfold all at 1 2. rewrite <-E3.
    fold all. by rewrite Hw2. }
  rewrite F. f_equal. exact Ht.
Qed.

Lemma cleanup_spec_holds now (w w' : W) ok :
  sessions_ok (tables w) → cleanup_expired now w = (ok, w') →
  sessions_ok (tables w') ∧ cleanup_spec now ok (registry_of (tables w)) (registry_of (tables w')).
Proof.
  intros Hok E. destruct (cleanup_rows now w w' ok Hok E) as (p & -> & Hp & Hall).
  split; [by apply filter_ok|].
  assert (Hlook : ∀ h x, registry_of (put_sessions (filter (λ r, p r = false) (t_sessions (tables w))) (tables w)) !! h = Some x ↔
    ∃ r, find (has_hash h) (t_sessions (tables w)) = Some r ∧ p r = false ∧ entry r = x).
  { intros h x. rewrite registry_filter by done. destruct (find _ _) as [r|]; [|by split; [|intros (? & ? & _)]].
    destruct (p r) eqn:Ep; split; [done|intros (r' & [= ->] & ? & _); congruence|intros [= <-]; eauto|].
    by intros (r' & [= ->] & _ & ->). }
  split_and!.
  - apply map_subseteq_spec. intros h x (r & F & _ & <-)%Hlook. by apply find_row.
  - intros h x Hx Hg. rewrite registry_lookup in Hx. destruct (find _ _) as [r|] eqn:F; [|done].
    injection Hx as <-. apply Hlook. exists r. split_and!; [done| |done].
    destruct (p r) eqn:Ep; [|done]. apply find_row in F as [Hin _]. specialize (Hp r Hin Ep).
    unfold expired in Hp. unfold good, entry in Hg. cbn in Hg. destruct (parse_stored_timestamp _); [|done].
    cbn in Hp. rewrite orb_false_r in Hp. bool_facts. lia.
  - intros Hk h x t (r & F & Ep & <-)%Hlook Et. cbn in Et. apply find_row in F as [Hin _].
    destruct (decide (now <= t)); [done|]. rewrite (Hall Hk r Hin) in Ep; [done|].
    unfold expired. rewrite Et. cbn. rewrite orb_false_r. apply Z.ltb_lt. lia.
Qed.

Lemma create_spec rand user timeout now1 now2 (w w' : W) a :
  sessions_ok (tables w) → run_op (OpCreate rand user timeout now1 now2) w = (a, w') →
  sessions_ok (tables w') ∧
  spec_op (OpCreate rand user timeout now1 now2) a (registry_of (tables w)) (registry_of (tables w')).
Proof.
  intros Hok. cbn [run_op]. unfold create_session. destruct user as [uid|]; [|by intros [= <- <-]].
  destruct (generate_session_id rand) as [raw|]; [|by intros [= <- <-]].
  destruct (exec _ w) as [r w1] eqn:E.
  destruct (created_spec_holds _ _ w w1 r session (λ _, Ok (@Session D raw uid None (seconds_from now1 timeout) now2))
    raw uid (seconds_from now1 timeout) Hok E eq_refl eq_refl eq_refl (λ _, eq_refl)) as [H1 H2].
  destruct r as [[id|]|]; intros [= <- <-]; exact (conj H1 H2).
Qed.

Lemma create_user_spec rand user ip agent duration now (w w' : W) a :
  sessions_ok (tables w) → run_op (OpCreateUser rand user ip agent duration now) w = (a, w') →
  sessions_ok (tables w') ∧
  spec_op (OpCreateUser rand user ip agent duration now) a (registry_of (tables w)) (registry_of (tables w')).
Proof.
  intros Hok. cbn [run_op]. unfold create_user_session.
  destruct (generate_session_id rand) as [raw|]; [|by intros [= <- <-]].
  destruct (exec _ w) as [r w1] eqn:E.
  destruct (created_spec_holds _ _ w w1 r user_session
    (λ id, Ok (UserSession id user raw ip agent now (now + duration) now))
    raw user (now + duration) Hok E eq_refl eq_refl eq_refl (λ _, eq_refl)) as [H1 H2].
  destruct r as [[id|]|]; intros [= <- <-]; exact (conj H1 H2).
Qed.

Lemma revoke_spec user id now (w w' : W) a :
  sessions_ok (tables w) → run_op (OpRevoke user id now) w = (a, w') →
  sessions_ok (tables w') ∧ spec_op (OpRevoke user id now) a (registry_of (tables w)) (registry_of (tables w')).
Proof.
  intros Hok. cbn [run_op]. unfold revoke_session. exec_case w1 E Ht; [|intros [= <- <-]; by rewrite Ht].
  rewrite <-Ht in *. clear E Ht w. destruct (find _ _) as [r|] eqn:F; [|by intros [= <- <-]].
  destruct (scan_text _ _); [|by intros [= <- <-]]. destruct (negb (is_after _ _)); [by intros [= <- <-]|].
  destruct (u_user (r_rest r) =? user) eqn:U; [|by intros [= <- <-]]. cbn [negb]. apply Z.eqb_eq in U.
  unfold delete_session_by_row_id. exec_case w2 E2 Ht2; intros [= <- <-]; [|cbn; by rewrite Ht2].
  cbn. unfold delete_sessions in Ht2. injection Ht2 as _ Ht2. rewrite <-Ht2. split; [by apply filter_ok|].
  apply find_some in F as [Hin Hid]. apply list_elem_of_In in Hin. apply Z.eqb_eq in Hid.
  exists (u_hash (r_rest r)), (entry r).
  assert (Fr := registry_of_row _ r Hok Hin). split_and!; [done|done|]. apply map_eq. intros h.
  rewrite registry_filter by done. destruct (decide (u_hash (r_rest r) = h)) as [<-|Hne].
  - rewrite registry_lookup in Fr. destruct (find _ _) as [r'|] eqn:F'; [|done]. rewrite lookup_delete_eq.
    apply find_some in F' as [Hin' Hh]. apply list_elem_of_In in Hin'.
    rewrite (same_hash (tables w1) (u_hash (r_rest r)) r' r), (proj2 (Z.eqb_eq _ _) Hid); [done..|by apply has_hash_spec].
  - rewrite lookup_delete_ne, registry_lookup by done. destruct (find (has_hash h) _) as [r'|] eqn:F'; [|done].
    apply find_some in F' as [Hin' Hh]. apply list_elem_of_In in Hin'. apply has_hash_spec in Hh.
    destruct (row_id r' =? id) eqn:I; [|done]. apply Z.eqb_eq in I.
    destruct Hne. rewrite <-Hh. f_equal. f_equal. apply (same_id (tables w1)); [done..|congruence].
Qed.

Lemma run_op_spec o (w w' : W) a :
  sessions_ok (tables w) → run_op o w = (a, w') →
  sessions_ok (tables w') ∧ spec_op o a (registry_of (tables w)) (registry_of (tables w')).
Proof.
  intros Hok. destruct o; [by apply create_spec|by apply create_user_spec|..| |by apply revoke_spec|]; cbn [run_op].
  - destruct (get_by_id _ _ _ _) as [r w1] eqn:E. intros [= <- <-]. by apply get_spec_holds.
  - destruct (get_session _ _) as [r w1] eqn:E. intros [= <- <-]. apply (get_user_spec_holds _ now) in E as [-> E]. by split.
  - destruct (get_row_id_by_token _ _ _) as [r w1] eqn:E. intros [= <- <-]. apply row_id_spec_holds in E as [-> E]; [|done]. by split.
  - unfold update_data. destruct (encode_data data) as [j|]; [|by intros [= <- <-]].
    destruct (exec _ w) as [r w1] eqn:E. apply keep_spec in E; [|done..]. by intros [= <- <-].
  - unfold extend. destruct (exec _ w) as [r w1] eqn:E. pose proof E as E'. apply move_spec in E' as [? Hm]; [|done]. intros [= <- <-].
    split; [done|]. by eapply done_spec_holds.
  - unfold update_session_last_used. destruct (exec _ w) as [r w1] eqn:E. pose proof E as E'.
    apply keep_spec in E' as [? Hm]; [|done..]. intros [= <- <-]. split; [done|]. eapply done_spec_holds; [done|]. rewrite Hm. by case_bool_decide.
  - destruct (delete_session raw w) as [ok w1] eqn:E. intros [= <- <-]. by apply delete_session_spec.
  - unfold delete_by_user_id. exec_case w1 E Ht; intros [= <- <-]; cbn; [|rewrite Ht; down E].
    destruct (registry_delete_user (tables w) user Hok) as [H1 H2]. by rewrite Ht in H1, H2.
  - destruct (cleanup_expired now w) as [ok w1] eqn:E. intros [= <- <-]. by apply cleanup_spec_holds.
Qed.

End Refinement.

(** * The views of a session *)

Section Views.
Context `{DatabaseLaws W session_tables} {D : Type}.
Context (decode_data : string → option D).

(** A token GetByID lets in, as far as the database goes *)
Definition lets_in (r : result session_error (@session D)) : bool :=
  match r with Ok _ | Fail BadData => true | _ => false end.

Lemma elem_of_scan_active now rows l s :
  scan_active now rows = Some l →
  s ∈ l ↔ ∃ r, r ∈ rows ∧ unexpired now r = true ∧ scan_user_session r = Some s.
Proof.
  revert l. induction rows as [|r rows IH]; intros l; cbn [scan_active].
  - intros [= <-]. split; [by intros ?%not_elem_of_nil|]. by intros (r & ?%not_elem_of_nil & _).
  - destruct (scan_user_session r) as [s0|] eqn:E; [|done].
    destruct (scan_active now rows) as [l0|]; [|done]. specialize (IH l0 eq_refl). cbn. intros [= <-].
    destruct (unexpired now r) eqn:L; rewrite ?elem_of_cons, IH.
    + split.
      * intros [->|(r' & ? & ?)]; [exists r|exists r']; (split; [by left || by right|done]).
      * intros (r' & [->|?]%elem_of_cons & ? & ?); [left; congruence|right; eauto].
    + split; intros (r' & Hr & ? & ?).
      * exists r'. split; [by right|done].
      * apply elem_of_cons in Hr as [->|?]; [congruence|eauto].
Qed.

Lemma scan_active_none now rows r : r ∈ rows → scan_user_session r = None → scan_active now rows = None.
Proof.
  intros Hin Hr. induction rows as [|r0 rows IH]; [by apply not_elem_of_nil in Hin|]. cbn [scan_active].
  apply elem_of_cons in Hin as [->|Hin]; [by rewrite Hr|]. rewrite IH by done. by destruct (scan_user_session r0).
Qed.

(** A row that does not scan hides every session of its account. *)
Lemma null_address_hides_all user now r (w w' : W) x :
  r ∈ t_sessions (tables w) → u_user (r_rest r) = user → u_ip (r_rest r) = None →
  get_active_sessions user now w = (x, w') → x = Fail NullColumn ∨ x = Fail DriverError.
Proof.
  intros Hr Hu Hip. unfold get_active_sessions. exec_case w1 E Ht; intros E2; [|injection E2 as <- _; by right].
  assert (Hin : r ∈ filter (λ r, u_user (r_rest r) = user) (t_sessions (tables w))) by by apply list_elem_of_filter.
  rewrite (scan_active_none now _ r Hin) in E2; [injection E2 as <- _; by left|].
  unfold scan_user_session. by rewrite Hip.
Qed.

Lemma lets_in_spec raw now r (m m' : registry) :
  get_spec raw now r m m' → r ≠ Fail DriverError →
  lets_in r = true ↔ ∃ x, m !! hash_token raw = Some x ∧ good now x = true.
Proof.
  unfold get_spec. intros Hg Hd. destruct r as [s|e]; [|destruct e]; cbn [lets_in];
    destruct Hg as [Hg Hm]; try done.
  - destruct Hm as (Hm & Hlt & _). split; [|done]. intros _. eexists. split; [exact Hm|]. by apply Z.ltb_lt.
  - split; [done|]. intros (x & Hx & _). congruence.
  - split; [done|]. destruct Hg as (y & Hy & Hb). intros (x & Hx & Hgood). congruence.
  - split; [done|]. destruct Hg as (y & Hy & Hb). intros (x & Hx & Hgood). congruence.
Qed.

(** GetRowIDByToken *)
Lemma row_id_correct raw now (w w2 : W) rid :
  sessions_ok (tables w) → get_row_id_by_token raw now w = (Ok rid, w2) →
  (rid ≠ 0 ↔ ∃ x, registry_of (tables w) !! hash_token raw = Some x ∧ good now x = true) ∧ tables w2 = tables w.
Proof.
  intros Hok. unfold get_row_id_by_token. exec_case w4 E Ht; [|done]. unfold find_session.
  rewrite registry_lookup. destruct (find _ _) as [r0|] eqn:F; intros [= <- <-]; (split; [|done]).
  - apply find_row in F as [Hin _]. destruct Hok as (_ & _ & Hid & _). destruct (Hid r0 Hin) as (z & Ez & Hz).
    change (is_after (r_stamp r0) now) with (good now (entry r0)). unfold row_id. rewrite Ez.
    cbn [fmap option_fmap option_map]. destruct (good now (entry r0)) eqn:G.
    + split; [by eexists|lia].
    + split; [done|]. intros (x & [= <-] & ?). congruence.
  - split; [done|]. by intros (x & ? & _).
Qed.

(** GetActiveSessions *)
Lemma active_correct user now (w w3 : W) l :
  get_active_sessions user now w = (Ok l, w3) →
  (∀ s, s ∈ l ↔ ∃ r, (u_user (r_rest r) = user ∧ r ∈ t_sessions (tables w)) ∧
    unexpired now r = true ∧ scan_user_session r = Some s) ∧
  (∀ r, u_user (r_rest r) = user → r ∈ t_sessions (tables w) → is_Some (scan_user_session r)) ∧
  StronglySorted (λ a b, us_used b <= us_used a) l ∧ tables w3 = tables w.
Proof.
  unfold get_active_sessions. exec_case w4 E Ht; [|done].
  destruct (scan_active _ _) as [l0|] eqn:Hl0; [|done]. intros [= <- <-]. split_and!; [| | |done].
  - intros s. rewrite sort_stable_Permutation, (elem_of_scan_active _ _ _ _ Hl0).
    split; intros (r0 & Hr0 & ?); exists r0; (split; [|done]);
      [by apply list_elem_of_filter in Hr0|by apply list_elem_of_filter].
  - intros r Hu Hr. assert (Hin : r ∈ filter (λ r, u_user (r_rest r) = user) (t_sessions (tables w)))
      by by apply list_elem_of_filter.
    destruct (scan_user_session r) eqn:E'; [by eexists|]. by rewrite (scan_active_none now _ r) in Hl0.
  - assert (S : StronglySorted (λ a b, later_used b a = false) (sort_stable later_used l0)).
    { apply sort_stable_sorted; unfold later_used.
      - intros x y z ?%Z.ltb_ge ?%Z.ltb_ge. apply Z.ltb_ge. lia.
      - intros x y ?%Z.ltb_lt. apply Z.ltb_ge. lia. }
    induction S as [|a l' Hs IH Ha]; constructor; [done|].
    eapply Forall_impl; [exact Ha|]. by intros b ?%Z.ltb_ge.
Qed.

(** The readers of user_sessions agree.  When the three lookups reach the database, the
    cookie check lets a token in exactly when the row id lookup finds it, and exactly when
    the registry holds it unexpired; and the list of an account's active sessions, when it
    is produced, names each unexpired session of that account once and no other, with its
    end, the most recently used first. *)
Theorem views_agree raw user now (w w1 w2 w3 : W) r rid l :
  sessions_ok (tables w) →
  get_by_id decode_data raw now w = (r, w1) → r ≠ Fail DriverError →
  get_row_id_by_token raw now w = (Ok rid, w2) → get_active_sessions user now w = (Ok l, w3) →
  let m := registry_of (tables w) in
  (lets_in r = true ↔ rid ≠ 0) ∧
  (rid ≠ 0 ↔ ∃ x, m !! hash_token raw = Some x ∧ good now x = true) ∧
  (∀ h, h ∈ map us_hash l ↔ ∃ t, m !! h = Some (user, Some t) ∧ now < t) ∧
  (∀ s, s ∈ l → m !! us_hash s = Some (user, Some (us_expires s))) ∧
  StronglySorted (λ a b, us_used b <= us_used a) l ∧ tables w2 = tables w ∧ tables w3 = tables w.
Proof.
  intros Hok Eg Hd Er El m.
  destruct (get_spec_holds decode_data raw now w w1 r Hok Eg) as [_ Hg]. fold m in Hg.
  destruct (row_id_correct raw now w w2 rid Hok Er) as [Hrow ->]. fold m in Hrow.
  destruct (active_correct user now w w3 l El) as (Hin & Hscan & Hsort & ->).
  assert (Hent : ∀ s, s ∈ l → ∃ t, m !! us_hash s = Some (user, Some t) ∧ now < t ∧ us_expires s = t).
  { intros s (r0 & (Hu & Hr0) & L & Hs)%Hin. apply scanned_session in Hs as (-> & _ & ->).
    unfold unexpired in L. destruct (parse_stored_timestamp (r_stamp r0)) as [t|] eqn:P; [|done].
    exists t. split_and!; [|by apply Z.ltb_lt|done]. unfold m. rewrite (registry_of_row _ r0) by done.
    unfold entry. by rewrite P, Hu. }
  split_and!; [|exact Hrow| | |exact Hsort|done|done].
  - rewrite Hrow. by eapply lets_in_spec.
  - intros h. split.
    + intros (s & -> & Hs)%list_elem_of_fmap. destruct (Hent s Hs) as (t & ? & ? & _). eauto.
    + intros (t & Hm & Ht). unfold m in Hm. rewrite registry_lookup in Hm.
      destruct (find _ _) as [r0|] eqn:F; [|done]. injection Hm as Hu He.
      apply find_some in F as [Hr0 Hh]. apply list_elem_of_In in Hr0. apply has_hash_spec in Hh.
      destruct (Hscan r0 Hu Hr0) as [s Es]. apply list_elem_of_fmap. exists s.
      split; [destruct (scanned_session _ _ Es) as (-> & _); done|]. apply Hin. exists r0.
      split_and!; [done|done| |done]. unfold unexpired. rewrite He. by apply Z.ltb_lt.
  - intros s Hs. destruct (Hent s Hs) as (t & Hm & _ & ->). done.
Qed.
End Views.

(** * Concrete runs *)

Definition no_sessions : session_tables := SessionTables [] 1 {[7]}.
Lemma no_sessions_ok : sessions_ok no_sessions.
Proof. split_and!; [constructor|constructor|intros r Hr; by apply not_elem_of_nil in Hr|done]. Qed.

Definition dice : list Z := map Z.of_nat (seq 0 32).
Definition dice_token : string := "AAECAwQFBgcICQoLDA0ODxAREhMUFRYXGBkaGxwdHh8=".
Definition noon : instant := date_utc 2024 6 10 12 0 0 0.
Definition plain_data (s : string) : option string := Some s.
Definition no_text (t : instant) : string := "".

(** A log-in for an hour, looked up in its last second and after it. *)
Definition log_in : list (@op string) :=
  [OpCreate (Some dice) (UserInt 7) 3600 noon noon; OpGet dice_token (noon + 3599 * second);
   OpGet dice_token (noon + 3600 * second)].


Definition signed_in : session_tables := SessionTables
  [Row (VInt 1) (VText "2024-06-10 13:00:00") (SessionCols 7 (hash_token "a") (Some "::1") (Some "curl") None
     (VText "2024-06-10 12:00:00") (VText "2024-06-10 12:00:00"));
   Row (VInt 2) (VText "2024-06-10 12:30:00") (SessionCols 7 (hash_token "b") (Some "::1") (Some "curl") None
     (VText "2024-06-10 12:00:00") (VText "2024-06-10 12:10:00"))] 3 {[7]}.

Lemma signed_in_ok : sessions_ok signed_in.
Proof.
  split_and!.
  - apply (bool_decide_unpack _). vm_compute. exact I.
  - apply (bool_decide_unpack _). vm_compute. exact I.
  - intros r [->|[->|Hr%not_elem_of_nil]%elem_of_cons]%elem_of_cons; [exists 1|exists 2|done]; done.
  - done.
Qed.

Lemma views_agree_witness :
  ∃ l, (get_active_sessions 7 (noon + 2700 * second) (Reliable signed_in)).1 = Ok l ∧
    ∀ h, h ∈ map us_hash l ↔
      ∃ t, registry_of signed_in !! h = Some (7, Some t) ∧ noon + 2700 * second < t.
Proof.
  assert (Hok : sessions_ok (tables (Reliable signed_in))) by exact signed_in_ok.
  destruct (get_by_id plain_data "a" (noon + 2700 * second) (Reliable signed_in)) as [r w1] eqn:E1.
  destruct (get_active_sessions 7 (noon + 2700 * second) (Reliable signed_in)) as [x w3] eqn:E3.
  destruct (get_row_id_by_token "a" (noon + 2700 * second) (Reliable signed_in)) as [y w2] eqn:E2.
  assert (Hr : r ≠ Fail DriverError).
  { change r with (fst (r, w1)). rewrite <-E1. vm_compute. discriminate. }
  assert (Hx : ∃ l, x = Ok l). { change x with (fst (x, w3)). rewrite <-E3. vm_compute. eexists. reflexivity. }
  assert (Hy : ∃ n, y = Ok n). { change y with (fst (y, w2)). rewrite <-E2. vm_compute. eexists. reflexivity. }
  destruct Hx as [l ->], Hy as [n ->]. exists l. split; [reflexivity|].
  exact (proj1 (proj2 (proj2 (views_agree plain_data "a" 7 (noon + 2700 * second) (Reliable signed_in) w1 w2 w3 r n l
    Hok E1 Hr E2 E3)))).
Defined.

(** A log-in through SessionModel stores no address, and the account's list of sessions
    then fails to load, for as long as that row is there. *)
Lemma log_in_hides_sessions :
  let w := (run_ops plain_data plain_data no_text
    [OpCreateUser (Some (reverse dice)) 7 "::1" "curl" (3600 * second) noon;
     OpCreate (Some dice) (UserInt 7) 3600 noon noon] (Reliable no_sessions)).2 in
  (get_active_sessions 7 noon w).1 = Fail NullColumn.
Proof. vm_compute. reflexivity. Qed.
