(* ===== verification/RecoveryKeys.v ===== *)
(** Two-factor recovery keys (server/model/recovery_keys.go): ten one-time keys per
    account, stored as SHA-256 digests, accepted in any spelling.  A time the code binds
    as it is, here used_at and created_at, is stored by the driver in a form it reads
    back: [VTime].  Verifying takes two statements, kept apart because another request may
    come between them. *)
From S2P Require Import Prelude GoStrings GoTime Sql DbTime Sha256 Sessions.
From Stdlib Require Import Ascii.
Open Scope Z_scope.

(** * Spellings *)

(** strings.ReplaceAll of a one-character string by nothing *)
Definition remove_byte (c : ascii) (s : string) : string := of_bytes (filter (λ a, a ≠ c) (bytes s)).

(** The key as it is shown: eight digits, a dash, four digits *)
Definition dashed (digits : string) : string :=
  of_bytes (take 8 (bytes digits)) +:+ "-" +:+ of_bytes (take 4 (drop 8 (bytes digits))).

(** The normalisation of VerifyAndUseRecoveryKey *)
Definition canonical (key : string) : string :=
  let key := to_lower (remove_byte space key) in
  let stripped := remove_byte dash key in
  if (String.length stripped =? 12)%nat then dashed stripped else key.

(** * The table *)

Record key_row := KeyRow { k_id : Z; k_user : Z; k_hash : string; k_used : scanned; k_created : scanned }.
Record key_tables := KeyTables { t_keys : list key_row; t_next_key : Z; t_users : gset Z }.
Definition put_keys (l : list key_row) (t : key_tables) : key_tables := KeyTables l (t_next_key t) (t_users t).

Definition unused (r : key_row) : bool := bool_decide (k_used r = VNull).
Definition of_user (user : Z) (r : key_row) : bool := k_user r =? user.
Definition matches (user : Z) (h : string) (r : key_row) : bool :=
  of_user user r && str_eqb (k_hash r) h && unused r.
Definition mark (now : instant) (r : key_row) : key_row :=
  KeyRow (k_id r) (k_user r) (k_hash r) (VTime now) (k_created r).

(** INSERT, unless the account does not exist *)
Definition insert_key (user : Z) (h : string) (now : instant) (t : key_tables) : bool * key_tables :=
  if bool_decide (user ∈ t_users t)
  then (true, KeyTables (t_keys t ++ [KeyRow (t_next_key t) user h VNull (VTime now)]) (t_next_key t + 1) (t_users t))
  else (false, t).

Inductive key_error := DeleteFailed | NoRandomKey | StoreFailed | QueryFailed | MarkFailed.

Section Keys.
Context `{Database W key_tables}.

(** DeleteAllForUser *)
Definition delete_all_for_user (user : Z) (w : W) : bool * W :=
  let '(r, w) := exec (λ t, (tt, put_keys (filter (λ r, of_user user r = false) (t_keys t)) t)) w in
  (bool_decide (is_Some r), w).

(** GenerateRecoveryKeys: the draws of six bytes, one per key, each with the clock at its
    INSERT *)
Fixpoint generate_loop (user : Z) (draws : list (option (list Z) * instant)) (keys : list string) (w : W)
  : result key_error (list string) * W :=
  match draws with
  | [] => (Ok keys, w)
  | (None, _) :: _ => (Fail NoRandomKey, w)
  | (Some raw, now) :: draws =>
      let formatted := dashed (hex_encode raw) in
      let '(r, w) := exec (insert_key user (hash_token formatted) now) w in
      match r with
      | Some true => generate_loop user draws (keys ++ [formatted]) w
      | _ => (Fail StoreFailed, w)
      end
  end.
Definition generate_recovery_keys (user : Z) (draws : list (option (list Z) * instant)) (w : W)
  : result key_error (list string) * W :=
  let '(ok, w) := delete_all_for_user user w in
  if negb ok then (Fail DeleteFailed, w) else generate_loop user (take 10 draws) [] w.

(** VerifyAndUseRecoveryKey: the lookup, and the mark by id *)
Definition verify_lookup (user : Z) (key : string) (w : W) : result key_error (option Z) * W :=
  let '(r, w) := query (λ t, k_id <$> find (matches user (hash_token (canonical key))) (t_keys t)) w in
  (match r with None => Fail QueryFailed | Some id => Ok id end, w).
Definition verify_mark (id : Z) (now : instant) (w : W) : result key_error bool * W :=
  let '(r, w) := exec (λ t, (tt, put_keys (map (λ r, if k_id r =? id then mark now r else r) (t_keys t)) t)) w in
  (match r with None => Fail MarkFailed | Some _ => Ok true end, w).
Definition verify_and_use (user : Z) (key : string) (now : instant) (w : W) : result key_error bool * W :=
  let '(r, w) := verify_lookup user key w in
  match r with
  | Fail e => (Fail e, w)
  | Ok None => (Ok false, w)
  | Ok (Some id) => verify_mark id now w
  end.

(** GetUnusedKeysCount, and GetAllKeysForUser in the engine's order of created_at *)
Definition get_unused_keys_count (user : Z) (w : W) : option nat * W :=
  query (λ t, length (filter (λ r, of_user user r && unused r = true) (t_keys t))) w.
Definition get_all_keys_for_user (newest_first : list key_row → list key_row) (user : Z) (w : W)
  : option (list key_row) * W :=
  query (λ t, newest_first (filter (λ r, of_user user r = true) (t_keys t))) w.
End Keys.

Example spellings : map canonical ["a1b2c3d4-e5f6"; "A1B2 C3D4 E5F6"; "a1b2c3d4e5f6"; "a-1b2c3d4e5f6"; "A1 b2"] =
  ["a1b2c3d4-e5f6"; "a1b2c3d4-e5f6"; "a1b2c3d4-e5f6"; "a1b2c3d4-e5f6"; "a1b2"].
Proof. vm_compute. reflexivity. Qed.

(** * Every generated key opens the account once *)

(** What is open: the digests of an account's unused keys. *)
Definition open_hashes (user : Z) (t : key_tables) : list string :=
  map k_hash (filter (λ r, of_user user r && unused r = true) (t_keys t)).

(** Row ids are the counter's, and no account has one digest open twice. *)
Definition keys_ok (t : key_tables) : Prop :=
  NoDup (map k_id (t_keys t)) ∧ (∀ r, r ∈ t_keys t → k_id r < t_next_key t).

Section Theorems.
Context `{DatabaseLaws W key_tables}.

Lemma matches_spec user h r : matches user h r = true ↔ k_user r = user ∧ k_hash r = h ∧ k_used r = VNull.
Proof.
  unfold matches, of_user, unused, str_eqb. rewrite !andb_true_iff, Z.eqb_eq, !bool_decide_eq_true. tauto.
Qed.

Lemma open_spec user h t : h ∈ open_hashes user t ↔ ∃ r, r ∈ t_keys t ∧ matches user h r = true.
Proof.
  unfold open_hashes. rewrite list_elem_of_fmap. setoid_rewrite list_elem_of_filter. setoid_rewrite matches_spec.
  unfold of_user, unused. setoid_rewrite andb_true_iff. setoid_rewrite Z.eqb_eq. setoid_rewrite bool_decide_eq_true.
  split; intros (r & ?); exists r; destruct_and!; subst; tauto.
Qed.

Lemma verify_cases user key now (w w' : W) r :
  verify_and_use user key now w = (r, w') →
  (∃ e, r = Fail e ∧ tables w' = tables w) ∨
  (r = Ok false ∧ tables w' = tables w ∧ find (matches user (hash_token (canonical key))) (t_keys (tables w)) = None) ∨
  (∃ row, r = Ok true ∧ find (matches user (hash_token (canonical key))) (t_keys (tables w)) = Some row ∧
    tables w' = put_keys (map (λ r, if k_id r =? k_id row then mark now r else r) (t_keys (tables w))) (tables w)).
Proof.
  unfold verify_and_use, verify_lookup. generalize (hash_token (canonical key)) as h. intros h.
  exec_case w1 E Ht; [|intros [= <- <-]; left; eauto].
  destruct (find _ _) as [row|] eqn:F; cbn [fmap option_fmap option_map]; [|intros [= <- <-]; right; left; eauto].
  unfold verify_mark. exec_case w2 E2 Ht2; intros [= <- <-].
  - right; right. exists row. injection Ht2 as _ <-. by rewrite Ht.
  - left. eexists. split; [done|]. congruence.
Qed.

Lemma find_split {A} (p : A → bool) l x : find p l = Some x → ∃ l1 l2, l = l1 ++ x :: l2 ∧ p x = true.
Proof.
  intros F. apply find_some in F as [Hin Hp]. apply list_elem_of_In, list_elem_of_split in Hin as (l1 & l2 & ->).
  by exists l1, l2.
Qed.

Lemma map_other_ids now id (l : list key_row) :
  id ∉ map k_id l → map (λ r, if k_id r =? id then mark now r else r) l = l.
Proof.
  induction l as [|r l IH]; [done|]. cbn [map]. intros [Hne Hl]%not_elem_of_cons.
  rewrite IH by done. destruct (k_id r =? id) eqn:E; [|done]. apply Z.eqb_eq in E. congruence.
Qed.

(** Marking a key closes it and no other. *)
Lemma mark_closes user h now t row : keys_ok t → find (matches user h) (t_keys t) = Some row →
  let t' := put_keys (map (λ r, if k_id r =? k_id row then mark now r else r) (t_keys t)) t in
  keys_ok t' ∧ open_hashes user t ≡ₚ h :: open_hashes user t' ∧
  ∀ user', user' ≠ user → open_hashes user' t' = open_hashes user' t.
Proof.
  intros [ND Hlt] (l1 & l2 & E & Hm)%find_split t'. apply matches_spec in Hm as (Hu & Hh & Hn).
  assert (E' : t_keys t' = l1 ++ mark now row :: l2).
  { unfold t'. cbn [put_keys t_keys]. rewrite E, map_app. cbn [map]. rewrite Z.eqb_refl.
    rewrite E, map_app in ND. cbn [map] in ND. apply NoDup_app in ND as (_ & Hd & [Hr _]%NoDup_cons).
    rewrite !map_other_ids; [done|done|]. intros Hin. apply (Hd _ Hin). by left. }
  split_and!.
  - split; rewrite E'.
    + rewrite E in ND. by rewrite map_app in *.
    + intros r Hr. change (t_next_key t') with (t_next_key t). apply elem_of_app in Hr as [Hr|[->|Hr]%elem_of_cons].
      * apply Hlt. rewrite E. set_solver.
      * apply (Hlt row). rewrite E. set_solver.
      * apply Hlt. rewrite E. set_solver.
  - unfold open_hashes. rewrite E', E, !filter_app, !filter_cons, !map_app. unfold of_user, unused.
    cbn [mark k_user k_used]. rewrite Hu, Z.eqb_refl, Hn. rewrite decide_True, decide_False by done. cbn [map]. rewrite Hh. by rewrite Permutation_middle.
  - intros user' Hne. unfold open_hashes. rewrite E', E, !filter_app, !filter_cons. unfold of_user. cbn [mark k_user].
    rewrite Hu. assert ((user =? user') = false) as -> by by apply Z.eqb_neq. cbn [andb].
    by rewrite !decide_False.
Qed.

(** Attempts, by any accounts, one after the other *)
Record attempt := Attempt { a_user : Z; a_key : string; a_now : instant }.
Fixpoint run_attempts (l : list attempt) (w : W) : list (result key_error bool) * W :=
  match l with
  | [] => ([], w)
  | a :: l => let '(r, w) := verify_and_use (a_user a) (a_key a) (a_now a) w in
              let '(rs, w) := run_attempts l w in (r :: rs, w)
  end.

(** The digests an account was let in with, and those it was refused *)
Definition answered (b : bool) (user : Z) (p : attempt * result key_error bool) : option string :=
  match p.2 with
  | Ok b' => if bool_decide (b' = b) && (a_user p.1 =? user) then Some (hash_token (canonical (a_key p.1))) else None
  | Fail _ => None
  end.
Definition answers (b : bool) (user : Z) (l : list attempt) (rs : list (result key_error bool)) : list string :=
  omap (answered b user) (zip l rs).

Lemma answers_cons b user a r l rs : answers b user (a :: l) (r :: rs) =
  match answered b user (a, r) with Some h => h :: answers b user l rs | None => answers b user l rs end.
Proof. reflexivity. Qed.

Lemma attempts_spec user l (w w' : W) rs : keys_ok (tables w) → run_attempts l w = (rs, w') →
  open_hashes user (tables w) ≡ₚ answers true user l rs ++ open_hashes user (tables w') ∧
  ∀ h, h ∈ answers false user l rs → h ∉ open_hashes user (tables w').
Proof.
  revert w rs. induction l as [|a l IH]; intros w rs Hok; cbn [run_attempts].
  - intros [= <- <-]. split; [done|]. intros h Hh. by apply not_elem_of_nil in Hh.
  - destruct (verify_and_use _ _ _ w) as [r w1] eqn:E. destruct (run_attempts l w1) as [rs1 w2] eqn:E2.
    intros [= <- <-]. rewrite !answers_cons. unfold answered. cbn [fst snd].
    apply verify_cases in E as [(e & -> & Ht)|[(-> & Ht & F)|(row & -> & F & Ht)]].
    + rewrite <-Ht in Hok |- *. exact (IH w1 rs1 Hok E2).
    + rewrite <-Ht in Hok |- *. destruct (IH w1 rs1 Hok E2) as [Hp Hn].
      rewrite bool_decide_eq_false_2, bool_decide_eq_true_2 by done. cbn [andb]. split; [done|].
      destruct (a_user a =? user) eqn:U; [|done]. intros h [->|Hh]%elem_of_cons; [|by apply Hn].
      intros Hin. assert (Ho : hash_token (canonical (a_key a)) ∈ open_hashes user (tables w1)).
      { rewrite Hp. apply elem_of_app. by right. }
      apply open_spec in Ho as (r & Hr & Hm). apply list_elem_of_In in Hr. rewrite Ht in Hr.
      apply Z.eqb_eq in U. subst user. rewrite (find_none _ _ F r Hr) in Hm. done.
    + destruct (mark_closes _ _ (a_now a) _ _ Hok F) as (Hok' & Ho & Hother). rewrite <-Ht in Hok', Ho, Hother.
      destruct (IH w1 rs1 Hok' E2) as [Hp Hn].
      rewrite bool_decide_eq_true_2, bool_decide_eq_false_2 by done. cbn [andb]. split; [|exact Hn].
      destruct (a_user a =? user) eqn:U.
      * apply Z.eqb_eq in U. subst user. rewrite Ho. cbn. by rewrite <-Hp.
      * apply Z.eqb_neq in U. rewrite <-Hother by congruence. exact Hp.
Qed.

(** An INSERT opens its digest and changes nothing else. *)
Lemma insert_key_open user h now t t' : insert_key user h now t = (true, t') → keys_ok t →
  keys_ok t' ∧ open_hashes user t' = open_hashes user t ++ [h] ∧
  ∀ user', user' ≠ user → open_hashes user' t' = open_hashes user' t.
Proof.
  unfold insert_key. case_bool_decide; [|done]. intros [= <-] [ND Hlt]. split_and!.
  - split; cbn [t_keys t_next_key].
    + rewrite map_app. cbn. apply NoDup_app. split_and!; [done| |apply NoDup_singleton].
      intros i (r & -> & Hr)%list_elem_of_fmap Hi%list_elem_of_singleton. apply Hlt in Hr. cbn in Hi. lia.
    + intros r [Hr| ->%list_elem_of_singleton]%elem_of_app; [apply Hlt in Hr; lia|cbn; lia].
  - unfold open_hashes, of_user, unused. cbn [t_keys]. rewrite filter_app, map_app. f_equal.
    rewrite filter_cons. cbn. by rewrite Z.eqb_refl.
  - intros user' Hne. unfold open_hashes, of_user. cbn [t_keys]. rewrite filter_app, filter_cons. cbn [k_user].
    assert ((user =? user') = false) as -> by by apply Z.eqb_neq. cbn [andb]. rewrite decide_False by done.
    by rewrite filter_nil, app_nil_r.
Qed.

(** The keys shown for a list of draws *)
Definition shown (draws : list (option (list Z) * instant)) : list string :=
  omap (λ d, (λ raw, dashed (hex_encode raw)) <$> d.1) draws.

Lemma generate_loop_spec user draws keys0 keys (w w' : W) :
  generate_loop user draws keys0 w = (Ok keys, w') → keys_ok (tables w) →
  keys_ok (tables w') ∧ keys = keys0 ++ shown draws ∧ length (shown draws) = length draws ∧
  open_hashes user (tables w') = open_hashes user (tables w) ++ map hash_token (shown draws) ∧
  ∀ user', user' ≠ user → open_hashes user' (tables w') = open_hashes user' (tables w).
Proof.
  revert keys0 w. induction draws as [|[[raw|] now] draws IH]; intros keys0 w; cbn [generate_loop]; [|exec_case w1 E Ht|done].
  - intros [= <- <-] Hok. split_and!; [done| |done| |done]; by rewrite app_nil_r.
  - rename x into ok. destruct ok; [|done]. intros G Hok.
    apply insert_key_open in Ht as (Hok1 & Ho1 & Hother1); [|done].
    apply IH in G as (Hok2 & -> & Hlen & Ho & Hother); [|done].
    assert (Es : shown ((Some raw, now) :: draws) = dashed (hex_encode raw) :: shown draws) by done.
    rewrite Es. cbn [map length]. rewrite Ho, Ho1, Hlen, <-!app_assoc. split_and!; try done.
    intros u Hu. by rewrite Hother, Hother1.
  - done.
Qed.

Lemma delete_all_spec user (w w' : W) : delete_all_for_user user w = (true, w') → keys_ok (tables w) →
  keys_ok (tables w') ∧ open_hashes user (tables w') = [] ∧
  ∀ user', user' ≠ user → open_hashes user' (tables w') = open_hashes user' (tables w).
Proof.
  unfold delete_all_for_user. exec_case w1 E Ht; [|done]. intros [= <-] [ND Hlt]. injection Ht as _ <-. split_and!.
  - split; cbn [put_keys t_keys t_next_key]; [by apply NoDup_map_filter|].
    intros r [_ Hr]%list_elem_of_filter. by apply Hlt.
  - unfold open_hashes. cbn [put_keys t_keys]. rewrite list_filter_filter, filter_none; [done|].
    intros r _ [[Hu _]%andb_true_iff Hf]. congruence.
  - intros user' Hne. unfold open_hashes. cbn [put_keys t_keys]. rewrite list_filter_filter. f_equal.
    apply filter_ext_in. intros r _. split; [by intros [? _]|]. intros Hu. split; [done|].
    apply andb_true_iff in Hu as [Hu%Z.eqb_eq _]. apply Z.eqb_neq. congruence.
Qed.

(** A generation and a deletion leave the digests of every other account alone, whether they succeed or not. *)
Lemma others_filter user user' (l : list key_row) : user' ≠ user →
  filter (λ r, of_user user' r && unused r = true) (filter (λ r, of_user user r = false) l) = filter (λ r, of_user user' r && unused r = true) l.
Proof.
  intros Hne. rewrite list_filter_filter. apply filter_ext_in. intros r _. split; [by intros [? _]|]. intros Hu. split; [done|].
  apply andb_true_iff in Hu as [Hu%Z.eqb_eq _]. apply Z.eqb_neq. congruence.
Qed.
Lemma delete_all_frame user (w w' : W) ok : delete_all_for_user user w = (ok, w') →
  ∀ user', user' ≠ user → open_hashes user' (tables w') = open_hashes user' (tables w).
Proof.
  unfold delete_all_for_user. exec_case w1 E Ht; intros [= _ <-] user' Hne; [|by rewrite Ht].
  injection Ht as _ <-. unfold open_hashes. cbn [put_keys t_keys]. by rewrite others_filter.
Qed.
Lemma generate_loop_frame user draws keys (w w' : W) r : generate_loop user draws keys w = (r, w') →
  ∀ user', user' ≠ user → open_hashes user' (tables w') = open_hashes user' (tables w).
Proof.
  intros G user' Hne. revert keys w G. induction draws as [|[[raw|] now] draws IH]; intros keys w; cbn [generate_loop]; [by intros [= _ <-]| |by intros [= _ <-]].
  set (h := hash_token _). clearbody h. exec_case w1 E Ht; [|intros [= _ <-]; by rewrite Ht].
  assert (open_hashes user' (tables w1) = open_hashes user' (tables w)) as <-.
  { unfold insert_key in Ht. case_bool_decide; injection Ht as _ <-; [|done]. unfold open_hashes, of_user. cbn [t_keys].
    rewrite filter_app, filter_cons. cbn [k_user]. assert ((user =? user') = false) as -> by by apply Z.eqb_neq. cbn [andb].
    rewrite decide_False by done. by rewrite filter_nil, app_nil_r. }
  destruct x; [apply IH|by intros [= _ <-]].
Qed.
Lemma generate_frame user draws (w w' : W) r : generate_recovery_keys user draws w = (r, w') →
  ∀ user', user' ≠ user → open_hashes user' (tables w') = open_hashes user' (tables w).
Proof.
  unfold generate_recovery_keys. destruct (delete_all_for_user user w) as [ok w1] eqn:D. intros G user' Hne.
  rewrite <-(delete_all_frame _ _ _ _ D user' Hne). destruct ok; cbn [negb] in G; [by eapply generate_loop_frame|by injection G as _ <-].
Qed.

(** After a generation an account's open digests are those of the ten keys shown. *)
Lemma generate_spec user draws keys (w w' : W) :
  generate_recovery_keys user draws w = (Ok keys, w') → keys_ok (tables w) → length draws = 10%nat →
  keys_ok (tables w') ∧ keys = shown draws ∧ length keys = 10%nat ∧
  open_hashes user (tables w') = map hash_token keys ∧
  ∀ user', user' ≠ user → open_hashes user' (tables w') = open_hashes user' (tables w).
Proof.
  unfold generate_recovery_keys. destruct (delete_all_for_user user w) as [[] w1] eqn:D; cbn [negb]; [|done].
  intros G Hok Hlen. rewrite take_ge in G by lia. apply delete_all_spec in D as (Hok1 & Ho1 & Hother1); [|done].
  apply generate_loop_spec in G as (Hok2 & -> & Hlen2 & Ho & Hother); [|done].
  cbn [app]. rewrite Ho, Ho1, Hlen2. split_and!; try done. intros u Hu. by rewrite Hother, Hother1.
Qed.
End Theorems.

(** * What the user types *)

(** The characters of a typed key that count: its digits, in lower case. *)
Definition bare (typed : string) : string := remove_byte dash (to_lower (remove_byte space typed)).

Lemma hex_digit_settled n : 0 ≤ n < 16 → settled (hex_digit n) = true ∧ hex_digit n ≠ dash.
Proof.
  intros Hn. assert (Hin : n ∈ seqZ 0 16) by (apply elem_of_seqZ; lia). cbn in Hin.
  repeat (apply elem_of_cons in Hin as [->|Hin]; [by vm_compute|]).
  by apply not_elem_of_nil in Hin.
Qed.

Definition raw_key (raw : list Z) : Prop := length raw = 6%nat ∧ Forall (λ b, 0 ≤ b < 256) raw.

Lemma hex_settled raw : Forall (λ b, 0 ≤ b < 256) raw →
  Forall (λ c, settled c = true ∧ c ≠ dash) (bytes (hex_encode raw)) ∧
  length (bytes (hex_encode raw)) = (2 * length raw)%nat.
Proof.
  unfold hex_encode. rewrite bytes_of_bytes. induction 1 as [|b raw Hb Hr [IH1 IH2]]; [done|]. cbn.
  split; [|lia]. repeat constructor; try done; apply hex_digit_settled; zlia.
Qed.

Lemma remove_byte_absent (c : ascii) (l : list ascii) : Forall (λ a, a ≠ c) l → filter (λ a, a ≠ c) l = l.
Proof. intros Hl. apply filter_all. by apply Forall_forall. Qed.

(** The key as shown is one of its own spellings, and every spelling of it is taken for it. *)
Lemma bare_shown raw : raw_key raw → bare (dashed (hex_encode raw)) = hex_encode raw.
Proof.
  intros [Hlen [Hp Hl]%hex_settled]. unfold bare, remove_byte, to_lower, dashed.
  set (l := bytes (hex_encode raw)) in *.
  assert (Hd : bytes (of_bytes (take 8 l) +:+ "-" +:+ of_bytes (take 4 (drop 8 l))) = take 8 l ++ dash :: drop 8 l).
  { rewrite (take_ge (drop 8 l)) by (rewrite length_drop; lia).
    generalize (take 8 l) (drop 8 l). intros a b. induction a as [|x a IH].
    - change (dash :: bytes (of_bytes b) = dash :: b). by rewrite bytes_of_bytes.
    - change (x :: bytes (of_bytes a +:+ "-" +:+ of_bytes b) = x :: a ++ dash :: b). by rewrite IH. }
  rewrite Hd, !bytes_of_bytes. rewrite <-(take_drop 8 l), Forall_app in Hp. destruct Hp as [Hp1 Hp2].
  assert (Hpl : ∀ k, Forall (λ c, settled c = true ∧ c ≠ dash) k → Forall (λ c, settled c = true) k) by (intros k Hk; eapply Forall_impl; [exact Hk|by intros c []]).
  rewrite (remove_byte_absent space), lower_bytes_settled.
  - rewrite filter_app, filter_cons_False by (intros Hn; by apply Hn). rewrite !remove_byte_absent, take_drop; [apply of_bytes_bytes| |];
      (eapply Forall_impl; [eassumption|by intros c []]).
  - apply Forall_app. split; [by apply Hpl|]. constructor; [by vm_compute|by apply Hpl].
  - apply Forall_app. split; [eapply Forall_impl; [exact Hp1|]; intros c [Hc _] ->; done|].
    constructor; [done|]. eapply Forall_impl; [exact Hp2|]; intros c [Hc _] ->; done.
Qed.

Lemma canonical_spelling raw typed : raw_key raw →
  bare typed = bare (dashed (hex_encode raw)) → canonical typed = dashed (hex_encode raw).
Proof.
  intros Hr. rewrite bare_shown by done. unfold canonical, bare. intros ->.
  destruct Hr as [Hl [_ Hh]%hex_settled]. by rewrite length_bytes, Hh, Hl.
Qed.

(** * The property *)

Section Property.
Context `{DatabaseLaws W key_tables}.

Lemma shown_raw draws k : Forall (λ d, ∀ raw, d.1 = Some raw → raw_key raw) draws → k ∈ shown draws →
  ∃ raw, raw_key raw ∧ k = dashed (hex_encode raw).
Proof.
  intros Hd ([r now] & Hin & E)%list_elem_of_omap. destruct r as [raw|]; [|done]. injection E as <-.
  exists raw. split; [|done]. by apply (proj1 (Forall_forall _ _) Hd _ Hin).
Qed.

(** C18: recovery keys are one-time: after an account's ten keys are generated, however the
    attempts of all accounts follow one another and whichever statements fail, the ten
    digests are, each counted once, those the account was let in with and those still open;
    any spelling of a key (case, spaces, dashes) is taken for it, and a key that was refused
    is none of those still open. *)
Theorem recovery_keys_once user draws l keys rs (w w1 w2 : W) :
  keys_ok (tables w) → length draws = 10%nat →
  Forall (λ d, ∀ raw, d.1 = Some raw → raw_key raw) draws →
  generate_recovery_keys user draws w = (Ok keys, w1) → run_attempts l w1 = (rs, w2) →
  length keys = 10%nat ∧
  (∀ k typed, k ∈ keys → bare typed = bare k → canonical typed = k) ∧
  map hash_token keys ≡ₚ answers true user l rs ++ open_hashes user (tables w2) ∧
  (NoDup (map hash_token keys) → NoDup (answers true user l rs)) ∧
  ∀ h, h ∈ answers false user l rs → h ∉ open_hashes user (tables w2).
Proof.
  intros Hok Hlen Hd G R. apply generate_spec in G as (Hok1 & -> & Hten & Ho & _); [|done..].
  destruct (attempts_spec user l w1 w2 rs Hok1 R) as [Hp Hn]. rewrite Ho in Hp. split_and!; try done.
  - intros k typed Hk Hb. apply shown_raw in Hk as (raw & Hr & ->); [|done]. by apply canonical_spelling.
  - intros ND. rewrite Hp in ND. by apply NoDup_app in ND as [? _].
Qed.
End Property.

Definition sample_keys : key_tables := KeyTables [] 1 {[1; 2]}.
Definition sample_draws : list (option (list Z) * instant) :=
  map (λ i, (Some [i; 162; 195; 212; 229; 246], i)) (seqZ 0 10).
(** One key in two spellings, another, somebody else with the first key, and a word. *)
Definition sample_attempts : list attempt :=
  [Attempt 1 "03 A2 C3 D4 E5 F6" 20; Attempt 1 "03a2c3d4-e5f6" 21; Attempt 1 "05A2C3D4E5F6" 22;
   Attempt 2 "04a2c3d4-e5f6" 23; Attempt 1 "no key" 24].

Lemma recovery_keys_once_witness : ∃ keys rs w1 w2,
  generate_recovery_keys 1 sample_draws (Reliable sample_keys) = (Ok keys, w1) ∧
  run_attempts sample_attempts w1 = (rs, w2) ∧ rs = [Ok true; Ok false; Ok true; Ok false; Ok false] ∧
  map hash_token keys ≡ₚ answers true 1 sample_attempts rs ++ open_hashes 1 (tables w2).
Proof.
  assert (Hok : keys_ok (tables (Reliable sample_keys))).
  { split; [apply NoDup_nil_2|]. intros r Hr. by apply not_elem_of_nil in Hr. }
  assert (Hd : Forall (λ d : option (list Z) * instant, ∀ raw, d.1 = Some raw → raw_key raw) sample_draws).
  { unfold sample_draws. cbn. repeat constructor; injection H as <-; unfold raw_key; repeat constructor; lia. }
  pose proof (λ keys rs w1 w2, recovery_keys_once (W := reliable key_tables) 1 sample_draws sample_attempts keys rs
    (Reliable sample_keys) w1 w2 Hok eq_refl Hd) as P.
  do 4 eexists. assert (PQ : ∀ A B C D : Prop, (A → B → D) → A → B → C → A ∧ B ∧ C ∧ D) by tauto.
  apply PQ; [|vm_compute; reflexivity..]. intros G R. by destruct (P _ _ _ _ G R) as (_ & _ & ? & _).
Defined.

(** Two requests with one key: the mark does not ask again whether the key is unused, so
    when both look it up first, both are let in. *)
Lemma recovery_key_race :
  let w := (generate_recovery_keys 1 sample_draws (Reliable sample_keys)).2 in
  let '(r1, w) := verify_lookup 1 "03a2c3d4-e5f6" w in
  let '(r2, w) := verify_lookup 1 "03a2c3d4-e5f6" w in
  r1 = Ok (Some 4) ∧ r2 = Ok (Some 4) ∧
  (verify_mark 4 20 w).1 = Ok true ∧ (verify_mark 4 21 (verify_mark 4 20 w).2).1 = Ok true.
Proof. vm_compute. done. Qed.
