(* ===== verification/Password.v ===== *)
(** Passwords (HashPassword and VerifyPassword of server/model/admin.go, and their twins in
    util/password.go): Argon2id keys in PHC strings.  The key derivation is a parameter,
    argon2.IDKey, which answers nothing where it panics, and so is the version number that
    its package exports. *)
From S2P Require Import Prelude GoStrings Base64.
From Stdlib Require Import Ascii.
Open Scope Z_scope.

(** * fmt.Sscanf, as far as the format "m=%d,t=%d,p=%d" goes *)

(** Literal text must match byte by byte. *)
Definition scan_literal (lit : string) (l : list ascii) : option (list ascii) :=
  if is_prefixb (bytes lit) l then Some (drop (String.length lit) l) else None.

(** White space before a number; a line feed in it is an error *)
Fixpoint scan_blanks (fuel : nat) (l : list ascii) : option (list ascii) :=
  match fuel, l with
  | S fuel, c :: l' =>
      if decide (c = newline) then None
      else match space_at space_seqs l with O => Some l | w => scan_blanks fuel (drop w l) end
  | _, _ => Some l
  end.
Fixpoint scan_digits (l : list ascii) : list ascii * list ascii :=
  match l with
  | c :: l' => match digit c with
               | Some _ => let '(d, rest) := scan_digits l' in (c :: d, rest)
               | None => ([], l)
               end
  | [] => ([], [])
  end.
(** %d for an unsigned integer of that many bits: a token that does not fit is an error *)
Definition scan_uint (bits : Z) (l : list ascii) : option (Z * list ascii) :=
  l ← scan_blanks (length l) l;
  let '(d, rest) := scan_digits l in
  match d with
  | [] => None
  | _ => n ← digits d; if n <? 2 ^ bits then Some (n, rest) else None
  end.

(** Sscanf ends with the last verb: what follows it is not read. *)
Definition scan_params (s : string) : option (Z * Z * Z) :=
  l ← scan_literal "m=" (bytes s); '(m, l) ← scan_uint 32 l;
  l ← scan_literal ",t=" l; '(t, l) ← scan_uint 32 l;
  l ← scan_literal ",p=" l; '(p, _) ← scan_uint 8 l;
  Some (m, t, p).

Example scan_examples :
  map scan_params ["m=65536,t=3,p=4"; "m= 8,t=1,p=1xyz"; "m=8,t=1,p=256"; "m=8,t=,p=1"; "m=4294967296,t=1,p=1"; "t=1"] =
  [Some (65536, 3, 4); Some (8, 1, 1); None; None; None; None].
Proof. vm_compute. reflexivity. Qed.

(** * Hashing and verifying *)

Definition argon2_time : Z := 3.
Definition argon2_memory : Z := 64 * 1024.
Definition argon2_threads : Z := 4.
Definition argon2_key_len : Z := 32.

Inductive password_error := NoSalt | BadParts (n : nat) | BadAlgorithm | BadParameters | BadSalt | BadHash | KeyPanic.

Definition dollar : ascii := byte 36.

Section Passwords.
(** argon2.IDKey: password, salt, time, memory, threads, length of the key *)
Context (id_key : list Z → list Z → Z → Z → Z → Z → option (list Z)) (argon2_version : Z).

Definition phc (version params : string) (salt hash : list Z) : string :=
  "$argon2id$v=" +:+ version +:+ "$" +:+ params +:+ "$" +:+ raw_std_encode salt +:+ "$" +:+ raw_std_encode hash.
Definition params_text : string :=
  "m=" +:+ itoa argon2_memory +:+ ",t=" +:+ itoa argon2_time +:+ ",p=" +:+ itoa argon2_threads.
Definition derive (password : string) (salt : list Z) : option (list Z) :=
  id_key (octets password) salt argon2_time argon2_memory argon2_threads argon2_key_len.

(** HashPassword of the models, which writes the version as text, and of util *)
Definition hash_with (version password : string) (rand : option (list Z)) : result password_error string :=
  match rand with
  | None => Fail NoSalt
  | Some salt => match derive password salt with
                 | None => Fail KeyPanic
                 | Some hash => Ok (phc version params_text salt hash)
                 end
  end.
Definition hash_password : string → option (list Z) → result password_error string := hash_with "19".
Definition util_hash_password : string → option (list Z) → result password_error string := hash_with (itoa argon2_version).

(** subtle.ConstantTimeCompare *)
Definition same_key (a b : list Z) : bool := bool_decide (a = b).

(** VerifyPassword of the models: with the parameters of the string, and the length of the
    hash in it *)
Definition verify_password (password hash : string) : result password_error bool :=
  match split_byte hash dollar with
  | [_; algorithm; _; params; salt; key] =>
      if negb (str_eqb algorithm "argon2id") then Fail BadAlgorithm
      else match scan_params params with
      | None => Fail BadParameters
      | Some (m, t, p) =>
          match raw_decode std salt, raw_decode std key with
          | None, _ => Fail BadSalt
          | _, None => Fail BadHash
          | Some salt, Some expected =>
              match id_key (octets password) salt t m p (Z.of_nat (length expected)) with
              | None => Fail KeyPanic
              | Some provided => Ok (same_key provided expected)
              end
          end
      end
  | parts => Fail (BadParts (length parts))
  end.

(** VerifyPassword of util: with the program's own parameters *)
Definition util_verify_password (password encoded : string) : result password_error bool :=
  match split_byte encoded dollar with
  | [_; algorithm; _; _; salt; key] =>
      if negb (str_eqb algorithm "argon2id") then Fail BadAlgorithm
      else match raw_decode std salt, raw_decode std key with
      | None, _ => Fail BadSalt
      | _, None => Fail BadHash
      | Some salt, Some hash =>
          match derive password salt with
          | None => Fail KeyPanic
          | Some input => Ok (same_key hash input)
          end
      end
  | parts => Fail (BadParts (length parts))
  end.
End Passwords.

Definition is_bcrypt_hash (hash : string) : bool :=
  has_prefix hash "$2a$" || has_prefix hash "$2b$" || has_prefix hash "$2y$".
Definition is_argon2id_hash (hash : string) : bool := has_prefix hash "$argon2id$".

(** * The parts of a written hash *)

Lemma raw_std_free l : is_bytes l → dollar ∉ bytes (raw_std_encode l).
Proof.
  intros H Hin. unfold raw_std_encode in Hin. rewrite bytes_of_bytes in Hin.
  pose proof (encode_plain std (or_introl eq_refl) l H) as Hp. rewrite Forall_forall in Hp. by apply Hp in Hin as [_ ?].
Qed.
Lemma raw_std_roundtrip l : is_bytes l → raw_decode std (raw_std_encode l) = Some l.
Proof. apply raw_decode_encode. by left. Qed.

Lemma phc_parts version params salt hash :
  dollar ∉ bytes version → dollar ∉ bytes params → is_bytes salt → is_bytes hash →
  split_byte (phc version params salt hash) dollar =
    [""; "argon2id"; "v=" +:+ version; params; raw_std_encode salt; raw_std_encode hash].
Proof.
  intros Hv Hp Hs%raw_std_free Hh%raw_std_free. unfold phc.
  change (split_byte ("" +:+ String dollar ("argon2id" +:+ String dollar (("v=" +:+ version) +:+ String dollar
    (params +:+ String dollar (raw_std_encode salt +:+ String dollar (raw_std_encode hash)))))) dollar =
    [""; "argon2id"; "v=" +:+ version; params; raw_std_encode salt; raw_std_encode hash]).
  rewrite !split_byte_app, split_byte_free; try done.
  - rewrite bytes_app, not_elem_of_app. split; [|done]. refine (bool_decide_unpack _ _). vm_compute. exact I.
  - refine (bool_decide_unpack _ _). vm_compute. exact I.
  - apply not_elem_of_nil.
Qed.

(** Decimal numbers are digits and a sign. *)
Lemma pretty_go_chars (P : ascii → Prop) n s : (∀ k, P (pretty_N_char k)) → Forall P (bytes s) →
  Forall P (bytes (pretty_N_go n s)).
Proof.
  intros HP. revert s. induction (N.lt_wf_0 n) as [n _ IH]; intros s Hs.
  destruct (decide (0 < n)%N) as [Hn|Hn].
  - rewrite pretty_N_go_step by done. apply IH; [apply N.div_lt; lia|]. by constructor.
  - assert (n = 0%N) as -> by lia. by rewrite pretty_N_go_0.
Qed.
Lemma itoa_without d z : (∀ k, pretty_N_char k ≠ d) → d ≠ byte 45 → d ∉ bytes (itoa z).
Proof.
  intros Hc Hd. assert (HN : ∀ n : N, Forall (λ c, c ≠ d) (bytes (pretty n))).
  { intros n. unfold pretty, pretty_N. case_decide; [repeat constructor; exact (Hc 0%N)|]. by apply pretty_go_chars. }
  assert (H : Forall (λ c, c ≠ d) (bytes (itoa z))).
  { unfold itoa, pretty, pretty_Z. destruct z; [repeat constructor; exact (Hc 0%N)|apply HN|].
    change (Forall (λ c, c ≠ d) (byte 45 :: bytes (pretty (N.pos p)))). constructor; [by intros <-|apply HN]. }
  intros Hin. rewrite Forall_forall in H. by apply (H _ Hin).
Qed.
Lemma itoa_free z : dollar ∉ bytes (itoa z).
Proof. apply itoa_without; [|done]. intros k. unfold pretty_N_char. repeat case_match; discriminate. Qed.

Lemma scan_params_text : scan_params params_text = Some (argon2_memory, argon2_time, argon2_threads).
Proof. vm_compute. reflexivity. Qed.

(** * Hashing, then verifying *)

Section RoundTrip.
Context (id_key : list Z → list Z → Z → Z → Z → Z → option (list Z)) (argon2_version : Z).
Abbreviation derived := (derive id_key).

(** argon2.IDKey returns a key of the length asked for, for at least one round and one
    thread. *)
Context (id_key_length : ∀ p s t m th n, 1 ≤ t → 1 ≤ th → 1 ≤ n →
  ∃ k, id_key p s t m th n = Some k ∧ Z.of_nat (length k) = n ∧ is_bytes k).

Lemma derived_key p s : ∃ k, derived p s = Some k ∧ Z.of_nat (length k) = argon2_key_len ∧ is_bytes k.
Proof. by apply id_key_length. Qed.

Lemma params_free : dollar ∉ bytes params_text.
Proof. refine (bool_decide_unpack _ _). vm_compute. exact I. Qed.

(** Both verifiers compare the key of the password given with the one in the string. *)
Lemma verify_written version salt key q :
  dollar ∉ bytes version → is_bytes salt → is_bytes key → Z.of_nat (length key) = argon2_key_len →
  let h := phc version params_text salt key in
  verify_password id_key q h = Ok (bool_decide (derived q salt = Some key)) ∧
  util_verify_password id_key q h = Ok (bool_decide (derived q salt = Some key)).
Proof.
  intros Hv Hs Hk Hlen h. unfold verify_password, util_verify_password, h.
  rewrite phc_parts by (done || exact params_free). rewrite scan_params_text, !raw_std_roundtrip by done.
  change (str_eqb "argon2id" "argon2id") with true. cbn [negb]. rewrite Hlen.
  change (id_key (octets q) salt argon2_time argon2_memory argon2_threads argon2_key_len) with (derived q salt).
  destruct (derived_key q salt) as (k & -> & _). unfold same_key.
  split; f_equal; apply bool_decide_ext; split; congruence.
Qed.

Lemma hash_written version p rand h :
  hash_with id_key version p rand = Ok h →
  ∃ salt key, rand = Some salt ∧ derived p salt = Some key ∧ h = phc version params_text salt key ∧
    Z.of_nat (length key) = argon2_key_len ∧ is_bytes key.
Proof.
  unfold hash_with. destruct rand as [salt|]; [|done]. destruct (derived_key p salt) as (k & E & Hl & Hk).
  rewrite E. intros [= <-]. by exists salt, k.
Qed.

(** What either function writes verifies for the password it was made of. *)
Lemma hash_verifies (writer : string → option (list Z) → result password_error string) p salt h :
  writer = hash_password id_key ∨ writer = util_hash_password id_key argon2_version → is_bytes salt →
  writer p (Some salt) = Ok h → verify_password id_key p h = Ok true.
Proof.
  intros Hw Hs Hh. assert (∃ v, (dollar ∉ bytes v) ∧ hash_with id_key v p (Some salt) = Ok h) as (v & Hv & Hd).
  { destruct Hw as [-> | ->]; [exists "19"|exists (itoa argon2_version)]; (split; [|exact Hh]); [|apply itoa_free].
    refine (bool_decide_unpack _ _). vm_compute. exact I. }
  apply hash_written in Hd as (s & key & [= <-] & Hd & -> & Hl & Hk).
  destruct (verify_written v salt key p) as [-> _]; [done..|]. by rewrite bool_decide_eq_true_2.
Qed.

(** C33: a password is verified as it was hashed, whichever of the program's two hashing
    functions wrote the string and whichever of its two verifiers reads it: the answer is
    yes exactly when Argon2id derives the same key from both passwords under the salt that
    was drawn, so it is yes for the password itself, and it is never an error.  The string is
    recognised as one of Argon2id and not as one of bcrypt. *)
Theorem password_roundtrip (writer : string → option (list Z) → result password_error string)
    (verifier : string → string → result password_error bool) p rand h q :
  writer = hash_password id_key ∨ writer = util_hash_password id_key argon2_version →
  verifier = verify_password id_key ∨ verifier = util_verify_password id_key →
  (∀ salt, rand = Some salt → is_bytes salt) → writer p rand = Ok h →
  ∃ salt, rand = Some salt ∧ is_argon2id_hash h = true ∧ is_bcrypt_hash h = false ∧
    verifier q h = Ok (bool_decide (derived q salt = derived p salt)) ∧ verifier p h = Ok true.
Proof.
  intros Hw Hv Hr Hh. assert (Hversion : ∃ v, (dollar ∉ bytes v) ∧ hash_with id_key v p rand = Ok h).
  { destruct Hw as [-> | ->]; [|by exists (itoa argon2_version); split; [apply itoa_free|]].
    exists "19". split; [|done]. refine (bool_decide_unpack _ _). vm_compute. exact I. }
  destruct Hversion as (v & Hfree & (salt & key & Hs & Hd & -> & Hl & Hk)%hash_written).
  exists salt. rewrite Hd. split_and!; [done|by apply has_prefix_spec; eexists|by destruct v| |].
  - destruct (verify_written v salt key q) as [V1 V2]; auto. by destruct Hv as [-> | ->].
  - rewrite <-(bool_decide_eq_true_2 (derived p salt = Some key)) by done.
    destruct (verify_written v salt key p) as [V1 V2]; auto. by destruct Hv as [-> | ->].
Qed.
End RoundTrip.

(** A key derivation that keeps the first bytes of password and salt *)
Definition toy_key (p s : list Z) (t m th n : Z) : option (list Z) :=
  Some (take (Z.to_nat n) (map (λ z, z mod 256) (p ++ [0] ++ s) ++ replicate (Z.to_nat n) 0)).

Lemma toy_key_length p s t m th n : 1 ≤ t → 1 ≤ th → 1 ≤ n →
  ∃ k, toy_key p s t m th n = Some k ∧ Z.of_nat (length k) = n ∧ is_bytes k.
Proof.
  intros _ _ Hn. eexists. split; [reflexivity|]. split.
  - rewrite length_take, length_app, length_replicate. lia.
  - apply Forall_take, Forall_app. split; [|by apply Forall_replicate].
    apply Forall_map, Forall_forall. intros z _. apply Z.mod_pos_bound. lia.
Qed.

Lemma password_roundtrip_witness :
  let salt := map Z.of_nat (seq 100 16) in
  ∃ h, hash_password toy_key "secret" (Some salt) = Ok h ∧ util_verify_password toy_key "secret" h = Ok true ∧
    util_verify_password toy_key "guess" h = Ok false.
Proof.
  intros salt. eexists. split; [vm_compute; reflexivity|].
  edestruct (password_roundtrip toy_key 19 toy_key_length (hash_password toy_key) (util_verify_password toy_key)
    "secret" (Some salt)) as (s & Hs & _ & _ & Hq & Hp); [by left|by right| |vm_compute; reflexivity|].
  - intros s [= <-]. unfold salt. cbn. repeat constructor; lia.
  - split; [exact Hp|]. injection Hs as <-. rewrite (Hq : _ "guess" _ = _). vm_compute. reflexivity.
Defined.
