(* ===== verification/Archive.v ===== *)
(** Backups: what goes into an archive, its manifest and checksum, encryption, verification
    (backup/backup.go) and restoring (backup/restore.go), on the files of FileSystem.  gzip and
    tar appear as a coding of lists of members, JSON as one of the manifest; Argon2id, AES-GCM and
    SQLite's integrity check are parameters. *)
From S2P Require Import Prelude GoStrings GoTime Sql Retention PathSecurity FileSystem Sha256 Base64.
From stdpp Require Import sorting.
From Stdlib Require Import Ascii.
Open Scope Z_scope.
#[local] Arguments slash : simpl never.
#[local] Arguments dot : simpl never.

(** ** Members and manifest *)

Inductive member_kind := KDir | KReg | KLink | KOther.
#[export] Instance member_kind_dec : EqDecision member_kind.
Proof. solve_decision. Defined.
Record member := Member { mb_name : path; mb_kind : member_kind; mb_mode : Z; mb_data : list Z }.
Record manifest := Manifest {
  mf_version : string; mf_created : instant; mf_by : string; mf_app : string; mf_contents : list path;
  mf_encrypted : bool; mf_method : string; mf_checksum : string
}.
Definition manifest_entry_name : path := bytes "manifest.json".

Inductive archive_error := NoDirectory | NotCollected | NotEncrypted | NotWritten | NoBackup | EmptyBackup | NoPasswordGiven
  | DecryptionFailed | NoTempDirectory | CorruptArchive | EscapingEntry | BadEntry | NotExtracted | BadManifest | NoManifest
  | ChecksumMismatch | BadDatabase | NotRestored | NoToken.

(** hashArchiveMember, and the hash over names and contents *)
Definition hash_name (name : path) : list Z := map (λ c, Z.of_N (code c)) (name ++ [newline]).
Definition hash_member (m : member) : list Z :=
  if bool_decide (mb_name m = manifest_entry_name) then []
  else hash_name (mb_name m) ++ match mb_kind m with KDir => [] | _ => mb_data m end.
Definition hash_input (ms : list member) : list Z := concat (map hash_member ms).
Definition content_checksum (ms : list member) : string := "sha256:" +:+ hex_encode (sum_bytes (hash_input ms)).

(** ** What is collected *)

Record backup_options := BackupOptions {
  bo_config : path; bo_data : path; bo_password : string; bo_ssl : bool; bo_include_data : bool;
  bo_by : string; bo_app : string; bo_retention : option retention_config
}.
Definition from_config (name : path) : bool :=
  bool_decide (name = bytes "server.yml") || is_prefixb (bytes "template/") name ||
  is_prefixb (bytes "theme/") name || is_prefixb (bytes "ssl/") name.

Definition there (fs : files) (dir : path) (name : string) : bool := bool_decide (is_Some (stat fs (place_of (join2 dir (bytes name))))).
Definition collect_files (fs : files) (o : backup_options) : list path :=
  (if there fs (bo_config o) "server.yml" then [bytes "server.yml"] else []) ++
  (if there fs (bo_data o) "db/server.db" then [bytes "db/server.db"] else []) ++
  (if there fs (bo_data o) "db/users.db" then [bytes "db/users.db"] else []) ++
  (if there fs (bo_config o) "template" then [bytes "template/"] else []) ++
  (if there fs (bo_config o) "theme" then [bytes "theme/"] else []) ++
  (if bo_ssl o && there fs (bo_config o) "ssl" then [bytes "ssl/"] else []) ++
  (if bo_include_data o then [bytes "data/"] else []).

(** ** Into the archive *)

(** The mode bits of a symbolic link as os.Lstat gives them *)
Definition link_mode : Z := 134217728 + 511.
(** The path filepath.Rel gives *)
Definition rel_text (rel : place) : path := match rel with [] => [dot] | _ => join_path rel end.
(** A walked file: a link is announced with the length of its text and copied with what it points to,
    which the tar writer accepts only when both have one length. *)
Definition walked_member (fs : files) (root : place) (archive_path : path) (e : place * node) : option member :=
  let tar_path := join2 archive_path (rel_text e.1) in
  match e.2 with
  | NDir => Some (Member (tar_path ++ [slash]) KDir 0 [])
  | NFile mode data => Some (Member tar_path KReg mode data)
  | NLink size _ =>
      match read_file fs (root ++ e.1) with
      | Some data => if (length data =? size)%nat then Some (Member tar_path KReg link_mode data) else None
      | None => None
      end
  end.
(** addToArchive.  A file under a name that ends in a slash is announced as a directory, which takes no data. *)
Definition add_to_archive (fs : files) (source : place) (archive_path : path) : option (list member) :=
  match stat fs source with
  | Some NDir => mapM (walked_member fs source archive_path) (walk fs source)
  | Some (NFile mode data) =>
      if is_prefixb [slash] (reverse archive_path)
      then match data with [] => Some [Member archive_path KDir mode []] | _ => None end
      else Some [Member archive_path KReg mode data]
  | _ => None
  end.
(** os.IsNotExist of os.Stat: nothing is there, and nothing on the way is a file *)
Definition is_not_exist (fs : files) (p : place) : bool :=
  match follow fs p, stat fs p with
  | Some _, None => forallb (λ n, match stat fs (take n p) with Some (NFile _ _) => false | _ => true end) (seq 0 (length p))
  | _, _ => false
  end.
Definition source_of (config data name : path) : place := place_of (join2 (if from_config name then config else data) name).
Fixpoint add_files (fs : files) (config data : path) (names : list path) : option (list member) :=
  match names with
  | [] => Some []
  | name :: names =>
      let source := source_of config data name in
      if is_not_exist fs source then add_files fs config data names
      else ms ← add_to_archive fs source name; rest ← add_files fs config data names; Some (ms ++ rest)
  end.

Section Archive.
Context (encode_manifest : manifest → list Z) (decode_manifest : list Z → option manifest).
(** The archive of a list of members, and the members of an archive that can be read to its end *)
Context (pack : list member → list Z) (unpack : list Z → option (list member)).
Context (id_key : list Z → list Z → Z → Z → Z → Z → option (list Z)).
Context (seal : list Z → list Z → list Z → list Z) (open : list Z → list Z → list Z → option (list Z)).
Context (integrity_check : list Z → bool) (dv : device).

Definition sealed_manifest (m : manifest) (ms : list member) : manifest :=
  Manifest (mf_version m) (mf_created m) (mf_by m) (mf_app m) (mf_contents m) (mf_encrypted m) (mf_method m) (content_checksum ms).
(** createArchive: the manifest comes last, with the checksum of what precedes it. *)
Definition create_archive (fs : files) (config data : path) (names : list path) (m : manifest) : option (list Z) :=
  ms ← add_files fs config data names;
  Some (pack (ms ++ [Member manifest_entry_name KReg 384 (encode_manifest (sealed_manifest m ms))])).

(** encrypt and decrypt: salt, nonce and ciphertext *)
Definition backup_key (password : string) (salt : list Z) : option (list Z) := id_key (octets password) salt 1 65536 4 32.
Definition encrypt (data : list Z) (password : string) (salt nonce : option (list Z)) : option (list Z) :=
  match salt, nonce with
  | Some salt, Some nonce => key ← backup_key password salt; Some (salt ++ nonce ++ seal key nonce data)
  | _, _ => None
  end.
Definition decrypt (data : list Z) (password : string) : option (list Z) :=
  if (length data <? 44)%nat then None
  else key ← backup_key password (take 32 data); open key (take 12 (drop 32 data)) (drop 44 data).

(** ** Verification *)

(** safeExtractPath *)
Definition safe_extract_path (dest name : path) : option path :=
  if bool_decide (byte 0 ∈ name) then None
  else
    let cleaned := clean (join2 dest name) in
    if negb (bool_decide (cleaned = dest)) && negb (is_prefixb (dest ++ [slash]) cleaned) then None else Some cleaned.

Definition up (p : path) : place := parent (place_of p).
(** extractArchive of backup.go, one member: the manifest when it is that *)
Definition test_member (tmp : path) (m : member) (mf : option manifest) (fs : files) : result archive_error (option manifest * files) :=
  match safe_extract_path tmp (mb_name m) with
  | None => Fail EscapingEntry
  | Some target =>
      match mb_kind m with
      | KDir => let '(ok, fs) := mkdir_all fs (place_of target) in if ok then Ok (mf, fs) else Fail NotExtracted
      | KReg =>
          let '(ok, fs) := mkdir_all fs (up target) in
          if negb ok then Fail NotExtracted
          else match write_file dv fs (place_of target) 384 (mb_data m) with
          | (false, _) => Fail NotExtracted
          | (true, fs) =>
              if bool_decide (mb_name m = manifest_entry_name)
              then match decode_manifest (mb_data m) with Some mf => Ok (Some mf, fs) | None => Fail BadManifest end
              else Ok (mf, fs)
          end
      | _ => Fail BadEntry
      end
  end.
Fixpoint test_extract (tmp : path) (ms : list member) (mf : option manifest) (fs : files) : result archive_error (option manifest * files) :=
  match ms with
  | [] => Ok (mf, fs)
  | m :: ms => let? r := test_member tmp m mf fs in test_extract tmp ms r.1 r.2
  end.
(** verifyDatabases: filepath.Ext is .db exactly when the path ends so. *)
Definition verify_databases (tmp : path) (fs : files) : bool :=
  forallb (λ e, match e.2 with
                | NFile _ data => negb (ends_with (bytes ".db") (default [] (last e.1))) || integrity_check data
                | _ => true
                end) (walk fs (place_of tmp)).

Definition plain_archive (backup : path) (data : list Z) (password : string) : result archive_error (list Z) :=
  if ends_with (bytes ".enc") backup then
    if is_empty password then Fail NoPasswordGiven
    else match decrypt data password with Some data => Ok data | None => Fail DecryptionFailed end
  else Ok data.
(** Verify; [tmp] is the new directory os.MkdirTemp makes for it, which is empty and goes away again. *)
Definition verify (fs : files) (tmp backup : path) (password : string) : result archive_error unit :=
  match stat fs (place_of backup) with
  | None => Fail NoBackup
  | Some n =>
      match n with
      | NFile _ [] => Fail EmptyBackup
      | NFile _ data =>
          let? data := plain_archive backup data password in
          match unpack data with
          | None => Fail CorruptArchive
          | Some ms =>
              let? r := test_extract tmp ms None (mkdir_all ∅ (place_of tmp)).2 in
              match r.1 with
              | None => Fail NoManifest
              | Some mf =>
                  if negb (is_empty (mf_checksum mf)) && negb (str_eqb (mf_checksum mf) (content_checksum ms)) then Fail ChecksumMismatch
                  else if verify_databases tmp r.2 then Ok tt else Fail BadDatabase
              end
          end
      | _ => Fail NoBackup
      end
  end.

(** ** Where a backup goes: ResolveDir, with BACKUP_DIR of the environment, and the name by kind *)

Inductive backup_kind := KindManual | KindDailyFull | KindDailyIncremental | KindHourlyIncremental.
Definition resolve_dir (env data : path) : path :=
  if negb (bool_decide (env = [])) && (bool_decide (data = []) || negb (bool_decide (env = bytes "/data/backups"))) then env
  else join2 data (bytes "backups").
Definition day_text (loc : location) (now : instant) : string := String.substring 0 10 (format_datetime loc now).
Definition clock_text (loc : location) (now : instant) : string := two (hour_of loc now) +:+ two (minute_of loc now) +:+ two (second_of loc now).
Definition backup_file_name (kind : backup_kind) (password : string) (loc : location) (now : instant) : string :=
  let ext := if is_empty password then ".tar.gz" else ".tar.gz.enc" in
  match kind with
  | KindDailyFull => "wthr_backup_" +:+ day_text loc now +:+ ext
  | KindDailyIncremental => "wthr-daily" +:+ ext
  | KindHourlyIncremental => "wthr-hourly" +:+ ext
  | KindManual => "wthr_backup_" +:+ day_text loc now +:+ "_" +:+ clock_text loc now +:+ ext
  end.
Definition output_path (explicit : path) (kind : backup_kind) (env : path) (o : backup_options) (loc : location) (now : instant) : path :=
  match explicit with
  | [] => join2 (resolve_dir env (bo_data o)) (bytes (backup_file_name kind (bo_password o) loc now))
  | _ => explicit
  end.

(** ** CreateBackupArchive *)

Definition new_manifest (o : backup_options) (names : list path) (now : instant) : manifest :=
  Manifest "1.0.0" now (bo_by o) (bo_app o) names (negb (is_empty (bo_password o)))
    (if is_empty (bo_password o) then "" else "AES-256-GCM") "".

(** The sweep that follows a success: applyRetention (Retention) on the regular files of the directory, with the times the
    file system keeps; [look] is how it sees and removes them. *)
Context `{Database W dir} (sort_slice : ∀ A, (A → A → bool) → list A → list A) (look : dir → W) (mtime : place → instant).
Definition folder_entry (p : place) (e : place * node) : option (string * file) :=
  match e.2, last e.1 with
  | NFile _ data, Some w => if bool_decide (e.1 = p ++ [w]) then Some (of_bytes w, File (mtime e.1) (Z.of_nat (length data))) else None
  | _, _ => None
  end.
Definition folder_of (fs : files) (p : place) : dir := list_to_map (omap (folder_entry p) (map_to_list fs)).
Definition without_files (p : place) (names : list string) (fs : files) : files := foldl (λ fs n, delete (p ++ [bytes n]) fs) fs names.
(** The error of the sweep is only logged. *)
Definition sweep_old (o : backup_options) (volume_total : Z) (p : place) (fs : files) : list string * files :=
  let '(deleted, _, _) := apply_retention sort_slice (default default_retention (bo_retention o)) volume_total (look (folder_of fs p)) in
  (deleted, without_files p deleted fs).

Definition create_backup_archive (o : backup_options) (output tmp : path) (salt nonce : option (list Z)) (now : instant) (volume_total : Z)
    (fs : files) : result archive_error (path * list string) * files :=
  let '(ok, fs) := mkdir_all fs (up output) in
  if negb ok then (Fail NoDirectory, fs)
  else
    let names := collect_files fs o in
    match create_archive fs (bo_config o) (bo_data o) names (new_manifest o names now) with
    | None => (Fail NotCollected, fs)
    | Some data =>
        match (if is_empty (bo_password o) then Some data else encrypt data (bo_password o) salt nonce) with
        | None => (Fail NotEncrypted, fs)
        | Some final =>
            let '(ok, fs) := write_file dv fs (place_of output) 384 final in
            if negb ok then (Fail NotWritten, fs)
            else
              match verify fs tmp output (bo_password o) with
              | Ok _ => let '(deleted, fs) := sweep_old o volume_total (up output) fs in (Ok (output, deleted), fs)
              | Fail e => (Fail e, remove_file dv fs (place_of output))
              end
        end
    end.

(** ** Restore *)

(** extractManifest: the first member of the name *)
Definition extract_manifest (ms : list member) : option manifest :=
  m ← find (λ m, bool_decide (mb_name m = manifest_entry_name)) ms; decode_manifest (mb_data m).
(** extractArchive of restore.go: what was written before an error stays. *)
Definition file_mode (mode : Z) : Z := mode mod 2 ^ 32.
Definition restore_member (config data : path) (m : member) (fs : files) : option archive_error * files :=
  if bool_decide (mb_name m = manifest_entry_name) then (None, fs)
  else if bool_decide (mb_kind m = KLink) then (Some BadEntry, fs)
  else match safe_extract_path (if from_config (mb_name m) then config else data) (mb_name m) with
  | None => (Some EscapingEntry, fs)
  | Some dest =>
      if bool_decide (mb_kind m = KDir) then
        let '(ok, fs) := mkdir_all fs (place_of dest) in (if ok then None else Some NotExtracted, fs)
      else
        let '(ok, fs) := mkdir_all fs (up dest) in
        if negb ok then (Some NotExtracted, fs)
        else match write_file dv fs (place_of dest) 438 (mb_data m) with
        | (false, fs) => (Some NotExtracted, fs)
        | (true, fs) => match chmod fs (place_of dest) (file_mode (mb_mode m)) with
                     | None => (Some NotExtracted, fs)
                     | Some fs => (None, fs)
                     end
        end
  end.
Fixpoint restore_members (config data : path) (ms : list member) (fs : files) : option archive_error * files :=
  match ms with
  | [] => (None, fs)
  | m :: ms =>
      let '(e, fs) := restore_member config data m fs in
      match e with Some e => (Some e, fs) | None => restore_members config data ms fs end
  end.

(** Restore: the digest of a new set-up token ends up in the directory of the configuration. *)
Definition setup_token_path (config : path) : path := join2 config (bytes "setup_token.txt").
Definition save_token (fs : files) (config : path) (token : string) : bool * files :=
  let '(ok, fs) := mkdir_all fs (place_of config) in
  if ok then write_file dv fs (place_of (setup_token_path config)) 384 (octets (hex_encode (sum256 token))) else (false, fs).
Definition restore (backup tmp config data : path) (password : string) (rand : option (list Z)) (fs : files)
  : result archive_error string * files :=
  match verify fs tmp backup password with
  | Fail e => (Fail e, fs)
  | Ok _ =>
      match read_file fs (place_of backup) with
      | None => (Fail NoBackup, fs)
      | Some stored =>
          match plain_archive backup stored password with
          | Fail e => (Fail e, fs)
          | Ok plain =>
              match unpack plain with
              | None => (Fail CorruptArchive, fs)
              | Some ms =>
                  match extract_manifest ms with
                  | None => (Fail NoManifest, fs)
                  | Some _ =>
                      let '(e, fs) := restore_members config data ms fs in
                      match e with
                      | Some e => (Fail e, fs)
                      | None =>
                          match hex_encode <$> rand with
                          | None => (Fail NoToken, fs)
                          | Some token => let '(ok, fs) := save_token fs config token in (if ok then Ok token else Fail NoToken, fs)
                          end
                      end
                  end
              end
          end
      end
  end.
End Archive.

(** * Extraction stays below its directory *)

Lemma place_of_plain ws : Forall plain ws → place_of (slash :: join_path ws) = ws.
Proof.
  intros H. unfold place_of, rooted_segments. cbn [segments]. rewrite decide_True by done. cbn [foldl].
  unfold clean_step at 2. rewrite decide_True by by left. destruct ws as [|w ws]; [done|].
  rewrite segments_join by (done || by apply plain_free). rewrite clean_steps by by apply plain_dots.
  by rewrite app_nil_r, reverse_involutive, plain_filter.
Qed.
Lemma place_plain l : Forall plain (place_of l).
Proof. apply rooted_segments_plain. Qed.

Lemma join2_rooted dest name : rooted dest = true → ∃ ws, Forall plain ws ∧ join2 dest name = slash :: join_path ws.
Proof.
  intros R. destruct (rooted_eq dest R) as [d ->]. destruct name as [|c name]; cbn [join2].
  - rewrite clean_rooted by done. eexists. split; [apply rooted_segments_plain|done].
  - rewrite clean_rooted by done. eexists. split; [apply rooted_segments_plain|done].
Qed.
Lemma segments_rooted ws : Forall plain ws → ws ≠ [] → segments (slash :: join_path ws) = [] :: ws.
Proof. intros H Hne. cbn [segments]. rewrite decide_True by done. by rewrite segments_join by (done || by apply plain_free). Qed.

Lemma safe_extract_below dest name r : rooted dest = true → safe_extract_path dest name = Some r →
  r = slash :: join_path (place_of r) ∧ place_of dest `prefix_of` place_of r.
Proof.
  intros R. unfold safe_extract_path. destruct (bool_decide (byte 0 ∈ name)); [done|].
  destruct (join2_rooted dest name R) as (ws & Hws & ->). rewrite clean_plain by done.
  destruct (_ && _) eqn:C; [done|]. intros [= <-]. rewrite place_of_plain by done. split; [done|].
  apply andb_false_iff in C as [C|C]; apply negb_false_iff in C.
  - apply bool_decide_eq_true in C as <-. by rewrite place_of_plain.
  - apply is_prefixb_app in C as [k E]. rewrite <-app_assoc in E. cbn [app] in E. destruct (rooted_eq dest R) as [d ->].
    destruct (decide (ws = [])) as [->|Hne]; [by destruct d|].
    pose proof (segments_rooted ws Hws Hne) as S. rewrite E, segments_sep in S.
    cbn [segments] in S. rewrite decide_True in S by done. injection S as <-. apply Forall_app in Hws as [Hd _].
    exists (segments k). f_equal. apply place_of_plain in Hd. rewrite join_segments in Hd. by rewrite Hd.
Qed.

Lemma parent_prefix p q : p `prefix_of` q → p = q ∨ p `prefix_of` parent q.
Proof.
  intros [k ->]. destruct k as [|w k _] using rev_ind; [left; by rewrite app_nil_r|right].
  rewrite assoc by apply _. rewrite parent_app. by apply prefix_app_r.
Qed.
Lemma parent_is_prefix p : parent p `prefix_of` p.
Proof. unfold parent. apply prefix_take. Qed.

(** Nothing changes but below the two directories, and directories that are made on the way. *)
Definition confined (c d : place) (fs fs' : files) : Prop :=
  ∀ q, fs' !! q = fs !! q ∨ c `prefix_of` q ∨ d `prefix_of` q ∨ (fs !! q = None ∧ fs' !! q = Some NDir).

Lemma confined_refl c d fs : confined c d fs fs.
Proof. by left. Qed.
Lemma confined_trans c d fs1 fs2 fs3 : confined c d fs1 fs2 → confined c d fs2 fs3 → confined c d fs1 fs3.
Proof. intros H1 H2 q. destruct (H1 q) as [E1|[?|[?|[E1 F1]]]], (H2 q) as [E2|[?|[?|[E2 F2]]]]; try tauto; [left| right; right; right..]; try split; congruence. Qed.
Lemma confined_dirs c d p fs fs' : dirs_added p fs fs' → confined c d fs fs'.
Proof. intros H q. destruct (H q) as [?|(_ & _ & ? & ?)]; tauto. Qed.
Lemma confined_write c d p n fs : c `prefix_of` p ∨ d `prefix_of` p → confined c d fs (<[p := n]> fs).
Proof. intros Hp q. destruct (decide (p = q)) as [<-|Hne]; [tauto|]. left. by rewrite lookup_insert_ne. Qed.

Definition confined_step (c d : place) (fs fs' : files) : Prop := confined c d fs fs' ∧ no_new_links fs fs'.
Lemma confined_step_trans c d fs1 fs2 fs3 : confined_step c d fs1 fs2 → confined_step c d fs2 fs3 → confined_step c d fs1 fs3.
Proof. intros [A B] [A' B']. split; [by eapply confined_trans|by eapply no_new_links_trans]. Qed.

Lemma mkdir_step c d fs p ok fs' : no_links_to fs p → mkdir_all fs p = (ok, fs') → confined_step c d fs fs'.
Proof. intros H M. apply mkdir_all_spec in M as (A & _); [|done]. split; [by eapply confined_dirs|by eapply dirs_added_links]. Qed.
Lemma write_step dv c d fs p mode data ok fs' : no_links_to fs p → c `prefix_of` p ∨ d `prefix_of` p →
  write_file dv fs p mode data = (ok, fs') →
  confined_step c d fs fs' ∧ (ok = true → ∃ m, fs' !! p = Some (NFile m data) ∧ p ≠ []).
Proof.
  intros H Hp [(-> & -> & _)|(Hd & m & l & -> & _ & Hl)]%write_file_spec; [by split; [split; [apply confined_refl|by intros ???]|]| |done].
  assert (p ≠ []) as Hne by (by intros ->). split; [split; [by apply confined_write|apply written_links]|].
  intros ->. destruct Hl as [_ ->]. exists m. by rewrite lookup_insert_eq.
Qed.

Lemma restore_member_step dv config data m fs e fs' : rooted config = true → rooted data = true →
  link_free (place_of config) fs → link_free (place_of data) fs → restore_member dv config data m fs = (e, fs') →
  confined_step (place_of config) (place_of data) fs fs'.
Proof.
  intros Rc Rd Lc Ld. assert (Hrefl : confined_step (place_of config) (place_of data) fs fs) by (split; [apply confined_refl|by intros ???]).
  unfold restore_member. case_bool_decide; [by intros [= _ <-]|]. case_bool_decide; [by intros [= _ <-]|].
  set (base := if from_config (mb_name m) then config else data).
  assert (Hbase : rooted base = true ∧ link_free (place_of base) fs ∧ ∀ q, place_of base `prefix_of` q → place_of config `prefix_of` q ∨ place_of data `prefix_of` q).
  { unfold base. destruct (from_config _); split_and!; tauto. }
  clearbody base. destruct Hbase as (R & L & Hin). destruct (safe_extract_path base (mb_name m)) as [dest|] eqn:S; [|by intros [= _ <-]].
  apply safe_extract_below in S as [_ Hp]; [|done]. pose proof (link_free_to _ _ _ L Hp) as Hno.
  assert (Hnup : no_links_to fs (up dest)) by (eapply no_links_prefix; [apply parent_is_prefix|done]).
  case_bool_decide.
  - destruct (mkdir_all fs (place_of dest)) as [ok fs1] eqn:M. intros [= _ <-]. apply (mkdir_step _ _ _ _ _ _ Hno M).
  - destruct (mkdir_all fs (up dest)) as [ok fs1] eqn:M. pose proof (mkdir_step _ _ _ _ _ _ Hnup M : confined_step (place_of config) (place_of data) fs fs1) as S1.
    destruct ok; cbn [negb]; [|by intros [= _ <-]].
    assert (Hno1 : no_links_to fs1 (place_of dest)) by (intros q s t Hq E; apply S1 in E; by apply (Hno q s t)).
    destruct (write_file dv fs1 (place_of dest) 438 (mb_data m)) as [ok fs2] eqn:Wr.
    apply (write_step dv (place_of config) (place_of data)) in Wr as (S2 & Hok); [|done|by apply Hin].
    destruct ok; [|intros [= _ <-]; by eapply confined_step_trans]. destruct (Hok eq_refl) as (mode & E2 & Hne).
    assert (Hno2 : no_links_to fs2 (place_of dest)) by (intros q s t Hq E; apply S2 in E; by apply (Hno1 q s t)).
    rewrite (chmod_spec fs2 _ _ mode (mb_data m)) by done. intros [= _ <-].
    eapply confined_step_trans; [exact S1|]. eapply confined_step_trans; [exact S2|]. split; [|apply written_links].
    apply confined_write, Hin, Hp.
Qed.
Lemma restore_members_step dv config data ms fs e fs' : rooted config = true → rooted data = true →
  link_free (place_of config) fs → link_free (place_of data) fs → restore_members dv config data ms fs = (e, fs') →
  confined_step (place_of config) (place_of data) fs fs'.
Proof.
  intros Rc Rd. revert fs. induction ms as [|m ms IH]; intros fs Lc Ld; cbn [restore_members].
  - intros [= _ <-]. split; [apply confined_refl|by intros ???].
  - destruct (restore_member dv config data m fs) as [e1 fs1] eqn:M. apply restore_member_step in M; [|done..].
    destruct e1 as [e1|]; [by intros [= _ <-]|]. intros E. eapply confined_step_trans; [exact M|].
    apply IH; [| |exact E]; eapply no_new_links_free; try apply M; done.
Qed.

Lemma join2_place dest name : rooted dest = true → Forall plain (segments name) → place_of (join2 dest name) = place_of dest ++ segments name.
Proof.
  intros R Hn. destruct (rooted_eq dest R) as [d ->]. destruct name as [|c name].
  - exfalso. inversion Hn as [|? ? (_ & Hu & _) _]. apply bool_decide_eq_true in Hu as [Hu _]. by apply Hu.
  - cbn [join2]. rewrite clean_below by done. rewrite place_of_plain; [done|]. apply Forall_app. split; [apply place_plain|done].
Qed.
(** A list of segments written in the program is plain. *)
Definition plainb (w : path) : bool := bool_decide (slash ∉ w) && useful w && negb (bool_decide (w = dots)).
Lemma plainb_spec w : plainb w = true ↔ plain w.
Proof.
  unfold plainb, plain, sep_free. rewrite !andb_true_iff, bool_decide_eq_true, negb_true_iff, bool_decide_eq_false. tauto.
Qed.
Lemma plain_segments ws : forallb plainb ws = true → Forall plain ws.
Proof. rewrite forallb_forall. intros H. apply Forall_forall. intros w Hw. by apply plainb_spec, H, list_elem_of_In. Qed.

Section Confined.
Context (decode_manifest : list Z → option manifest) (unpack : list Z → option (list member)).
Context (id_key : list Z → list Z → Z → Z → Z → Z → option (list Z)).
Context (open : list Z → list Z → list Z → option (list Z)) (integrity_check : list Z → bool) (dv : device).
Abbreviation verify_here := (verify decode_manifest unpack id_key open integrity_check dv).
Abbreviation restore_here := (restore decode_manifest unpack id_key open integrity_check dv).

(** C7: a restored archive stays in its two directories.  Whatever the bytes of the backup, and whether the
    restore succeeds, fails or breaks off in between: provided that no symbolic links lie on the way to or below the
    directories of the configuration and of the data, nothing else of the file system changes, missing
    directories on the way apart, and no link appears; a backup that does not verify changes nothing at all.  The
    temporary directory that a verification extracts into and removes again is left out, and writes may break off
    in between. *)
Theorem restore_confined backup tmp config data password rand fs r fs' : rooted config = true → rooted data = true →
  link_free (place_of config) fs → link_free (place_of data) fs →
  restore_here backup tmp config data password rand fs = (r, fs') →
  confined (place_of config) (place_of data) fs fs' ∧ no_new_links fs fs' ∧
  (is_ok (verify_here fs tmp backup password) = false → fs' = fs).
Proof.
  intros Rc Rd Lc Ld. unfold restore. destruct (verify_here fs tmp backup password) as [u|e]; cbn [is_ok].
  2:{ intros [= _ <-]. split_and!; [apply confined_refl|by intros ???|done]. }
  assert (H0 : confined_step (place_of config) (place_of data) fs fs) by (split; [apply confined_refl|by intros ???]).
  intros E. enough (confined_step (place_of config) (place_of data) fs fs') as [? ?] by done.
  destruct (read_file fs _) as [stored|]; [|by injection E as _ <-].
  destruct (plain_archive _ _ _ _ _) as [plain_data|]; [|by injection E as _ <-].
  destruct (unpack plain_data) as [ms|]; [|by injection E as _ <-].
  destruct (extract_manifest _ ms) as [mf|]; [|by injection E as _ <-].
  destruct (restore_members dv config data ms fs) as [e1 fs1] eqn:M. apply restore_members_step in M; [|done..].
  destruct e1; [by injection E as _ <-|]. destruct rand as [l|]; [|by injection E as _ <-]. cbn [fmap option_fmap option_map] in E.
  destruct (save_token dv fs1 config (hex_encode l)) as [ok2 fs2] eqn:T. injection E as _ <-.
  eapply confined_step_trans; [exact M|]. unfold save_token in T. destruct (mkdir_all fs1 (place_of config)) as [ok fs3] eqn:K.
  assert (L1 : link_free (place_of config) fs1) by (eapply no_new_links_free; [apply M|done]).
  pose proof (mkdir_step (place_of config) (place_of data) _ _ _ _ (link_free_up _ _ L1) K) as S3. destruct ok; [|by injection T as _ <-].
  assert (Hpath : place_of config `prefix_of` place_of (setup_token_path config)).
  { unfold setup_token_path. rewrite join2_place by (done || (apply plain_segments; vm_compute; reflexivity)). by apply prefix_app_r. }
  apply (write_step dv (place_of config) (place_of data)) in T as [S4 _]; [by eapply confined_step_trans| |by left].
  apply (link_free_to (place_of config)); [|done]. eapply no_new_links_free; [apply S3|done].
Qed.
End Confined.

(** * What a made backup is worth *)

Section Made.
Context (encode_manifest : manifest → list Z) (decode_manifest : list Z → option manifest).
Context (pack : list member → list Z) (unpack : list Z → option (list member)).
Context (id_key : list Z → list Z → Z → Z → Z → Z → option (list Z)).
Context (seal : list Z → list Z → list Z → list Z) (open : list Z → list Z → list Z → option (list Z)).
Context (integrity_check : list Z → bool) (dv : device).
Context `{DatabaseLaws W dir} (sort_slice : ∀ A, (A → A → bool) → list A → list A) `{!SortSlice sort_slice}.
Context (look : dir → W) (mtime : place → instant).
Hypothesis look_at : ∀ d, tables (look d) = d.
Abbreviation create_here := (create_backup_archive encode_manifest decode_manifest pack unpack id_key seal open integrity_check dv sort_slice look mtime).

(** The files of a directory by their names *)
Lemma folder_lookup fs p n : folder_of mtime fs p !! n =
  match fs !! (p ++ [bytes n]) with Some (NFile _ data) => Some (File (mtime (p ++ [bytes n])) (Z.of_nat (length data))) | _ => None end.
Proof.
  assert (Hin : ∀ f, folder_of mtime fs p !! n = Some f ↔ ∃ mode data, fs !! (p ++ [bytes n]) = Some (NFile mode data) ∧
    f = File (mtime (p ++ [bytes n])) (Z.of_nat (length data))).
  { intros f. unfold folder_of. rewrite <-elem_of_list_to_map; [rewrite list_elem_of_omap|].
    - split.
      + intros ([q nd] & Hq%elem_of_map_to_list & E). unfold folder_entry in E. cbn [fst snd] in E. destruct nd as [|mode data|]; try done.
        destruct (last q) as [w|]; [|done]. case_bool_decide as Eq; [|done]. injection E as <- <-. subst q. rewrite bytes_of_bytes. eauto.
      + intros (mode & data & Hq & ->). exists (p ++ [bytes n], NFile mode data). rewrite elem_of_map_to_list. split; [done|].
        unfold folder_entry. cbn [fst snd]. rewrite last_snoc, bool_decide_eq_true_2 by done. by rewrite of_bytes_bytes.
    - pose proof (NoDup_fst_map_to_list fs) as ND. induction (map_to_list fs) as [|[q nd] l IH]; [constructor|].
      cbn [fmap list_fmap fst] in ND. apply NoDup_cons in ND as [Hq ND]. cbn [omap list_omap]. 
      destruct (folder_entry mtime p (q, nd)) as [[m f']|] eqn:E; [|by apply IH]. cbn [fmap list_fmap fst]. apply NoDup_cons. split; [|by apply IH].
      intros ([m' f''] & Em & ([q' nd'] & Hin' & E')%list_elem_of_omap)%list_elem_of_fmap. cbn [fst] in Em. subst m'. apply Hq.
      apply list_elem_of_fmap. exists (q', nd'). split; [|done]. cbn [fst]. unfold folder_entry in E, E'. cbn [fst snd] in E, E'.
      destruct nd, nd'; try done. destruct (last q) as [w|], (last q') as [w'|]; try done.
      destruct (bool_decide (q = _)) eqn:Eq; [|done]. destruct (bool_decide (q' = _)) eqn:Eq'; [|done].
      apply bool_decide_eq_true in Eq as ->, Eq' as ->. injection E as E _. injection E' as E' _. do 2 f_equal.
      rewrite <-(bytes_of_bytes w), <-(bytes_of_bytes w'). congruence. }
  apply option_eq. intros f. rewrite Hin. destruct (fs !! _) as [[|mode data|z t]|]; (split; [by intros (? & ? & ? & ?)|done]) || idtac.
  split; [by intros (? & ? & [= <- <-] & ->)|]. intros [= <-]. eauto.
Qed.

Lemma without_files_lookup p names fs q :
  without_files p names fs !! q = if decide (q ∈ map (λ n, p ++ [bytes n]) names) then None else fs !! q.
Proof.
  revert fs. induction names as [|n names IH]; intros fs; cbn [without_files foldl map]; [by rewrite decide_False by apply not_elem_of_nil|].
  fold (without_files p names (delete (p ++ [bytes n]) fs)). rewrite IH. destruct (decide (q = p ++ [bytes n])) as [->|Hne].
  - rewrite lookup_delete_eq, (decide_True (P := _ ∈ _ :: _)) by by left. by case_decide.
  - rewrite lookup_delete_ne by done. case_decide as Hin; [by rewrite decide_True by by right|].
    rewrite decide_False; [done|]. by intros [?|?]%elem_of_cons.
Qed.

(** The sweep removes from the directory what applyRetention deletes in its view of it. *)
Lemma sweep_spec o vol p fs deleted fs' :
  sweep_old sort_slice look mtime o vol p fs = (deleted, fs') →
  NoDup deleted ∧ fs' = without_files p deleted fs ∧ (∀ n, n ∈ deleted → is_Some (backup_date n) ∨ incremental_name n = true) ∧
  ∃ err w', apply_retention sort_slice (default default_retention (bo_retention o)) vol (look (folder_of mtime fs p)) = (deleted, err, w') ∧
    tables w' = folder_of mtime fs' p.
Proof.
  unfold sweep_old. destruct (apply_retention _ _ _ _) as [[del err] w'] eqn:R. intros [= <- <-].
  apply sweep_deleted in R as D; [|done]. destruct D as (D1 & D2 & D3). split_and!; [done|done|done|]. exists err, w'. split; [done|].
  rewrite D2, look_at. apply map_eq. intros n. rewrite lookup_without, !folder_lookup, without_files_lookup.
  destruct (decide (n ∈ del)) as [Hn|Hn].
  - rewrite decide_True; [done|]. apply list_elem_of_fmap. eauto.
  - rewrite decide_False; [done|]. intros (m & E & Hm)%list_elem_of_fmap. apply app_inj_2 in E as [_ [= E]]; [|done].
    apply Hn. rewrite <-(of_bytes_bytes n), E, of_bytes_bytes. done.
Qed.

End Made.

(** An archive with the configuration file and one file of data, over an older configuration *)
Definition blank : manifest := Manifest "" 0 "" "" [] false "" "".
Definition some_members : list member :=
  [Member (bytes "server.yml") KReg 420 [49; 50]; Member (bytes "data/notes") KReg 384 [7]; Member manifest_entry_name KReg 384 []].
Definition some_files : files :=
  list_to_map [(place_of (bytes "/c"), NDir); (place_of (bytes "/c/server.yml"), NFile 384 [49]); (place_of (bytes "/b.tar.gz"), NFile 384 [1])].
Abbreviation restored_some := (restore (λ _, Some blank) (λ _, Some some_members) (λ _ _ _ _ _ _, None) (λ _ _ _, None) (λ _, true) sound_device
  (bytes "/b.tar.gz") (bytes "/t") (bytes "/c") (bytes "/d") "" (Some [5]) some_files).

Lemma some_link_free p : link_free p some_files.
Proof.
  intros q s t _ E. apply elem_of_list_to_map_2 in E. by repeat (apply elem_of_cons in E as [[=]|E]); apply not_elem_of_nil in E.
Qed.
Lemma restore_confined_witness :
  confined (place_of (bytes "/c")) (place_of (bytes "/d")) some_files restored_some.2 ∧
  restored_some.2 !! place_of (bytes "/c/server.yml") = Some (NFile 420 [49; 50]) ∧
  restored_some.2 !! place_of (bytes "/d/data/notes") = Some (NFile 384 [7]).
Proof.
  split; [|split; vm_compute; reflexivity].
  by apply (restore_confined (λ _, Some blank) (λ _, Some some_members) (λ _ _ _ _ _ _, None) (λ _ _ _, None) (λ _, true) sound_device
    (bytes "/b.tar.gz") (bytes "/t") (bytes "/c") (bytes "/d") "" (Some [5]) some_files restored_some.1);
    [reflexivity|reflexivity|apply some_link_free|apply some_link_free|apply surjective_pairing].
Defined.

(** A daily incremental over an earlier one, in a directory with an old full backup; [sound] is what SQLite finds of the
    database, and [cap] the size cap *)
Definition day_file : path := bytes "/b/wthr-daily.tar.gz".
Definition daily_files : files :=
  list_to_map [(place_of (bytes "/d"), NDir); (place_of (bytes "/d/db"), NDir); (place_of (bytes "/d/db/server.db"), NFile 384 [0]);
               (place_of (bytes "/b"), NDir); (place_of day_file, NFile 384 [5; 5]);
               (place_of (bytes "/b/wthr_backup_2024-06-13.tar.gz"), NFile 384 [6; 6]); (place_of (bytes "/b/wthr_backup_2024-06-14.tar.gz"), NFile 384 [7])].
Definition daily_options (cap : string) : backup_options :=
  BackupOptions (bytes "/c") (bytes "/d") "" false false "scheduler" "1.0" (Some (RetentionConfig 1 0 0 0 cap)).
Definition daily_made (dv : device) (sound : bool) (cap : string) := create_backup_archive (λ _, []) (λ _, Some blank) (λ _, [1; 2; 3])
  (λ _, Some [Member (bytes "db/server.db") KReg 384 [0]; Member manifest_entry_name KReg 384 []])
  (λ _ _ _ _ _ _, None) (λ _ _ t, t) (λ _ _ t, Some t) (λ _, sound) dv (@sort_stable) Reliable (λ _, date_utc 2024 6 15 2 0 0 0)
  (daily_options cap) day_file (bytes "/t") None None 0 0 daily_files.

Lemma daily_no_links p : no_links_to daily_files p.
Proof.
  intros q s t _ L. apply elem_of_list_to_map_2 in L. by repeat (apply elem_of_cons in L as [[=]|L]); apply not_elem_of_nil in L.
Qed.

(** The earlier backup of the name is overwritten before the new one is verified, and goes with it. *)
Lemma earlier_backup_lost : read_file daily_files (place_of day_file) = Some [5; 5] ∧
  (daily_made sound_device false "").1 = Fail BadDatabase ∧ (daily_made sound_device false "").2 !! place_of day_file = None.
Proof. split_and!; vm_compute; reflexivity. Qed.
(** A write that breaks off leaves the beginning of an archive under the name of a backup. *)
Lemma torn_backup_left : let torn := Device (λ _ _ _, Some 1%nat) (λ _ _, false) in
  (daily_made torn true "").1 = Fail NotWritten ∧ read_file (daily_made torn true "").2 (place_of day_file) = Some [1].
Proof. split; vm_compute; reflexivity. Qed.
(** A backup that weighs more than the cap is reported as made, and deleted. *)
Lemma new_backup_swept : let made := daily_made sound_device true "1" in
  made.1 = Ok (day_file, ["wthr_backup_2024-06-13.tar.gz"; "wthr_backup_2024-06-14.tar.gz"; "wthr-daily.tar.gz"]) ∧
  made.2 !! place_of day_file = None.
Proof. split; vm_compute; reflexivity. Qed.

(** The hash runs over names and contents without their lengths, and over no modes: a file whose contents run on into what
    looks like the next entry has the same checksum as the two entries. *)
Lemma checksum_of_run_on a b m m' x y : a ≠ manifest_entry_name → b ≠ manifest_entry_name →
  content_checksum [Member a KReg m x; Member b KReg m' y] = content_checksum [Member a KReg m (x ++ hash_name b ++ y)].
Proof.
  intros Ha Hb. unfold content_checksum. do 2 f_equal. unfold hash_input, hash_member. cbn [map concat mb_name mb_kind mb_data].
  rewrite !bool_decide_eq_false_2, !app_nil_r by done. by rewrite <-(assoc (++)).
Qed.

(** A symbolic link among the templates, to a file longer than the text of the link *)
Definition linked_files : files :=
  list_to_map [(place_of (bytes "/c"), NDir); (place_of (bytes "/c/template"), NDir);
               (place_of (bytes "/c/template/index.html"), NLink 6 (place_of (bytes "/b/a"))); (place_of (bytes "/b"), NDir);
               (place_of (bytes "/b/a"), NFile 420 [104; 101; 108; 108; 111; 33; 33])].
Lemma link_breaks_backup encode pack m :
  create_archive encode pack linked_files (bytes "/c") (bytes "/d") (collect_files linked_files (daily_options "")) m = None.
Proof.
  unfold create_archive.
  by assert (add_files linked_files (bytes "/c") (bytes "/d") (collect_files linked_files (daily_options "")) = None) as -> by (vm_compute; reflexivity).
Qed.

(** A directory that is given with a slash at its end takes no entry at all. *)
Lemma trailing_slash_takes_nothing d name : rooted d = true → safe_extract_path (d ++ [slash]) name = None.
Proof.
  intros R. assert (Rd : rooted (d ++ [slash]) = true) by by destruct d. unfold safe_extract_path. destruct (bool_decide (byte 0 ∈ name)); [done|].
  destruct (join2_rooted (d ++ [slash]) name Rd) as (ws & Hws & ->). rewrite clean_plain by done.
  assert (Hno : ∀ k, slash :: join_path ws ≠ d ++ [slash] ++ k ∨ (k ≠ [] ∧ head k ≠ Some slash)).
  { intros k. destruct (decide (slash :: join_path ws = d ++ [slash] ++ k)) as [E|]; [right|by left].
    destruct (rooted_eq d R) as [d' ->]. destruct (decide (ws = [])) as [->|Hne]; [by destruct d'|].
    pose proof (segments_rooted ws Hws Hne) as S. rewrite E in S. cbn [app] in S. rewrite app_comm_cons, segments_sep in S.
    cbn [segments] in S. rewrite decide_True in S by done. injection S as <-. apply Forall_app in Hws as [_ Hk].
    split; [intros ->|destruct k as [|c k]; [done|]; intros [= ->]; cbn [segments] in Hk; rewrite decide_True in Hk by done];
      apply Forall_cons_1 in Hk as [(_ & Hu & _) _]; apply bool_decide_eq_true in Hu as [Hu _]; by apply Hu. }
  destruct (_ && _) eqn:C; [done|]. apply andb_false_iff in C as [C|C]; apply negb_false_iff in C.
  - apply bool_decide_eq_true in C. destruct (Hno []) as [H|[H _]]; [|done]. by rewrite app_nil_r in H.
  - apply is_prefixb_app in C as [k E]. destruct (Hno (slash :: k)) as [H|[_ H]]; [|done]. destruct H. rewrite E. by rewrite <-!(assoc (++)).
Qed.
