(* ===== verification/Restore.v ===== *)
(** What a backup of the configuration and the data (Archive) brings back: the entries that are
    collected, the members they become, and the restore of these into new directories, in any
    order and onto any file system. *)
From S2P Require Import Prelude GoStrings GoTime Sql Retention PathSecurity FileSystem Sha256 Base64 Archive.
From Stdlib Require Import Ascii.
Open Scope Z_scope.
#[local] Arguments slash : simpl never.
#[local] Arguments dot : simpl never.

(** * What is archived *)

Definition tidy (ws : list path) : list path := filter (λ w, useful w = true) ws.
Lemma join2_tidy dest name : rooted dest = true → name ≠ [] → Forall (λ w, w ≠ dots) (segments name) →
  join2 dest name = slash :: join_path (place_of dest ++ tidy (segments name)).
Proof.
  intros R Hne Hd. destruct (rooted_eq dest R) as [d ->]. destruct name as [|c name]; [done|]. cbn [join2].
  rewrite clean_rooted by done. do 2 f_equal. unfold place_of, rooted_segments.
  rewrite segments_sep, foldl_app, clean_steps by done. by rewrite reverse_app, reverse_involutive.
Qed.
Lemma clean_relative l : rooted l = false → Forall (λ w, w ≠ dots) (segments l) → tidy (segments l) ≠ [] →
  clean l = join_path (tidy (segments l)).
Proof.
  intros R Hd Hne. unfold clean. rewrite R, clean_steps by done. rewrite app_nil_r, reverse_involutive. fold (tidy (segments l)).
  pose proof (segments_free l) as Hf. assert (Ht : Forall (λ w, w ≠ []) (tidy (segments l))).
  { apply Forall_forall. intros w [Hu _]%list_elem_of_filter. by apply bool_decide_eq_true in Hu as [? _]. }
  destruct (tidy (segments l)) as [|w ws]; [done|]. inversion Ht as [|? ? Hw _]; subst. destruct w; [done|]. by destruct ws.
Qed.

(** A name of the program's own: one plain segment *)
Definition word (w : path) : Prop := plain w ∧ byte 0 ∉ w.
Lemma tar_path_of w rel : plain w → Forall plain rel → 
  join2 (w ++ [slash]) (rel_text rel) = join_path (w :: rel).
Proof.
  intros Hw Hr. unfold rel_text. set (tail := match rel with [] => [dot] | _ => join_path rel end).
  assert (Ht : tail ≠ [] ∧ Forall (λ w, w ≠ dots) (segments tail) ∧ tidy (segments tail) = rel).
  { unfold tail. destruct rel as [|v rel]; [split_and!; [done|by repeat constructor|done]|].
    assert (Hne : v :: rel ≠ []) by done. rewrite segments_join by (done || by apply plain_free).
    split_and!; [|by apply plain_dots|by apply plain_filter]. inversion Hr as [|? ? (_ & Hu & _) _]; subst.
    apply bool_decide_eq_true in Hu as [Hu _]. destruct v; [done|]. by destruct rel. }
  destruct Ht as (Hne & Hd & Htidy). assert (E : join2 (w ++ [slash]) tail = clean ((w ++ [slash]) ++ slash :: tail)).
  { destruct (w ++ [slash]) eqn:W; [by destruct w|]. by destruct tail. }
  rewrite E, <-app_assoc. cbn [app]. destruct Hw as (Hfree & Hu & Hdots).
  assert (S : segments (w ++ slash :: slash :: tail) = w :: [] :: segments tail).
  { rewrite segments_sep, segments_word by done. cbn [segments app]. by rewrite decide_True. }
  assert (Hf : tidy (segments (w ++ slash :: slash :: tail)) = w :: rel).
  { rewrite S. unfold tidy. rewrite filter_cons_True by done. rewrite filter_cons_False by done. fold (tidy (segments tail)). by rewrite Htidy. }
  rewrite clean_relative; [by rewrite Hf| |rewrite S; by repeat constructor|by rewrite Hf].
  destruct w as [|c w]; [by apply bool_decide_eq_true in Hu as [? _]|]. unfold rooted. cbn [is_prefixb app].
  rewrite decide_False; [done|]. intros <-. apply Hfree. by left.
Qed.

(** A file system as the kernel keeps it: names are names, and what is somewhere is in a directory. *)
Definition node_ok (n : node) : Prop := match n with NFile mode data => 0 ≤ mode < 2 ^ 32 ∧ is_bytes data | _ => True end.
Definition files_ok (fs : files) : Prop :=
  ∀ p n, fs !! p = Some n → p ≠ [] ∧ Forall word p ∧ node_at fs (parent p) = Some NDir ∧ node_ok n.

Lemma files_up fs p k n : files_ok fs → p ≠ [] → k ≠ [] → fs !! (p ++ k) = Some n → fs !! p = Some NDir.
Proof.
  intros Hok Hp. revert n. induction k as [|w k IH] using rev_ind; [done|]. intros n _ E. rewrite assoc in E by apply _.
  apply Hok in E as (_ & _ & Hn & _). rewrite parent_app in Hn. destruct k as [|v k _] using rev_ind.
  - rewrite app_nil_r in Hn. by rewrite node_at_here in Hn.
  - apply (IH NDir); [by destruct k|]. rewrite node_at_here in Hn; [done|]. by destruct p.
Qed.

(** An entry of an archive: its side (the configuration or the data), its place there, and what it is *)
Abbreviation entry := (bool * place * node)%type.
Definition member_of (e : entry) : member :=
  match e.2 with
  | NDir => Member (join_path e.1.2 ++ [slash]) KDir 0 []
  | NFile mode data => Member (join_path e.1.2) KReg mode data
  | NLink _ _ => Member (join_path e.1.2) KLink 0 []
  end.

Definition single (s : bool) (r : place) (s' : bool) (r' : place) : bool := bool_decide (s' = s ∧ r' = r).
Definition under (s : bool) (w : path) (s' : bool) (r' : place) : bool :=
  bool_decide (s' = s) && match r' with v :: _ => bool_decide (v = w) | [] => false end.
Definition included (ssl data_too s : bool) (r : place) : bool :=
  single true [bytes "server.yml"] s r || single false [bytes "db"; bytes "server.db"] s r || single false [bytes "db"; bytes "users.db"] s r ||
  under true (bytes "template") s r || under true (bytes "theme") s r || (ssl && under true (bytes "ssl") s r) ||
  (data_too && under false (bytes "data") s r).

Section Collect.
Context (fs : files) (config data : path) (Hok : files_ok fs) (Rc : rooted config = true) (Rd : rooted data = true).
Context (Lc : link_free (place_of config) fs) (Ld : link_free (place_of data) fs).
Context (Nc : node_at fs (place_of config) = Some NDir) (Nd : node_at fs (place_of data) = Some NDir).
Definition side_of (s : bool) : path := if s then config else data.
Abbreviation base s := (place_of (side_of s)).
Abbreviation src s r := (fs !! (base s ++ r)).

Lemma base_rooted s : rooted (side_of s) = true.
Proof. by destruct s. Qed.
Lemma base_links s : link_free (base s) fs.
Proof. by destruct s. Qed.
Lemma stat_src s r : r ≠ [] → stat fs (base s ++ r) = src s r.
Proof.
  intros Hr. rewrite stat_id by (apply (link_free_to (base s)); [apply base_links|by apply prefix_app_r]).
  apply node_at_here. by destruct (base s).
Qed.

(** What a part of the list of names puts in the archive *)
Definition chunk (names : list path) (P : bool → place → bool) : Prop :=
  ∃ l : list entry, add_files fs config data names = Some (map member_of l) ∧
    ∀ s r n, (s, r, n) ∈ l ↔ P s r = true ∧ src s r = Some n.

Lemma chunk_app names names' P P' : chunk names P → chunk names' P' → chunk (names ++ names') (λ s r, P s r || P' s r).
Proof.
  intros (l & E & Hl) (l' & E' & Hl'). exists (l ++ l'). split.
  - rewrite map_app. clear Hl. revert l E. induction names as [|name names IH]; intros l E; cbn [app add_files] in *.
    + injection E as E. by destruct l.
    + destruct (is_not_exist _ _); [by apply IH|]. destruct (add_to_archive _ _ _) as [ms|]; [|done]. cbn in E |- *.
      destruct (add_files fs config data names) as [rest|] eqn:F; [|done]. cbn in E. injection E as E.
      assert (∃ k, rest = map member_of k ∧ map member_of l = ms ++ map member_of k) as (k & -> & El).
      { exists (drop (length ms) l). rewrite <-skipn_map, <-E, drop_app_length. done. }
      rewrite (IH k eq_refl). cbn. rewrite El. by rewrite app_assoc.
  - intros s r n. rewrite elem_of_app, Hl, Hl', orb_true_iff. tauto.
Qed.
Lemma chunk_nil P : (∀ s r, P s r = false) → chunk [] P.
Proof. intros H. exists []. split; [done|]. intros s r n. rewrite H. by split; [intros ?%not_elem_of_nil|intros [? _]]. Qed.
Lemma chunk_ext names P P' : (∀ s r n, src s r = Some n → P s r = P' s r) → chunk names P → chunk names P'.
Proof.
  intros H (l & E & Hl). exists l. split; [done|]. intros s r n. rewrite Hl. split; intros [Hp Hs]; (split; [|done]).
  - by rewrite <-(H s r n).
  - by rewrite (H s r n).
Qed.

(** A file, archived when it is there *)
Lemma chunk_single s name : from_config name = s → Forall plain (segments name) → ends_with [slash] name = false →
  src s (segments name) ≠ Some NDir →
  chunk (if bool_decide (is_Some (stat fs (place_of (join2 (side_of s) name)))) then [name] else []) (single s (segments name)).
Proof.
  intros Hside Hp Hend Hdir. assert (Hne : segments name ≠ []) by (by destruct (segments_head name) as (? & ? & ->)).
  rewrite join2_place, stat_src by (done || apply base_rooted). destruct (src s (segments name)) as [n|] eqn:E.
  - rewrite bool_decide_eq_true_2 by done. exists [(s, segments name, n)]. split.
    + cbn [add_files]. unfold source_of. rewrite Hside. change (if s then config else data) with (side_of s).
      rewrite join2_place by (done || apply base_rooted). unfold is_not_exist, add_to_archive. rewrite stat_src, E by done.
      assert (follow fs (base s ++ segments name) = Some (base s ++ segments name)) as ->.
      { apply follow_id, (link_free_to (base s)); [apply base_links|by apply prefix_app_r]. }
      destruct n as [|mode d|sz t]; [done| |].
      * unfold ends_with in Hend. cbn [reverse] in Hend. change (reverse [slash]) with [slash] in Hend. rewrite Hend. cbn.
        unfold member_of. cbn. by rewrite join_segments.
      * exfalso. apply (base_links s (base s ++ segments name) sz t); [right; by apply prefix_app_r|done].
    + intros s' r' n'. rewrite list_elem_of_singleton. unfold single. rewrite bool_decide_eq_true. split.
      * by intros [= -> -> ->].
      * intros [[-> ->] E']. congruence.
  - rewrite bool_decide_eq_false_2 by by intros []. exists []. split; [done|]. intros s' r' n'. unfold single. rewrite bool_decide_eq_true.
    split; [by intros ?%not_elem_of_nil|]. intros [[-> ->] E']. congruence.
Qed.

Lemma base_node s : node_at fs (base s) = Some NDir.
Proof. by destruct s. Qed.
Lemma prefix_dir p q : node_at fs p = Some NDir → q `prefix_of` p → node_at fs q = Some NDir.
Proof.
  intros Hp [k ->]. destruct (decide (q = [])) as [->|Hq]; [done|]. destruct (decide (k = [])) as [->|Hk]; [by rewrite app_nil_r in Hp|].
  rewrite !node_at_here in * by (done || (by destruct q)). by eapply files_up.
Qed.
Lemma mapM_total {A B} (f : A → option B) (g : A → B) l : (∀ x, x ∈ l → f x = Some (g x)) → mapM f l = Some (map g l).
Proof.
  induction l as [|x l IH]; intros H; [done|]. cbn. rewrite H by by left. cbn. rewrite IH; [done|]. intros y Hy. apply H. by right.
Qed.

(** A directory, archived with all that is below it when it is there *)
Lemma chunk_under s w : word w → from_config (w ++ [slash]) = s → (∀ m d, src s [w] ≠ Some (NFile m d)) → chunk [w ++ [slash]] (under s w).
Proof.
  intros [Hw Hnul] Hside Hfile. unfold chunk. cbn [add_files]. unfold source_of. rewrite Hside. change (if s then config else data) with (side_of s).
  assert (Hplace : place_of (join2 (side_of s) (w ++ [slash])) = base s ++ [w]).
  { assert (Hsep : segments (w ++ [slash]) = [w; []]).
    { rewrite (segments_sep w []). by rewrite segments_word by apply Hw. }
    assert (Ht : tidy [w; []] = [w]).
    { unfold tidy. rewrite filter_cons_True by apply Hw. by rewrite filter_cons_False. }
    rewrite join2_tidy, Hsep, Ht.
    - apply place_of_plain, Forall_app. split; [apply place_plain|by apply Forall_singleton].
    - apply base_rooted.
    - by destruct w.
    - rewrite Hsep. constructor; [apply Hw|by apply Forall_singleton]. }
  rewrite Hplace. assert (Hfollow : follow fs (base s ++ [w]) = Some (base s ++ [w])).
  { apply follow_id, (link_free_to (base s)); [apply base_links|by apply prefix_app_r]. }
  unfold is_not_exist, add_to_archive. rewrite Hfollow, stat_src by done. destruct (src s [w]) as [[|m d|sz t]|] eqn:E.
  - assert (Hlw : link_free (base s ++ [w]) fs).
    { intros q sz t Hq. apply (base_links s). destruct Hq as [Hq|Hq]; [|right; etransitivity; [by apply prefix_app_r|exact Hq]].
      eapply prefix_weak_total; [exact Hq|by apply prefix_app_r]. }
    assert (Hne : base s ++ [w] ≠ []) by (by destruct (base s)).
    set (es := walk fs (base s ++ [w])).
    assert (Hes : ∀ rel n, (rel, n) ∈ es ↔ src s (w :: rel) = Some n).
    { intros rel n. unfold es. rewrite (walk_spec _ _ _ _ Hne Hlw). by rewrite <-app_assoc. }
    exists (map (λ e, (s, w :: e.1, e.2)) es). split.
    + rewrite (mapM_total _ (λ e, member_of (s, w :: e.1, e.2))); [cbn; by rewrite app_nil_r, map_map|].
      intros [rel n] Hin. apply Hes in Hin as Hsrc. apply Hok in Hsrc as (_ & Hwords & _). apply Forall_app in Hwords as [_ [_ Hrel]%Forall_cons_1].
      assert (Hp : Forall plain rel) by (eapply Forall_impl; [exact Hrel|]; by intros ? []).
      unfold walked_member. cbn [fst snd]. rewrite tar_path_of by done. destruct n as [|m d|sz t]; [done|done|].
      apply Hes in Hin. by destruct (base_links s (base s ++ w :: rel) sz t); [right; apply prefix_app_r|].
    + intros s' r n. rewrite list_elem_of_fmap. unfold under. rewrite andb_true_iff, bool_decide_eq_true. split.
      * intros ([rel n'] & [= -> -> ->] & Hin). cbn. apply Hes in Hin. by rewrite bool_decide_eq_true_2.
      * intros [[-> Hr] Hsrc]. destruct r as [|v rel]; [done|]. apply bool_decide_eq_true in Hr as ->. exists (rel, n).
        split; [done|]. by apply Hes.
  - by destruct (Hfile m d).
  - by destruct (base_links s (base s ++ [w]) sz t); [right; apply prefix_app_r|].
  - assert (Hall : forallb (λ n, match stat fs (take n (base s ++ [w])) with Some (NFile _ _) => false | _ => true end) (seq 0 (length (base s ++ [w]))) = true).
    { apply forallb_forall. intros n Hn%in_seq. rewrite length_app in Hn. cbn in Hn.
      assert (Hpre : take n (base s ++ [w]) `prefix_of` base s) by (rewrite take_app_le by lia; apply prefix_take).
      rewrite stat_id, (prefix_dir (base s)); [done|apply base_node|done|].
      eapply no_links_prefix; [exact Hpre|apply link_free_up, base_links]. }
    rewrite Hall. exists []. split; [done|]. intros s' r n. unfold under. rewrite andb_true_iff, bool_decide_eq_true. split; [by intros ?%not_elem_of_nil|].
    intros [[-> Hr] Hsrc]. destruct r as [|v rel]; [done|]. apply bool_decide_eq_true in Hr as ->. destruct rel as [|v rel]; [congruence|].
    change (w :: v :: rel) with ([w] ++ v :: rel) in Hsrc. rewrite assoc in Hsrc by apply _. apply files_up in Hsrc; [congruence|done|by destruct (base s)|done].
Qed.
Lemma chunk_listed s w : word w → from_config (w ++ [slash]) = s → (∀ m d, src s [w] ≠ Some (NFile m d)) →
  chunk (if bool_decide (is_Some (stat fs (place_of (join2 (side_of s) w)))) then [w ++ [slash]] else []) (under s w).
Proof.
  intros [Hw Hnul] Hside Hfile. assert (Hseg : segments w = [w]) by apply segments_word, Hw.
  rewrite join2_place by (apply base_rooted || (rewrite Hseg; by apply Forall_singleton)). rewrite Hseg, stat_src by done.
  case_bool_decide as E; [by apply chunk_under|]. apply (chunk_ext _ (λ _ _, false)); [|by apply chunk_nil].
  intros s' r n Hsrc. unfold under. destruct (bool_decide (s' = s)) eqn:Es; [|done]. apply bool_decide_eq_true in Es as ->.
  destruct r as [|v rel]; [done|]. cbn [andb]. symmetry. apply bool_decide_eq_false. intros ->. apply E.
  destruct rel as [|v rel]; [by exists n|]. change (w :: v :: rel) with ([w] ++ v :: rel) in Hsrc. rewrite assoc in Hsrc by apply _.
  apply files_up in Hsrc; [by exists NDir|done|by destruct (base s)|done].
Qed.

(** The files the program keeps are files, its directories directories. *)
Definition kinds_ok : Prop :=
  src true [bytes "server.yml"] ≠ Some NDir ∧ src false [bytes "db"; bytes "server.db"] ≠ Some NDir ∧
  src false [bytes "db"; bytes "users.db"] ≠ Some NDir ∧
  (∀ w m d, w ∈ [bytes "template"; bytes "theme"; bytes "ssl"] → src true [w] ≠ Some (NFile m d)) ∧
  (∀ m d, src false [bytes "data"] ≠ Some (NFile m d)).

Definition wordb (w : path) : bool := plainb w && negb (bool_decide (byte 0 ∈ w)).
Lemma wordb_spec w : wordb w = true → word w.
Proof. intros [H1 H2]%andb_true_iff. split; [by apply plainb_spec|]. by apply negb_true_iff, bool_decide_eq_false in H2. Qed.

Lemma collected o : bo_config o = config → bo_data o = data → kinds_ok →
  chunk (collect_files fs o) (included (bo_ssl o) (bo_include_data o)).
Proof.
  intros Ec Ed (K1 & K2 & K3 & K4 & K5). unfold collect_files, there. rewrite Ec, Ed.
  change (λ s r, included (bo_ssl o) (bo_include_data o) s r) with (included (bo_ssl o) (bo_include_data o)).
  apply (chunk_ext _ (λ s r, single true [bytes "server.yml"] s r || (single false [bytes "db"; bytes "server.db"] s r ||
    (single false [bytes "db"; bytes "users.db"] s r || (under true (bytes "template") s r || (under true (bytes "theme") s r ||
      ((bo_ssl o && under true (bytes "ssl") s r) || (bo_include_data o && under false (bytes "data") s r)))))))).
  { intros s r n _. unfold included. by rewrite !orb_assoc. }
  assert (Hplain : ∀ name, forallb plainb (segments (bytes name)) = true → Forall plain (segments (bytes name))) by (intros; by apply plain_segments).
  apply chunk_app; [apply (chunk_single true (bytes "server.yml")); [reflexivity|apply Hplain; vm_compute; reflexivity|reflexivity|exact K1]|].
  apply chunk_app; [apply (chunk_single false (bytes "db/server.db")); [reflexivity|apply Hplain; vm_compute; reflexivity|reflexivity|exact K2]|].
  apply chunk_app; [apply (chunk_single false (bytes "db/users.db")); [reflexivity|apply Hplain; vm_compute; reflexivity|reflexivity|exact K3]|].
  apply chunk_app; [apply (chunk_listed true (bytes "template")); [apply wordb_spec; vm_compute; reflexivity|reflexivity|intros; apply K4; set_solver]|].
  apply chunk_app; [apply (chunk_listed true (bytes "theme")); [apply wordb_spec; vm_compute; reflexivity|reflexivity|intros; apply K4; set_solver]|].
  apply chunk_app.
  - destruct (bo_ssl o); [|by apply chunk_nil].
    apply (chunk_listed true (bytes "ssl")); [apply wordb_spec; vm_compute; reflexivity|reflexivity|intros; apply K4; set_solver].
  - destruct (bo_include_data o); [|by apply chunk_nil].
    apply (chunk_under false (bytes "data")); [apply wordb_spec; vm_compute; reflexivity|reflexivity|exact K5].
Qed.
End Collect.

(** * What is restored *)

(** The name of a member tells its side, and is not that of the manifest. *)
Lemma included_name ssl data_too s r n : included ssl data_too s r = true → (∀ z t, n ≠ NLink z t) →
  (∀ name, r = [name] → name = bytes "server.yml" ∨ n = NDir) → (r = [bytes "server.yml"] → n ≠ NDir) →
  r ≠ [] ∧ from_config (mb_name (member_of (s, r, n))) = s ∧ mb_name (member_of (s, r, n)) ≠ manifest_entry_name.
Proof.
  intros Hi Hl Hdir Hyml.
  assert (Hshape : r = [bytes "server.yml"] ∧ s = true ∨ s = false ∧ (∃ rel, r = bytes "db" :: rel ∧ rel ≠ []) ∨
    s = false ∧ (∃ rel, r = bytes "data" :: rel) ∨ s = true ∧ ∃ w rel, r = w :: rel ∧ w ∈ [bytes "template"; bytes "theme"; bytes "ssl"]).
  { unfold included, single, under in Hi. repeat (apply orb_true_iff in Hi as [Hi|Hi]).
    - apply bool_decide_eq_true in Hi as [-> ->]. by left.
    - apply bool_decide_eq_true in Hi as [-> ->]. right; left. split; [done|]. by eexists.
    - apply bool_decide_eq_true in Hi as [-> ->]. right; left. split; [done|]. by eexists.
    - apply andb_true_iff in Hi as [->%bool_decide_eq_true Hi]. destruct r as [|v rel]; [done|]. apply bool_decide_eq_true in Hi as ->.
      right; right; right. split; [done|]. exists (bytes "template"), rel. set_solver.
    - apply andb_true_iff in Hi as [->%bool_decide_eq_true Hi]. destruct r as [|v rel]; [done|]. apply bool_decide_eq_true in Hi as ->.
      right; right; right. split; [done|]. exists (bytes "theme"), rel. set_solver.
    - apply andb_true_iff in Hi as [_ [->%bool_decide_eq_true Hi]%andb_true_iff]. destruct r as [|v rel]; [done|].
      apply bool_decide_eq_true in Hi as ->. right; right; right. split; [done|]. exists (bytes "ssl"), rel. set_solver.
    - apply andb_true_iff in Hi as [_ [->%bool_decide_eq_true Hi]%andb_true_iff]. destruct r as [|v rel]; [done|].
      apply bool_decide_eq_true in Hi as ->. right; right; left. split; [done|]. by exists rel. }
  destruct Hshape as [[-> ->]|[[-> (rel & -> & Hrel)]|[[-> (rel & ->)]|[-> (w & rel & -> & Hw)]]]]; (split; [done|]).
  - destruct n as [|m d|z t]; [by destruct Hyml| |by destruct (Hl z t)]. split; [reflexivity|discriminate].
  - destruct rel as [|v rel]; [done|]. destruct n; (split; [reflexivity|discriminate]).
  - destruct rel as [|v rel]; [destruct (Hdir _ eq_refl) as [E| ->]; [discriminate E|split; [reflexivity|discriminate]]|].
    destruct n; (split; [reflexivity|discriminate]).
  - destruct rel as [|v rel].
    + destruct (Hdir _ eq_refl) as [->| ->].
      * exfalso. apply (bool_decide_eq_true_2 (bytes "server.yml" ∈ _)) in Hw. vm_compute in Hw. discriminate Hw.
      * repeat (apply elem_of_cons in Hw as [->|Hw]); [split; [reflexivity|discriminate]..|by apply not_elem_of_nil in Hw].
    + repeat (apply elem_of_cons in Hw as [->|Hw]); [destruct n; (split; [reflexivity|discriminate])..|by apply not_elem_of_nil in Hw].
Qed.

(** A member of plain segments is extracted below a clean directory at its place. *)
Lemma safe_extract_at dest r tail : rooted dest = true → clean dest = dest → place_of dest ≠ [] → Forall word r → r ≠ [] → tail = [] ∨ tail = [slash] →
  safe_extract_path dest (join_path r ++ tail) = Some (slash :: join_path (place_of dest ++ r)).
Proof.
  intros R Hc Hd Hr Hne Htail. assert (Hp : Forall plain r) by (eapply Forall_impl; [exact Hr|]; by intros ? []).
  assert (Hseg : segments (join_path r ++ tail) = r ++ (match tail with [] => [] | _ => [[]] end)).
  { destruct Htail as [->| ->]; [rewrite !app_nil_r; by apply segments_join, plain_free|].
    change (join_path r ++ [slash]) with (join_path r ++ slash :: []). rewrite segments_sep. by rewrite segments_join by (done || by apply plain_free). }
  assert (Htidy : tidy (segments (join_path r ++ tail)) = r).
  { rewrite Hseg. unfold tidy. rewrite filter_app, plain_filter by done. destruct Htail as [->| ->]; [by rewrite app_nil_r|].
    rewrite filter_cons_False by done. by rewrite app_nil_r. }
  assert (Hnn : join_path r ++ tail ≠ []).
  { destruct r as [|w r]; [done|]. apply Forall_cons_1 in Hp as [(_ & Hu & _) _]. apply bool_decide_eq_true in Hu as [Hu _].
    destruct w; [done|]. by destruct r. }
  assert (Hnul : byte 0 ∉ join_path r ++ tail).
  { rewrite elem_of_app. intros [Hin|Hin].
    - clear -Hr Hin. induction r as [|w r IH]; [by apply not_elem_of_nil in Hin|]. apply Forall_cons_1 in Hr as [[_ Hw] Hr].
      destruct r as [|v r]; [done|]. rewrite join_path_cons in Hin. apply elem_of_app in Hin as [?|Hin]; [done|].
      apply elem_of_cons in Hin as [E|Hin]; [discriminate E|by apply IH].
    - destruct Htail as [->| ->]; [by apply not_elem_of_nil in Hin|]. apply list_elem_of_singleton in Hin. discriminate Hin. }
  unfold safe_extract_path. rewrite bool_decide_eq_false_2 by done. rewrite join2_tidy, Htidy.
  2: exact R. 2: exact Hnn.
  2:{ rewrite Hseg, Forall_app. split; [by apply plain_dots|]. by destruct Htail as [->| ->]; repeat constructor. }
  assert (Hall : Forall plain (place_of dest ++ r)) by (apply Forall_app; split; [apply place_plain|done]).
  rewrite clean_plain by done. rewrite join_path_app by done.
  assert (Hdest : dest = slash :: join_path (place_of dest)) by (rewrite <-Hc at 1; by apply clean_rooted).
  assert (is_prefixb (dest ++ [slash]) (slash :: join_path (place_of dest) ++ slash :: join_path r) = true) as ->.
  { apply is_prefixb_app. exists (join_path r). rewrite <-app_assoc.
    change (slash :: join_path (place_of dest) ++ slash :: join_path r) with ((slash :: join_path (place_of dest)) ++ slash :: join_path r).
    by rewrite <-Hdest. }
  by rewrite andb_false_r.
Qed.

(** ** The invariant of a restore into empty directories *)

Section Restored.
Context (src : bool → place → option node) (inc : bool → place → bool) (config data : path).
Context (src_up : ∀ s p k n, p ≠ [] → k ≠ [] → src s (p ++ k) = Some n → src s p = Some NDir).
Context (src_ok : ∀ s r n, src s r = Some n → inc s r = true → Forall word r ∧ node_ok n ∧ (∀ z t, n ≠ NLink z t)).
Context (inc_name : ∀ s r n, src s r = Some n → inc s r = true →
  r ≠ [] ∧ from_config (mb_name (member_of (s, r, n))) = s ∧ mb_name (member_of (s, r, n)) ≠ manifest_entry_name).
Context (Rc : rooted config = true) (Rd : rooted data = true) (Cc : clean config = config) (Cd : clean data = data).
Context (Pc : place_of config ≠ []) (Pd : place_of data ≠ []).
Context (Dis : ¬ place_of config `prefix_of` place_of data ∧ ¬ place_of data `prefix_of` place_of config).
Abbreviation target s := (place_of (side_of config data s)).

Lemma targets_apart s s' r q : q `prefix_of` target s ++ r → target s' `prefix_of` q → s' = s.
Proof.
  intros Hq Ht. assert (Hc : target s' `prefix_of` target s ∨ target s `prefix_of` target s').
  { eapply prefix_weak_total; [by transitivity q|by apply prefix_app_r]. }
  destruct Dis, s, s', Hc; done.
Qed.

(** What is there below a target is of the source, or a directory above something of it. *)
Record restoring (cur : files) : Prop := Restoring {
  rs_links : ∀ s, link_free (target s) cur;
  rs_way : ∀ s q m d, q `prefix_of` target s → cur !! q ≠ Some (NFile m d);
  rs_below : ∀ s r n, r ≠ [] → cur !! (target s ++ r) = Some n →
    (src s r = Some n ∧ inc s r = true) ∨ (n = NDir ∧ ∃ k n', k ≠ [] ∧ src s (r ++ k) = Some n' ∧ inc s (r ++ k) = true)
}.

Lemma no_file_above cur s r n : restoring cur → src s r = Some n → ∀ q m d, q `prefix_of` target s ++ r → q ≠ target s ++ r → cur !! q ≠ Some (NFile m d).
Proof.
  intros Hr Hs q m d Hq Hne E. destruct (prefix_weak_total q (target s) (target s ++ r) Hq ltac:(by apply prefix_app_r)) as [Hq'|[k ->]].
  - by apply (rs_way _ Hr s q m d).
  - assert (k ≠ []) by (intros ->; rewrite app_nil_r in E; by apply (rs_way _ Hr s (target s) m d)).
    apply prefix_app_inv in Hq as [k' ->]. assert (k' ≠ []) by (by intros ->; rewrite app_nil_r in Hne).
    destruct (rs_below _ Hr s k _ ltac:(done) E) as [[Hk _]|[? _]]; [|done]. apply src_up in Hs; [congruence|done..].
Qed.

(** Directories on the way to something of the source keep the invariant. *)
Lemma restoring_dirs cur cur' s r n p : restoring cur → src s r = Some n → inc s r = true → p `prefix_of` target s ++ r → (p = target s ++ r → n = NDir) →
  dirs_added p cur cur' → restoring cur'.
Proof.
  intros Hr Hs Hi Hp Hn Ha. split.
  - intros s'. eapply no_new_links_free; [by eapply dirs_added_links|apply Hr].
  - intros s' q m d Hq E. destruct (Ha q) as [E'|(_ & _ & _ & E')]; [rewrite E' in E; by apply (rs_way _ Hr s' q m d)|congruence].
  - intros s' k n' Hk E. destruct (Ha (target s' ++ k)) as [E'|(Hq & _ & _ & E')]; [rewrite E' in E; by apply (rs_below _ Hr)|].
    assert (n' = NDir) as -> by congruence. assert (Hq' : target s' ++ k `prefix_of` target s ++ r) by (by transitivity p).
    assert (s' = s) as -> by (eapply targets_apart; [exact Hq'|by apply prefix_app_r]). pose proof Hq' as [k' Ek].
    rewrite <-app_assoc in Ek. apply app_inv_head in Ek as ->. destruct (decide (k' = [])) as [->|Hk'].
    + left. rewrite app_nil_r in *. rewrite Hn in Hs; [done|]. by apply (anti_symm prefix).
    + right. split; [done|]. by exists k', n.
Qed.
Lemma restoring_write cur s r m d : restoring cur → src s r = Some (NFile m d) → inc s r = true → r ≠ [] → restoring (<[target s ++ r := NFile m d]> cur).
Proof.
  intros Hr Hs Hi Hne. split.
  - intros s'. eapply no_new_links_free; [apply written_links|apply Hr].
  - intros s' q m' d' Hq. rewrite lookup_insert. case_decide as E; [|by apply (rs_way _ Hr s')]. subst q. exfalso.
    assert (s = s') as <- by (apply (targets_apart s' s [] (target s ++ r)); [by rewrite app_nil_r|by apply prefix_app_r]).
    destruct Hq as [k Ek]. rewrite <-app_assoc in Ek. apply (f_equal length) in Ek. rewrite !length_app in Ek. destruct r; [done|cbn in Ek; lia].
  - intros s' k n Hk. rewrite lookup_insert. case_decide as E; [|by apply (rs_below _ Hr)]. intros [= <-]. left.
    assert (s = s') as <- by (apply (targets_apart s' s k (target s' ++ k)); [done|rewrite <-E; by apply prefix_app_r]).
    by apply app_inv_head in E as <-.
Qed.
Lemma later_dirs p cur cur' q n : dirs_added p cur cur' → cur !! q = Some n → cur' !! q = Some n.
Proof. intros Ha E. destruct (Ha q) as [E'|(_ & _ & E' & _)]; congruence. Qed.

Lemma side_rooted s : rooted (side_of config data s) = true.
Proof. by destruct s. Qed.
Lemma side_clean s : clean (side_of config data s) = side_of config data s.
Proof. by destruct s. Qed.
Lemma target_there s : target s ≠ [].
Proof. by destruct s. Qed.
Lemma target_links cur s r : restoring cur → no_links_to cur (target s ++ r).
Proof. intros Hr. apply (link_free_to (target s)); [apply Hr|by apply prefix_app_r]. Qed.

Lemma restore_entry cur s r n : restoring cur → src s r = Some n → inc s r = true →
  ∃ cur', restore_member sound_device config data (member_of (s, r, n)) cur = (None, cur') ∧ restoring cur' ∧ cur' !! (target s ++ r) = Some n ∧
    ∀ q n', q ≠ target s ++ r → cur !! q = Some n' → cur' !! q = Some n'.
Proof.
  intros Hr Hs Hi. destruct (src_ok s r n Hs Hi) as (Hwords & Hnode & Hlink), (inc_name s r n Hs Hi) as (Hne & Hside & Hman).
  unfold restore_member. rewrite (bool_decide_eq_false_2 _ Hman), Hside. change (if s then config else data) with (side_of config data s).
  destruct n as [|m d|z t]; [| |by destruct (Hlink z t)]; unfold member_of in *; cbn [mb_name mb_kind mb_mode mb_data fst snd] in *.
  - change (bool_decide (KDir = KLink)) with false. change (bool_decide (KDir = KDir)) with true. cbv iota.
    rewrite safe_extract_at; [|apply side_rooted|apply side_clean|apply target_there|done|done|by right].
    rewrite place_of_plain by (apply Forall_app; split; [apply place_plain|]; eapply Forall_impl; [exact Hwords|]; by intros ? []).
    destruct (mkdir_all cur (target s ++ r)) as [ok cur'] eqn:M. apply mkdir_all_spec in M as (Ha & Hd & Hok); [|by apply target_links].
    assert (ok = true) as ->.
    { apply Hok. intros q m d Hq E. destruct (decide (q = target s ++ r)) as [->|Hq']; [|by apply (no_file_above cur s r NDir Hr Hs q m d)].
      destruct (rs_below _ Hr s r _ Hne E) as [[Hk _]|[Hk _]]; congruence. }
    exists cur'. split_and!; [done|by eapply (restoring_dirs cur cur' s r NDir)| |intros q n' _; by eapply later_dirs].
    rewrite <-node_at_here; [by apply Hd|]. by destruct (target s); [destruct r|].
  - change (bool_decide (KReg = KLink)) with false. change (bool_decide (KReg = KDir)) with false. cbv iota.
    rewrite <-(app_nil_r (join_path r)). rewrite safe_extract_at; [|apply side_rooted|apply side_clean|apply target_there|done|done|by left].
    unfold up. rewrite place_of_plain by (apply Forall_app; split; [apply place_plain|]; eapply Forall_impl; [exact Hwords|]; by intros ? []).
    set (p := target s ++ r). assert (Hp : p ≠ []) by (unfold p; by destruct (target s); [destruct r|]).
    assert (Hup : parent p `prefix_of` p) by apply parent_is_prefix.
    assert (Hupne : parent p ≠ p).
    { intros E. apply (f_equal length) in E. unfold parent in E. rewrite length_take in E. destruct p; [done|cbn in E; lia]. }
    assert (Hno : no_links_to cur p) by by apply target_links.
    destruct (mkdir_all cur (parent p)) as [ok cur1] eqn:M. apply mkdir_all_spec in M as (Ha & Hd & Hok); [|by eapply no_links_prefix].
    assert (ok = true) as ->.
    { apply Hok. intros q m' d' Hq. apply (no_file_above cur s r (NFile m d) Hr Hs); [by transitivity (parent p)|].
      intros ->. apply Hupne. by apply (anti_symm prefix). }
    cbn [negb]. specialize (Hd eq_refl).
    assert (Hr1 : restoring cur1) by (by eapply (restoring_dirs cur cur1 s r (NFile m d) (parent p))).
    assert (Hno1 : no_links_to cur1 p) by by apply target_links.
    assert (Hbelow : cur1 !! p = None ∨ cur1 !! p = Some (NFile m d)).
    { destruct (cur1 !! p) as [n'|] eqn:E; [|by left]. right.
      destruct (rs_below _ Hr1 s r n' Hne E) as [[Hk _]|[-> (k & n'' & Hk & Hk' & _)]]; [congruence|].
      apply src_up in Hk'; [congruence|done..]. }
    destruct (write_file sound_device cur1 p 438 d) as [ok cur2] eqn:Hw. apply write_file_spec in Hw as [(_ & _ & Hw)|(_ & m' & l & -> & _ & Hw)]; [| |done].
    1:{ exfalso. rewrite node_at_here in Hw by done. destruct Hw as [E|[_ Hw]]; [|done]. destruct Hbelow; congruence. }
    destruct ok; [|by destruct Hw as (n & Hn & _)]. destruct Hw as [_ ->]. rewrite (chmod_spec _ p _ m' d); [|by intros q z t Hq ?%written_links; apply (Hno1 q z t)|done|by rewrite lookup_insert_eq].
    destruct Hnode as [Hmode _]. unfold file_mode. rewrite Z.mod_small by done. rewrite insert_insert_eq.
    eexists. split_and!; [done|by apply restoring_write|by rewrite lookup_insert_eq|].
    intros q n' Hq E. rewrite lookup_insert_ne by done. by eapply later_dirs.
Qed.

Lemma restore_entries l last cur : mb_name last = manifest_entry_name → restoring cur →
  (∀ s r n, (s, r, n) ∈ l → src s r = Some n ∧ inc s r = true) →
  ∃ cur', restore_members sound_device config data (map member_of l ++ [last]) cur = (None, cur') ∧ restoring cur' ∧
    (∀ s r n, (s, r, n) ∈ l → cur' !! (target s ++ r) = Some n) ∧
    (∀ s r n, cur !! (target s ++ r) = Some n → src s r = Some n → cur' !! (target s ++ r) = Some n).
Proof.
  intros Hlast. revert cur. induction l as [|[[s r] n] l IH]; intros cur Hr Hl; cbn [map app restore_members].
  - exists cur. unfold restore_member. rewrite bool_decide_eq_true_2 by done. split_and!; [done..|by intros ??? ?%not_elem_of_nil|done].
  - destruct (Hl s r n) as [Hs Hi]; [by left|]. destruct (restore_entry cur s r n Hr Hs Hi) as (cur1 & -> & Hr1 & Hp & Hkeep).
    destruct (IH cur1 Hr1) as (cur' & E & Hr' & Hin & Hkeep'); [intros; apply Hl; by right|]. exists cur'. split_and!; [done..| |].
    + intros s' r' n' [[= -> -> ->]|H']%elem_of_cons; [by apply Hkeep'|by apply Hin].
    + intros s' r' n' E' Hs'. apply Hkeep'; [|done]. destruct (decide (target s' ++ r' = target s ++ r)) as [Eq|Hq]; [|by apply Hkeep].
      rewrite Eq. assert (s' = s) as -> by (apply (targets_apart s s' r (target s' ++ r')); [by rewrite Eq|by apply prefix_app_r]).
      apply app_inv_head in Eq as ->. congruence.
Qed.
(** All that was archived is there, and nothing where nothing was. *)
Lemma restored_exactly cur s r : restoring cur → (∀ s r n, src s r = Some n → inc s r = true → cur !! (target s ++ r) = Some n) →
  inc s r = true → r ≠ [] → cur !! (target s ++ r) = src s r.
Proof.
  intros Hr Hall Hi Hne. destruct (src s r) as [n|] eqn:E; [by apply Hall|]. destruct (cur !! (target s ++ r)) as [n|] eqn:E'; [|done].
  destruct (rs_below _ Hr s r n Hne E') as [[? _]|[_ (k & n' & Hk & Hs & _)]]; [congruence|]. apply src_up in Hs; [congruence|done..].
Qed.
(** The token does not touch it. *)
Lemma token_saved cur token : restoring cur → (∀ k, inc true (bytes "setup_token.txt" :: k) = false) →
  ∃ cur', save_token sound_device cur config token = (true, cur') ∧
    ∀ s r, r ≠ [] → (s, r) ≠ (true, [bytes "setup_token.txt"]) → cur' !! (target s ++ r) = cur !! (target s ++ r).
Proof.
  intros Hr Hinc. unfold save_token. change config with (side_of config data true) at 1. destruct (mkdir_all cur (target true)) as [ok cur1] eqn:M.
  apply mkdir_all_spec in M as (Ha & Hd & Hok); [|apply link_free_up, Hr]. rewrite Hok by (intros q m d Hq; by apply (rs_way _ Hr true)).
  assert (Hpath : place_of (setup_token_path config) = target true ++ [bytes "setup_token.txt"]).
  { unfold setup_token_path. rewrite join2_place; [done..|]. apply plain_segments. vm_compute. reflexivity. }
  rewrite Hpath. set (p := target true ++ [bytes "setup_token.txt"]).
  assert (Hno : no_links_to cur1 p).
  { eapply dirs_added_no_links; [exact Ha|]. by apply target_links. }
  assert (Hnone : cur1 !! p = None).
  { destruct (Ha p) as [E|(Hq & _)].
    - rewrite E. destruct (cur !! p) as [n|] eqn:E'; [|done]. destruct (rs_below _ Hr true [bytes "setup_token.txt"] n) as [[_ Hi]|[_ (k & n' & _ & _ & Hi)]]; [done|done| |].
      + by rewrite Hinc in Hi.
      + cbn [app] in Hi. by rewrite Hinc in Hi.
    - apply prefix_length in Hq. unfold p in Hq. rewrite length_app in Hq. cbn in Hq. lia. }
  destruct (write_file sound_device cur1 p 384 (octets (hex_encode (sum256 token)))) as [ok2 cur2] eqn:Hw. set (digest := octets _) in *. clearbody digest.
  apply write_file_spec in Hw as [(_ & _ & Hw)|(_ & m & l & -> & _ & Hw)]; [| |done].
  1:{ exfalso. rewrite node_at_here in Hw by (unfold p; by destruct (target true)). destruct Hw as [E|[_ Hw]]; [congruence|].
      apply Hw. unfold p. rewrite parent_app. apply Hd. apply Hok. intros q m d Hq; by apply (rs_way _ Hr true). }
  destruct ok2; [|by destruct Hw as (n & Hn & _)]. eexists. split; [reflexivity|]. intros s r Hne Hnot. rewrite lookup_insert_ne.
  - destruct (Ha (target s ++ r)) as [E|(Hq & _ & _ & _)]; [done|]. exfalso.
    assert (s = true) as -> by (apply (targets_apart true s [] (target s ++ r)); [by rewrite app_nil_r|by apply prefix_app_r]).
    apply prefix_length in Hq. rewrite length_app in Hq. destruct r; [done|cbn in Hq; lia].
  - intros E. unfold p in E. assert (s = true) as ->.
    { apply (targets_apart true s [bytes "setup_token.txt"] (target s ++ r)); [by rewrite E|by apply prefix_app_r]. }
    apply app_inv_head in E as <-. by apply Hnot.
Qed.
End Restored.

(** * From backup to restore *)

Lemma mkdir_there fs p : files_ok fs → no_links_to fs p → node_at fs p = Some NDir → mkdir_all fs p = (true, fs).
Proof.
  intros Hok Hno Hp. destruct (mkdir_all fs p) as [ok fs'] eqn:M. apply mkdir_all_spec in M as (Ha & _ & Ht); [|done].
  assert (Hdir : ∀ q, q `prefix_of` p → q ≠ [] → fs !! q = Some NDir).
  { intros q Hq Hne. rewrite <-node_at_here by done. by apply (prefix_dir fs Hok p q). }
  rewrite Ht.
  - f_equal. apply map_eq. intros q. destruct (Ha q) as [E|(Hq & Hne & E & _)]; [done|]. rewrite Hdir in E by done. done.
  - intros q m d Hq E. destruct (decide (q = [])) as [->|Hne]; [by apply Hok in E as []|]. rewrite Hdir in E by done. done.
Qed.

(** The members a tar archive keeps as they are: a name that ends in a slash is a directory's. *)
Definition member_ok (m : member) : Prop :=
  mb_name m ≠ [] ∧ (byte 0 ∉ mb_name m) ∧ 0 ≤ mb_mode m < 2 ^ 32 ∧ is_bytes (mb_data m) ∧
  (mb_kind m = KReg ∧ ends_with [slash] (mb_name m) = false ∨ mb_kind m = KDir ∧ ends_with [slash] (mb_name m) = true ∧ mb_data m = []).

Lemma join_words r : Forall word r → r ≠ [] → join_path r ≠ [] ∧ byte 0 ∉ join_path r.
Proof.
  induction r as [|w r IH]; [done|]. intros [[(_ & Hu & _) Hw] Hr]%Forall_cons_1 _. apply bool_decide_eq_true in Hu as [Hu _].
  destruct r as [|v r]; [done|]. rewrite join_path_cons. destruct (IH Hr) as [_ Hn]; [done|]. split; [by destruct w|].
  rewrite elem_of_app, elem_of_cons. intros [?|[E|?]]; [done|discriminate E|done].
Qed.
Lemma ends_with_slash l : ends_with [slash] (l ++ [slash]) = true.
Proof. unfold ends_with. rewrite reverse_snoc. cbn. by rewrite decide_True. Qed.
Lemma words_end r : Forall word r → r ≠ [] → ends_with [slash] (join_path r) = false.
Proof.
  intros Hr Hne. destruct r as [|w r _] using rev_ind; [done|]. apply Forall_app in Hr as [_ [[(Hfree & Hu & _) _] _]%Forall_cons_1].
  apply bool_decide_eq_true in Hu as [Hu _]. destruct w as [|c w _] using rev_ind; [done|].
  assert (E : ∃ k, join_path (r ++ [w ++ [c]]) = k ++ [c]).
  { destruct r as [|v r]; [by exists w|]. exists (join_path (v :: r) ++ slash :: w). rewrite join_path_app by done. cbn.
    by rewrite <-app_assoc, app_comm_cons. }
  destruct E as [k ->]. unfold ends_with. rewrite reverse_snoc. cbn. rewrite decide_False; [done|]. intros <-. apply Hfree, elem_of_app. right. by left.
Qed.
Lemma member_of_ok s r n : Forall word r → r ≠ [] → node_ok n → (∀ z t, n ≠ NLink z t) → member_ok (member_of (s, r, n)).
Proof.
  intros Hr Hne Hn Hl. destruct (join_words r Hr Hne) as [J1 J2]. destruct n as [|m d|z t]; [| |by destruct (Hl z t)].
  - split_and!; cbn; [by destruct (join_path r)| |done|done|constructor|right; split_and!; [done|apply ends_with_slash|done]].
    rewrite elem_of_app, list_elem_of_singleton. intros [?|E]; [done|discriminate E].
  - destruct Hn as [[? ?] ?]. split_and!; try done. left. split; [done|by apply words_end].
Qed.

(** A source that a backup is made of: its directories are there, without links in them. *)
Record source_ok (fs : files) (config data : path) : Prop := SourceOk {
  so_files : files_ok fs; so_config : rooted config = true; so_data : rooted data = true;
  so_config_links : link_free (place_of config) fs; so_data_links : link_free (place_of data) fs;
  so_config_dir : node_at fs (place_of config) = Some NDir; so_data_dir : node_at fs (place_of data) = Some NDir;
  so_kinds : kinds_ok fs config data
}.
(** New directories to restore to, clean and apart: empty or not there yet *)
Record targets_ok (fs : files) (config data : path) : Prop := TargetsOk {
  to_config : rooted config = true; to_data : rooted data = true; to_config_clean : clean config = config; to_data_clean : clean data = data;
  to_config_root : place_of config ≠ []; to_data_root : place_of data ≠ [];
  to_apart : ¬ place_of config `prefix_of` place_of data ∧ ¬ place_of data `prefix_of` place_of config;
  to_links : ∀ s, link_free (place_of (side_of config data s)) fs;
  to_way : ∀ s q m d, q `prefix_of` place_of (side_of config data s) → fs !! q ≠ Some (NFile m d);
  to_empty : ∀ s r, r ≠ [] → fs !! (place_of (side_of config data s) ++ r) = None
}.

Section RoundTrip.
Context (encode_manifest : manifest → list Z) (decode_manifest : list Z → option manifest).
Context (pack : list member → list Z) (unpack : list Z → option (list member)).
Context (id_key : list Z → list Z → Z → Z → Z → Z → option (list Z)).
Context (seal : list Z → list Z → list Z → list Z) (open : list Z → list Z → list Z → option (list Z)).
Context (integrity_check : list Z → bool) (dv : device).
Context `{DatabaseLaws W dir} (sort_slice : ∀ A, (A → A → bool) → list A → list A) `{!SortSlice sort_slice}.
Context (look : dir → W) (mtime : place → instant).
Hypothesis look_at : ∀ d, tables (look d) = d.

(** What the packages promise: a tar archive is read as it was written, JSON that was written can be read, and
    Open undoes Seal. *)
Hypothesis unpack_pack : ∀ ms, Forall member_ok ms → unpack (pack ms) = Some ms.
Hypothesis pack_bytes : ∀ ms, Forall member_ok ms → is_bytes (pack ms).
Hypothesis decode_encode : ∀ m, is_bytes (encode_manifest m) ∧ is_Some (decode_manifest (encode_manifest m)).
Hypothesis open_seal : ∀ key nonce text, is_bytes text → open key nonce (seal key nonce text) = Some text.

Abbreviation create_here := (create_backup_archive encode_manifest decode_manifest pack unpack id_key seal open integrity_check dv sort_slice look mtime).
Abbreviation verify_here := (verify decode_manifest unpack id_key open integrity_check sound_device).
Abbreviation restore_here := (restore decode_manifest unpack id_key open integrity_check sound_device).

Lemma decrypted data password salt nonce final : length salt = 32%nat → length nonce = 12%nat → is_bytes data →
  encrypt id_key seal data password (Some salt) (Some nonce) = Some final → decrypt id_key open final password = Some data.
Proof.
  intros Hs Hn Hb. cbn [encrypt]. destruct (backup_key id_key password salt) as [key|] eqn:K; [|done]. intros [= <-]. unfold decrypt.
  rewrite !length_app, Hs, Hn.
  assert ((32 + (12 + length (seal key nonce data)) <? 44)%nat = false) as -> by (apply Nat.ltb_ge; lia).
  set (ct := seal key nonce data). assert (take 32 (salt ++ nonce ++ ct) = salt) as -> by by apply take_app_length'.
  assert (drop 32 (salt ++ nonce ++ ct) = nonce ++ ct) as -> by by apply drop_app_length'.
  assert (take 12 (nonce ++ ct) = nonce) as -> by by apply take_app_length'.
  assert (drop 44 (salt ++ nonce ++ ct) = ct) as ->.
  { rewrite (assoc (++)). apply drop_app_length'. rewrite length_app. lia. }
  rewrite K. by apply open_seal.
Qed.

(** The members a source yields *)
Lemma source_members fs o : source_ok fs (bo_config o) (bo_data o) →
  ∃ l, add_files fs (bo_config o) (bo_data o) (collect_files fs o) = Some (map member_of l) ∧
    (∀ s r n, (s, r, n) ∈ l ↔ included (bo_ssl o) (bo_include_data o) s r = true ∧ fs !! (place_of (side_of (bo_config o) (bo_data o) s) ++ r) = Some n).
Proof. intros [H1 H2 H3 H4 H5 H6 H7 H8]. by apply (collected fs _ _ H1 H2 H3 H4 H5 H6 H7). Qed.

Lemma source_entry fs config data ssl data_too s r n : source_ok fs config data → included ssl data_too s r = true →
  fs !! (place_of (side_of config data s) ++ r) = Some n →
  Forall word r ∧ node_ok n ∧ (∀ z t, n ≠ NLink z t) ∧
  r ≠ [] ∧ from_config (mb_name (member_of (s, r, n))) = s ∧ mb_name (member_of (s, r, n)) ≠ manifest_entry_name.
Proof.
  intros [Hok Rc Rd Lc Ld _ _ (K1 & K2 & K3 & K4 & K5)] Hi E. apply Hok in E as E'. destruct E' as (_ & Hw & _ & Hn).
  apply Forall_app in Hw as [_ Hw].
  assert (Hl : ∀ z t, n ≠ NLink z t).
  { intros z t ->. destruct s; [apply (Lc _ z t) in E|apply (Ld _ z t) in E]; try done; right; by apply prefix_app_r. }
  do 3 (split; [done|]). apply (included_name ssl data_too); [done..| |].
  - intros name ->. destruct n as [|m d|z t]; [by right| |by destruct (Hl z t)]. left.
    unfold included, single, under in Hi. repeat (apply orb_true_iff in Hi as [Hi|Hi]).
    + by apply bool_decide_eq_true in Hi as [_ [= ->]].
    + by apply bool_decide_eq_true in Hi as [_ ?].
    + by apply bool_decide_eq_true in Hi as [_ ?].
    + apply andb_true_iff in Hi as [->%bool_decide_eq_true ->%bool_decide_eq_true]. destruct (K4 (bytes "template") m d); [by left|done].
    + apply andb_true_iff in Hi as [->%bool_decide_eq_true ->%bool_decide_eq_true]. destruct (K4 (bytes "theme") m d); [by right; left|done].
    + apply andb_true_iff in Hi as [_ [->%bool_decide_eq_true ->%bool_decide_eq_true]%andb_true_iff].
      destruct (K4 (bytes "ssl") m d); [by right; right; left|done].
    + apply andb_true_iff in Hi as [_ [->%bool_decide_eq_true ->%bool_decide_eq_true]%andb_true_iff]. by destruct (K5 m d).
  - intros -> ->. destruct s; [done|]. unfold included, single, under in Hi. vm_compute in Hi. destruct ssl, data_too; discriminate Hi.
Qed.

Lemma find_manifest l last : (∀ e, e ∈ l → mb_name (member_of e) ≠ manifest_entry_name) → mb_name last = manifest_entry_name →
  find (λ m, bool_decide (mb_name m = manifest_entry_name)) (map member_of l ++ [last]) = Some last.
Proof.
  intros Hl Hlast. induction l as [|e l IH]; cbn [map app find]; [by rewrite bool_decide_eq_true_2|].
  rewrite bool_decide_eq_false_2 by (apply Hl; by left). apply IH. intros e' Hin. apply Hl. by right.
Qed.
Lemma included_there ssl data_too s r : included ssl data_too s r = true → r ≠ [].
Proof. intros Hi ->. unfold included, single, under in Hi. destruct s, ssl, data_too; vm_compute in Hi; discriminate Hi. Qed.
Lemma no_token_included ssl data_too k : included ssl data_too true (bytes "setup_token.txt" :: k) = false.
Proof. destruct k, ssl, data_too; reflexivity. Qed.

(** What is stored at a place after the sweep is what was written there. *)
Lemma stored_there fs p q m final stored names : no_links_to fs p → p ≠ [] →
  read_file (without_files q names (<[p := NFile m final]> fs)) p = Some stored → stored = final.
Proof.
  intros Hno Hne. set (fs1 := without_files _ _ _). assert (Hl : ∀ r n, fs1 !! r = Some n → r = p ∧ n = NFile m final ∨ fs !! r = Some n).
  { intros r n. unfold fs1. rewrite without_files_lookup. case_decide; [done|]. rewrite lookup_insert. case_decide as E; [|by right].
    intros [= <-]. by left. }
  unfold read_file. rewrite stat_id.
  - rewrite node_at_here by done. destruct (fs1 !! p) as [n|] eqn:E; [|done]. unfold fs1 in E. rewrite without_files_lookup in E. case_decide; [done|].
    rewrite lookup_insert_eq in E. injection E as <-. by intros [= <-].
  - intros r z t Hr E. apply Hl in E as [[_ ?]|E]; [done|]. by apply (Hno r z t).
Qed.

(** What is stored is the archive of the entries, sealed when there is a password. *)
Lemma created_archive o output tmp salt nonce now vol fs fs1 out deleted stored backup :
  source_ok fs (bo_config o) (bo_data o) → no_links_to fs (place_of output) → node_at fs (up output) = Some NDir → place_of output ≠ [] →
  length salt = 32%nat → length nonce = 12%nat →
  create_here o output tmp (Some salt) (Some nonce) now vol fs = (Ok (out, deleted), fs1) → read_file fs1 (place_of output) = Some stored →
  ends_with (bytes ".enc") backup = negb (is_empty (bo_password o)) →
  ∃ l mf, (∀ s r n, (s, r, n) ∈ l ↔ included (bo_ssl o) (bo_include_data o) s r = true ∧
                                     fs !! (place_of (side_of (bo_config o) (bo_data o) s) ++ r) = Some n) ∧
    let ms := map member_of l ++ [Member manifest_entry_name KReg 384 (encode_manifest mf)] in
    Forall member_ok ms ∧ plain_archive id_key open backup stored (bo_password o) = Ok (pack ms).
Proof.
  intros Hsrc Hnoout Hup Hroot Hsalt Hnonce Hc Hstored Hext.
  pose proof (so_files _ _ _ Hsrc) as Hok. unfold create_backup_archive in Hc.
  rewrite (mkdir_there fs (up output)) in Hc; [|done|by eapply no_links_prefix; [apply parent_is_prefix|]|done]. cbn [negb] in Hc.
  destruct (source_members fs o Hsrc) as (l & El & Hl). unfold create_archive in Hc. rewrite El in Hc. cbn [mbind option_bind] in Hc.
  set (mf := sealed_manifest _ _) in Hc. exists l, mf. split; [exact Hl|].
  set (ms := map member_of l ++ [Member manifest_entry_name KReg 384 (encode_manifest mf)]) in *. cbv zeta.
  assert (Hms : Forall member_ok ms).
  { apply Forall_app. split; [|apply Forall_singleton].
    - apply Forall_map, Forall_forall. intros [[s r] n] [Hi E]%Hl.
      destruct (source_entry fs _ _ _ _ s r n Hsrc Hi E) as (? & ? & ? & ? & _). by apply member_of_ok.
    - split_and!; cbn; [done| |lia|lia|apply decode_encode|by left]. refine (bool_decide_unpack _ _). vm_compute. exact I. }
  split; [exact Hms|]. unfold plain_archive. rewrite Hext. destruct (is_empty (bo_password o)); cbn [negb].
  1: set (final := pack ms) in *; enough (stored = final) by congruence.
  2: destruct (encrypt id_key seal (pack ms) (bo_password o) (Some salt) (Some nonce)) as [final|] eqn:En; [|done];
     enough (stored = final) as -> by (rewrite (decrypted (pack ms) _ salt nonce final) by (done || by apply pack_bytes); done).
  all: destruct (write_file dv fs (place_of output) 384 final) as [ok fsw] eqn:Hw; destruct ok; [|done]; cbn [negb] in Hc;
    apply write_file_spec in Hw as [(_ & ? & _)|(_ & m & l' & -> & _ & _ & ->)]; [done| |done];
    destruct (verify _ _ _ _ _ _ _ tmp output _) as [u|]; [|done]; destruct (sweep_old _ _ _ _ _ _ _) as [del fs3] eqn:S;
    apply sweep_spec in S as (_ & -> & _); [|done..]; injection Hc as _ _ <-; by eapply stored_there.
Qed.

(** C8: a backup brings everything back.  Let an archive be made, verified and left at its place, of a configuration
    and a data directory without links in them, and the same bytes verify somewhere else, under a name with the same
    ending and with the password they were made with.  Then a restore into new and empty directories, on a device
    that does not fail, succeeds, and at every place the backup covers (server.yml, the two databases, templates,
    themes, and the certificates and the data only as asked) there is afterwards exactly what was there when the backup
    was made, with its contents and mode, and nothing where there was nothing.  Besides these there are in the two directories
    only directories that lead to something covered, and the digest of the new set-up token. *)
Theorem backup_restores o output tmp salt nonce now vol fs fs1 out deleted stored backup tmp' config data mode fs2 token :
  source_ok fs (bo_config o) (bo_data o) → no_links_to fs (place_of output) → node_at fs (up output) = Some NDir → place_of output ≠ [] →
  length salt = 32%nat → length nonce = 12%nat →
  create_here o output tmp (Some salt) (Some nonce) now vol fs = (Ok (out, deleted), fs1) → read_file fs1 (place_of output) = Some stored →
  targets_ok fs2 config data → stat fs2 (place_of backup) = Some (NFile mode stored) →
  ends_with (bytes ".enc") backup = negb (is_empty (bo_password o)) →
  verify_here fs2 tmp' backup (bo_password o) = Ok tt →
  let covered := included (bo_ssl o) (bo_include_data o) in
  let made s r := fs !! (place_of (side_of (bo_config o) (bo_data o) s) ++ r) in
  ∃ fs3, restore_here backup tmp' config data (bo_password o) (Some token) fs2 = (Ok (hex_encode token), fs3) ∧
    (∀ s r, covered s r = true → fs3 !! (place_of (side_of config data s) ++ r) = made s r) ∧
    (∀ s r n, r ≠ [] → covered s r = false → fs3 !! (place_of (side_of config data s) ++ r) = Some n →
       n = NDir ∧ (∃ k, k ≠ [] ∧ covered s (r ++ k) = true ∧ is_Some (made s (r ++ k))) ∨ s = true ∧ r = [bytes "setup_token.txt"]).
Proof.
  intros Hsrc Hnoout Hup Hroot Hsalt Hnonce Hc Hstored [Rc Rd Cc Cd Pc Pd Dis Hlinks Hway Hempty] Hback Hext Hv.
  destruct (created_archive _ _ _ _ _ _ _ _ _ _ _ _ backup Hsrc Hnoout Hup Hroot Hsalt Hnonce Hc Hstored Hext) as (l & mf & Hl & Hms & Hplain).
  set (ms := map member_of l ++ _) in *. set (src := λ s r, fs !! (place_of (side_of (bo_config o) (bo_data o) s) ++ r)).
  set (inc := included (bo_ssl o) (bo_include_data o)).
  assert (Hentry : ∀ s r n, src s r = Some n → inc s r = true → _) by (intros s r n E Hi; exact (source_entry fs _ _ _ _ s r n Hsrc Hi E)).
  assert (src_up : ∀ s p k n, p ≠ [] → k ≠ [] → src s (p ++ k) = Some n → src s p = Some NDir).
  { intros s p k n Hp Hk E. unfold src in E. rewrite (assoc (++)) in E. apply files_up in E; [done|apply (so_files _ _ _ Hsrc)| |done].
    by destruct (place_of (side_of (bo_config o) (bo_data o) s)). }
  assert (src_ok : ∀ s r n, src s r = Some n → inc s r = true → Forall word r ∧ node_ok n ∧ (∀ z t, n ≠ NLink z t)).
  { intros s r n E Hi. by destruct (Hentry s r n E Hi) as (? & ? & ? & _). }
  assert (inc_name : ∀ s r n, src s r = Some n → inc s r = true →
    r ≠ [] ∧ from_config (mb_name (member_of (s, r, n))) = s ∧ mb_name (member_of (s, r, n)) ≠ manifest_entry_name).
  { intros s r n E Hi. by destruct (Hentry s r n E Hi) as (_ & _ & _ & ? & ? & ?). }
  unfold restore. rewrite Hv. unfold read_file. rewrite Hback, Hplain, unpack_pack by done.
  unfold extract_manifest, ms at 1. rewrite find_manifest; [|intros [[s r] n] [Hi E]%Hl; by apply (inc_name s r n)|done].
  cbn [mbind option_bind mb_data]. destruct (decode_encode mf) as [_ [mf' ->]].
  assert (Hr : restoring src inc config data fs2).
  { split; [done|done|]. intros s r n Hne E. by rewrite Hempty in E. }
  destruct (restore_entries src inc config data src_up src_ok inc_name Rc Rd Cc Cd Pc Pd Dis l
    (Member manifest_entry_name KReg 384 (encode_manifest mf)) fs2) as (cur & E & Hr' & Hin & _); [done|done|by intros s r n [Hi Hs]%Hl|].
  fold ms in E. rewrite E. cbn [fmap option_fmap option_map].
  destruct (token_saved src inc config data Rc Dis cur (hex_encode token) Hr') as (cur' & -> & Hkeep); [apply no_token_included|].
  exists cur'. split; [done|]. assert (Hnt : ∀ s r, inc s r = true → (s, r) ≠ (true, [bytes "setup_token.txt"])).
  { intros s r Hi [= -> ->]. unfold inc in Hi. by rewrite no_token_included in Hi. }
  split.
  - intros s r Hi. apply included_there in Hi as Hne. rewrite Hkeep by auto.
    apply (restored_exactly src inc config data src_up); try done. intros s' r' n Hs Hi'. apply Hin, Hl. by split.
  - intros s r n Hne Hi E'. destruct (decide ((s, r) = (true, [bytes "setup_token.txt"]))) as [[= -> ->]|Hnot]; [by right|left].
    rewrite Hkeep in E' by done. apply (rs_below _ _ _ _ _ Hr') in E' as [[_ E']|[-> (k & n' & Hk & Hs & Hik)]]; [congruence| |done].
    split; [done|]. exists k. split_and!; [done|done|by exists n'].
Qed.
End RoundTrip.

(** * At work *)

(** A coding of lists of members: kind, mode, the name up to a zero, and the content marked off *)
Definition toy_data (l : list Z) : list Z := concat (map (λ b, [1; b]) l) ++ [0].
Definition toy_member (m : member) : list Z :=
  (if bool_decide (mb_kind m = KDir) then 0 else 1) :: mb_mode m / 2 ^ 24 :: mb_mode m / 2 ^ 16 mod 256 :: mb_mode m / 2 ^ 8 mod 256 ::
  mb_mode m mod 256 :: map (λ c, Z.of_N (code c)) (mb_name m) ++ 0 :: toy_data (mb_data m).
Definition toy_pack (ms : list member) : list Z := concat (map toy_member ms).
Fixpoint toy_name (l : list Z) : path * list Z :=
  match l with
  | [] => ([], [])
  | 0 :: l => ([], l)
  | b :: l => let '(name, rest) := toy_name l in (byte (Z.to_N b) :: name, rest)
  end.
Fixpoint toy_content (l : list Z) : list Z * list Z :=
  match l with
  | 1 :: b :: l => let '(data, rest) := toy_content l in (b :: data, rest)
  | _ :: l => ([], l)
  | [] => ([], [])
  end.
Fixpoint toy_members (fuel : nat) (l : list Z) : option (list member) :=
  match fuel, l with
  | _, [] => Some []
  | S fuel, kind :: m1 :: m2 :: m3 :: m4 :: l =>
      let '(name, l) := toy_name l in let '(data, l) := toy_content l in
      cons (Member name (if kind =? 0 then KDir else KReg) (m1 * 2 ^ 24 + m2 * 2 ^ 16 + m3 * 2 ^ 8 + m4) data) <$> toy_members fuel l
  | _, _ => None
  end.
Definition toy_unpack (l : list Z) : option (list member) := toy_members (length l) l.

Lemma toy_content_data data rest : toy_content (toy_data data ++ rest) = (data, rest).
Proof. induction data as [|b data IH]; [done|]. unfold toy_data in *. cbn. by rewrite IH. Qed.
Lemma toy_name_name name rest : byte 0 ∉ name → toy_name (map (λ c, Z.of_N (code c)) name ++ 0 :: rest) = (name, rest).
Proof.
  induction name as [|c name IH]; [done|]. intros [Hc Hn]%not_elem_of_cons. cbn [map app toy_name]. rewrite IH by done.
  destruct (Z.of_N (code c)) as [|p|p] eqn:E; [|rewrite <-E, N2Z.id; f_equal; f_equal; apply ascii_N_embedding|lia].
  exfalso. apply Hc. unfold code in E. rewrite <-(ascii_N_embedding c). by replace (N_of_ascii c) with 0%N by lia.
Qed.
Lemma toy_members_pack fuel ms : Forall member_ok ms → (length ms ≤ fuel)%nat → toy_members fuel (toy_pack ms) = Some ms.
Proof.
  revert ms. induction fuel as [|fuel IH]; intros [|m ms] Hms Hf; cbn in Hf; try lia; [done..|].
  apply Forall_cons_1 in Hms as [(_ & Hn & Hm & _ & Hk) Hms]. unfold toy_pack. cbn [map concat]. unfold toy_member at 1. cbn [app toy_members].
  rewrite <-(assoc (++)), <-app_comm_cons, toy_name_name, toy_content_data by done.
  change (concat (map toy_member ms)) with (toy_pack ms). rewrite IH by (done || lia). cbn.
  f_equal. f_equal. destruct m as [name kind mode data]. cbn in *. f_equal.
  - by destruct Hk as [[-> _]|[-> _]].
  - Z.to_euclidean_division_equations. lia.
Qed.
Lemma toy_pack_length ms : (length ms ≤ length (toy_pack ms))%nat.
Proof. induction ms as [|m ms IH]; [done|]. unfold toy_pack in *. cbn. rewrite length_app. cbn. lia. Qed.
Lemma toy_unpack_pack ms : Forall member_ok ms → toy_unpack (toy_pack ms) = Some ms.
Proof. intros H. apply toy_members_pack; [done|apply toy_pack_length]. Qed.
Lemma toy_bytes ms : Forall member_ok ms → is_bytes (toy_pack ms).
Proof.
  induction 1 as [|m ms (_ & _ & Hm & Hd & _) _ IH]; [constructor|]. unfold toy_pack in *. cbn [map concat]. apply Forall_app. split; [|done].
  unfold toy_member. apply Forall_cons_2; [by case_bool_decide|].
  do 4 (apply Forall_cons_2; [Z.to_euclidean_division_equations; lia|]).
  apply Forall_app. split; [|apply Forall_cons_2; [lia|]].
  - apply Forall_map, Forall_forall. intros c _. cbn. unfold code. pose proof (N_ascii_bounded c). lia.
  - unfold toy_data. apply Forall_app. split; [|by apply Forall_singleton].
    apply Forall_concat, Forall_map. eapply Forall_impl; [exact Hd|]. cbn. intros b Hb. do 2 (apply Forall_cons_2; [lia|]). constructor.
Qed.

Definition at_ (p : string) : place := place_of (bytes p).
Definition here : files := list_to_map [(at_ "/c", NDir); (at_ "/c/server.yml", NFile 420 [112; 111; 114; 116]); (at_ "/d", NDir); (at_ "/b", NDir)].
Definition here_options : backup_options := BackupOptions (bytes "/c") (bytes "/d") "" false false "cli" "1.0" None.
Abbreviation here_made := (create_backup_archive (λ _, []) (λ _, Some blank) toy_pack toy_unpack (λ _ _ _ _ _ _, None) (λ _ _ t, t) (λ _ _ t, Some t) (λ _, true)
  sound_device (@sort_stable) Reliable (λ _, 0) here_options (bytes "/b/wthr.tar.gz") (bytes "/t") (Some (replicate 32 0)) (Some (replicate 12 0)) 0 0 here).
Definition stored_here : list Z :=
  toy_pack [Member (bytes "server.yml") KReg 420 [112; 111; 114; 116]; Member manifest_entry_name KReg 384 []].
Definition elsewhere : files := list_to_map [(at_ "/b", NDir); (at_ "/b/copy.tar.gz", NFile 384 stored_here)].

Lemma here_ok : source_ok here (bytes "/c") (bytes "/d").
Proof.
  assert (Hf : files_ok here).
  { intros p n E. apply elem_of_list_to_map_2 in E. repeat (apply elem_of_cons in E as [[= -> ->]|E]); [..|by apply not_elem_of_nil in E];
      (split_and!; [vm_compute; discriminate|repeat constructor; apply wordb_spec; vm_compute; reflexivity|vm_compute; reflexivity|]); cbn;
      (done || (split; [lia|repeat (apply List.Forall_cons; [lia|]); apply List.Forall_nil])). }
  assert (Hl : ∀ q s t, here !! q ≠ Some (NLink s t)).
  { intros q s t E. apply elem_of_list_to_map_2 in E. by repeat (apply elem_of_cons in E as [[=]|E]); apply not_elem_of_nil in E. }
  split; try done; try (by intros q s t _; apply Hl). split_and!; [vm_compute; discriminate..| |vm_compute; discriminate].
  intros w m d Hw. repeat (apply elem_of_cons in Hw as [->|Hw]); [vm_compute; discriminate..|by apply not_elem_of_nil in Hw].
Qed.
Lemma elsewhere_ok : targets_ok elsewhere (bytes "/c2") (bytes "/d2").
Proof.
  assert (Hin : ∀ q n, elsewhere !! q = Some n → q = at_ "/b" ∧ n = NDir ∨ q = at_ "/b/copy.tar.gz" ∧ n = NFile 384 stored_here).
  { intros q n E. apply elem_of_list_to_map_2 in E. repeat (apply elem_of_cons in E as [[= -> ->]|E]); [by left|by right|by apply not_elem_of_nil in E]. }
  assert (Hhead : ∀ q n, elsewhere !! q = Some n → head q = Some (bytes "b")).
  { intros q n [[-> _]|[-> _]]%Hin; reflexivity. }
  split; try reflexivity; try (vm_compute; discriminate).
  - split; intros [k Hk]; revert Hk; vm_compute; discriminate.
  - intros s q sz t _ E. by apply Hin in E as [[_ ?]|[_ ?]].
  - intros s q m d [k Hq] E. apply Hhead in E. destruct q as [|w q]; [done|]. injection E as ->. destruct s; vm_compute in Hq; discriminate Hq.
  - intros s r _. destruct (elsewhere !! _) as [n|] eqn:E; [|done]. apply Hhead in E. destruct s; vm_compute in E; discriminate E.
Qed.

Lemma here_backed_up : here_made.1 = Ok (bytes "/b/wthr.tar.gz", []).
Proof. vm_compute. reflexivity. Qed.
Lemma here_stored : read_file here_made.2 (at_ "/b/wthr.tar.gz") = Some stored_here.
Proof. vm_compute. reflexivity. Qed.
Lemma copy_verifies :
  verify (λ _, Some blank) toy_unpack (λ _ _ _ _ _ _, None) (λ _ _ t, Some t) (λ _, true) sound_device elsewhere (bytes "/t") (bytes "/b/copy.tar.gz") "" = Ok tt.
Proof. vm_compute. reflexivity. Qed.
Lemma copy_there : stat elsewhere (at_ "/b/copy.tar.gz") = Some (NFile 384 stored_here).
Proof. vm_compute. reflexivity. Qed.
Lemma backup_restores_witness :
  ∃ fs3, restore (λ _, Some blank) toy_unpack (λ _ _ _ _ _ _, None) (λ _ _ t, Some t) (λ _, true) sound_device (bytes "/b/copy.tar.gz") (bytes "/t") (bytes "/c2")
    (bytes "/d2") "" (Some [1]) elsewhere = (Ok (hex_encode [1]), fs3) ∧
    fs3 !! at_ "/c2/server.yml" = Some (NFile 420 [112; 111; 114; 116]) ∧ fs3 !! at_ "/d2/db/server.db" = None.
Proof.
  destruct (backup_restores (W := reliable dir) (λ _, []) (λ _, Some blank) toy_pack toy_unpack (λ _ _ _ _ _ _, None) (λ _ _ t, t) (λ _ _ t, Some t) (λ _, true)
    sound_device (@sort_stable) Reliable (λ _, 0) reliable_tables toy_unpack_pack toy_bytes (λ _, conj (List.Forall_nil _) (ex_intro _ blank eq_refl)) (λ _ _ t _, eq_refl)
    here_options (bytes "/b/wthr.tar.gz") (bytes "/t") (replicate 32 0) (replicate 12 0) 0 0 here here_made.2 (bytes "/b/wthr.tar.gz") [] stored_here
    (bytes "/b/copy.tar.gz") (bytes "/t") (bytes "/c2") (bytes "/d2") 384 elsewhere [1]) as (fs3 & E & H & _).
  - apply here_ok.
  - intros q s t _ E. apply elem_of_list_to_map_2 in E. by repeat (apply elem_of_cons in E as [[=]|E]); apply not_elem_of_nil in E.
  - vm_compute. reflexivity.
  - vm_compute. discriminate.
  - reflexivity.
  - reflexivity.
  - rewrite <-here_backed_up. apply surjective_pairing.
  - apply here_stored.
  - apply elsewhere_ok.
  - apply copy_there.
  - reflexivity.
  - apply copy_verifies.
  - exists fs3. split; [exact E|]. split; [apply (H true [bytes "server.yml"]); reflexivity|apply (H false [bytes "db"; bytes "server.db"]); reflexivity].
Defined.
