(* ===== verification/Registry.v ===== *)
(** Tables as finite maps: the rows of a table under a UNIQUE column, read as a registry from
    that column to what a specification keeps of a row.  The lemmas say what INSERT, DELETE
    and UPDATE of the table do to the registry. *)
From S2P Require Import Prelude.

Section Registry.
Context {R K V : Type} `{Countable K} (key : R → K) (val : R → V).

Definition registry_of_rows (l : list R) : gmap K V := list_to_map (map (λ r, (key r, val r)) l).

Lemma registry_keys l : map fst (map (λ r, (key r, val r)) l) = map key l.
Proof. by rewrite map_map. Qed.

Lemma registry_some l k v : NoDup (map key l) →
  registry_of_rows l !! k = Some v ↔ ∃ r, r ∈ l ∧ key r = k ∧ val r = v.
Proof.
  intros ND. unfold registry_of_rows. rewrite <-elem_of_list_to_map by by rewrite registry_keys.
  rewrite list_elem_of_fmap. split.
  - intros (r & [= -> ->] & Hr). eauto.
  - intros (r & Hr & <- & <-). eauto.
Qed.

Lemma registry_in l r : NoDup (map key l) → r ∈ l → registry_of_rows l !! key r = Some (val r).
Proof. intros ND Hr. apply registry_some; [done|]. eauto. Qed.

Lemma registry_none l k : registry_of_rows l !! k = None ↔ ∀ r, r ∈ l → key r ≠ k.
Proof.
  unfold registry_of_rows. rewrite <-not_elem_of_list_to_map, registry_keys. split.
  - intros Hn r Hr <-. apply Hn. by apply (list_elem_of_fmap_2 key).
  - intros Hn (r & -> & Hr)%list_elem_of_fmap. by apply (Hn r).
Qed.

(** Two registries are equal when the same rows are in them. *)
Lemma registry_eq (m : gmap K V) l : NoDup (map key l) →
  (∀ k v, m !! k = Some v ↔ ∃ r, r ∈ l ∧ key r = k ∧ val r = v) → registry_of_rows l = m.
Proof.
  intros ND Hm. apply map_eq. intros k. apply option_eq. intros v. by rewrite registry_some, Hm.
Qed.

Lemma same_key l r r' : NoDup (map key l) → r ∈ l → r' ∈ l → key r = key r' → r = r'.
Proof.
  intros ND Hr Hr' E. apply list_elem_of_lookup in Hr as [i Hi], Hr' as [j Hj].
  assert (i = j) as ->; [|congruence].
  apply (NoDup_lookup _ i j (key r) ND); rewrite list_lookup_fmap; [rewrite Hi|rewrite Hj]; cbn; congruence.
Qed.

Lemma find_key l k (p : R → bool) : (∀ r, p r = true ↔ key r = k) → NoDup (map key l) →
  val <$> find p l = registry_of_rows l !! k.
Proof.
  intros Hp ND. destruct (find p l) as [r|] eqn:F.
  - apply find_some in F as [Hr%list_elem_of_In E%Hp]. subst k. symmetry. by apply registry_in.
  - symmetry. apply registry_none. intros r Hr E%Hp. apply list_elem_of_In in Hr.
    by rewrite (find_none _ _ F r Hr) in E.
Qed.

(** UPDATE of the key of at most one row to a new key *)
Lemma NoDup_update_one (p : R → bool) (k : K) l : NoDup (map key l) → (∀ r, r ∈ l → key r ≠ k) →
  (∀ r r', r ∈ l → r' ∈ l → p r = true → p r' = true → r = r') → NoDup (map (λ r, if p r then k else key r) l).
Proof.
  induction l as [|r l IH]; intros ND Hk Hp; cbn; [constructor|]. inversion ND as [|? ? Hr ND']; subst.
  assert (IH' : NoDup (map (λ r, if p r then k else key r) l)).
  { apply IH; [done|intros r' Hr'; apply Hk; by right|]. intros r1 r2 H1 H2. apply Hp; by right. }
  constructor; [|done]. intros (r' & E & Hr')%list_elem_of_fmap. destruct (p r) eqn:P, (p r') eqn:P'.
  - destruct Hr. apply list_elem_of_fmap. exists r'. split; [|done]. f_equal. apply Hp; [by left|by right|done..].
  - apply (Hk r'); [by right|done].
  - apply (Hk r); [by left|done].
  - destruct Hr. apply list_elem_of_fmap. eauto.
Qed.

(** INSERT of a row with a new key *)
Lemma registry_app l r : NoDup (map key l) → registry_of_rows l !! key r = None →
  NoDup (map key (l ++ [r])) ∧ registry_of_rows (l ++ [r]) = <[key r := val r]> (registry_of_rows l).
Proof.
  intros ND Hn. assert (Hd : NoDup (map key (l ++ [r]))).
  { rewrite map_app. apply NoDup_app. split_and!; [done| |apply NoDup_singleton].
    intros k (r' & -> & Hr')%list_elem_of_fmap E%list_elem_of_singleton.
    rewrite registry_none in Hn. by apply (Hn r'). }
  split; [done|]. apply registry_eq; [done|]. intros k v. rewrite lookup_insert_Some, registry_some by done. split.
  - intros [[<- <-]|[Hk (r' & Hr' & E)]]; [exists r|exists r']; rewrite elem_of_app, ?list_elem_of_singleton; auto.
  - intros (r' & [Hr'|Hr'%list_elem_of_singleton]%elem_of_app & Ek & Ev).
    + right. split; [|eauto]. rewrite registry_none in Hn. intros E. apply (Hn r'); congruence.
    + left. subst. auto.
Qed.

(** DELETE of the rows a test on the registry's entries selects *)
Lemma rows_delete (P : K * V → Prop) `{∀ x, Decision (P x)} (p : R → bool) l :
  NoDup (map key l) → (∀ r, r ∈ l → p r = false ↔ P (key r, val r)) →
  registry_of_rows (base.filter (λ r, p r = false) l) = base.filter P (registry_of_rows l).
Proof.
  intros ND HP. apply registry_eq; [by apply NoDup_map_filter|]. intros k v.
  rewrite map_lookup_filter_Some, registry_some by done. setoid_rewrite list_elem_of_filter. split.
  - intros [(r & Hr & <- & <-) Hp]. exists r. by rewrite HP.
  - intros (r & [Hp Hr] & <- & <-). split; [eauto|]. by apply HP.
Qed.

(** UPDATE of rows that leaves keys and entries alone *)
Lemma registry_map_same (f : R → R) l :
  (∀ r, r ∈ l → key (f r) = key r ∧ val (f r) = val r) →
  map key (map f l) = map key l ∧ registry_of_rows (map f l) = registry_of_rows l.
Proof.
  intros Hf. unfold registry_of_rows. rewrite !map_map. split; [|f_equal];
    apply map_ext_in; intros r Hr%list_elem_of_In; destruct (Hf r Hr) as [-> Hv]; by rewrite ?Hv.
Qed.

(** UPDATE of the one row a test selects *)
Lemma registry_update_one (p : R → bool) (f : R → R) l r0 :
  let l' := map (λ r, if p r then f r else r) l in
  NoDup (map key l) → NoDup (map key l') → r0 ∈ l → p r0 = true → (∀ r, r ∈ l → p r = true → r = r0) →
  registry_of_rows l' = <[key (f r0) := val (f r0)]> (base.delete (key r0) (registry_of_rows l)).
Proof.
  intros l' ND ND' H0 P0 Huniq. apply registry_eq; [done|]. intros k v.
  rewrite lookup_insert_Some, lookup_delete_Some, registry_some by done. subst l'. split.
  - intros [[<- <-]|(Hk & Hk0 & r & Hr & <- & <-)].
    + exists (f r0). split; [|done]. apply list_elem_of_fmap. exists r0. by rewrite P0.
    + exists r. split; [|done]. apply list_elem_of_fmap. exists r. destruct (p r) eqn:E; [|done].
      by apply Huniq in E as ->.
  - intros (r' & Hr' & <- & <-). pose proof Hr' as (r & -> & Hr)%list_elem_of_fmap. destruct (p r) eqn:E.
    + apply Huniq in E as ->; auto.
    + right. assert (Hne : key (f r0) ≠ key r).
      { intros Ek. assert (f r0 = r) as Er.
        { apply (same_key (map (λ r, if p r then f r else r) l)); [done| |done|done].
          apply list_elem_of_fmap. exists r0. by rewrite P0. }
        clear Ek. apply (f_equal key) in Er as Ek.
        (* two positions of the table hold the same row *)
        apply list_elem_of_lookup in H0 as [i Hi], Hr as [j Hj].
        assert (i = j) as ->.
        { apply (NoDup_lookup _ i j (key r) ND'); rewrite !list_lookup_fmap; [rewrite Hi|rewrite Hj]; cbn;
            [by rewrite P0, Ek|by rewrite E]. }
        congruence. }
      split_and!; [done| |eauto]. intros Ek. assert (r = r0) as -> by (by apply (same_key l)). congruence.
Qed.
End Registry.
