(* ===== verification/Users.v ===== *)
(** User accounts (UserModel and UserActivityLogModel of server/model/user.go) and the users
    database they share with sessions, recovery keys, API tokens, verifications, resets and
    invitations (database/users_schema.go).  [n_ids] is the primary-key index of the accounts,
    into which the foreign keys of the other tables look.  argon2.IDKey and the cipher of the
    two-factor secrets are parameters. *)
From S2P Require Import Prelude GoStrings GoTime Sql DbTime Sha256 Encryption Password Sessions RecoveryKeys Registry.
From Stdlib Require Import Ascii.
Open Scope Z_scope.

(** * The users database *)

(** A table with AUTOINCREMENT ids; the time a row expires at, if it has one, is its stamp *)
Record table (R : Type) := Table { t_rows : list (row R); t_next_id : Z }.
Arguments Table {R} _ _.
Arguments t_rows {R} _.
Arguments t_next_id {R} _.
Definition insert_row {R} (c : R) (stamp : scanned) (t : table R) : table R :=
  Table (t_rows t ++ [Row (VInt (t_next_id t)) stamp c]) (t_next_id t + 1).
Definition put_rows {R} (l : list (row R)) (t : table R) : table R := Table l (t_next_id t).
Definition row_no {R} (r : row R) : Z := match r_id r with VInt z => z | _ => 0 end.
Definition has_no {R} (id : Z) (r : row R) : bool := row_no r =? id.

(** The columns of an account the user sees, as stored and as read *)
Record profile (A : Type) := Profile {
  pf_display : A; pf_notify : A; pf_phone : A; pf_visibility : A; pf_avatar : A; pf_avatar_url : A; pf_bio : A;
  pf_location : A; pf_website : A; pf_timezone : A; pf_language : A
}.
Arguments Profile {A} _ _ _ _ _ _ _ _ _ _ _.
Arguments pf_display {A} _.
Arguments pf_phone {A} _.
Arguments pf_language {A} _.
Definition map_profile {A B} (f : A → B) (p : profile A) : profile B :=
  let 'Profile a b c d e g h i j k l := p in
  Profile (f a) (f b) (f c) (f d) (f e) (f g) (f h) (f i) (f j) (f k) (f l).
(** The defaults of the schema, and an account read by name or address *)
Definition new_profile : profile (option string) :=
  Profile None None None (Some "public") (Some "gravatar") None None None None None (Some "en").
Definition no_profile : profile string := map_profile (default "") (Profile None None None None None None None None None None None).

Record standing := Standing {
  st_verified : bool; st_active : bool; st_banned : bool; st_reason : option string;
  st_two_factor : bool; st_secret : option string
}.
Record user_row := UserRow {
  n_id : Z; n_name : string; n_email : string; n_hash : string; n_role : option string; n_standing : standing;
  n_profile : profile (option string); n_created : scanned; n_updated : scanned; n_login : scanned; n_ip : option string
}.
Record accounts := Accounts { ac_rows : list user_row; ac_next : Z; ac_prefs : list Z }.

Record token_cols := TokenCols {
  tk_user : Z; tk_hash : string; tk_prefix : string; tk_name : option string; tk_scopes : option string;
  tk_created : scanned; tk_used : scanned
}.
Record verification_cols := VerificationCols {
  vf_user : Z; vf_email : string; vf_token : string; vf_created : scanned; vf_used : scanned
}.
Record reset_cols := ResetCols {
  rs_user : Z; rs_token : string; rs_ip : option string; rs_created : scanned; rs_used : scanned
}.
Record user_invite_cols := UserInviteCols {
  ui_code : string; ui_name : option string; ui_email : option string; ui_by : option Z; ui_role : string;
  ui_created : scanned; ui_used_by : option Z; ui_used : scanned; ui_max : Z; ui_count : Z
}.
Record activity_cols := ActivityCols {
  av_user : Z; av_type : string; av_ip : option string; av_agent : option string; av_text : option string
}.
(** The stamp of a passkey is the time it was registered. *)
Record passkey_cols := PasskeyCols {
  pk_user : Z; pk_credential : string; pk_key : string; pk_aaguid : option string; pk_count : Z; pk_name : string;
  pk_transport : string; pk_attestation : string; pk_eligible : bool; pk_backed_up : bool; pk_used : scanned
}.

Record users_tables := UsersTables {
  n_accounts : accounts; n_ids : gset Z; n_sessions : list session_row * Z; n_keys : list key_row * Z;
  n_tokens : table token_cols; n_verifications : table verification_cols; n_resets : table reset_cols;
  n_invites : table user_invite_cols; n_activity : table activity_cols; n_passkeys : table passkey_cols;
  n_columns : list string * list string
}.
Definition put_accounts (a : accounts) (t : users_tables) : users_tables :=
  UsersTables a (n_ids t) (n_sessions t) (n_keys t) (n_tokens t) (n_verifications t) (n_resets t) (n_invites t)
    (n_activity t) (n_passkeys t) (n_columns t).
Definition put_ids (i : gset Z) (t : users_tables) : users_tables :=
  UsersTables (n_accounts t) i (n_sessions t) (n_keys t) (n_tokens t) (n_verifications t) (n_resets t) (n_invites t)
    (n_activity t) (n_passkeys t) (n_columns t).
Definition put_tokens (x : table token_cols) (t : users_tables) : users_tables :=
  UsersTables (n_accounts t) (n_ids t) (n_sessions t) (n_keys t) x (n_verifications t) (n_resets t) (n_invites t)
    (n_activity t) (n_passkeys t) (n_columns t).
Definition put_verifications (x : table verification_cols) (t : users_tables) : users_tables :=
  UsersTables (n_accounts t) (n_ids t) (n_sessions t) (n_keys t) (n_tokens t) x (n_resets t) (n_invites t)
    (n_activity t) (n_passkeys t) (n_columns t).
Definition put_resets (x : table reset_cols) (t : users_tables) : users_tables :=
  UsersTables (n_accounts t) (n_ids t) (n_sessions t) (n_keys t) (n_tokens t) (n_verifications t) x (n_invites t)
    (n_activity t) (n_passkeys t) (n_columns t).
Definition put_user_invites (x : table user_invite_cols) (t : users_tables) : users_tables :=
  UsersTables (n_accounts t) (n_ids t) (n_sessions t) (n_keys t) (n_tokens t) (n_verifications t) (n_resets t) x
    (n_activity t) (n_passkeys t) (n_columns t).
Definition put_activity (x : table activity_cols) (t : users_tables) : users_tables :=
  UsersTables (n_accounts t) (n_ids t) (n_sessions t) (n_keys t) (n_tokens t) (n_verifications t) (n_resets t)
    (n_invites t) x (n_passkeys t) (n_columns t).
Definition put_columns (x : list string * list string) (t : users_tables) : users_tables :=
  UsersTables (n_accounts t) (n_ids t) (n_sessions t) (n_keys t) (n_tokens t) (n_verifications t) (n_resets t)
    (n_invites t) (n_activity t) (n_passkeys t) x.
Definition put_passkeys (x : table passkey_cols) (t : users_tables) : users_tables :=
  UsersTables (n_accounts t) (n_ids t) (n_sessions t) (n_keys t) (n_tokens t) (n_verifications t) (n_resets t)
    (n_invites t) (n_activity t) x (n_columns t).
Definition passkey_owners (t : users_tables) : list Z := map (λ r, pk_user (r_rest r)) (t_rows (n_passkeys t)).

(** The tables of Sessions and of RecoveryKeys inside the database *)
Definition sessions_of (t : users_tables) : session_tables := SessionTables (n_sessions t).1 (n_sessions t).2 (n_ids t).
Definition with_sessions (s : session_tables) (t : users_tables) : users_tables :=
  UsersTables (n_accounts t) (t_accounts s) (t_sessions s, t_next s) (n_keys t) (n_tokens t) (n_verifications t)
    (n_resets t) (n_invites t) (n_activity t) (n_passkeys t) (n_columns t).
Definition keys_of (t : users_tables) : key_tables := KeyTables (n_keys t).1 (n_keys t).2 (n_ids t).
Definition with_keys (k : key_tables) (t : users_tables) : users_tables :=
  UsersTables (n_accounts t) (t_users k) (n_sessions t) (t_keys k, t_next_key k) (n_tokens t) (n_verifications t)
    (n_resets t) (n_invites t) (n_activity t) (n_passkeys t) (n_columns t).

Definition user_has_id (id : Z) (r : user_row) : bool := n_id r =? id.
Definition user_exists (id : Z) (t : users_tables) : bool := bool_decide (id ∈ n_ids t).

(** The UNIQUE columns; NULL is no value *)
Definition unique_users (l : list user_row) : Prop :=
  NoDup (map n_name l) ∧ NoDup (map n_email l) ∧ NoDup (omap (λ r, pf_phone (n_profile r)) l).
#[export] Instance unique_users_dec l : Decision (unique_users l).
Proof. unfold unique_users. apply _. Defined.

Definition insert_user (r : Z → user_row) (t : users_tables) : option Z * users_tables :=
  let a := n_accounts t in
  let l := ac_rows a ++ [r (ac_next a)] in
  if decide (unique_users l)
  then (Some (ac_next a), put_ids ({[ac_next a]} ∪ n_ids t) (put_accounts (Accounts l (ac_next a + 1) (ac_prefs a)) t))
  else (None, t).
Definition update_user (id : Z) (f : user_row → user_row) (t : users_tables) : bool * users_tables :=
  let a := n_accounts t in
  let l := map (λ r, if user_has_id id r then f r else r) (ac_rows a) in
  if decide (unique_users l) then (true, put_accounts (Accounts l (ac_next a) (ac_prefs a)) t) else (false, t).
Definition insert_user_prefs (fk : bool) (id : Z) (t : users_tables) : bool * users_tables :=
  let a := n_accounts t in
  if bool_decide (id ∈ ac_prefs a) || (fk && negb (user_exists id t)) then (false, t)
  else (true, put_accounts (Accounts (ac_rows a) (ac_next a) (ac_prefs a ++ [id])) t).

(** ON DELETE CASCADE of the rows that refer to the account, ON DELETE SET NULL of the two
    references of an invitation *)
Definition unless (id : Z) (o : option Z) : option Z := if bool_decide (o = Some id) then None else o.
Definition forget_inviter (id : Z) (r : row user_invite_cols) : row user_invite_cols :=
  let c := r_rest r in
  Row (r_id r) (r_stamp r) (UserInviteCols (ui_code c) (ui_name c) (ui_email c) (unless id (ui_by c)) (ui_role c)
    (ui_created c) (unless id (ui_used_by c)) (ui_used c) (ui_max c) (ui_count c)).
Definition drop_rows {R} (user : R → Z) (id : Z) (t : table R) : table R :=
  put_rows (filter (λ r, user (r_rest r) ≠ id) (t_rows t)) t.
Definition delete_user_row (fk : bool) (id : Z) (t : users_tables) : unit * users_tables :=
  let a := n_accounts t in
  let l := filter (λ r, user_has_id id r = false) (ac_rows a) in
  (tt,
   if fk then
     UsersTables (Accounts l (ac_next a) (filter (λ p, p ≠ id) (ac_prefs a))) (n_ids t ∖ {[id]})
       (filter (λ r, u_user (r_rest r) ≠ id) (n_sessions t).1, (n_sessions t).2)
       (filter (λ k, k_user k ≠ id) (n_keys t).1, (n_keys t).2)
       (drop_rows tk_user id (n_tokens t)) (drop_rows vf_user id (n_verifications t)) (drop_rows rs_user id (n_resets t))
       (put_rows (map (forget_inviter id) (t_rows (n_invites t))) (n_invites t)) (drop_rows av_user id (n_activity t))
       (drop_rows pk_user id (n_passkeys t)) (n_columns t)
   else put_ids (n_ids t ∖ {[id]}) (put_accounts (Accounts l (ac_next a) (ac_prefs a)) t)).

(** * Columns that an older database lacks are added when they are needed *)

Section Columns.
Context `{Database W T} (get : T → list string) (put : list string → T → T).

Fixpoint add_columns (names : list string) (w : W) : bool * W :=
  match names with
  | [] => (true, w)
  | n :: names =>
      let '(r, w) := exec (λ t, (tt, put (get t ++ [n]) t)) w in
      match r with None => (false, w) | Some _ => add_columns names w end
  end.
Definition ensure_columns (needed : list string) (w : W) : bool * W :=
  let '(r, w) := query get w in
  match r with
  | None => (false, w)
  | Some cols => add_columns (filter (λ n, n ∉ cols) needed) w
  end.
End Columns.

(** * UserModel *)

Record user := User {
  usr_id : Z; usr_name : string; usr_email : string; usr_hash : string; usr_role : string; usr_verified : bool;
  usr_active : bool; usr_banned : bool; usr_reason : string; usr_two_factor : bool; usr_secret : string;
  usr_profile : profile string; usr_created : instant; usr_updated : instant; usr_login : option instant; usr_ip : string
}.
Inductive user_error :=
| UserNotFound | UserDriver | UserHashFailed (e : password_error) | NotUnique | UserNotStored | PreferencesNotStored
| BadCredentials | UserVerifyFailed (e : password_error) | AccountDisabled | AccountBanned (reason : string)
| SecretFailed (e : encryption_error).

(** The Scan of GetByUsername and GetByEmail, which leaves role and profile empty; of GetByID,
    which does not scan a NULL role into a Go string; and of ListUsers, which reads less *)
Definition scan_account (role : string) (p : profile string) (r : user_row) : user :=
  let s := n_standing r in
  User (n_id r) (n_name r) (n_email r) (n_hash r) role (st_verified s) (st_active s) (st_banned s)
    (default "" (st_reason s)) (st_two_factor s) (default "" (st_secret s)) p
    (default zero_time (parse_stored_timestamp (n_created r))) (default zero_time (parse_stored_timestamp (n_updated r)))
    (parse_stored_timestamp (n_login r)) (default "" (n_ip r)).
Definition scan_found : user_row → user := scan_account "" no_profile.
Definition scan_user (r : user_row) : option user :=
  role ← n_role r; Some (scan_account role (map_profile (default "") (n_profile r)) r).
Definition scan_listed_user (r : user_row) : user :=
  let u := scan_found r in
  User (usr_id u) (usr_name u) (usr_email u) "" "" (usr_verified u) (usr_active u) (usr_banned u) (usr_reason u)
    (usr_two_factor u) "" no_profile (usr_created u) (usr_updated u) (usr_login u) (usr_ip u).

Definition set_identity (name email : string) (role : option string) (now : instant) (r : user_row) : user_row :=
  UserRow (n_id r) name email (n_hash r) (if role is Some _ then role else n_role r) (n_standing r) (n_profile r)
    (n_created r) (VText (format_sql_timestamp now)) (n_login r) (n_ip r).
Definition set_password (hash : string) (now : instant) (r : user_row) : user_row :=
  UserRow (n_id r) (n_name r) (n_email r) hash (n_role r) (n_standing r) (n_profile r) (n_created r)
    (VText (format_sql_timestamp now)) (n_login r) (n_ip r).
Definition set_seen (ip : string) (now : instant) (r : user_row) : user_row :=
  UserRow (n_id r) (n_name r) (n_email r) (n_hash r) (n_role r) (n_standing r) (n_profile r) (n_created r) (n_updated r)
    (VText (format_sql_timestamp now)) (Some ip).
Definition set_standing (f : standing → standing) (now : instant) (r : user_row) : user_row :=
  UserRow (n_id r) (n_name r) (n_email r) (n_hash r) (n_role r) (f (n_standing r)) (n_profile r) (n_created r)
    (VText (format_sql_timestamp now)) (n_login r) (n_ip r).
Definition set_contact (display phone : string) (now : instant) (r : user_row) : user_row :=
  let 'Profile _ b _ d e g h i j k l := n_profile r in
  UserRow (n_id r) (n_name r) (n_email r) (n_hash r) (n_role r) (n_standing r)
    (Profile (Some display) b (Some phone) d e g h i j k l) (n_created r) (VText (format_sql_timestamp now)) (n_login r) (n_ip r).

Section Users.
Context `{Database W users_tables}.
Context (id_key : list Z → list Z → Z → Z → Z → Z → option (list Z)).
Context (seal : list Z → list Z → list Z → list Z) (newest_user : list user_row → list user_row).

Definition ask_user (f : users_tables → option user_row) (scan : user_row → option user) (w : W) : result user_error user * W :=
  let '(r, w) := query f w in
  (match r with
   | None => Fail UserDriver
   | Some None => Fail UserNotFound
   | Some (Some r) => match scan r with None => Fail UserDriver | Some u => Ok u end
   end, w).
Definition find_user (p : user_row → bool) (t : users_tables) : option user_row := find p (ac_rows (n_accounts t)).
Definition user_by_id (id : Z) : W → result user_error user * W := ask_user (find_user (user_has_id id)) scan_user.
Definition user_by_name (name : string) : W → result user_error user * W :=
  ask_user (find_user (λ r, str_eqb (n_name r) name)) (λ r, Some (scan_found r)).
Definition user_by_email (email : string) : W → result user_error user * W :=
  ask_user (find_user (λ r, str_eqb (n_email r) email)) (λ r, Some (scan_found r)).

(** LIMIT ? OFFSET ?, where a negative limit is none *)
Definition page {A} (offset limit : Z) (l : list A) : list A :=
  let l := drop (Z.to_nat offset) l in if limit <? 0 then l else take (Z.to_nat limit) l.
Definition list_users (offset limit : Z) (w : W) : option (list user) * W :=
  query (λ t, map scan_listed_user (page offset limit (newest_user (ac_rows (n_accounts t))))) w.
Definition get_all_users : W → option (list user) * W := list_users 0 10000.
Definition count_users (w : W) : option nat * W := query (λ t, length (ac_rows (n_accounts t))) w.
Definition count_by_role (role : string) (w : W) : option nat * W :=
  query (λ t, length (filter (λ r, n_role r = Some role) (ac_rows (n_accounts t)))) w.

(** The role comes in as a variadic argument *)
Definition first_role (role : list string) : option string :=
  match role with r :: _ => if is_empty r then None else Some r | [] => None end.
Definition create_user_account (fk : bool) (name email password : string) (role : list string) (salt : option (list Z))
    (now : instant) (w : W) : result user_error user * W :=
  match hash_password id_key password salt with
  | Fail e => (Fail (UserHashFailed e), w)
  | Ok hash =>
      let stamp := VText (format_sql_timestamp now) in
      let '(r, w) := exec (insert_user (λ id, UserRow id name email hash (Some (default "user" (first_role role)))
        (Standing false true false None false None) new_profile stamp stamp VNull None)) w in
      match r with
      | None => (Fail UserNotStored, w)
      | Some None => (Fail NotUnique, w)
      | Some (Some id) =>
          let '(ok, w) := exec (insert_user_prefs fk id) w in
          match ok with Some true => user_by_id id w | _ => (Fail PreferencesNotStored, w) end
      end
  end.

Definition change_user (id : Z) (f : user_row → user_row) (w : W) : result user_error unit * W :=
  let '(r, w) := exec (update_user id f) w in (match r with Some true => Ok tt | _ => Fail UserNotStored end, w).
Definition update_user_profile (id : Z) (name email : string) (role : list string) (now : instant)
  : W → result user_error unit * W := change_user id (set_identity name email (first_role role) now).
Definition update_user_password (id : Z) (password : string) (salt : option (list Z)) (now : instant) (w : W)
  : result user_error unit * W :=
  match hash_password id_key password salt with
  | Fail e => (Fail (UserHashFailed e), w)
  | Ok hash => change_user id (set_password hash now) w
  end.
Definition update_user_last_login (id : Z) (ip : string) (now : instant) : W → result user_error unit * W :=
  change_user id (set_seen ip now).
Definition update_contact (id : Z) (display phone : string) (now : instant) : W → result user_error unit * W :=
  change_user id (set_contact display phone now).

Definition change_standing (id : Z) (f : standing → standing) (now : instant) : W → result user_error unit * W :=
  change_user id (set_standing f now).
Definition verified (s : standing) : standing :=
  Standing true (st_active s) (st_banned s) (st_reason s) (st_two_factor s) (st_secret s).
Definition verify_email (id : Z) : instant → W → result user_error unit * W := change_standing id verified.
Definition set_user_active (id : Z) (active : bool) : instant → W → result user_error unit * W :=
  change_standing id (λ s, Standing (st_verified s) active (st_banned s) (st_reason s) (st_two_factor s) (st_secret s)).
Definition ban_user (id : Z) (reason : string) : instant → W → result user_error unit * W :=
  change_standing id (λ s, Standing (st_verified s) (st_active s) true (Some reason) (st_two_factor s) (st_secret s)).
Definition unban_user (id : Z) : instant → W → result user_error unit * W :=
  change_standing id (λ s, Standing (st_verified s) (st_active s) false None (st_two_factor s) (st_secret s)).
Definition enable_2fa (key : string) (id : Z) (secret : string) (nonce : option (list Z)) (now : instant) (w : W)
  : result user_error unit * W :=
  match encrypt_two_factor_secret seal key secret nonce with
  | Fail e => (Fail (SecretFailed e), w)
  | Ok secret => change_standing id (λ s,
      Standing (st_verified s) (st_active s) (st_banned s) (st_reason s) true (Some secret)) now w
  end.
Definition disable_2fa (id : Z) : instant → W → result user_error unit * W :=
  change_standing id (λ s, Standing (st_verified s) (st_active s) (st_banned s) (st_reason s) false None).

Definition delete_user_account (fk : bool) (id : Z) (w : W) : bool * W :=
  let '(r, w) := exec (delete_user_row fk id) w in (bool_decide (is_Some r), w).

(** GetByIdentifier, CheckPassword and VerifyCredentials *)
Definition user_by_identifier (identifier : string) (w : W) : result user_error user * W :=
  let '(r, w) := user_by_name identifier w in
  match r with Ok u => (Ok u, w) | Fail _ => user_by_email identifier w end.
Definition check_user_password (u : user) (password : string) : bool :=
  match verify_password id_key password (usr_hash u) with Ok b => b | Fail _ => false end.
Definition verify_user_credentials (name password : string) (w : W) : result user_error user * W :=
  let '(r, w) := user_by_identifier name w in
  (match r with
   | Fail _ => Fail BadCredentials
   | Ok u =>
       match verify_password id_key password (usr_hash u) with
       | Fail e => Fail (UserVerifyFailed e)
       | Ok false => Fail BadCredentials
       | Ok true => if negb (usr_active u) then Fail AccountDisabled
                    else if usr_banned u then Fail (AccountBanned (usr_reason u)) else Ok u
       end
   end, w).

(** ** UserActivityLogModel; the row's stamp is created_at *)

Definition insert_activity (fk : bool) (c : activity_cols) (now : instant) (t : users_tables) : bool * users_tables :=
  if fk && negb (user_exists (av_user c) t) then (false, t)
  else (true, put_activity (insert_row c (VText (format_sql_timestamp now)) (n_activity t)) t).
Definition log_activity (fk : bool) (user : Z) (type ip agent details : string) (now : instant) (w : W) : bool * W :=
  let '(r, w) := exec (insert_activity fk (ActivityCols user type (Some ip) (Some agent) (Some details)) now) w in
  (bool_decide (r = Some true), w).
(** The Scan of a row, which does not take NULL for the two addresses *)
Definition scan_activity (r : row activity_cols) : option (Z * activity_cols * instant) :=
  let c := r_rest r in
  _ ← av_ip c; _ ← av_agent c;
  Some (row_no r, ActivityCols (av_user c) (av_type c) (av_ip c) (av_agent c) (Some (default "" (av_text c))),
        default zero_time (parse_stored_timestamp (r_stamp r))).
Definition get_activities (newest : list (row activity_cols) → list (row activity_cols)) (user offset limit : Z) (w : W)
  : option (list (Z * activity_cols * instant)) * W :=
  let '(r, w) := query (λ t, page offset limit (newest (filter (λ r, av_user (r_rest r) = user) (t_rows (n_activity t))))) w in
  (match r with None => None | Some rows => mapM scan_activity rows end, w).
Definition delete_old_activities (cutoff : instant) (w : W) : bool * W :=
  let '((_, ok), w) := @delete_rows_before _ _
    (part_database (t_rows ∘ n_activity) (λ l t, put_activity (put_rows l (n_activity t)) t)) cutoff false w in (ok, w).
End Users.

(** * The accounts stay unique *)

Definition users_ok (t : users_tables) : Prop :=
  let l := ac_rows (n_accounts t) in
  unique_users l ∧ NoDup (map n_id l) ∧ (∀ r, r ∈ l → n_id r < ac_next (n_accounts t)) ∧
  (∀ id, id ∈ n_ids t ↔ id ∈ map n_id l).

(** An update that leaves the UNIQUE columns and the id alone succeeds. *)
Definition keeps_user_keys (f : user_row → user_row) : Prop := ∀ r,
  n_id (f r) = n_id r ∧ n_name (f r) = n_name r ∧ n_email (f r) = n_email r ∧ pf_phone (n_profile (f r)) = pf_phone (n_profile r).
Definition map_user (id : Z) (f : user_row → user_row) (l : list user_row) : list user_row :=
  map (λ r, if user_has_id id r then f r else r) l.

Lemma map_user_col {A} (g : user_row → A) id f l : (∀ r, g (f r) = g r) → map g (map_user id f l) = map g l.
Proof. intros Hg. unfold map_user. rewrite map_map. apply map_ext. intros r. by destruct (user_has_id id r). Qed.

Lemma omap_map {A B C} (g : B → option C) (h : A → option C) (f : A → B) (l : list A) :
  (∀ x, g (f x) = h x) → omap g (map f l) = omap h l.
Proof. intros Hg. induction l as [|x l IH]; [done|]. cbn. rewrite Hg. destruct (h x); by rewrite ?IH. Qed.

Lemma unique_map_user id f l : keeps_user_keys f → unique_users l → unique_users (map_user id f l).
Proof.
  intros Hf (H1 & H2 & H3). unfold unique_users.
  rewrite (map_user_col n_name), (map_user_col n_email) by (intros r; apply Hf). split_and!; [done|done|].
  unfold map_user. rewrite (omap_map _ (λ r, pf_phone (n_profile r))); [done|].
  intros r. cbn. destruct (user_has_id id r); [apply Hf|done].
Qed.

Definition with_rows (l : list user_row) (t : users_tables) : users_tables :=
  put_accounts (Accounts l (ac_next (n_accounts t)) (ac_prefs (n_accounts t))) t.

Lemma update_user_keeps id f t : keeps_user_keys f → users_ok t →
  update_user id f t = (true, with_rows (map_user id f (ac_rows (n_accounts t))) t) ∧
  users_ok (with_rows (map_user id f (ac_rows (n_accounts t))) t).
Proof.
  intros Hf (Hu & Hid & Hlt & Hin). pose proof (unique_map_user id f _ Hf Hu) as Hu'. split.
  - unfold update_user. fold (map_user id f (ac_rows (n_accounts t))). by rewrite decide_True by exact Hu'.
  - unfold users_ok. cbn. rewrite (map_user_col n_id) by (intros r; apply Hf). split_and!; [done|done| |done].
    intros r (r0 & -> & Hr)%list_elem_of_fmap. apply Hlt in Hr. destruct (user_has_id id r0); [|done]. by rewrite (proj1 (Hf r0)).
Qed.

Lemma set_standing_keeps f now : keeps_user_keys (set_standing f now).
Proof. by intros r. Qed.
Lemma set_password_keeps h now : keeps_user_keys (set_password h now).
Proof. by intros r. Qed.
Lemma set_seen_keeps ip now : keeps_user_keys (set_seen ip now).
Proof. by intros r. Qed.
#[export] Hint Resolve set_standing_keeps set_password_keeps set_seen_keeps : wthr.

Lemma user_in t id : users_ok t → id ∈ n_ids t → ∃ r, r ∈ ac_rows (n_accounts t) ∧ n_id r = id.
Proof. intros (_ & _ & _ & Hin) Hi. apply Hin, list_elem_of_fmap in Hi as (r & -> & Hr). eauto. Qed.

Lemma find_user_spec t id r : users_ok t → r ∈ ac_rows (n_accounts t) → n_id r = id → find_user (user_has_id id) t = Some r.
Proof.
  intros (_ & ND & _) Hr E. unfold find_user. destruct (find _ _) as [r'|] eqn:F.
  - apply find_some in F as [Hr'%list_elem_of_In E']. unfold user_has_id in E'. bool_facts. f_equal.
    by apply (same_key n_id (ac_rows (n_accounts t))); [..|congruence].
  - apply list_elem_of_In in Hr. apply (find_none _ _ F) in Hr. unfold user_has_id in Hr. bool_facts. done.
Qed.

(** ** A new account *)

Definition prefs_below (t : users_tables) : Prop := ∀ id, id ∈ ac_prefs (n_accounts t) → id < ac_next (n_accounts t).
Definition new_user (name email hash role : string) (now : instant) (id : Z) : user_row :=
  UserRow id name email hash (Some role) (Standing false true false None false None) new_profile (VText (format_sql_timestamp now))
    (VText (format_sql_timestamp now)) VNull None.
Definition with_user (r : user_row) (t : users_tables) : users_tables :=
  put_ids ({[n_id r]} ∪ n_ids t)
    (put_accounts (Accounts (ac_rows (n_accounts t) ++ [r]) (ac_next (n_accounts t) + 1) (ac_prefs (n_accounts t) ++ [n_id r])) t).

Lemma with_user_ok r t : n_id r = ac_next (n_accounts t) → unique_users (ac_rows (n_accounts t) ++ [r]) → users_ok t → prefs_below t →
  users_ok (with_user r t) ∧ prefs_below (with_user r t).
Proof.
  intros Hid Hu (_ & Hnd & Hlt & Hin) Hp. unfold users_ok, prefs_below. cbn. rewrite map_app. cbn [map]. split; [split_and!|].
  - done.
  - apply NoDup_app. split_and!; [done| |apply NoDup_singleton].
    intros x (r' & -> & Hr')%list_elem_of_fmap E%list_elem_of_singleton. apply Hlt in Hr'. lia.
  - intros r' [Hr'|Hr'%list_elem_of_singleton]%elem_of_app; [apply Hlt in Hr'; lia|subst r'; lia].
  - intros id. rewrite elem_of_union, elem_of_singleton, elem_of_app, list_elem_of_singleton, Hin. tauto.
  - intros id [H|H%list_elem_of_singleton]%elem_of_app; [apply Hp in H; lia|lia].
Qed.

Section Create.
Context `{DatabaseLaws W users_tables} (id_key : list Z → list Z → Z → Z → Z → Z → option (list Z)).

(** Without failing statements the account is created whole or not at all. *)
Lemma create_user_whole fk name email password role salt now (w w' : W) r :
  never_fails W users_tables → users_ok (tables w) → prefs_below (tables w) →
  create_user_account id_key fk name email password role salt now w = (r, w') →
  let row hash := new_user name email hash (default "user" (first_role role)) now (ac_next (n_accounts (tables w))) in
  match hash_password id_key password salt with
  | Fail e => r = Fail (UserHashFailed e) ∧ tables w' = tables w
  | Ok hash =>
      if decide (unique_users (ac_rows (n_accounts (tables w)) ++ [row hash]))
      then (∃ u, scan_user (row hash) = Some u ∧ r = Ok u) ∧ tables w' = with_user (row hash) (tables w) ∧
           users_ok (tables w') ∧ prefs_below (tables w')
      else r = Fail NotUnique ∧ tables w' = tables w
  end.
Proof.
  intros Hup Hok Hp E row. unfold create_user_account in E. destruct (hash_password _ _ _) as [hash|e]; [|by injection E as <- <-].
  set (mk := λ id, UserRow id _ _ _ _ _ _ _ _ _ _) in E. destruct (exec_up _ (insert_user mk) w Hup) as (o & w1 & X & Ht).
  rewrite X in E. unfold insert_user in Ht. change (mk (ac_next (n_accounts (tables w)))) with (row hash) in Ht. clear X.
  case_decide as U; [|injection Ht as <- Ht; by injection E as <- <-]. injection Ht as <- Ht.
  set (id := ac_next (n_accounts (tables w))) in *.
  destruct (exec_up _ (insert_user_prefs fk id) w1 Hup) as (b & w2 & X & Ht2). rewrite X in E. clear X.
  unfold insert_user_prefs in Ht2. rewrite <-Ht in Ht2.
  rewrite bool_decide_eq_false_2 in Ht2 by (cbn; intros Hin; apply Hp in Hin; unfold id in Hin; lia).
  assert (Hex : user_exists id (put_ids ({[id]} ∪ n_ids (tables w)) (put_accounts (Accounts (ac_rows (n_accounts (tables w)) ++ [row hash])
    (id + 1) (ac_prefs (n_accounts (tables w)))) (tables w))) = true) by (apply bool_decide_eq_true; cbn; set_solver).
  rewrite Hex, andb_false_r in Ht2. cbn [orb] in Ht2. injection Ht2 as <- Ht2.
  assert (Hw : tables w2 = with_user (row hash) (tables w)) by (by rewrite <-Ht2).
  destruct (with_user_ok (row hash) (tables w)) as [Hok2 Hp2]; [done..|]. rewrite <-Hw in Hok2, Hp2.
  unfold user_by_id, ask_user in E. destruct (query _ w2) as [q w3] eqn:Q.
  destruct (query_cases _ (find_user (user_has_id id)) w2) as [(w4 & Q' & Ht3)|(w4 & Q' & Ht3)]; rewrite Q in Q'; injection Q' as -> <-.
  2:{ by apply Hup in Q. }
  rewrite (find_user_spec _ _ (row hash) Hok2) in E; [|rewrite Hw; cbn; apply elem_of_app; right; by left|done].
  cbn [scan_user row new_user n_role mbind option_bind] in E. injection E as <- <-. rewrite Ht3. split; [by eexists|]. done.
Qed.
End Create.
