(* ===== verification/ApiTokens.v ===== *)
(** API tokens of users (server/model/token.go and token_v2.go): two models over the table
    user_tokens, in which a token appears as its SHA-256 digest and its first eight bytes.
    The models bind a time.Time as it is, which the driver hands back as a time: [VTime]. *)
From S2P Require Import Prelude GoStrings GoTime Sql DbTime Sha256 Sessions Registry Users.
From Stdlib Require Import Ascii.
Open Scope Z_scope.

Abbreviation token_row := (row token_cols).

(** * Tokens and their form *)

(** GenerateTokenWithPrefix, given the sixteen bytes crypto/rand yields; GenerateToken;
    GetTokenPrefix; HashToken is [hash_token] *)
Definition generate_token_with_prefix (prefix : string) (rand : option (list Z)) : option string :=
  (λ l, prefix +:+ hex_encode l) <$> rand.
Definition prefix_user : string := "usr_".
Definition generate_token : option (list Z) → option string := generate_token_with_prefix "usr_".
Definition get_token_prefix (token : string) : string :=
  if (String.length token <? 8)%nat then token else of_bytes (take 8 (bytes token)).

Inductive token_error :=
| BadAgentToken | NoSeparator | UnknownPrefix | BadLength | BadOwnerType | BadOwner | BadScope | NoRandomness | TokenDriver
| TokenNotFound | TokenExpired | TokenNotStored.

(** strings.SplitN of a token at its first underscore *)
Fixpoint split_first (c : ascii) (l : list ascii) : list ascii * option (list ascii) :=
  match l with
  | [] => ([], None)
  | d :: l => if bool_decide (d = c) then ([], Some l)
              else let '(a, b) := split_first c l in (d :: a, b)
  end.
Definition underscore : ascii := byte 95.
Definition validate_token_format (token : string) : result token_error unit :=
  let agent (p : string) := if (String.length token =? String.length p + 32)%nat then Ok tt else Fail BadAgentToken in
  if has_prefix token "adm_agt_" then agent "adm_agt_"
  else if has_prefix token "usr_agt_" then agent "usr_agt_"
  else if has_prefix token "org_agt_" then agent "org_agt_"
  else match split_first underscore (bytes token) with
       | (_, None) => Fail NoSeparator
       | (prefix, Some random) =>
           let prefix := of_bytes prefix +:+ "_" in
           if negb (str_eqb prefix "adm_" || str_eqb prefix "usr_" || str_eqb prefix "org_") then Fail UnknownPrefix
           else if negb (length random =? 32)%nat then Fail BadLength
           else Ok tt
       end.

(** * The table *)

Definition token_has_hash (h : string) (r : token_row) : bool := str_eqb (tk_hash (r_rest r)) h.
Definition insert_token (fk : bool) (c : token_cols) (expires : scanned) (t : users_tables) : option Z * users_tables :=
  if existsb (token_has_hash (tk_hash c)) (t_rows (n_tokens t)) || (fk && negb (user_exists (tk_user c) t)) then (None, t)
  else (Some (t_next_id (n_tokens t)), put_tokens (insert_row c expires (n_tokens t)) t).
Definition map_tokens (p : token_row → bool) (f : token_row → token_row) (t : users_tables) : users_tables :=
  put_tokens (put_rows (map (λ r, if p r then f r else r) (t_rows (n_tokens t))) (n_tokens t)) t.
Definition filter_tokens (p : token_row → bool) (t : users_tables) : users_tables :=
  put_tokens (put_rows (filter (λ r, p r = false) (t_rows (n_tokens t))) (n_tokens t)) t.

Definition touch_token (now : instant) (r : token_row) : token_row :=
  let c := r_rest r in
  Row (r_id r) (r_stamp r)
    (TokenCols (tk_user c) (tk_hash c) (tk_prefix c) (tk_name c) (tk_scopes c) (tk_created c) (VTime now)).
Definition set_token_value (h prefix : string) (r : token_row) : token_row :=
  let c := r_rest r in
  Row (r_id r) (r_stamp r) (TokenCols (tk_user c) h prefix (tk_name c) (tk_scopes c) (tk_created c) VNull).

(** Scan into a sql.NullTime and into a time.Time *)
Definition scan_null_time (v : scanned) : option (option instant) :=
  match v with VNull => Some None | VTime t => Some (Some t) | _ => None end.
Definition scan_time (v : scanned) : option instant := match v with VTime t => Some t | _ => None end.

Record api_token := ApiToken {
  at_id : Z; at_user : Z; at_hash : string; at_prefix : string; at_name : string; at_scope : string;
  at_expires : option instant; at_used : option instant; at_created : instant; at_token : string
}.

Section Tokens.
Context `{Database W users_tables} (newest_token : list token_row → list token_row).

(** ** TokenModel *)

Definition create_api_token (fk : bool) (user : Z) (name : string) (rand : option (list Z)) (now1 now2 : instant) (w : W)
  : result token_error api_token * W :=
  match generate_token rand with
  | None => (Fail NoRandomness, w)
  | Some token =>
      let prefix := get_token_prefix token in
      let '(r, w) := exec (insert_token fk
        (TokenCols user (hash_token token) prefix (Some name) None (VTime now1) VNull) VNull) w in
      (match r with
       | Some (Some id) => Ok (ApiToken id user "" prefix name "" None None now2 token)
       | _ => Fail TokenNotStored
       end, w)
  end.

(** GetByToken: a NULL name does not go into a Go string; a token is dead at its end *)
Definition scan_token (r : token_row) : option api_token :=
  let c := r_rest r in
  name ← tk_name c; created ← scan_time (tk_created c);
  used ← scan_null_time (tk_used c); expires ← scan_null_time (r_stamp r);
  Some (ApiToken (row_no r) (tk_user c) "" (tk_prefix c) name "" expires used created "").
Definition token_row_of (h : string) (t : users_tables) : option token_row :=
  find (token_has_hash h) (t_rows (n_tokens t)).
Definition get_by_token (token : string) (now : instant) (w : W) : result token_error api_token * W :=
  let '(r, w) := query (token_row_of (hash_token token)) w in
  (match r with
   | None => Fail TokenDriver
   | Some None => Fail TokenNotFound
   | Some (Some r) =>
       match scan_token r with
       | None => Fail TokenDriver
       | Some a => match at_expires a with
                   | Some e => if negb (now <? e) then Fail TokenExpired else Ok a
                   | None => Ok a
                   end
       end
   end, w).
(** GetByUserID, which does not read the expiry *)
Definition scan_listed_token (r : token_row) : option api_token :=
  let c := r_rest r in
  name ← tk_name c; created ← scan_time (tk_created c); used ← scan_null_time (tk_used c);
  Some (ApiToken (row_no r) (tk_user c) "" (tk_prefix c) name "" None used created "").
Definition get_by_user_id (user : Z) (w : W) : option (list api_token) * W :=
  let '(r, w) := query (λ t, newest_token (filter (λ r, tk_user (r_rest r) = user) (t_rows (n_tokens t)))) w in
  (match r with None => None | Some l => mapM scan_listed_token l end, w).
(** UpdateLastUsed of both models; DeleteAPIToken and DeleteByUserID *)
Definition update_token_last_used (id : Z) (now : instant) (w : W) : bool * W :=
  let '(r, w) := exec (λ t, (tt, map_tokens (has_no id) (touch_token now) t)) w in (bool_decide (is_Some r), w).
Definition delete_tokens (p : token_row → bool) (w : W) : bool * W :=
  let '(r, w) := exec (λ t, (tt, filter_tokens p t)) w in (bool_decide (is_Some r), w).
Definition delete_api_token (id : Z) : W → bool * W := delete_tokens (has_no id).
Definition delete_tokens_by_user_id (user : Z) : W → bool * W := delete_tokens (λ r, tk_user (r_rest r) =? user).

(** ** TokenModelV2 *)

Definition create_token (fk : bool) (owner_type : string) (owner : Z) (name scope : string) (expiration : Z)
    (rand : option (list Z)) (now1 now2 now3 : instant) (w : W) : result token_error api_token * W :=
  if negb (str_eqb owner_type "admin" || str_eqb owner_type "user" || str_eqb owner_type "org") then (Fail BadOwnerType, w)
  else if negb (str_eqb owner_type "user") then (Fail BadOwner, w)
  else if negb (str_eqb scope "global" || str_eqb scope "read-write" || str_eqb scope "read") then (Fail BadScope, w)
  else match generate_token_with_prefix prefix_user rand with
  | None => (Fail NoRandomness, w)
  | Some token =>
      let h := hash_token token in
      let prefix := get_token_prefix token in
      let expires := if 0 <? expiration then Some (now1 + expiration) else None in
      let '(r, w) := exec (insert_token fk (TokenCols owner h prefix (Some name) (Some scope) (VTime now2) VNull)
        (from_option VTime VNull expires)) w in
      (match r with
       | Some (Some id) => Ok (ApiToken id owner h prefix name scope expires None now3 token)
       | _ => Fail TokenNotStored
       end, w)
  end.

Definition scan_token_v2 (h : string) (r : token_row) : option api_token :=
  let c := r_rest r in
  created ← scan_time (tk_created c); used ← scan_null_time (tk_used c); expires ← scan_null_time (r_stamp r);
  Some (ApiToken (row_no r) (tk_user c) h (tk_prefix c) (default "" (tk_name c)) (default "" (tk_scopes c))
          expires used created "").
Definition validate_token (token : string) (now : instant) (w : W) : result token_error api_token * W :=
  match validate_token_format token with
  | Fail e => (Fail e, w)
  | Ok _ =>
      let h := hash_token token in
      let '(r, w) := query (token_row_of h) w in
      (match r with
       | None => Fail TokenDriver
       | Some None => Fail TokenNotFound
       | Some (Some r) =>
           match scan_token_v2 h r with
           | None => Fail TokenDriver
           | Some a => match at_expires a with
                       | Some e => if e <? now then Fail TokenExpired else Ok a
                       | None => Ok a
                       end
           end
       end, w)
  end.
Definition list_tokens (owner_type : string) (owner : Z) (w : W) : result token_error (list api_token) * W :=
  if negb (str_eqb owner_type "user") then (Fail BadOwner, w)
  else
    let '(r, w) := query (λ t, newest_token (filter (λ r, tk_user (r_rest r) = owner) (t_rows (n_tokens t)))) w in
    (match r with
     | None => Fail TokenDriver
     | Some l => match mapM (scan_token_v2 "") l with None => Fail TokenDriver | Some l => Ok l end
     end, w).

(** DeleteToken reports a row that is missing or another's *)
Definition owned_token (id owner : Z) (r : token_row) : bool := has_no id r && (tk_user (r_rest r) =? owner).
Definition delete_token (id : Z) (owner_type : string) (owner : Z) (w : W) : result token_error unit * W :=
  if negb (str_eqb owner_type "user") then (Fail BadOwner, w)
  else
    let '(r, w) := exec (λ t, (existsb (owned_token id owner) (t_rows (n_tokens t)), filter_tokens (owned_token id owner) t)) w in
    (match r with None => Fail TokenDriver | Some false => Fail TokenNotFound | Some true => Ok tt end, w).

(** RotateToken: the row is looked up with its owner and updated by its id *)
Definition rotate_lookup (id owner : Z) (w : W) : result token_error api_token * W :=
  let '(r, w) := query (λ t, find (owned_token id owner) (t_rows (n_tokens t))) w in
  (match r with
   | None => Fail TokenDriver
   | Some None => Fail TokenNotFound
   | Some (Some r) =>
       let c := r_rest r in
       match scan_null_time (r_stamp r), scan_time (tk_created c) with
       | Some expires, Some created =>
           Ok (ApiToken (row_no r) (tk_user c) "" "" (default "" (tk_name c)) (default "" (tk_scopes c)) expires None created "")
       | _, _ => Fail TokenDriver
       end
   end, w).
(** UPDATE: the digest is UNIQUE *)
Definition rotate_row (id : Z) (h prefix : string) (t : users_tables) : bool * users_tables :=
  let t' := map_tokens (has_no id) (set_token_value h prefix) t in
  if decide (NoDup (map (λ r, tk_hash (r_rest r)) (t_rows (n_tokens t')))) then (true, t') else (false, t).
Definition rotate_update (id : Z) (existing : api_token) (rand : option (list Z)) (w : W)
  : result token_error api_token * W :=
  match generate_token_with_prefix prefix_user rand with
  | None => (Fail NoRandomness, w)
  | Some token =>
      let h := hash_token token in
      let prefix := get_token_prefix token in
      let '(r, w) := exec (rotate_row id h prefix) w in
      (match r with
       | Some true => Ok (ApiToken (at_id existing) (at_user existing) h prefix (at_name existing) (at_scope existing)
                            (at_expires existing) None (at_created existing) token)
       | _ => Fail TokenNotStored
       end, w)
  end.
Definition rotate_token (id : Z) (owner_type : string) (owner : Z) (rand : option (list Z)) (w : W)
  : result token_error api_token * W :=
  if negb (str_eqb owner_type "user") then (Fail BadOwner, w)
  else let '(r, w) := rotate_lookup id owner w in
       match r with Fail e => (Fail e, w) | Ok existing => rotate_update id existing rand w end.
End Tokens.

Example token_formats : map (λ s, is_ok (validate_token_format s))
  ["usr_0123456789abcdef0123456789abcdef"; "usr_agt_0123456789abcdef0123456789abcdef"; "usr_agt_"; "usr_short"; "xyz_0"; "usr"] =
  [true; true; false; false; false; false].
Proof. vm_compute. reflexivity. Qed.

(** * The specification: what each digest stands for *)

Record grant := Grant { g_id : Z; g_user : Z; g_scope : string; g_expires : option instant }.
Definition token_hash (r : token_row) : string := tk_hash (r_rest r).
Definition grant_of (r : token_row) : grant :=
  Grant (row_no r) (tk_user (r_rest r)) (default "" (tk_scopes (r_rest r))) (scan_time (r_stamp r)).
Abbreviation grants := (gmap string grant).
Definition grants_of (t : users_tables) : grants := registry_of_rows token_hash grant_of (t_rows (n_tokens t)).

(** The token does not end before [now], and ends after it: the tests of the two models *)
Definition not_over (now : instant) (g : grant) : bool := match g_expires g with Some e => negb (e <? now) | None => true end.
Definition alive (now : instant) (g : grant) : bool := match g_expires g with Some e => now <? e | None => true end.

(** Digests and ids are unique, ids come from the counter, and every row scans. *)
Definition readable (r : token_row) : Prop := is_Some (scan_token r).
Definition tokens_ok (t : users_tables) : Prop :=
  let l := t_rows (n_tokens t) in
  NoDup (map token_hash l) ∧ NoDup (map r_id l) ∧
  (∀ r, r ∈ l → ∃ z, r_id r = VInt z ∧ z < t_next_id (n_tokens t)) ∧ (∀ r, r ∈ l → readable r).

Lemma token_has_hash_spec h r : token_has_hash h r = true ↔ token_hash r = h.
Proof. apply bool_decide_eq_true. Qed.

Lemma same_token_no t r r' : tokens_ok t → r ∈ t_rows (n_tokens t) → r' ∈ t_rows (n_tokens t) →
  row_no r = row_no r' → r = r'.
Proof.
  intros (_ & ND & Hid & _) Hr Hr' E. apply (same_key r_id (t_rows (n_tokens t))); [done..|].
  destruct (Hid r Hr) as (z & Ez & _), (Hid r' Hr') as (z' & Ez' & _).
  unfold row_no in E. rewrite Ez, Ez' in E |- *. congruence.
Qed.

Lemma insert_token_spec fk c e t o t' : insert_token fk c e t = (o, t') → tokens_ok t →
  (∀ id, readable (Row (VInt id) e c)) →
  match o with
  | None => t' = t
  | Some id => tokens_ok t' ∧ grants_of t !! tk_hash c = None ∧
               grants_of t' = <[tk_hash c := grant_of (Row (VInt id) e c)]> (grants_of t)
  end.
Proof.
  unfold insert_token. destruct (_ || _) eqn:E; [by intros [= <- <-]|]. apply orb_false_iff in E as [E _].
  intros [= <- <-] (H1 & H2 & H3 & H4) Hread.
  assert (Hnone : grants_of t !! tk_hash c = None).
  { apply registry_none. intros r Hr%list_elem_of_In Eh. rewrite <-not_true_iff_false, existsb_exists in E.
    apply E. exists r. split; [done|]. by apply token_has_hash_spec. }
  set (r := Row (VInt (t_next_id (n_tokens t))) e c).
  destruct (registry_app token_hash grant_of _ r H1 Hnone) as [ND Hmap]. split_and!; [|done|exact Hmap].
  unfold tokens_ok. cbn. split_and!; [exact ND| |intros r0 [Hr|Hr%list_elem_of_singleton]%elem_of_app..].
  - rewrite map_app. apply NoDup_app. split_and!; [done| |apply NoDup_singleton].
    intros i (r' & -> & Hr')%list_elem_of_fmap Ei%list_elem_of_singleton.
    destruct (H3 r' Hr') as (z & Ez & Hz). rewrite Ez in Ei. injection Ei as ->. lia.
  - destruct (H3 r0 Hr) as (z & Ez & Hz). exists z. split; [done|lia].
  - subst r0. exists (t_next_id (n_tokens t)). split; [done|lia].
  - by apply H4.
  - subst r0. apply Hread.
Qed.

Lemma insert_token_refused fk c e t t' : insert_token fk c e t = (None, t') → tokens_ok t → fk = true ∨ is_Some (grants_of t !! tk_hash c).
Proof.
  unfold insert_token. destruct (_ || _) eqn:E; [|done]. intros _ Hok. apply orb_true_iff in E as [E|E].
  - right. apply existsb_exists in E as (r & Hr%list_elem_of_In & Hh). apply token_has_hash_spec in Hh. rewrite <-Hh.
    exists (grant_of r). apply registry_in; [apply Hok|done].
  - left. by destruct fk.
Qed.

(** A rotation to a new digest is not refused: at most one row carries the id. *)
Lemma rotate_row_refused id h prefix t t' : rotate_row id h prefix t = (false, t') → tokens_ok t → is_Some (grants_of t !! h).
Proof.
  unfold rotate_row. case_decide as ND; [done|]. intros _ Hok.
  destruct (grants_of t !! h) as [g|] eqn:E; [eauto|]. destruct ND. unfold grants_of in E. rewrite registry_none in E.
  pose proof Hok as (H1 & _). cbn. rewrite map_map. erewrite map_ext.
  - apply (NoDup_update_one token_hash (has_no id) h); [done|exact E|]. intros r r' Hr Hr' Hid Hid'. unfold has_no in *. bool_facts.
    apply (same_token_no t); [done..|congruence].
  - intros r. cbn. by destruct (has_no id r).
Qed.

Lemma filter_tokens_spec p (P : string * grant → Prop) `{∀ x, Decision (P x)} t : tokens_ok t →
  (∀ r, r ∈ t_rows (n_tokens t) → p r = false ↔ P (token_hash r, grant_of r)) →
  tokens_ok (filter_tokens p t) ∧ grants_of (filter_tokens p t) = base.filter P (grants_of t).
Proof.
  intros (H1 & H2 & H3 & H4) HP. split; [|by apply rows_delete].
  unfold tokens_ok. cbn. split_and!; [by apply NoDup_map_filter|by apply NoDup_map_filter|..];
    intros r [_ Hr]%list_elem_of_filter; auto.
Qed.

Lemma touch_token_spec id now t : tokens_ok t →
  tokens_ok (map_tokens (has_no id) (touch_token now) t) ∧
  grants_of (map_tokens (has_no id) (touch_token now) t) = grants_of t.
Proof.
  intros (H1 & H2 & H3 & H4). set (f r := if has_no id r then touch_token now r else r).
  destruct (registry_map_same token_hash grant_of f (t_rows (n_tokens t))) as [Hk Hm].
  { intros r _. unfold f. by destruct (has_no id r). }
  split; [|exact Hm]. unfold tokens_ok. cbn. fold f. rewrite Hk. split_and!; [done| | |].
  - rewrite map_map. erewrite map_ext; [exact H2|]. intros r. unfold f. by destruct (has_no id r).
  - intros r (r0 & -> & Hr)%list_elem_of_fmap. destruct (H3 r0 Hr) as (z & E & Hz). exists z. unfold f. by destruct (has_no id r0).
  - intros r (r0 & -> & Hr)%list_elem_of_fmap. apply H4 in Hr. unfold f. destruct (has_no id r0); [|done].
    revert Hr. unfold readable, scan_token. cbn. destruct (tk_name _), (scan_time _), (scan_null_time (tk_used _)), (scan_null_time (r_stamp _)); cbn; intros [? ?]; eauto; discriminate.
Qed.

Lemma rotate_row_spec id owner h prefix t r0 b t' : rotate_row id h prefix t = (b, t') → tokens_ok t →
  r0 ∈ t_rows (n_tokens t) → owned_token id owner r0 = true →
  if b then tokens_ok t' ∧ grants_of t' = <[h := grant_of r0]> (base.delete (token_hash r0) (grants_of t)) else t' = t.
Proof.
  unfold rotate_row. case_decide as ND; intros [= <- <-]; [|done]. intros Hok Hr0 Ho. pose proof Hok as (H1 & H2 & H3 & H4).
  apply andb_true_iff in Ho as [Hid _]. split.
  - unfold tokens_ok. cbn. split_and!; [exact ND| | |].
    + rewrite map_map. erewrite map_ext; [exact H2|]. intros r. by destruct (has_no id r).
    + intros r (r1 & -> & Hr)%list_elem_of_fmap. destruct (H3 r1 Hr) as (z & E & Hz). exists z. by destruct (has_no id r1).
    + intros r (r1 & -> & Hr)%list_elem_of_fmap. apply H4 in Hr. destruct (has_no id r1); [|done].
      revert Hr. unfold readable, scan_token. cbn.
      destruct (tk_name _), (scan_time _), (scan_null_time (tk_used _)), (scan_null_time (r_stamp _)); cbn; intros [? ?]; eauto; discriminate.
  - pose proof (registry_update_one token_hash grant_of (has_no id) (set_token_value h prefix) _ r0 H1 ND Hr0 Hid) as R.
    cbv zeta in R. unfold grants_of, map_tokens. cbn [n_tokens put_tokens put_rows t_rows]. rewrite R; [done|].
    intros r Hr E. unfold has_no in E, Hid. bool_facts. apply (same_token_no t); [done..|congruence].
Qed.

(** * Sequences of operations of both models *)

Section Refinement.
Context `{DatabaseLaws W users_tables}.

Inductive token_op :=
| TCreate (fk : bool) (user : Z) (name : string) (rand : option (list Z)) (now1 now2 : instant)
| TCreateV2 (fk : bool) (owner_type : string) (owner : Z) (name scope : string) (expiration : Z) (rand : option (list Z))
    (now1 now2 now3 : instant)
| TGet (token : string) (now : instant)
| TValidate (token : string) (now : instant)
| TTouch (id : Z) (now : instant)
| TDelete (id : Z)
| TDeleteByUser (user : Z)
| TDeleteV2 (id : Z) (owner_type : string) (owner : Z)
| TRotate (id : Z) (owner_type : string) (owner : Z) (rand : option (list Z)).

Inductive token_answer := TToken (r : result token_error api_token) | TDone (ok : bool).

Definition run_token_op (o : token_op) (w : W) : token_answer * W :=
  match o with
  | TCreate fk user name rand now1 now2 => let '(r, w) := create_api_token fk user name rand now1 now2 w in (TToken r, w)
  | TCreateV2 fk ot owner name scope expiration rand now1 now2 now3 =>
      let '(r, w) := create_token fk ot owner name scope expiration rand now1 now2 now3 w in (TToken r, w)
  | TGet token now => let '(r, w) := get_by_token token now w in (TToken r, w)
  | TValidate token now => let '(r, w) := validate_token token now w in (TToken r, w)
  | TTouch id now => let '(ok, w) := update_token_last_used id now w in (TDone ok, w)
  | TDelete id => let '(ok, w) := delete_api_token id w in (TDone ok, w)
  | TDeleteByUser user => let '(ok, w) := delete_tokens_by_user_id user w in (TDone ok, w)
  | TDeleteV2 id ot owner => let '(r, w) := delete_token id ot owner w in (TDone (is_ok r), w)
  | TRotate id ot owner rand => let '(r, w) := rotate_token id ot owner rand w in (TToken r, w)
  end.
Fixpoint run_token_ops (os : list token_op) (w : W) : list token_answer * W :=
  match os with
  | [] => ([], w)
  | o :: os => let '(a, w) := run_token_op o w in let '(l, w) := run_token_ops os w in (a :: l, w)
  end.

(** What an answer promises about the grants before and after *)
Abbreviation down := (¬ never_fails W users_tables).
(** [token] is what was drawn; a row is not stored when a statement fails, the digest is there, or, where foreign keys
    are checked, for want of the account. *)
Definition issued (fk : bool) (token : option string) (user : Z) (scope : string) (expires : option instant) (r : result token_error api_token) (m m' : grants) : Prop :=
  match r with
  | Ok a => token = Some (at_token a) ∧ at_user a = user ∧ at_scope a = scope ∧ at_expires a = expires ∧ m !! hash_token (at_token a) = None ∧
            m' = <[hash_token (at_token a) := Grant (at_id a) user scope expires]> m
  | Fail e => m' = m ∧
      match e with
      | NoRandomness => token = None
      | TokenNotStored => down ∨ fk = true ∨ ∃ t, token = Some t ∧ is_Some (m !! hash_token t)
      | _ => False
      end
  end.
(** The first model does not read the scope. *)
Definition judged (live : grant → bool) (scope : grant → string) (token : string) (r : result token_error api_token) (m : grants) : Prop :=
  match r with
  | Ok a => ∃ g, m !! hash_token token = Some g ∧ live g = true ∧ at_id a = g_id g ∧ at_user a = g_user g ∧ at_expires a = g_expires g ∧
              at_scope a = scope g
  | Fail TokenNotFound => m !! hash_token token = None
  | Fail TokenExpired => ∃ g, m !! hash_token token = Some g ∧ live g = false
  | Fail e => e = TokenDriver ∧ down
  end.
Definition none_of (id owner : Z) (m : grants) : Prop := ∀ h g, m !! h = Some g → ¬ (g_id g = id ∧ g_user g = owner).
Definition rotated (id : Z) (ot : string) (owner : Z) (token : option string) (r : result token_error api_token) (m m' : grants) : Prop :=
  match r with
  | Ok a => ∃ h g, m !! h = Some g ∧ g_id g = id ∧ g_user g = owner ∧ at_id a = id ∧ at_user a = owner ∧
              at_scope a = g_scope g ∧ at_expires a = g_expires g ∧ token = Some (at_token a) ∧
              m' = <[hash_token (at_token a) := g]> (base.delete h m)
  | Fail e => m' = m ∧
      match e with
      | BadOwner => ot ≠ "user"
      | TokenNotFound => none_of id owner m
      | NoRandomness => token = None
      | TokenNotStored => down ∨ ∃ t, token = Some t ∧ is_Some (m !! hash_token t)
      | e => e = TokenDriver ∧ down
      end
  end.
Definition deleted (ok : bool) (changed m m' : grants) : Prop := if ok then m' = changed else m' = m ∧ down.
Definition spec_token_op (o : token_op) (a : token_answer) (m m' : grants) : Prop :=
  match o, a with
  | TCreate fk user _ rand _ _, TToken r => issued fk (generate_token rand) user "" None r m m'
  | TCreateV2 fk ot owner _ scope expiration rand now1 _ _, TToken r =>
      if decide (ot ≠ "user") then (r = Fail BadOwnerType ∨ r = Fail BadOwner) ∧ m' = m
      else if decide (scope ∉ ["global"; "read-write"; "read"]) then r = Fail BadScope ∧ m' = m
      else issued fk (generate_token_with_prefix prefix_user rand) owner scope (if 0 <? expiration then Some (now1 + expiration) else None) r m m'
  | TGet token now, TToken r => judged (alive now) (λ _, "") token r m ∧ m' = m
  | TValidate token now, TToken r =>
      match validate_token_format token with
      | Fail e => r = Fail e
      | Ok _ => judged (not_over now) g_scope token r m
      end ∧ m' = m
  | TTouch _ _, TDone ok => deleted ok m m m'
  | TDelete id, TDone ok => deleted ok (base.filter (λ kg, g_id kg.2 ≠ id) m) m m'
  | TDeleteByUser user, TDone ok => deleted ok (base.filter (λ kg, g_user kg.2 ≠ user) m) m m'
  | TDeleteV2 id ot owner, TDone ok =>
      if ok then ot = "user" ∧ (∃ h g, m !! h = Some g ∧ g_id g = id ∧ g_user g = owner) ∧
                 m' = base.filter (λ kg, ¬ (g_id kg.2 = id ∧ g_user kg.2 = owner)) m
      else m' = m ∧ (ot ≠ "user" ∨ none_of id owner m ∨ down)
  | TRotate id ot owner rand, TToken r => rotated id ot owner (generate_token_with_prefix prefix_user rand) r m m'
  | _, _ => False
  end.
Inductive spec_token_ops : list token_op → list token_answer → grants → grants → Prop :=
| spec_tokens_nil m : spec_token_ops [] [] m m
| spec_tokens_cons o os a l m m' m'' :
    spec_token_op o a m m' → spec_token_ops os l m' m'' → spec_token_ops (o :: os) (a :: l) m m''.

(** The rest of the database *)
Definition other_tables (t : users_tables) : users_tables := put_tokens (Table [] 0) t.
Definition step_ok (o : token_op) (a : token_answer) (t t' : users_tables) : Prop :=
  tokens_ok t' ∧ spec_token_op o a (grants_of t) (grants_of t') ∧ other_tables t' = other_tables t.

Lemma step_same o a t : tokens_ok t → spec_token_op o a (grants_of t) (grants_of t) → step_ok o a t t.
Proof. by intros. Qed.

Lemma insert_other fk c e t o t' : insert_token fk c e t = (o, t') → other_tables t' = other_tables t.
Proof. unfold insert_token. by destruct (_ || _); intros [= _ <-]. Qed.

Lemma created_readable c e id : is_Some (scan_null_time e) → is_Some (tk_name c) → is_Some (scan_time (tk_created c)) →
  tk_used c = VNull → readable (Row (VInt id) e c).
Proof.
  intros [x He] [n Hn] [y Hc] Hu. unfold readable, scan_token. cbn. rewrite He, Hn, Hc, Hu. cbn. eauto.
Qed.

Lemma create_step fk user name rand now1 now2 (w w' : W) a :
  run_token_op (TCreate fk user name rand now1 now2) w = (a, w') → tokens_ok (tables w) →
  step_ok (TCreate fk user name rand now1 now2) a (tables w) (tables w').
Proof.
  cbn [run_token_op]. unfold create_api_token. intros E Hok. destruct (generate_token rand) as [token|] eqn:G.
  2:{ injection E as <- <-. by split. }
  destruct (exec _ w) as [r w1] eqn:X. injection E as <- <-. destruct r as [o|].
  2:{ pose proof (exec_fail _ _ _ _ X) as ->. apply step_same; [done|]. split; [done|]. left. intros Hup. by apply Hup in X. }
  apply exec_ok in X. pose proof (insert_other _ _ _ _ _ _ X) as Hother. pose proof X as X0.
  eapply insert_token_spec in X; [|done|by intros id; apply created_readable; eauto].
  destruct o as [id|].
  2:{ rewrite X. apply step_same; [done|]. split; [done|]. right. by apply insert_token_refused in X0; [destruct X0; [left|right; eauto]|]. }
  destruct X as (H1 & H2 & H3). split; [done|]. split; [|done]. cbn. by rewrite G.
Qed.

Lemma create_v2_step fk ot owner name scope expiration rand now1 now2 now3 (w w' : W) a :
  run_token_op (TCreateV2 fk ot owner name scope expiration rand now1 now2 now3) w = (a, w') → tokens_ok (tables w) →
  step_ok (TCreateV2 fk ot owner name scope expiration rand now1 now2 now3) a (tables w) (tables w').
Proof.
  cbn [run_token_op]. unfold create_token. intros E Hok. destruct (negb (_ || _ || _)) eqn:O1.
  { injection E as <- <-. apply step_same; [done|]. cbn. rewrite decide_True; [split; [by left|done]|]. intros ->. discriminate O1. }
  destruct (negb (str_eqb ot "user")) eqn:O2.
  { injection E as <- <-. apply step_same; [done|]. cbn. rewrite decide_True; [split; [by right|done]|]. intros ->. discriminate O2. }
  assert (ot = "user") as -> by (apply negb_false_iff, bool_decide_eq_true in O2; exact O2).
  clear O1 O2. destruct (negb _) eqn:S in E.
  { injection E as <- <-. apply step_same; [done|]. unfold spec_token_op. case_decide as Hne; [by destruct Hne|]. case_decide as Hin; [done|].
    exfalso. revert Hin. unfold str_eqb in S. rewrite !elem_of_cons. intros [->|[->|[->|?%not_elem_of_nil]]]; done. }
  assert (Hspec : ∀ r m m', issued fk (generate_token_with_prefix prefix_user rand) owner scope (if 0 <? expiration then Some (now1 + expiration) else None) r m m' →
            spec_token_op (TCreateV2 fk "user" owner name scope expiration rand now1 now2 now3) (TToken r) m m').
  { intros r m m' Hi. unfold spec_token_op. case_decide as Hne; [by destruct Hne|]. case_decide as Hin; [|done]. exfalso. apply Hin.
    unfold str_eqb in S. apply negb_false_iff in S. rewrite !orb_true_iff, !bool_decide_eq_true in S. rewrite !elem_of_cons. tauto. }
  destruct (generate_token_with_prefix _ rand) as [token|] eqn:G.
  2:{ injection E as <- <-. apply step_same; [done|]. by apply Hspec. }
  destruct (exec _ w) as [r w1] eqn:X. injection E as <- <-. destruct r as [o|].
  2:{ pose proof (exec_fail _ _ _ _ X) as ->. apply step_same; [done|]. apply Hspec. split; [done|]. left. intros Hup. by apply Hup in X. }
  apply exec_ok in X. pose proof (insert_other _ _ _ _ _ _ X) as Hother. pose proof X as X0.
  eapply insert_token_spec in X; [|done|].
  2:{ intros id. apply created_readable; cbn; eauto. destruct (0 <? expiration); cbn; eauto. }
  destruct o as [id|].
  2:{ rewrite X. apply step_same; [done|]. apply Hspec. split; [done|]. right. by apply insert_token_refused in X0; [destruct X0; [left|right; eauto]|]. }
  destruct X as (H1 & H2 & H3). split; [done|]. split; [|done]. apply Hspec. cbn. split_and!; try done.
  rewrite H3. unfold grant_of. cbn. by destruct (0 <? expiration).
Qed.

(** The row of a digest, and what both scans read of it *)
Lemma scanned_token h r t : tokens_ok t → token_row_of h t = Some r →
  grants_of t !! h = Some (grant_of r) ∧ (∃ a, scan_token r = Some a ∧ at_id a = row_no r ∧ at_user a = tk_user (r_rest r) ∧ at_expires a = scan_time (r_stamp r) ∧ at_scope a = "") ∧
  (∃ a, scan_token_v2 h r = Some a ∧ at_id a = row_no r ∧ at_user a = tk_user (r_rest r) ∧ at_expires a = scan_time (r_stamp r) ∧
     at_scope a = default "" (tk_scopes (r_rest r))).
Proof.
  intros (H1 & _ & _ & H4) F. unfold grants_of. rewrite <-(find_key token_hash grant_of _ h (token_has_hash h)); [|apply token_has_hash_spec|done].
  unfold token_row_of in F. rewrite F. split; [done|]. apply find_some in F as [Hr%list_elem_of_In _]. apply H4 in Hr as [a Ha].
  revert Ha. unfold scan_token, scan_token_v2. destruct (tk_name _); [|done]. destruct (scan_time (tk_created _)); [|done].
  destruct (scan_null_time (tk_used _)); [|done]. cbn.
  destruct (r_stamp r); try done; cbn; intros _; split; eexists; (split; [reflexivity|done]).
Qed.

Lemma unknown_token h t : tokens_ok t → token_row_of h t = None → grants_of t !! h = None.
Proof.
  intros (H1 & _) F. unfold grants_of. rewrite <-(find_key token_hash grant_of _ h (token_has_hash h)); [|apply token_has_hash_spec|done].
  unfold token_row_of in F. by rewrite F.
Qed.

Lemma get_step token now (w w' : W) a : run_token_op (TGet token now) w = (a, w') → tokens_ok (tables w) →
  step_ok (TGet token now) a (tables w) (tables w').
Proof.
  cbn [run_token_op]. unfold get_by_token. intros E Hok. destruct (query _ w) as [r w1] eqn:X. injection E as <- <-.
  destruct (query_cases _ (token_row_of (hash_token token)) w) as [(w2 & X' & Ht)|(w2 & X' & Ht)];
    rewrite X in X'; injection X' as -> <-; rewrite Ht; (split; [done|]); (split; [|done]); (split; [|done]); [|split; [done|intros Hup; by apply Hup in X]].
  destruct (token_row_of _ _) as [r|] eqn:F; [|by apply unknown_token].
  apply scanned_token in F as (Hg & (a & -> & Hi & Hu & He & Hsc) & _); [|done]. rewrite He.
  assert (Hl : alive now (grant_of r) = match scan_time (r_stamp r) with Some e => now <? e | None => true end) by done.
  destruct (scan_time (r_stamp r)) as [e|] eqn:S; [destruct (now <? e) eqn:L|]; cbn [negb judged]; eexists; repeat split; try done;
    cbn; congruence.
Qed.

Lemma validate_step token now (w w' : W) a : run_token_op (TValidate token now) w = (a, w') → tokens_ok (tables w) →
  step_ok (TValidate token now) a (tables w) (tables w').
Proof.
  cbn [run_token_op]. unfold validate_token. intros E Hok. unfold step_ok. cbn [spec_token_op].
  destruct (validate_token_format token) as [[]|e]; [|by injection E as <- <-].
  destruct (query _ w) as [r w1] eqn:X. injection E as <- <-.
  destruct (query_cases _ (token_row_of (hash_token token)) w) as [(w2 & X' & Ht)|(w2 & X' & Ht)];
    rewrite X in X'; injection X' as -> <-; rewrite Ht; (split; [done|]); (split; [|done]); (split; [|done]); [|split; [done|intros Hup; by apply Hup in X]].
  destruct (token_row_of _ _) as [r|] eqn:F; [|by apply unknown_token].
  apply scanned_token in F as (Hg & _ & (a & -> & Hi & Hu & He & Hsc)); [|done]. rewrite He.
  assert (Hl : not_over now (grant_of r) = match scan_time (r_stamp r) with Some e => negb (e <? now) | None => true end) by done.
  destruct (scan_time (r_stamp r)) as [e|] eqn:S; [destruct (e <? now) eqn:L|]; cbn [negb judged]; eexists; repeat split; try done;
    cbn; congruence.
Qed.

(** Statements that delete *)
Lemma delete_step (p : token_row → bool) (P : string * grant → Prop) `{∀ x, Decision (P x)} (w w' : W) ok :
  delete_tokens p w = (ok, w') → tokens_ok (tables w) →
  (∀ r, r ∈ t_rows (n_tokens (tables w)) → p r = false ↔ P (token_hash r, grant_of r)) →
  tokens_ok (tables w') ∧ deleted ok (base.filter P (grants_of (tables w))) (grants_of (tables w)) (grants_of (tables w')) ∧
  other_tables (tables w') = other_tables (tables w).
Proof.
  unfold delete_tokens. intros E Hok HP. destruct (exec _ w) as [r w1] eqn:X. injection E as <- <-. destruct r as [[]|].
  - apply exec_ok in X. injection X as <-. rewrite bool_decide_eq_true_2 by eauto.
    destruct (filter_tokens_spec p P (tables w) Hok HP) as [H1 H2]. by split_and!.
  - pose proof (exec_fail _ _ _ _ X) as ->. rewrite bool_decide_eq_false_2 by (by intros [? ?]). split_and!; [done| |done].
    split; [done|]. intros Hup. by apply Hup in X.
Qed.

Lemma touch_step id now (w w' : W) a : run_token_op (TTouch id now) w = (a, w') → tokens_ok (tables w) →
  step_ok (TTouch id now) a (tables w) (tables w').
Proof.
  cbn [run_token_op]. unfold update_token_last_used. intros E Hok. destruct (exec _ w) as [r w1] eqn:X. injection E as <- <-.
  destruct r as [[]|].
  2:{ pose proof (exec_fail _ _ _ _ X) as ->. apply step_same; [done|]. split; [done|]. intros Hup. by apply Hup in X. }
  apply exec_ok in X. injection X as <-. destruct (touch_token_spec id now (tables w) Hok) as [H1 H2]. by split.
Qed.

Lemma delete_v2_step id ot owner (w w' : W) a : run_token_op (TDeleteV2 id ot owner) w = (a, w') → tokens_ok (tables w) →
  step_ok (TDeleteV2 id ot owner) a (tables w) (tables w').
Proof.
  cbn [run_token_op]. unfold delete_token. intros E Hok. unfold str_eqb in E. destruct (negb _) eqn:O.
  { apply negb_true_iff, bool_decide_eq_false in O. injection E as <- <-. apply step_same; [done|]. split; [done|by left]. }
  apply negb_false_iff, bool_decide_eq_true in O.
  destruct (exec _ w) as [r w1] eqn:X. injection E as <- <-. destruct r as [b|].
  2:{ pose proof (exec_fail _ _ _ _ X) as ->. apply step_same; [done|]. split; [done|]. right. right. intros Hup. by apply Hup in X. }
  apply exec_ok in X. injection X as <- <-.
  set (P := λ kg : string * grant, ¬ (g_id kg.2 = id ∧ g_user kg.2 = owner)).
  destruct (filter_tokens_spec (owned_token id owner) P (tables w) Hok) as [H1 H2].
  { intros r _. unfold owned_token, P, has_no. cbn. rewrite andb_false_iff, !Z.eqb_neq. lia. }
  split; [done|]. split; [|done]. destruct (existsb _ _) eqn:F; cbn [is_ok spec_token_op].
  - split; [done|]. split; [|exact H2]. apply existsb_exists in F as (r & Hr%list_elem_of_In & Ho). exists (token_hash r), (grant_of r).
    unfold owned_token, has_no in Ho. bool_facts. split; [|done]. apply registry_in; [apply Hok|done].
  - assert (Hnone : none_of id owner (grants_of (tables w))); [|split; [|by right; left]].
    2:{ rewrite H2. apply map_filter_id. intros h g Hg. by apply Hnone in Hg. }
    intros h g Hg [Hi Hu]. apply registry_some in Hg as (r & Hr%list_elem_of_In & <- & <-); [|apply Hok].
    rewrite <-not_true_iff_false, existsb_exists in F. apply F. exists r. split; [done|].
    unfold owned_token, has_no. rewrite andb_true_iff, !Z.eqb_eq. done.
Qed.

Lemma not_owned id owner t : tokens_ok t → find (owned_token id owner) (t_rows (n_tokens t)) = None → none_of id owner (grants_of t).
Proof.
  intros Hok F h g Hg [Hi Hu]. apply registry_some in Hg as (r & Hr%list_elem_of_In & <- & <-); [|apply Hok].
  apply (find_none _ _ F) in Hr. unfold owned_token, has_no in Hr. apply andb_false_iff in Hr as [Hr|Hr]; by apply Z.eqb_neq in Hr.
Qed.

Lemma readable_times t r : tokens_ok t → r ∈ t_rows (n_tokens t) → ∃ expires created,
  scan_null_time (r_stamp r) = Some expires ∧ scan_time (tk_created (r_rest r)) = Some created ∧ scan_time (r_stamp r) = expires.
Proof.
  intros (_ & _ & _ & H4) [a Ha]%H4. revert Ha. unfold scan_token. destruct (tk_name _); [|done].
  destruct (scan_time (tk_created _)) as [created|]; [|done]. destruct (scan_null_time (tk_used _)); [|done]. cbn.
  destruct (r_stamp r); try done; cbn; intros _; eauto.
Qed.

Lemma rotate_step id ot owner rand (w w' : W) a : run_token_op (TRotate id ot owner rand) w = (a, w') → tokens_ok (tables w) →
  step_ok (TRotate id ot owner rand) a (tables w) (tables w').
Proof.
  cbn [run_token_op]. unfold rotate_token. intros E Hok. destruct (negb _) eqn:O.
  { injection E as <- <-. apply step_same; [done|]. split; [done|]. intros ->. discriminate O. }
  unfold rotate_lookup in E. destruct (query _ w) as [q w1] eqn:X.
  destruct (query_cases _ (λ t, find (owned_token id owner) (t_rows (n_tokens t))) w) as [(w2 & X' & Ht)|(w2 & X' & Ht)].
  2:{ rewrite X in X'. injection X' as -> <-. injection E as <- <-. rewrite Ht. apply step_same; [done|]. split; [done|]. split; [done|].
      intros Hup. by apply Hup in X. }
  rewrite X in X'. injection X' as -> <-. destruct (find _ _) as [r0|] eqn:F.
  2:{ injection E as <- <-. rewrite Ht. apply step_same; [done|]. split; [done|]. by apply not_owned. }
  apply find_some in F as [Hr0%list_elem_of_In Ho]. destruct (readable_times _ r0 Hok Hr0) as (expires & created & S & Hcr & Hexp).
  rewrite S, Hcr in E. unfold rotate_update in E. destruct (generate_token_with_prefix _ rand) as [token|] eqn:G.
  2:{ injection E as <- <-. rewrite Ht. apply step_same; [done|]. by split. }
  destruct (exec _ w1) as [b w3] eqn:Y. injection E as <- <-. rewrite <-Ht in Hok, Hr0 |- *. destruct b as [b|].
  2:{ pose proof (exec_fail _ _ _ _ Y) as ->. apply step_same; [done|]. split; [done|]. left. intros Hup. by apply Hup in Y. }
  apply exec_ok in Y. assert (Hother : other_tables (tables w3) = other_tables (tables w1)).
  { unfold rotate_row in Y. case_decide; injection Y as _ <-; done. }
  destruct b.
  2:{ pose proof (rotate_row_refused _ _ _ _ _ Y Hok). pose proof (rotate_row_spec _ _ _ _ _ _ _ _ Y Hok Hr0 Ho) as E. cbn in E. rewrite E. apply step_same; [done|]. split; [done|]. right. rewrite G. eauto. }
  pose proof (rotate_row_spec _ _ _ _ _ _ _ _ Y Hok Hr0 Ho) as [H1 H2]. split; [done|]. split; [|done]. unfold owned_token, has_no in Ho. bool_facts.
  exists (token_hash r0), (grant_of r0). cbn. split_and!; try done. apply registry_in; [apply Hok|done].
Qed.

Lemma token_step o (w w' : W) a : run_token_op o w = (a, w') → tokens_ok (tables w) → step_ok o a (tables w) (tables w').
Proof.
  destruct o; intros E Hok; try (by eauto using create_step, create_v2_step, get_step, validate_step, touch_step, delete_v2_step, rotate_step).
  - cbn in E. destruct (delete_api_token id w) as [ok w1] eqn:X. injection E as <- <-.
    apply (delete_step _ (λ kg, g_id kg.2 ≠ id)) in X as (H1 & H2 & H3); [by split_and!|done|].
    intros r _. unfold has_no. cbn. by rewrite Z.eqb_neq.
  - cbn in E. destruct (delete_tokens_by_user_id user w) as [ok w1] eqn:X. injection E as <- <-.
    apply (delete_step _ (λ kg, g_user kg.2 ≠ user)) in X as (H1 & H2 & H3); [by split_and!|done|].
    intros r _. cbn. by rewrite Z.eqb_neq.
Qed.

(** C5: the two token models over one table implement a table of grants.  Over every
    sequence of their operations, started on a table whose digests and ids are unique and
    whose rows scan: a token is accepted only while a grant with its digest exists and has
    not ended, and the answer carries the grant's owner, end and (in the second model; the
    first does not read it) scope, where the first model ends a token at its instant of
    expiry and the second, which also checks the form, after it; it is answered unknown only
    where there is no grant and ended only where the grant has ended, and the driver's error
    only by a driver that can fail; creating adds one grant with the owner, scope and end
    asked for, under a new digest, and errs only for its stated reasons; deleting removes
    exactly the grants it names, a user's own where the user is given; rotating replaces the
    digest of one of the owner's grants and keeps everything else of it; every error leaves
    the grants alone; and no other table is touched. *)
Theorem tokens_refine os (w w' : W) l : run_token_ops os w = (l, w') → tokens_ok (tables w) →
  tokens_ok (tables w') ∧ spec_token_ops os l (grants_of (tables w)) (grants_of (tables w')) ∧
  other_tables (tables w') = other_tables (tables w).
Proof.
  revert w l. induction os as [|o os IH]; intros w l E Hok; cbn in E.
  - injection E as <- <-. split_and!; [done|constructor|done].
  - destruct (run_token_op o w) as [a w1] eqn:S. destruct (run_token_ops os w1) as [l1 w2] eqn:R. injection E as <- <-.
    apply token_step in S as (H1 & H2 & H3); [|done]. apply IH in R as (R1 & R2 & R3); [|done].
    split_and!; [done|by econstructor|congruence].
Qed.
End Refinement.

(** * Witness and findings *)

Definition ann : user_row :=
  UserRow 1 "ann" "ann@example.org" "" (Some "user") (Standing true true false None false None) new_profile VNull VNull VNull None.
Definition fresh_users : users_tables :=
  UsersTables (Accounts [ann] 2 [1]) {[1]} ([], 1) ([], 1) (Table [] 1) (Table [] 1) (Table [] 1) (Table [] 1) (Table [] 1) (Table [] 1) ([], []).
Definition sixteen (b : Z) : option (list Z) := Some (replicate 16 b).

Lemma tokens_refine_witness :
  let os := [TCreateV2 true "user" 1 "ci" "read" 100 (sixteen 1) 10 10 10; TValidate "usr_01010101010101010101010101010101" 110;
             TGet "usr_01010101010101010101010101010101" 110; TRotate 1 "user" 1 (sixteen 2);
             TGet "usr_02020202020202020202020202020202" 109; TDeleteV2 1 "user" 2] in
  let '(l, w) := run_token_ops os (Reliable fresh_users) in
  map (λ a, match a with TToken r => is_ok r | TDone b => b end) l = [true; true; false; true; true; false] ∧
  spec_token_ops os l (grants_of fresh_users) (grants_of (tables w)).
Proof.
  cbv zeta. set (os := [_; _; _; _; _; _]). destruct (run_token_ops os (Reliable fresh_users)) as [l w] eqn:E.
  assert (Hok : tokens_ok (tables (Reliable fresh_users))).
  { unfold tokens_ok. cbn. split_and!; [constructor|constructor|by intros r ?%not_elem_of_nil|by intros r ?%not_elem_of_nil]. }
  pose proof (tokens_refine _ _ _ _ E Hok) as (_ & H & _). split; [|exact H].
  vm_compute in E. injection E as <- _. reflexivity.
Defined.

(** A rotation whose row is deleted between its two statements reports a token that opens
    nothing. *)
Lemma rotated_into_nothing :
  let '(a, w) := create_token true "user" 1 "ci" "read" 100 (sixteen 1) 10 10 10 (Reliable fresh_users) in
  let '(found, w) := rotate_lookup 1 1 w in
  let '(_, w) := delete_api_token 1 w in
  match found with
  | Ok existing =>
      let '(r, w) := rotate_update 1 existing (sixteen 2) w in
      match r with Ok a => fst (get_by_token (at_token a) 20 w) = Fail TokenNotFound | Fail _ => False end
  | Fail _ => False
  end.
Proof. vm_compute. reflexivity. Qed.

(** Rotating a token that has ended succeeds and yields a token that has ended. *)
Lemma rotated_expired :
  let '(a, w) := create_token true "user" 1 "ci" "read" 100 (sixteen 1) 10 10 10 (Reliable fresh_users) in
  let '(r, w) := rotate_token 1 "user" 1 (sixteen 2) w in
  match r with Ok a => fst (validate_token (at_token a) 200 w) = Fail TokenExpired | Fail _ => False end.
Proof. vm_compute. reflexivity. Qed.
