(* ===== verification/Names.v ===== *)
(** User names and e-mail addresses (util/username.go, util/blocklist.go, util/email.go):
    what may be registered, in which form it is stored, and what is shown of an address. *)
From S2P Require Import Prelude GoStrings GoRegexp.
From Stdlib Require Import Ascii.

(** * The blocklist *)

Definition username_blocklist : list string :=
  ["admin"; "administrator"; "root"; "system"; "sysadmin"; "superuser"; "master"; "owner"; "operator";
   "manager"; "moderator"; "mod"; "staff"; "support"; "helpdesk"; "help"; "service"; "daemon"; "server";
   "host"; "node"; "cluster"; "api"; "www"; "web"; "mail"; "email"; "smtp"; "ftp"; "ssh"; "dns"; "proxy";
   "gateway"; "router"; "firewall"; "localhost"; "local"; "internal"; "external"; "public"; "private";
   "network"; "database"; "db"; "cache"; "redis"; "mysql"; "postgres"; "mongodb"; "elastic"; "nginx";
   "apache"; "docker"; "app"; "application"; "bot"; "robot"; "crawler"; "spider"; "scraper"; "webhook";
   "callback"; "cron"; "scheduler"; "worker"; "queue"; "job"; "task"; "process"; "service"; "microservice";
   "lambda"; "function"; "auth"; "authentication"; "login"; "logout"; "signin"; "signout"; "signup";
   "register"; "password"; "passwd"; "token"; "oauth"; "sso"; "saml"; "ldap"; "kerberos"; "security";
   "secure"; "ssl"; "tls"; "certificate"; "cert"; "key"; "secret"; "credential"; "session"; "guest";
   "anonymous"; "anon"; "user"; "users"; "member"; "members"; "subscriber"; "editor"; "author"; "contributor";
   "reviewer"; "auditor"; "analyst"; "developer"; "dev"; "devops"; "engineer"; "architect"; "designer";
   "tester"; "qa"; "billing"; "finance"; "legal"; "hr"; "sales"; "marketing"; "ceo"; "cto"; "cfo"; "coo";
   "founder"; "cofounder"; "account"; "accounts"; "profile"; "profiles"; "settings"; "config";
   "configuration"; "dashboard"; "panel"; "console"; "portal"; "home"; "index"; "main"; "default"; "null";
   "nil"; "undefined"; "void"; "true"; "false"; "test"; "debug"; "demo"; "example"; "sample"; "temp";
   "temporary"; "tmp"; "backup"; "archive"; "log"; "logs"; "audit"; "report"; "reports"; "analytics"; "stats";
   "status"; "api"; "rest"; "graphql"; "grpc"; "websocket"; "ws"; "wss"; "http"; "https"; "endpoint";
   "endpoints"; "route"; "routes"; "path"; "url"; "uri"; "callback"; "hook"; "hooks"; "event"; "events";
   "stream"; "blog"; "news"; "article"; "articles"; "post"; "posts"; "page"; "pages"; "feed"; "rss"; "atom";
   "sitemap"; "robots"; "favicon"; "static"; "assets"; "images"; "image"; "img"; "media"; "upload"; "uploads";
   "download"; "downloads"; "file"; "files"; "document"; "documents"; "contact"; "message"; "messages";
   "chat"; "notification"; "notifications"; "alert"; "alerts"; "inbox"; "outbox"; "sent"; "draft"; "drafts";
   "spam"; "abuse"; "report"; "flag"; "block"; "mute"; "ban"; "shop"; "store"; "cart"; "checkout"; "order";
   "orders"; "invoice"; "invoices"; "payment"; "payments"; "subscription"; "subscriptions"; "plan"; "plans";
   "pricing"; "billing"; "refund"; "coupon"; "discount"; "follow"; "follower"; "followers"; "following";
   "friend"; "friends"; "like"; "likes"; "share"; "shares"; "comment"; "comments"; "reply"; "mention";
   "mentions"; "tag"; "tags"; "group"; "groups"; "team"; "teams"; "community"; "communities"; "forum";
   "forums"; "channel"; "channels"; "official"; "verified"; "trusted"; "partner"; "affiliate"; "sponsor";
   "brand"; "trademark"; "copyright"; "legal"; "terms"; "privacy"; "policy"; "policies"; "tos"; "eula";
   "gdpr"; "dmca"; "abuse"; "fuck"; "shit"; "ass"; "bitch"; "bastard"; "damn"; "cunt"; "dick"; "penis";
   "vagina"; "sex"; "porn"; "xxx"; "nude"; "naked"; "nsfw"; "kill"; "murder"; "death"; "die"; "suicide";
   "hate"; "nazi"; "hitler"; "racist"; "racism"; "terrorist"; "terrorism"; "isis"; "alqaeda"; "0"; "1"; "123";
   "1234"; "12345"; "000"; "111"; "666"; "911"; "420"; "69"; "info"; "noreply"; "no-reply"; "donotreply";
   "mailer"; "postmaster"; "webmaster"; "hostmaster"; "abuse"; "spam"; "junk"; "trash"; "wthr"; "webappsgo"].

Definition critical_substring_terms : list string := ["admin"; "root"; "system"; "mod"; "official"; "verified"].

Definition in_suffix (c : ascii) : bool :=
  in_09 c || bool_decide (c = dash) || bool_decide (c = byte 95) || bool_decide (c = dot).
Definition is_simple_suffix (s : string) : bool := is_empty s || forallb in_suffix (bytes s).

Definition at_sign : ascii := byte 64.

(** IsUsernameBlocked *)
Definition is_username_blocked (email : string) : bool :=
  match split_byte email at_sign with
  | local :: _ :: _ =>
      let username := to_lower (trim_space local) in
      is_empty local || is_empty username ||
      existsb (λ b, str_eqb username (to_lower b)) username_blocklist ||
      existsb (contains username) critical_substring_terms ||
      existsb (λ b, let b := to_lower b in
        negb (existsb (str_eqb b) critical_substring_terms) && has_prefix username b &&
        is_simple_suffix (of_bytes (drop (String.length b) (bytes username)))) username_blocklist
  | _ => true
  end.

(** * User names *)

Definition min_username_length : nat := 2.
Definition max_username_length : nat := 39.

Definition name_char (c : ascii) : bool := in_az c || in_09 c.
Definition name_or_dash (c : ascii) : bool := name_char c || bool_decide (c = dash).
Definition username_regex : regex :=
  Cat (Class name_char) (optional (Cat (Many (Class name_or_dash)) (Class name_char))).

Inductive username_error :=
| Whitespace | Uppercase | TooShort | TooLong | BadStart | BadEnd | BadChar | BadFormat | TwoHyphens | Reserved.

(** ValidateUsername *)
Definition validate_username (u : string) : result username_error unit :=
  if negb (str_eqb u (trim_space u)) then Fail Whitespace
  else if match_within (Class in_AZ) u then Fail Uppercase
  else if (String.length u <? min_username_length)%nat then Fail TooShort
  else if (max_username_length <? String.length u)%nat then Fail TooLong
  else if negb (match_full username_regex u) then
    if negb (match_start (Class name_char) u) then Fail BadStart
    else if match_end (just dash) u then Fail BadEnd
    else if match_within (Class (λ c, negb (name_or_dash c))) u then Fail BadChar
    else Fail BadFormat
  else if contains u "--" then Fail TwoHyphens
  else if is_username_blocked (u +:+ "@example.com") then Fail Reserved
  else Ok tt.

Definition normalize_username (u : string) : string := to_lower (trim_space u).

(** ValidatePhone and NormalizePhone *)
Definition phone_char (c : ascii) : bool := in_09 c || bool_decide (c = byte 43).
Definition normalize_phone (phone : string) : string := of_bytes (List.filter phone_char (bytes phone)).
Definition validate_phone (phone : string) : bool :=
  is_empty phone ||
  let n := String.length (normalize_phone phone) in (10 <=? n)%nat && (n <=? 15)%nat.

(** * E-mail addresses *)

Definition local_char (c : ascii) : bool :=
  name_or_dash c || bool_decide (c = dot) || bool_decide (c = byte 43) || bool_decide (c = byte 95).
Definition domain_char (c : ascii) : bool := name_or_dash c || bool_decide (c = dot).
Definition local_part_regex : regex := some (Class local_char).
Definition tld_regex : regex := Cat (just dot) (at_least 2 (Class in_az)).
Definition domain_regex : regex :=
  Cat (Class name_char) (Cat (Many (Class domain_char)) (Cat (Class name_char) tld_regex)).
Definition single_char_domain_regex : regex := Cat (Class name_char) tld_regex.

Definition email_domain_blocklist : list string :=
  ["tempmail.com"; "throwaway.email"; "guerrillamail.com"; "mailinator.com"; "10minutemail.com";
   "trashmail.com"; "fakeinbox.com"; "sharklasers.com"; "guerrillamail.info"; "grr.la"; "spam4.me";
   "temp-mail.org"; "disposablemail.com"; "yopmail.com"; "maildrop.cc"; "getairmail.com"; "mohmal.com";
   "tempail.com"; "discard.email"; "mailnesia.com"].

Inductive email_error :=
| EmailTooLong | InvalidFormat | LocalPartLength | LocalPartDot | ConsecutiveDots | DomainLength | DomainNoTLD
| LocalPartChars | DomainFormat | DisposableDomain.

Definition normalize_email (e : string) : string := trim_space (to_lower e).

(** ValidateEmail *)
Definition validate_email (email : string) : result email_error unit :=
  let email := normalize_email email in
  if (254 <? String.length email)%nat then Fail EmailTooLong
  else match split_byte email at_sign with
  | [local; domain] =>
      if is_empty local || (64 <? String.length local)%nat then Fail LocalPartLength
      else if has_prefix local "." || has_suffix local "." then Fail LocalPartDot
      else if contains local ".." then Fail ConsecutiveDots
      else if is_empty domain || (255 <? String.length domain)%nat then Fail DomainLength
      else if negb (contains domain ".") then Fail DomainNoTLD
      else if negb (match_full local_part_regex local) then Fail LocalPartChars
      else if negb (match_full domain_regex domain) && negb (match_full single_char_domain_regex domain)
      then Fail DomainFormat
      else Ok tt
  | _ => Fail InvalidFormat
  end.

Definition validate_email_with_blocklist (email : string) : result email_error unit :=
  let? _ := validate_email email in
  match split_byte (normalize_email email) at_sign with
  | [_; domain] => if existsb (str_eqb domain) email_domain_blocklist then Fail DisposableDomain else Ok tt
  | _ => Fail InvalidFormat
  end.

(** A byte converted to a string: the UTF-8 form of the code point of that number *)
Definition byte_rune (c : ascii) : string :=
  if (code c <? 128)%N then String c ""
  else of_bytes (utf8 [192 + code c / 64; 128 + code c mod 64])%N.
Definition char_at (s : string) (n : nat) : string := default "" (byte_rune <$> bytes s !! n).

(** MaskEmail *)
Definition mask_local (local : string) : string :=
  let n := String.length local in
  if (n <=? 2)%nat then repeat_str "*" n
  else char_at local 0 +:+ repeat_str "*" (n - 2) +:+ char_at local (n - 1).
Definition mask_domain (domain : string) : string :=
  let parts := split_byte domain dot in
  if (2 <=? length parts)%nat then
    let first := default "" (head parts) in
    let tld := default "" (last parts) in
    if (String.length first <=? 1)%nat then first +:+ "." +:+ tld
    else char_at first 0 +:+ repeat_str "*" (String.length first - 1) +:+ "." +:+ tld
  else repeat_str "*" (String.length domain).
Definition mask_email (email : string) : string :=
  match split_byte (normalize_email email) at_sign with
  | [local; domain] => mask_local local +:+ "@" +:+ mask_domain domain
  | _ => "***"
  end.

Example username_examples :
  map validate_username ["alice"; " bob"; "Bob"; "a"; "-ab"; "ab-"; "a_b"; "a--b"; "modern"; "test123"; "testing"; "007"; "1-2"] =
  [Ok tt; Fail Whitespace; Fail Uppercase; Fail TooShort; Fail BadStart; Fail BadEnd; Fail BadChar; Fail TwoHyphens;
   Fail Reserved; Fail Reserved; Ok tt; Fail Reserved; Fail Reserved].
Proof. vm_compute. reflexivity. Qed.
Example email_examples :
  map validate_email ["Joe.Doe+x@Example.org "; "a@b.co"; "joe"; "@b.co"; ".a@b.co"; "a..b@c.de"; "a@b"; "a!@b.co"; "a@-b.co"; "a@b.c1"] =
  [Ok tt; Ok tt; Fail InvalidFormat; Fail LocalPartLength; Fail LocalPartDot; Fail ConsecutiveDots; Fail DomainNoTLD;
   Fail LocalPartChars; Fail DomainFormat; Fail DomainFormat].
Proof. vm_compute. reflexivity. Qed.
Example mask_examples :
  map mask_email ["John.Roman@Example.com"; "ab@x.org"; "joe@mail.example.co.uk"; "joe"] =
  ["j********n@e******.com"; "**@x.org"; "j*e@m***.uk"; "***"].
Proof. vm_compute. reflexivity. Qed.

(** * Groups joined by single separators *)

Section Groups.
Context (p : ascii → bool) (sep : ascii).

Definition group (g : string) : Prop := g ≠ "" ∧ Forall (λ c, p c = true) (bytes g).

Lemma or_other c : c ≠ sep → p c || bool_decide (c = sep) = p c.
Proof. intros H. rewrite bool_decide_eq_false_2 by done. apply orb_false_r. Qed.

(** The pieces after the first character of a group *)
Definition rest_groups (ws : list string) : Prop :=
  match ws with [] => False | w :: ws => Forall (λ c, p c = true) (bytes w) ∧ Forall group ws end.

Lemma split_rest s :
  Forall group (split_byte s sep) ↔ s ≠ "" ∧ head (bytes s) ≠ Some sep ∧ rest_groups (split_byte s sep).
Proof.
  destruct s as [|c s]; cbn [split_byte].
  - split; [by intros [[? _] _]%Forall_cons|by intros [? _]].
  - case_decide as E; [split; [by intros [[? _] _]%Forall_cons|]|].
    + subst. by intros (_ & Hh & _).
    + destruct (split_byte s sep) as [|w ws]; rewrite Forall_cons; cbn; unfold group.
      * split; [|intros (_ & _ & H & _); by repeat split].
        intros [[_ H] _]. split_and!; [done|congruence|exact H|done].
      * split; [|intros (_ & _ & H & ?); by repeat split].
        intros [[_ H] Hws]. split_and!; [done|congruence|exact H|done].
Qed.

Lemma rest_groups_spec s : rest_groups (split_byte s sep) ↔
  Forall (λ c, (p c || bool_decide (c = sep)) = true) (bytes s) ∧ last (bytes s) ≠ Some sep ∧ contains s (String sep (String sep "")) = false.
Proof.
  induction s as [|c s IH].
  - cbn. split; [done|]. intros _. split; constructor.
  - cbn [contains]. change (bytes (String c s)) with (c :: bytes s). rewrite Forall_cons, orb_false_iff.
    cbn [split_byte]. case_decide as E.
    + subst c. cbn [rest_groups]. rewrite split_rest, IH.
      assert (Hl : s ≠ "" → last (sep :: bytes s) = last (bytes s)) by (destruct s; done).
      assert (Hp : has_prefix (String sep s) (String sep (String sep "")) = false ↔ head (bytes s) ≠ Some sep).
      { rewrite <-not_true_iff_false, has_prefix_spec. apply not_iff_compat. split.
        - intros (t & E). injection E as ->. done.
        - destruct s as [|d s]; [done|]. intros E. injection E as ->. by exists s. }
      assert (Hs : p sep || bool_decide (sep = sep) = true) by (rewrite bool_decide_eq_true_2 by done; apply orb_true_r).
      rewrite Hp, Hs. split.
      * intros (_ & Hne & Hh & Hc & Hls & Hcs). rewrite Hl by done. by split_and!.
      * intros ((_ & Hc) & Hls & Hh & Hcs). assert (Hne : s ≠ "").
        { intros Es. rewrite Es in Hls. by apply Hls. }
        rewrite Hl in Hls by done. by split_and!.
    + assert (Hp : has_prefix (String c s) (String sep (String sep "")) = false).
      { unfold has_prefix. cbn [String.prefix]. destruct (ascii_dec _ c); [|done]. by subst. }
      assert (Hl : last (c :: bytes s) ≠ Some sep ↔ last (bytes s) ≠ Some sep).
      { destruct s as [|d s]; [|done]. split; [done|]. by intros _ [= ?]. }
      rewrite Hp, Hl, (or_other c) by done.
      assert (Hr : rest_groups (match split_byte s sep with [] => [String c ""] | w :: ws => String c w :: ws end) ↔
        p c = true ∧ rest_groups (split_byte s sep)).
      { destruct (split_byte s sep) as [|w ws] eqn:Es.
        - by apply split_byte_ne in Es.
        - cbn. rewrite Forall_cons. tauto. }
      rewrite Hr, IH. tauto.
Qed.


(** All pieces of a text are groups when it is not empty, holds no other character, starts
    and ends with none of the separators and has no two in a row. *)
Lemma groups_spec s : Forall group (split_byte s sep) ↔
  s ≠ "" ∧ Forall (λ c, (p c || bool_decide (c = sep)) = true) (bytes s) ∧ head (bytes s) ≠ Some sep ∧
  last (bytes s) ≠ Some sep ∧ contains s (String sep (String sep "")) = false.
Proof. rewrite split_rest, rest_groups_spec. tauto. Qed.
End Groups.

(** * What a user name is *)

(** Groups of lower-case letters and digits, joined by single dashes *)
Definition well_formed (u : string) : Prop :=
  (2 ≤ String.length u ≤ 39)%nat ∧ Forall (group name_char) (split_byte u dash).

(** Reserved: it holds a critical term, or is a listed word followed by digits and marks *)
Definition reserved (u : string) : Prop :=
  (∃ c a b, c ∈ critical_substring_terms ∧ u = a +:+ c +:+ b) ∨
  (∃ w x, w ∈ username_blocklist ∧ u = w +:+ x ∧ Forall (λ c, in_suffix c = true) (bytes x)).

Lemma char_facts c : (name_or_dash c = true → settled c = true ∧ c ≠ at_sign ∧ in_AZ c = false) ∧
  name_or_dash c = name_char c || bool_decide (c = dash) ∧ name_char dash = false.
Proof.
  destruct c as [[] [] [] [] [] [] [] []];
    (split; [intros H; first [vm_compute in H; discriminate H|by vm_compute]|by vm_compute]).
Qed.
Lemma name_or_dash_settled c : name_or_dash c = true → settled c = true.
Proof. intros H. exact (proj1 (proj1 (char_facts c) H)). Qed.
Lemma name_char_or c : name_char c = true → name_or_dash c = true.
Proof. unfold name_or_dash. by intros ->. Qed.
Lemma name_char_dash c : name_char c = true → c ≠ dash.
Proof. intros H ->. discriminate H. Qed.
Lemma name_or_dash_other c : c ≠ dash → name_or_dash c = name_char c.
Proof. intros H. unfold name_or_dash. rewrite bool_decide_eq_false_2 by done. apply orb_false_r. Qed.

(** The expression accepts the names whose ends are no dashes. *)
Lemma username_regex_spec u : match_full username_regex u = true ↔
  u ≠ "" ∧ Forall (λ c, name_or_dash c = true) (bytes u) ∧ head (bytes u) ≠ Some dash ∧ last (bytes u) ≠ Some dash.
Proof.
  unfold match_full, username_regex, optional. rewrite matcher_spec, denotes_cat.
  setoid_rewrite denotes_class. setoid_rewrite denotes_or. setoid_rewrite denotes_cat.
  setoid_rewrite denotes_class. setoid_rewrite denotes_many_class. setoid_rewrite denotes_blank.
  assert (Hne : u ≠ "" ↔ bytes u ≠ []) by (by destruct u). rewrite Hne. split.
  - intros (l1 & l2 & -> & (c & -> & Hc) & [(l3 & ? & -> & Hl & (d & -> & Hd))| ->]); split_and!; try done.
    + constructor; [by apply name_char_or|]. apply Forall_app. split; [done|]. constructor; [by apply name_char_or|done].
    + intros [= ->]. discriminate Hc.
    + change ([c] ++ l3 ++ [d]) with ((c :: l3) ++ [d]). rewrite last_snoc. intros [= ->]. discriminate Hd.
    + constructor; [by apply name_char_or|done].
    + intros [= ->]. discriminate Hc.
    + intros [= ->]. discriminate Hc.
  - intros (Hu & Hall & Hh & Hl). destruct (bytes u) as [|c l]; [done|]. apply Forall_cons in Hall as [Hc Hall].
    exists [c], l. split; [done|]. split.
    { exists c. split; [done|]. rewrite <-name_or_dash_other; [done|]. intros ->. by apply Hh. }
    destruct (last l) as [d|] eqn:El; [|right; by apply last_None]. left. apply last_Some in El as (k & ->).
    apply Forall_app in Hall as [Hk [Hd _]%Forall_cons].
    exists k, [d]. split_and!; [done|done|]. exists d. split; [done|].
    rewrite <-name_or_dash_other; [done|]. intros ->. apply Hl.
    change (c :: k ++ [dash]) with ((c :: k) ++ [dash]). apply last_snoc.
Qed.

(** The names that pass the expression and the dash rule are the well-formed ones. *)
Lemma shape_spec u :
  match_full username_regex u = true ∧ contains u "--" = false ↔ Forall (group name_char) (split_byte u dash).
Proof. rewrite username_regex_spec, groups_spec. tauto. Qed.

Lemma group_chars u : Forall (group name_char) (split_byte u dash) → Forall (λ c, name_or_dash c = true) (bytes u).
Proof. intros [H _]%shape_spec. by apply username_regex_spec in H as (_ & ? & _). Qed.

Lemma name_settled u : Forall (λ c, name_or_dash c = true) (bytes u) → to_lower u = u ∧ trim_space u = u.
Proof.
  intros H. assert (Hs : Forall (λ c, settled c = true) (bytes u)).
  { eapply Forall_impl; [exact H|]. intros c. apply name_or_dash_settled. }
  split; [by apply to_lower_settled|by apply trim_space_settled].
Qed.

(** ** The blocklist *)

Lemma blocklist_lower w : w ∈ username_blocklist → to_lower w = w.
Proof.
  assert (H : forallb (λ w, str_eqb (to_lower w) w) username_blocklist = true) by (vm_compute; reflexivity).
  intros Hw. rewrite forallb_forall in H. apply list_elem_of_In in Hw. apply H in Hw.
  by apply bool_decide_eq_true in Hw.
Qed.

Lemma simple_suffix_spec s : is_simple_suffix s = true ↔ Forall (λ c, in_suffix c = true) (bytes s).
Proof.
  unfold is_simple_suffix. rewrite orb_true_iff, is_empty_spec, forallb_forall, Forall_forall.
  setoid_rewrite list_elem_of_In. split; [intros [->|]; done|auto].
Qed.

Lemma drop_prefix w x : of_bytes (drop (String.length w) (bytes (w +:+ x))) = x.
Proof. rewrite bytes_app, length_bytes, drop_app_length. apply of_bytes_bytes. Qed.

Lemma existsb_spec {A} (p : A → bool) l : existsb p l = true ↔ ∃ x, x ∈ l ∧ p x = true.
Proof. rewrite existsb_exists. by setoid_rewrite list_elem_of_In. Qed.

Lemma blocked_spec u : u ≠ "" → Forall (λ c, name_or_dash c = true) (bytes u) →
  is_username_blocked (u +:+ "@example.com") = true ↔ reserved u.
Proof.
  intros Hne Hu. destruct (name_settled u Hu) as [Hl Ht]. unfold is_username_blocked.
  change "@example.com" with (String at_sign "example.com"). rewrite split_byte_app.
  2:{ intros Hin. rewrite Forall_forall in Hu. apply Hu in Hin. vm_compute in Hin. discriminate Hin. }
  rewrite (split_byte_free "example.com") by (refine (bool_decide_unpack _ _); vm_compute; exact I).
  cbv zeta. rewrite Ht, Hl. assert (is_empty u = false) as -> by (by apply bool_decide_eq_false). cbn [orb].
  rewrite !orb_true_iff, !existsb_spec. unfold reserved. split.
  - intros [[(w & Hw & E)|(c & Hc & E)]|(w & Hw & E)].
    + apply bool_decide_eq_true in E. rewrite blocklist_lower in E by done. right. exists w, "".
      split_and!; [done| |constructor]. by rewrite E, app_empty.
    + apply contains_spec in E as (a & b & ->). left. by exists c, a, b.
    + rewrite blocklist_lower in E by done. bool_facts. apply has_prefix_spec in H1 as [x ->].
      right. exists w, x. split_and!; [done|done|]. rewrite drop_prefix in H0. by apply simple_suffix_spec.
  - intros [(c & a & b & Hc & ->)|(w & x & Hw & -> & Hx)].
    + left. right. exists c. split; [done|]. apply contains_spec. by exists a, b.
    + destruct (existsb (str_eqb w) critical_substring_terms) eqn:E.
      * left. right. apply existsb_spec in E as (c & Hc & E). apply bool_decide_eq_true in E as ->.
        exists c. split; [done|]. apply contains_spec. by exists "", x.
      * right. exists w. split; [done|]. rewrite blocklist_lower, E by done. cbn [negb andb].
        rewrite drop_prefix. apply andb_true_iff. split; [|by apply simple_suffix_spec].
        apply has_prefix_spec. by exists x.
Qed.

(** ** The order of the checks *)

Lemma shape_passes u : Forall (group name_char) (split_byte u dash) →
  str_eqb u (trim_space u) = true ∧ match_within (Class in_AZ) u = false.
Proof.
  intros H%group_chars. split.
  - apply bool_decide_eq_true. symmetry. by apply name_settled.
  - apply not_true_iff_false. rewrite match_within_class, Exists_exists. intros (c & Hin & Hc).
    rewrite Forall_forall in H. apply H in Hin. pose proof (proj1 (char_facts c) Hin) as (_ & _ & Hn). congruence.
Qed.

Definition length_ok (u : string) : bool :=
  negb (String.length u <? min_username_length)%nat && negb (max_username_length <? String.length u)%nat.
Lemma length_ok_spec u : length_ok u = true ↔ (2 ≤ String.length u ≤ 39)%nat.
Proof.
  unfold length_ok, min_username_length, max_username_length.
  rewrite andb_true_iff, !negb_true_iff, !Nat.ltb_ge. tauto.
Qed.

(** A name that is not well formed is refused for its form, and for a reason that can be named. *)
Lemma ill_formed_refused u : ¬ well_formed u →
  ∃ e, validate_username u = Fail e ∧ e ≠ Reserved ∧ e ≠ BadFormat.
Proof.
  intros H. unfold validate_username.
  destruct (str_eqb u _); cbn [negb]; [|eauto]. destruct (match_within (Class in_AZ) u); [eauto|].
  destruct (_ <? min_username_length)%nat eqn:L1; [eauto|]. destruct (max_username_length <? _)%nat eqn:L2; [eauto|].
  assert (Hl : (2 ≤ String.length u ≤ 39)%nat) by (apply length_ok_spec; unfold length_ok; by rewrite L1, L2).
  destruct (match_full username_regex u) eqn:M; cbn [negb].
  - destruct (contains u "--") eqn:C; [eauto|]. destruct H. split; [done|]. by apply shape_spec.
  - destruct (match_start _ u) eqn:S; cbn [negb]; [|eauto]. destruct (match_end _ u) eqn:N; [eauto|].
    destruct (match_within _ u) eqn:B; [eauto|]. exfalso. apply not_true_iff_false in M, N, B. apply M.
    apply match_start_class in S as (c & Hc & Hn). apply username_regex_spec. split_and!.
    + by intros ->.
    + rewrite match_within_class in B. apply Forall_Exists_neg in B. eapply Forall_impl; [exact B|].
      intros d Hd. cbn in Hd. destruct (name_or_dash d); [done|]. by destruct Hd.
    + rewrite Hc. intros [= ->]. discriminate Hn.
    + intros Hd. apply N. unfold just. apply match_end_class. exists dash. split; [done|]. by apply bool_decide_eq_true.
Qed.

Lemma well_formed_decided u : well_formed u →
  validate_username u = if is_username_blocked (u +:+ "@example.com") then Fail Reserved else Ok tt.
Proof.
  intros [Hl Hg]. unfold validate_username. destruct (shape_passes u Hg) as [-> ->]. cbn [negb].
  apply length_ok_spec in Hl. unfold length_ok in Hl. apply andb_true_iff in Hl as [?%negb_true_iff ?%negb_true_iff].
  apply shape_spec in Hg as [Hm Hc]. by rewrite H, H0, Hm, Hc.
Qed.

Lemma well_formed_blocked u : well_formed u → is_username_blocked (u +:+ "@example.com") = true ↔ reserved u.
Proof. intros [Hl Hg]. apply blocked_spec; [|by apply group_chars]. intros ->. cbn in Hl. lia. Qed.
Lemma well_formed_normal u : well_formed u → normalize_username u = u.
Proof.
  intros [_ Hg%group_chars]. unfold normalize_username. destruct (name_settled u Hg) as [Hl Ht]. by rewrite Ht.
Qed.

#[export] Instance well_formed_dec u : Decision (well_formed u).
Proof. unfold well_formed, group. apply _. Defined.

(** C40: a user name is accepted exactly when it is 2 to 39 characters of groups of
    lower-case letters and digits, joined by single dashes, and is not reserved: it holds no
    critical term and is no listed word followed by digits and marks.  It is refused as
    reserved exactly when it is well formed and reserved; any other name gets a reason that
    names what is wrong with its form.  An accepted name is stored as it is typed. *)
Theorem validate_username_correct u :
  (validate_username u = Ok tt ↔ well_formed u ∧ ¬ reserved u) ∧
  (validate_username u = Fail Reserved ↔ well_formed u ∧ reserved u) ∧
  (¬ well_formed u → ∃ e, validate_username u = Fail e ∧ e ≠ Reserved ∧ e ≠ BadFormat) ∧
  (validate_username u = Ok tt → normalize_username u = u).
Proof.
  destruct (decide (well_formed u)) as [Hw|Hw].
  - rewrite (well_formed_decided u Hw). pose proof (well_formed_blocked u Hw) as Hb.
    pose proof (well_formed_normal u Hw) as Hn. destruct (is_username_blocked _); cbv iota.
    + assert (Hr : reserved u) by (by apply Hb). split_and!; [split; [done|tauto]|by split|tauto|done].
    + assert (Hr : ¬ reserved u) by (intros Hr; apply Hb in Hr; done). split_and!; [by split|split; [done|tauto]|tauto|done].
  - destruct (ill_formed_refused u Hw) as (e & E & He & Hf). rewrite E. split_and!.
    + split; [done|by intros [? _]].
    + split; [congruence|by intros [? _]].
    + eauto.
    + done.
Qed.

Lemma validate_username_correct_witness :
  normalize_username "jo-3" = "jo-3" ∧ validate_username "jo-3" = Ok tt ∧ validate_username "test-1" = Fail Reserved ∧
  ∃ e, validate_username "x--y" = Fail e ∧ e ≠ Reserved.
Proof.
  split; [apply (validate_username_correct "jo-3"); vm_compute; reflexivity|].
  split; [vm_compute; reflexivity|]. split; [vm_compute; reflexivity|].
  destruct (validate_username_correct "x--y") as (_ & _ & H & _).
  destruct H as (e & ? & ? & _); [|eauto].
  refine (bool_decide_unpack _ _). vm_compute. exact I.
Defined.

(** * What an address is *)

Definition local_plain (c : ascii) : bool := name_or_dash c || bool_decide (c = byte 43) || bool_decide (c = byte 95).

(** Host and top-level domain: the host is made of name characters, dashes and dots and
    ends on both sides with a name character. *)
Definition domain_name (d : string) : Prop :=
  ∃ host tld, d = host +:+ String dot tld ∧
    Forall (λ c, domain_char c = true) (bytes host) ∧
    (∃ c, head (bytes host) = Some c ∧ name_char c = true) ∧ (∃ c, last (bytes host) = Some c ∧ name_char c = true) ∧
    (2 ≤ String.length tld)%nat ∧ Forall (λ c, in_az c = true) (bytes tld).
(** Dot-separated words before the at sign, 64 characters at most. *)
Definition address (local domain : string) : Prop :=
  (String.length local ≤ 64)%nat ∧ Forall (group local_plain) (split_byte local dot) ∧ domain_name domain.

Lemma address_chars c :
  (local_char c = true → settled c = true ∧ c ≠ at_sign) ∧ (domain_char c = true → settled c = true ∧ c ≠ at_sign) ∧
  local_char c = local_plain c || bool_decide (c = dot) ∧ (in_az c = true → domain_char c = true) ∧
  (name_char c = true → domain_char c = true).
Proof.
  destruct c as [[] [] [] [] [] [] [] []];
    repeat split; intros; try (by vm_compute); vm_compute in *; discriminate.
Qed.

Lemma address_local c : local_char c = local_plain c || bool_decide (c = dot).
Proof. by destruct (address_chars c) as (_ & _ & -> & _). Qed.

Lemma local_spec local :
  is_empty local = false ∧ has_prefix local "." = false ∧ has_suffix local "." = false ∧ contains local ".." = false ∧
  match_full local_part_regex local = true ↔ Forall (group local_plain) (split_byte local dot).
Proof.
  rewrite groups_spec, <-!not_true_iff_false, is_empty_spec.
  change "." with (String dot ""). rewrite has_prefix_char, has_suffix_char.
  unfold match_full, local_part_regex. rewrite matcher_spec, denotes_some_class.
  assert (Hne : bytes local ≠ [] ↔ local ≠ "") by (by destruct local). rewrite Hne.
  assert (Hc : Forall (λ c, local_char c = true) (bytes local) ↔
    Forall (λ c, local_plain c || bool_decide (c = dot) = true) (bytes local)).
  { rewrite !Forall_forall. split; intros H c Hin; apply H in Hin; revert Hin; by rewrite (address_local c). }
  rewrite Hc. tauto.
Qed.

Lemma tld_spec l : denotes tld_regex l ↔ ∃ k, l = dot :: k ∧ (2 ≤ length k)%nat ∧ Forall (λ c, in_az c = true) k.
Proof.
  unfold tld_regex. rewrite denotes_cat. setoid_rewrite denotes_just. setoid_rewrite denotes_at_least. split.
  - intros (? & k & -> & -> & Hk). by exists k.
  - intros (k & -> & Hk). by exists [dot], k.
Qed.

#[local] Opaque tld_regex.

Lemma string_eq s t : bytes s = bytes t → s = t.
Proof. intros E. by rewrite <-(of_bytes_bytes s), E, of_bytes_bytes. Qed.

(** The two expressions together accept the domain names. *)
Lemma domain_spec d :
  match_full domain_regex d = true ∨ match_full single_char_domain_regex d = true ↔ domain_name d.
Proof.
  unfold match_full, domain_regex, single_char_domain_regex. rewrite !matcher_spec, !denotes_cat.
  setoid_rewrite denotes_cat. setoid_rewrite denotes_cat. setoid_rewrite denotes_class.
  setoid_rewrite denotes_many_class. setoid_rewrite tld_spec. split.
  - intros [(? & ? & E & (a & -> & Ha) & k & ? & -> & Hk & ? & ? & -> & (b & -> & Hb) & t & -> & Ht & Haz)
           |(? & ? & E & (a & -> & Ha) & t & -> & Ht & Haz)].
    + exists (of_bytes (a :: k ++ [b])), (of_bytes t). rewrite !bytes_of_bytes, length_bytes, bytes_of_bytes.
      split_and!; try done.
      * apply string_eq. rewrite bytes_app. cbn [bytes String.list_ascii_of_string].
        rewrite E. cbn. rewrite !bytes_of_bytes. by rewrite <-app_assoc.
      * constructor; [by apply address_chars|]. apply Forall_app. split; [done|].
        constructor; [by apply address_chars|done].
      * by exists a.
      * exists b. split; [|done]. change (a :: k ++ [b]) with ((a :: k) ++ [b]). apply last_snoc.
    + exists (of_bytes [a]), (of_bytes t). rewrite !bytes_of_bytes, length_bytes, bytes_of_bytes.
      split_and!; try done; [|by repeat constructor; apply address_chars|by exists a|by exists a].
      apply string_eq. rewrite bytes_app. cbn. by rewrite E, bytes_of_bytes.
  - intros (h & t & -> & Hh & (a & Ea & Ha) & (b & Eb & Hb) & Ht & Haz). rewrite length_bytes in Ht.
    rewrite bytes_app. change (bytes (String dot t)) with (dot :: bytes t).
    destruct (bytes h) as [|a' k]; [done|]. injection Ea as ->. apply Forall_cons in Hh as [_ Hk].
    destruct (last k) as [b'|] eqn:El.
    + apply last_Some in El as (k' & ->). change (a :: k' ++ [b']) with ((a :: k') ++ [b']) in Eb.
      rewrite last_snoc in Eb. injection Eb as ->. apply Forall_app in Hk as [Hk _].
      left. exists [a], (k' ++ [b] ++ dot :: bytes t). split; [cbn; by rewrite <-app_assoc|]. split; [eauto|].
      exists k', ([b] ++ dot :: bytes t). split_and!; [done|done|]. exists [b], (dot :: bytes t). eauto 10.
    + apply last_None in El as ->. right. exists [a], (dot :: bytes t). eauto 10.
Qed.

#[local] Transparent tld_regex.

Lemma address_settled local domain : address local domain →
  Forall (λ c, settled c = true ∧ c ≠ at_sign) (bytes local) ∧ Forall (λ c, settled c = true ∧ c ≠ at_sign) (bytes domain).
Proof.
  intros (_ & Hl & (host & tld & -> & Hh & _ & _ & _ & Ht)). split.
  - apply groups_spec in Hl as (_ & Hl & _). eapply Forall_impl; [exact Hl|]. intros c Hc.
    cbv beta in Hc. rewrite <-address_local in Hc. exact (proj1 (address_chars c) Hc).
  - rewrite bytes_app. apply Forall_app. split.
    + eapply Forall_impl; [exact Hh|]. intros c Hc. exact (proj1 (proj2 (address_chars c)) Hc).
    + change (bytes (String dot tld)) with (dot :: bytes tld). constructor; [by vm_compute|].
      eapply Forall_impl; [exact Ht|]. intros c Hc. apply (proj1 (proj2 (address_chars c))).
      exact (proj1 (proj2 (proj2 (proj2 (address_chars c)))) Hc).
Qed.

Lemma address_free local domain : address local domain → (at_sign ∉ bytes local) ∧ (at_sign ∉ bytes domain).
Proof.
  intros [Hl Hd]%address_settled. split; intros Hin; [rewrite Forall_forall in Hl; by apply Hl in Hin as []|].
  rewrite Forall_forall in Hd. by apply Hd in Hin as [].
Qed.

(** What the checks on the two parts come to. *)
Lemma domain_has_dot d : domain_name d → is_empty d = false ∧ contains d "." = true.
Proof.
  intros (h & t & -> & _). split.
  - apply bool_decide_eq_false. intros E. apply (f_equal bytes) in E. rewrite bytes_app in E. by destruct (bytes h).
  - apply contains_spec. exists h, t. done.
Qed.

Lemma parts_checked local domain : (String.length domain ≤ 255)%nat →
  (if is_empty local || (64 <? String.length local)%nat then Fail LocalPartLength
   else if has_prefix local "." || has_suffix local "." then Fail LocalPartDot
   else if contains local ".." then Fail ConsecutiveDots
   else if is_empty domain || (255 <? String.length domain)%nat then Fail DomainLength
   else if negb (contains domain ".") then Fail DomainNoTLD
   else if negb (match_full local_part_regex local) then Fail LocalPartChars
   else if negb (match_full domain_regex domain) && negb (match_full single_char_domain_regex domain)
   then Fail DomainFormat
   else Ok tt) = Ok tt ↔ address local domain.
Proof.
  intros Hlen. unfold address. rewrite <-local_spec, <-domain_spec. split.
  - destruct (is_empty local), (64 <? String.length local)%nat eqn:L, (has_prefix local "."), (has_suffix local "."),
      (contains local ".."), (is_empty domain), (255 <? String.length domain)%nat, (contains domain "."),
      (match_full local_part_regex local), (match_full domain_regex domain), (match_full single_char_domain_regex domain);
      cbn; try discriminate; intros _; apply Nat.ltb_ge in L; tauto.
  - intros (Hl & (-> & -> & -> & -> & ->) & Hd). pose proof (proj1 (domain_spec domain) Hd) as [-> ->]%domain_has_dot.
    rewrite (proj2 (Nat.ltb_ge 64 _)), (proj2 (Nat.ltb_ge 255 _)) by done. cbn.
    destruct Hd as [-> | ->]; [done|]. by destruct (match_full domain_regex domain).
Qed.

(** an address is accepted exactly when its lower-case, trimmed form is at most 254
    bytes of one local part, one at sign and one domain: the local part dot-separated words
    of at most 64 bytes, the domain a host and a top-level domain of two letters or more.
    The normal form of an accepted address is accepted and is its own normal form, so what
    is stored is what a later look-up searches for. *)
Theorem validate_email_correct email :
  let n := normalize_email email in
  (validate_email email = Ok tt ↔ (String.length n ≤ 254)%nat ∧
     ∃ local domain, n = local +:+ String at_sign domain ∧ address local domain) ∧
  (validate_email email = Ok tt → normalize_email n = n ∧ validate_email n = Ok tt).
Proof.
  intros n. assert (Hspec : validate_email email = Ok tt ↔ (String.length n ≤ 254)%nat ∧
    ∃ local domain, n = local +:+ String at_sign domain ∧ address local domain).
  { unfold validate_email. fold n. destruct (254 <? String.length n)%nat eqn:L.
    { apply Nat.ltb_lt in L. split; [done|]. intros [? _]. lia. }
    apply Nat.ltb_ge in L. split.
    - destruct (split_byte n at_sign) as [|a [|b [|]]] eqn:S; try done. apply split_byte_two in S as (E & _).
      intros H. split; [done|]. exists a, b. split; [done|]. apply parts_checked in H; [done|].
      rewrite E, length_bytes, bytes_app, length_app in L. cbn in L. rewrite length_bytes. lia.
    - intros (_ & a & b & E & Ha). destruct (address_free a b Ha) as [H1 H2].
      assert (split_byte n at_sign = [a; b]) as -> by by apply split_byte_two. apply parts_checked; [|done].
      rewrite E, length_bytes, bytes_app, length_app in L. cbn in L. rewrite length_bytes. lia. }
  split; [exact Hspec|]. intros Hok. assert (Hn : normalize_email n = n).
  { apply Hspec in Hok as (_ & a & b & E & [Ha Hb]%address_settled).
    assert (Hs : Forall (λ c, settled c = true) (bytes n)).
    { rewrite E, bytes_app. change (bytes (String at_sign b)) with (at_sign :: bytes b).
      apply Forall_app. split; [|constructor; [by vm_compute|]].
      - eapply Forall_impl; [exact Ha|]. by intros c [].
      - eapply Forall_impl; [exact Hb|]. by intros c []. }
    unfold normalize_email. by rewrite to_lower_settled, trim_space_settled. }
  split; [done|]. revert Hok. unfold validate_email. by rewrite Hn.
Qed.

Lemma validate_email_correct_witness :
  normalize_email " Joe.Doe+x@Mail.Example.org" = "joe.doe+x@mail.example.org" ∧
  validate_email "joe.doe+x@mail.example.org" = Ok tt.
Proof.
  split; [vm_compute; reflexivity|].
  assert (H : validate_email " Joe.Doe+x@Mail.Example.org" = Ok tt) by (vm_compute; reflexivity).
  apply validate_email_correct in H as [_ H]. vm_compute in H. vm_compute. exact H.
Defined.

(** The host may have empty labels: two dots in a row are refused in the local part only. *)
Lemma empty_label_accepted : validate_email "a@b..c.com" = Ok tt.
Proof. vm_compute. reflexivity. Qed.
