(* ===== verification/UserTokens.v ===== *)
(** Email verification and password reset (UserEmailVerificationModel and
    UserPasswordResetModel of server/model/user.go, and VerifyAPIUserEmail,
    RequestAPIUserPasswordReset and ResetAPIUserPassword of server/handler/auth_api.go).  The
    text of the mail and its transport are not modelled: what a request for a reset hands
    them, the address and the raw token, is its result. *)
From S2P Require Import Prelude GoStrings GoTime Sql DbTime Sha256 Base64 Password Sessions Registry Users ApiTokens Names.
From Stdlib Require Import Ascii.
Open Scope Z_scope.

Inductive link_error :=
| NoRandomLink | LinkNotStored | LinkDriver | LinkNotFound | InvalidLink | BadRequest | BadEmailFormat
| PasswordNotHashed (e : password_error) | NotUpdated.

(** * The two tables *)

Abbreviation verification_row := (row verification_cols).
Abbreviation reset_row := (row reset_cols).
Definition verification_has (h : string) (r : verification_row) : bool := str_eqb (vf_token (r_rest r)) h.
Definition reset_has (h : string) (r : reset_row) : bool := str_eqb (rs_token (r_rest r)) h.

(** INSERT: the digest is UNIQUE and the account a foreign key *)
Definition insert_verification (fk : bool) (c : verification_cols) (expires : scanned) (t : users_tables) : option Z * users_tables :=
  if existsb (verification_has (vf_token c)) (t_rows (n_verifications t)) || (fk && negb (user_exists (vf_user c) t)) then (None, t)
  else (Some (t_next_id (n_verifications t)), put_verifications (insert_row c expires (n_verifications t)) t).
Definition insert_reset (fk : bool) (c : reset_cols) (expires : scanned) (t : users_tables) : option Z * users_tables :=
  if existsb (reset_has (rs_token c)) (t_rows (n_resets t)) || (fk && negb (user_exists (rs_user c) t)) then (None, t)
  else (Some (t_next_id (n_resets t)), put_resets (insert_row c expires (n_resets t)) t).

Definition on_verifications (f : list verification_row → list verification_row) (t : users_tables) : unit * users_tables :=
  (tt, put_verifications (put_rows (f (t_rows (n_verifications t))) (n_verifications t)) t).
Definition on_resets (f : list reset_row → list reset_row) (t : users_tables) : unit * users_tables :=
  (tt, put_resets (put_rows (f (t_rows (n_resets t))) (n_resets t)) t).

Definition use_verification (now : instant) (r : verification_row) : verification_row :=
  let c := r_rest r in
  Row (r_id r) (r_stamp r) (VerificationCols (vf_user c) (vf_email c) (vf_token c) (vf_created c) (VText (format_sql_timestamp now))).
Definition use_reset (now : instant) (r : reset_row) : reset_row :=
  let c := r_rest r in
  Row (r_id r) (r_stamp r) (ResetCols (rs_user c) (rs_token c) (rs_ip c) (rs_created c) (VText (format_sql_timestamp now))).

Record verification := Verification {
  ver_id : Z; ver_user : Z; ver_token : string; ver_email : string; ver_created : instant; ver_expires : instant;
  ver_used : option instant
}.
Record reset := Reset {
  res_id : Z; res_user : Z; res_token : string; res_created : instant; res_expires : instant; res_used : option instant
}.
(** IsExpired and IsUsed *)
Definition verification_expired (v : verification) (now : instant) : bool := ver_expires v <? now.
Definition verification_used (v : verification) : bool := bool_decide (is_Some (ver_used v)).
Definition reset_expired (r : reset) (now : instant) : bool := res_expires r <? now.
Definition reset_used (r : reset) : bool := bool_decide (is_Some (res_used r)).

Definition hours (n : Z) : Z := n * (3600 * second).
Definition stamp_of (t : instant) : scanned := VText (format_sql_timestamp t).
Definition read_stamp (v : scanned) : instant := default zero_time (parse_stored_timestamp v).

Section Links.
Context `{Database W users_tables}.
Context (id_key : list Z → list Z → Z → Z → Z → Z → option (list Z)) (argon2_version : Z).

(** ** UserEmailVerificationModel *)

Definition create_verification (fk : bool) (user : Z) (email : string) (rand : option (list Z)) (now1 now2 now3 : instant) (w : W)
  : result link_error verification * W :=
  match generate_session_id rand with
  | None => (Fail NoRandomLink, w)
  | Some token =>
      let expires := now1 + hours 24 in
      let '(r, w) := exec (insert_verification fk (VerificationCols user email (hash_token token) (stamp_of now2) VNull)
        (stamp_of expires)) w in
      (match r with
       | Some (Some id) => Ok (Verification id user token email now3 expires None)
       | _ => Fail LinkNotStored
       end, w)
  end.
Definition get_verification (token : string) (w : W) : result link_error verification * W :=
  let '(r, w) := query (λ t, find (verification_has (hash_token token)) (t_rows (n_verifications t))) w in
  (match r with
   | None => Fail LinkDriver
   | Some None => Fail LinkNotFound
   | Some (Some r) =>
       let c := r_rest r in
       Ok (Verification (row_no r) (vf_user c) (vf_token c) (vf_email c) (read_stamp (vf_created c)) (read_stamp (r_stamp r))
             (parse_stored_timestamp (vf_used c)))
   end, w).
Definition mark_verification_used (token : string) (now : instant) (w : W) : bool * W :=
  let '(r, w) := exec (on_verifications (map (λ r, if verification_has (hash_token token) r then use_verification now r else r))) w in
  (bool_decide (is_Some r), w).
Definition verification_database : Database W (list verification_row) :=
  part_database (t_rows ∘ n_verifications) (λ l t, put_verifications (put_rows l (n_verifications t)) t).
Definition delete_expired_verifications (now : instant) (w : W) : bool * W :=
  let '(r, w) := exec (on_verifications (filter (λ r, vf_used (r_rest r) = VNull))) w in
  match r with
  | None => (false, w)
  | Some _ => let '((_, ok), w) := @delete_rows_before _ _ verification_database now false w in (ok, w)
  end.

(** ** UserPasswordResetModel *)

Definition create_reset (fk : bool) (user : Z) (rand : option (list Z)) (now1 now2 now3 : instant) (w : W)
  : result link_error reset * W :=
  match generate_session_id rand with
  | None => (Fail NoRandomLink, w)
  | Some token =>
      let expires := now1 + hours 1 in
      let '(r, w) := exec (insert_reset fk (ResetCols user (hash_token token) None (stamp_of now2) VNull) (stamp_of expires)) w in
      (match r with Some (Some id) => Ok (Reset id user token now3 expires None) | _ => Fail LinkNotStored end, w)
  end.
Definition get_reset (token : string) (w : W) : result link_error reset * W :=
  let '(r, w) := query (λ t, find (reset_has (hash_token token)) (t_rows (n_resets t))) w in
  (match r with
   | None => Fail LinkDriver
   | Some None => Fail LinkNotFound
   | Some (Some r) =>
       let c := r_rest r in
       Ok (Reset (row_no r) (rs_user c) (rs_token c) (read_stamp (rs_created c)) (read_stamp (r_stamp r))
             (parse_stored_timestamp (rs_used c)))
   end, w).
Definition mark_reset_used (token : string) (now : instant) (w : W) : bool * W :=
  let '(r, w) := exec (on_resets (map (λ r, if reset_has (hash_token token) r then use_reset now r else r))) w in
  (bool_decide (is_Some r), w).
Definition reset_database : Database W (list reset_row) :=
  part_database (t_rows ∘ n_resets) (λ l t, put_resets (put_rows l (n_resets t)) t).
Definition delete_expired_resets (now : instant) (w : W) : bool * W :=
  let '(r, w) := exec (on_resets (filter (λ r, rs_used (r_rest r) = VNull))) w in
  match r with
  | None => (false, w)
  | Some _ => let '((_, ok), w) := @delete_rows_before _ _ reset_database now false w in (ok, w)
  end.

(** ** The handlers *)

(** VerifyAPIUserEmail: the last DELETE may fail unnoticed *)
Definition verify_api_user_email (token : string) (now1 now2 : instant) (w : W) : result link_error unit * W :=
  let '(r, w) := query (λ t, find (verification_has (hash_token (trim_space token))) (t_rows (n_verifications t))) w in
  match r with
  | Some (Some r) =>
      if negb (is_after (r_stamp r) now1) then (Fail InvalidLink, w)
      else
        let '(u, w) := exec (update_user (vf_user (r_rest r)) (set_standing verified now2)) w in
        match u with
        | Some true => let '(_, w) := exec (on_verifications (filter (λ v, has_no (row_no r) v = false))) w in (Ok tt, w)
        | _ => (Fail NotUpdated, w)
        end
  | _ => (Fail InvalidLink, w)
  end.

(** RequestAPIUserPasswordReset: the answer, given at once, and what its goroutine mails *)
Definition request_api_user_password_reset (fk : bool) (email ip : string) (rand : option (list Z)) (issued : instant) (w : W)
  : result link_error (option (string * string)) * W :=
  let email := trim_space email in
  match validate_email email with
  | Fail _ => (Fail BadEmailFormat, w)
  | Ok _ =>
      let '(r, w) := query (find_user (λ r, str_eqb (n_email r) email && st_active (n_standing r))) w in
      match r, generate_session_id rand with
      | Some (Some u), Some token =>
          let '(o, w) := exec (insert_reset fk (ResetCols (n_id u) (hash_token token) (Some (trim_space ip)) (stamp_of issued) VNull)
            (stamp_of (issued + hours 1))) w in
          (Ok (match o with Some (Some _) => Some (n_email u, token) | _ => None end), w)
      | _, _ => (Ok None, w)
      end
  end.

(** ResetAPIUserPassword: neither DELETE is checked *)
Definition delete_user_sessions (user : Z) (t : users_tables) : unit * users_tables :=
  on_part sessions_of with_sessions (delete_sessions (λ r, u_user (r_rest r) =? user)) t.
Definition reset_api_user_password (token password : string) (salt : option (list Z)) (now1 now2 : instant) (w : W)
  : result link_error unit * W :=
  if (String.length password <? 8)%nat then (Fail BadRequest, w)
  else
    let '(r, w) := query (λ t, find (reset_has (hash_token (trim_space token))) (t_rows (n_resets t))) w in
    match r with
    | Some (Some r) =>
        if negb (is_after (r_stamp r) now1) then (Fail InvalidLink, w)
        else match util_hash_password id_key argon2_version password salt with
        | Fail e => (Fail (PasswordNotHashed e), w)
        | Ok hash =>
            let '(u, w) := exec (update_user (rs_user (r_rest r)) (set_password hash now2)) w in
            match u with
            | Some true =>
                let '(_, w) := exec (on_resets (filter (λ v, has_no (row_no r) v = false))) w in
                let '(_, w) := exec (delete_user_sessions (rs_user (r_rest r))) w in
                (Ok tt, w)
            | _ => (Fail NotUpdated, w)
            end
        end
    | _ => (Fail InvalidLink, w)
    end.
End Links.

(** * A reset link changes one password, once *)

Definition reset_token (r : reset_row) : string := rs_token (r_rest r).
Definition resets_ok (t : users_tables) : Prop :=
  let l := t_rows (n_resets t) in
  NoDup (map reset_token l) ∧ NoDup (map r_id l) ∧ (∀ r, r ∈ l → ∃ z, r_id r = VInt z).

Lemma reset_has_spec h r : reset_has h r = true ↔ reset_token r = h.
Proof. apply bool_decide_eq_true. Qed.

Lemma reset_found t h r : find (reset_has h) (t_rows (n_resets t)) = Some r → r ∈ t_rows (n_resets t) ∧ reset_token r = h.
Proof. intros [Hr%list_elem_of_In E%reset_has_spec]%find_some. done. Qed.

(** Deleting a row by its id deletes its token. *)
Lemma reset_gone t r : resets_ok t → r ∈ t_rows (n_resets t) →
  find (reset_has (reset_token r)) (filter (λ v, has_no (row_no r) v = false) (t_rows (n_resets t))) = None.
Proof.
  intros (H1 & H2 & H3) Hr. destruct (find _ _) as [r'|] eqn:F; [|done].
  apply find_some in F as [Hr'%list_elem_of_In E%reset_has_spec]. apply list_elem_of_filter in Hr' as [Hno Hr'].
  assert (r' = r) as -> by (by apply (same_key reset_token (t_rows (n_resets t)))).
  unfold has_no in Hno. by rewrite Z.eqb_refl in Hno.
Qed.

Section Reset.
Context `{DatabaseLaws W users_tables}.
Context (id_key : list Z → list Z → Z → Z → Z → Z → option (list Z)) (argon2_version : Z).
Context (id_key_length : ∀ p s t m th n, 1 ≤ t → 1 ≤ th → 1 ≤ n →
  ∃ k, id_key p s t m th n = Some k ∧ Z.of_nat (length k) = n ∧ is_bytes k).
Abbreviation reset_password := (reset_api_user_password id_key argon2_version).

(** What every table but accounts, resets and sessions holds *)
Definition unrelated (t : users_tables) :=
  (n_ids t, n_keys t, n_tokens t, n_verifications t, n_invites t, n_activity t, n_passkeys t, ac_next (n_accounts t), ac_prefs (n_accounts t)).

Lemma drop_reset_cases (r : reset_row) (w w' : W) a :
  exec (on_resets (filter (λ v, has_no (row_no r) v = false))) w = (a, w') →
  a = None ∧ tables w' = tables w ∨
  tables w' = put_resets (put_rows (filter (λ v, has_no (row_no r) v = false) (t_rows (n_resets (tables w)))) (n_resets (tables w))) (tables w).
Proof.
  intros E. destruct a as [[]|]; [right; apply exec_ok in E; by injection E as <-|left]. split; [done|]. by eapply exec_fail.
Qed.

Lemma drop_sessions_cases user (w w' : W) a :
  exec (delete_user_sessions user) w = (a, w') →
  a = None ∧ tables w' = tables w ∨
  tables w' = with_sessions (put_sessions (filter (λ s, (u_user (r_rest s) =? user) = false) (n_sessions (tables w)).1) (sessions_of (tables w))) (tables w).
Proof.
  intros E. destruct a as [[]|]; [right; apply exec_ok in E; by injection E as <-|left]. split; [done|]. by eapply exec_fail.
Qed.

(** The two deletions at the end, of which either may fail *)
Lemma reset_tail (r : reset_row) user (w w1 w2 : W) a b :
  exec (on_resets (filter (λ v, has_no (row_no r) v = false))) w = (a, w1) → exec (delete_user_sessions user) w1 = (b, w2) →
  resets_ok (tables w) → r ∈ t_rows (n_resets (tables w)) →
  n_accounts (tables w2) = n_accounts (tables w) ∧ unrelated (tables w2) = unrelated (tables w) ∧
  (∀ r', r' ≠ r → r' ∈ t_rows (n_resets (tables w2)) ↔ r' ∈ t_rows (n_resets (tables w))) ∧
  (∀ s, u_user (r_rest s) ≠ user → s ∈ (n_sessions (tables w2)).1 ↔ s ∈ (n_sessions (tables w)).1) ∧
  (never_fails W users_tables →
     find (reset_has (reset_token r)) (t_rows (n_resets (tables w2))) = None ∧
     ∀ s, s ∈ (n_sessions (tables w2)).1 → u_user (r_rest s) ≠ user).
Proof.
  intros E1 E2 Hok Hr. pose proof Hok as (_ & Hids & Hz).
  assert (Hother : ∀ r', r' ≠ r → r' ∈ t_rows (n_resets (tables w)) → has_no (row_no r) r' = false).
  { intros r' Hne Hr'. apply Z.eqb_neq. intros E. apply Hne. apply (same_key r_id (t_rows (n_resets (tables w)))); [done..|].
    destruct (Hz r Hr) as [z Ez], (Hz r' Hr') as [z' Ez']. unfold row_no in E. rewrite Ez, Ez' in E |- *. congruence. }
  assert (Hs : ∀ (l : list session_row) s, u_user (r_rest s) ≠ user →
    s ∈ filter (λ s, (u_user (r_rest s) =? user) = false) l ↔ s ∈ l).
  { intros l s Hne. rewrite list_elem_of_filter, Z.eqb_neq. tauto. }
  pose proof (reset_gone _ _ Hok Hr) as Hgone.
  destruct (drop_reset_cases _ _ _ _ E1) as [[-> T1]|T1], (drop_sessions_cases _ _ _ _ E2) as [[-> T2]|T2]; rewrite T2, T1;
    cbn; split_and!; auto; try done.
  all: try (intros Hup; by apply Hup in E1 || by apply Hup in E2).
  - intros r' Hne. rewrite list_elem_of_filter. split; [by intros [_ ?]|]. auto.
  - intros r' Hne. rewrite list_elem_of_filter. split; [by intros [_ ?]|]. auto.
  - intros _. split; [exact Hgone|]. intros s [Hu _]%list_elem_of_filter. by apply Z.eqb_neq.
Qed.

(** C19: a reset link changes one password, once.  Whichever statements fail: an error
    changes nothing; success means that the token's digest belongs to a reset that has not
    expired, that the new password has eight bytes, and that the account the reset names now
    has a hash that verifies it, while no other account and no other table changes, except
    that the reset and sessions of the account may be deleted.  When nothing fails, an
    unexpired link with such a password succeeds, the same token is refused afterwards
    whenever it comes and whatever the password, and no session of the account is left. *)
Theorem reset_correct token password salt now1 now2 (w w' : W) res :
  users_ok (tables w) → resets_ok (tables w) → is_bytes salt →
  reset_password token password (Some salt) now1 now2 w = (res, w') →
  let t := tables w in let t' := tables w' in
  match res with
  | Fail _ => t' = t ∧
      (never_fails W users_tables → (8 ≤ String.length password)%nat → ∀ r, r ∈ t_rows (n_resets t) →
         reset_token r = hash_token (trim_space token) → is_after (r_stamp r) now1 = false)
  | Ok _ => (8 ≤ String.length password)%nat ∧ ∃ r h, r ∈ t_rows (n_resets t) ∧
      reset_token r = hash_token (trim_space token) ∧ is_after (r_stamp r) now1 = true ∧
      verify_password id_key password h = Ok true ∧
      ac_rows (n_accounts t') = map_user (rs_user (r_rest r)) (set_password h now2) (ac_rows (n_accounts t)) ∧
      unrelated t' = unrelated t ∧
      (∀ r', r' ≠ r → r' ∈ t_rows (n_resets t') ↔ r' ∈ t_rows (n_resets t)) ∧
      (∀ s, u_user (r_rest s) ≠ rs_user (r_rest r) → s ∈ (n_sessions t').1 ↔ s ∈ (n_sessions t).1) ∧
      (never_fails W users_tables →
         (∀ s, s ∈ (n_sessions t').1 → u_user (r_rest s) ≠ rs_user (r_rest r)) ∧
         ∀ password salt now1 now2, is_ok (reset_password token password salt now1 now2 w').1 = false)
  end.
Proof.
  intros Hu Hr Hs E. cbv zeta. unfold reset_api_user_password in E. destruct (_ <? 8)%nat eqn:L.
  { injection E as <- <-. split; [done|]. apply Nat.ltb_lt in L. lia. }
  apply Nat.ltb_ge in L. destruct (query _ w) as [q w1] eqn:Q. set (h := hash_token (trim_space token)) in *.
  destruct (query_cases _ (λ t, find (reset_has h) (t_rows (n_resets t))) w) as [(w1' & Q' & Ht)|(w1' & Q' & Ht)];
    rewrite Q in Q'; injection Q' as -> <-.
  2:{ injection E as <- <-. split; [done|]. intros Hup. by apply Hup in Q. }
  destruct (find _ _) as [r|] eqn:F.
  2:{ injection E as <- <-. split; [done|]. intros _ _ r Hin Hh. apply list_elem_of_In in Hin.
      apply (find_none _ _ F) in Hin. by apply reset_has_spec in Hh; rewrite Hh in Hin. }
  apply reset_found in F as [Hin Hh]. destruct (is_after (r_stamp r) now1) eqn:A; cbn [negb] in E.
  2:{ injection E as <- <-. split; [done|]. intros _ _ r' Hin' Hh'.
      assert (r' = r) as -> by (apply (same_key reset_token (t_rows (n_resets (tables w)))); [apply Hr|done|done|congruence]). done. }
  destruct (derived_key id_key id_key_length password salt) as (k & Hk & _).
  assert (util_hash_password id_key argon2_version password (Some salt) = Ok (phc (itoa argon2_version) params_text salt k)) as Hhash.
  { unfold util_hash_password, hash_with. by rewrite Hk. }
  rewrite Hhash in E. set (hash := phc _ _ _ _) in *.
  apply (hash_verifies id_key argon2_version id_key_length) in Hhash; [|by right|done].
  destruct (update_user_keeps (rs_user (r_rest r)) (set_password hash now2) (tables w)) as [U _]; [auto with wthr|done|].
  destruct (exec (update_user _ _) w1) as [u w2] eqn:X. destruct u as [u|].
  2:{ injection E as <- <-. apply exec_fail in X as Hx. split; [congruence|]. intros Hup. by apply Hup in X. }
  apply exec_ok in X. rewrite Ht, U in X. injection X as <- Hw2.
  destruct (exec _ w2) as [a w3] eqn:E1. destruct (exec _ w3) as [b w4] eqn:E2. injection E as <- <-. split; [done|].
  exists r, hash.
  pose proof (reset_tail _ _ _ _ _ _ _ E1 E2) as T. rewrite <-Hw2 in T. destruct T as (Ta & Tu & Tr & Tss & Tn); [done|done|].
  rewrite Ta. split_and!; try done. intros Hup. destruct (Tn Hup) as [Tg Ts]. split; [done|].
  intros p2 s2 n1 n2. unfold reset_api_user_password. destruct (_ <? 8)%nat; [done|]. fold h. rewrite <-Hh.
  destruct (query_cases _ (λ t, find (reset_has (reset_token r)) (t_rows (n_resets t))) w4) as [(w5 & -> & _)|(w5 & -> & _)]; [|done].
  by rewrite Tg.
Qed.
End Reset.

(** * Witness and findings *)

Definition t_now : instant := date_utc 2024 6 15 12 0 0 0.
Definition draw (b : Z) : option (list Z) := Some (replicate 32 b).
Definition link (b : Z) : string := default "" (generate_session_id (draw b)).
(** One account, one session of it, and resets under two digests *)
Definition reset_of (id b : Z) : reset_row :=
  Row (VInt id) (stamp_of (t_now + hours 1)) (ResetCols 1 (hash_token (link b)) None (stamp_of t_now) VNull).
Definition ann_session : session_row :=
  Row (VInt 1) (stamp_of (t_now + hours 5)) (SessionCols 1 "digest" None None None (stamp_of t_now) VNull).
Definition forgetful : users_tables :=
  UsersTables (Accounts [ann] 2 [1]) {[1]} ([ann_session], 2) ([], 1) (Table [] 1) (Table [] 1)
    (Table [reset_of 1 1; reset_of 2 2] 3) (Table [] 1) (Table [] 1) (Table [] 1) ([], []).

Lemma forgetful_ok : users_ok forgetful ∧ resets_ok forgetful.
Proof.
  split.
  - unfold users_ok. cbn. split_and!.
    + refine (bool_decide_unpack _ _). vm_compute. exact I.
    + apply NoDup_singleton.
    + intros r ->%list_elem_of_singleton. reflexivity.
    + intros id. by rewrite elem_of_singleton, list_elem_of_singleton.
  - unfold resets_ok. cbn. split_and!.
    + refine (bool_decide_unpack _ _). vm_compute. exact I.
    + refine (bool_decide_unpack _ _). vm_compute. exact I.
    + intros r Hr. repeat (apply elem_of_cons in Hr as [->|Hr]; [by eexists|]). by apply not_elem_of_nil in Hr.
Qed.

Lemma reset_correct_witness :
  let r := reset_api_user_password toy_key 19 (link 1) "new password" (Some [1; 2]) t_now t_now (Reliable forgetful) in
  r.1 = Ok tt ∧ (n_sessions (tables r.2)).1 = [] ∧
  is_ok (reset_api_user_password toy_key 19 (link 1) "other password" (Some [1; 2]) t_now t_now r.2).1 = false.
Proof.
  cbv zeta. destruct (reset_api_user_password toy_key 19 (link 1) "new password" (Some [1; 2]) t_now t_now (Reliable forgetful))
    as [res w'] eqn:E.
  assert (Hu : users_ok (tables (Reliable forgetful))) by exact (proj1 forgetful_ok).
  assert (Hr : resets_ok (tables (Reliable forgetful))) by exact (proj2 forgetful_ok).
  assert (Hs : is_bytes [1; 2]) by (repeat constructor; lia).
  pose proof (reset_correct toy_key 19 toy_key_length (link 1) "new password" [1; 2] t_now t_now _ w' res Hu Hr Hs E) as R.
  cbv zeta in R. assert (res = Ok tt) as -> by (apply (f_equal fst) in E; etransitivity; [symmetry; exact E|vm_compute; reflexivity]).
  destruct R as (_ & r & h & _ & _ & _ & _ & _ & _ & _ & _ & Hup). destruct (Hup (reliable_never_fails _)) as [_ Hagain].
  cbn [fst snd]. split; [done|]. split; [|apply Hagain].
  apply (f_equal (λ p, (n_sessions (tables p.2)).1)) in E. cbn [snd] in E. rewrite <-E. vm_compute. reflexivity.
Defined.

(** Another link of the same account still opens it after the password was reset. *)
Lemma second_link_still_opens :
  let w := (reset_api_user_password toy_key 19 (link 1) "new password" (Some [1; 2]) t_now t_now (Reliable forgetful)).2 in
  (reset_api_user_password toy_key 19 (link 2) "third password" (Some [1; 2]) t_now t_now w).1 = Ok tt.
Proof. vm_compute. reflexivity. Qed.

(** When the row cannot be deleted, the used link opens the account again. *)
Lemma link_used_twice :
  let w := (reset_api_user_password toy_key 19 (link 1) "new password" (Some [1; 2]) t_now t_now
              (Faulty forgetful [false; false; true])).2 in
  (reset_api_user_password toy_key 19 (link 1) "third password" (Some [1; 2]) t_now t_now w).1 = Ok tt.
Proof. vm_compute. reflexivity. Qed.

(** A link sent to one address verifies whatever address the account has when it is used. *)
Lemma verified_other_address :
  let '(v, w) := create_verification true 1 "ann@example.org" (draw 1) t_now t_now t_now (Reliable fresh_users) in
  let w := (update_user_profile 1 "ann" "else@example.org" [] t_now w).2 in
  let w := (change_standing 1 (λ s, Standing false (st_active s) false None false None) t_now w).2 in
  let w := (verify_api_user_email (link 1) t_now t_now w).2 in
  map (λ r, (n_email r, st_verified (n_standing r))) (ac_rows (n_accounts (tables w))) = [("else@example.org", true)].
Proof. vm_compute. reflexivity. Qed.
