(* ===== verification/Login.v ===== *)
(** Logging in (server/handler/auth_api.go, the user part of HandleLogin of
    server/handler/auth.go, and AuthMiddleware of server/middleware/auth.go): credentials,
    the second factor, the sessions they lead to, and what a request is admitted with.  The
    flows run the models of Users, Sessions, RecoveryKeys and ApiTokens on one database; the
    random bytes, clock readings, settings and the address of the client are arguments, and
    the JSON codec, the cipher, TOTP and argon2.IDKey are parameters. *)
From S2P Require Import Prelude GoStrings GoTime Sql DbTime Sha256 Base64 Encryption Password Sessions RecoveryKeys Registry.
From S2P Require Import Users ApiTokens Names UserTokens.
From Stdlib Require Import Ascii.
Open Scope Z_scope.

(** * The data of a session: a JSON object *)

Inductive jvalue := JText (s : string) | JBool (b : bool) | JOther.
#[global] Instance jvalue_eq_dec : EqDecision jvalue.
Proof. solve_decision. Defined.
Abbreviation jobject := (gmap string jvalue).
Definition pending_data : jobject :=
  {["auth_stage" := JText "pending_2fa"; "requires_2fa" := JBool true; "temporary_session" := JBool true]}.
(** The test of loadPendingTwoFactorSession *)
Definition is_pending (d : jobject) : bool :=
  match d !! "auth_stage", d !! "requires_2fa" with
  | Some (JText s), Some (JBool b) => str_eqb s "pending_2fa" && b
  | _, _ => false
  end.

Inductive auth_error :=
| SpacedPassword | InvalidCredentials | IsDisabled | IsSuspended | PasskeysUnknown | BadTwoFactorCode | BadRecoveryKey
| KeysUnknown | NoSession | NoPendingSession | BadSessionToken | RegistrationUnavailable | RegistrationClosed
| BadName (e : username_error) | BadEmail (e : email_error) | ShortPassword | AlreadyExists | NoAccount | NoVerification
| NotLoggedOut | NotRefreshed.

Record auth_summary := AuthSummary { su_id : Z; su_name : string; su_email : string; su_role : string }.
Definition build_auth_user_summary (u : user) : auth_summary :=
  AuthSummary (usr_id u) (usr_name u) (mask_email (usr_email u)) (usr_role u).

(** AuthLoginResponse: a full session, or the demand for a second factor *)
Inductive login_response :=
| FullSession (token : string) (who : auth_summary) (expires : instant) (remaining : option nat)
| SecondFactor (session_token : string).

(** What is drawn and read from the clock to issue a session and note the log-in *)
Record issue := Issue { is_draw : option (list Z); is_now1 : instant; is_now2 : instant; is_now3 : instant }.

Definition session_ttl : Z := 30 * 24 * 60 * 60.
Definition pending_ttl : Z := 15 * 60.

Record login_request := LoginRequest { lr_identifier : string; lr_password : string; lr_code : string; lr_recovery : string }.

(** validateAuthUser; [required] is requiresEmailVerification() *)
Definition validate_auth_user (required : bool) (u : user) : result auth_error unit :=
  if negb (usr_active u) then Fail IsDisabled
  else if usr_banned u then Fail IsSuspended
  else if required && negb (usr_verified u) then Fail InvalidCredentials
  else Ok tt.

Section Login.
Context `{Database W users_tables}.
Context (id_key : list Z → list Z → Z → Z → Z → Z → option (list Z)).
Context (open : list Z → list Z → list Z → option (list Z)) (cipher_key : string).
Context (totp : string → string → bool).
Context (decode_data : string → option jobject) (encode_data : jobject → option string).
Context (required : bool).

#[local] Instance sessions_database : Database W session_tables := part_database sessions_of with_sessions.
#[local] Instance keys_database : Database W key_tables := part_database keys_of with_keys.

Definition full_session (u : user) (i : issue) (w : W) : result auth_error (string * instant) * W :=
  let '(r, w) := create_session (D := jobject) (is_draw i) (UserInt (usr_id u)) session_ttl (is_now1 i) (is_now2 i) w in
  (match r with Fail _ => Fail NoSession | Ok s => Ok (s_id s, s_expires s) end, w).
Definition create_full_auth_session (u : user) (i : issue) (remaining : option nat) (w : W) : result auth_error login_response * W :=
  let '(r, w) := full_session u i w in
  (let? te := r in Ok (FullSession te.1 (build_auth_user_summary u) te.2 remaining), w).

(** HasPasskeys of UserPasskeyModel, after ensurePasskeySchema *)
Definition passkey_columns : list string := ["transport"; "attestation_type"; "backup_eligible"; "backup_state"].
Definition ensure_passkey_schema : W → bool * W :=
  ensure_columns (λ t, (n_columns t).2) (λ l t, put_columns ((n_columns t).1, l) t) passkey_columns.
Definition has_passkeys (user : Z) (w : W) : option bool * W :=
  let '(ok, w) := ensure_passkey_schema w in
  if negb ok then (None, w)
  else let '(n, w) := query (λ t, length (filter (λ p, p = user) (passkey_owners t))) w in
       ((λ n, negb (n =? 0)%nat) <$> n, w).

(** createPendingTwoFactorSession *)
Definition create_pending_session (user : Z) (i : issue) (w : W) : result auth_error string * W :=
  let '(r, w) := create_session (D := jobject) (is_draw i) (UserInt user) pending_ttl (is_now1 i) (is_now2 i) w in
  match r with
  | Fail _ => (Fail NoPendingSession, w)
  | Ok s =>
      let '(u, w) := update_data encode_data (s_id s) pending_data w in
      match u with
      | Ok _ => (Ok (s_id s), w)
      | Fail _ => let '(_, w) := delete_session (s_id s) w in (Fail NoPendingSession, w)
      end
  end.
(** loadPendingTwoFactorSession *)
Definition load_pending_session (token : string) (now : instant) (w : W) : result auth_error (@session jobject) * W :=
  let '(r, w) := get_by_id decode_data (trim_space token) now w in
  (match r with
   | Fail _ => Fail BadSessionToken
   | Ok s => match s_data s with
             | None => Fail BadSessionToken
             | Some d => if is_pending d then Ok s else Fail BadSessionToken
             end
   end, w).

(** loginWithTwoFactorCode and loginWithRecoveryKey; the last log-in is noted if it can be *)
Definition code_verifies (u : user) (code : string) : bool :=
  match decrypt_two_factor_secret open cipher_key (usr_secret u) with Fail _ => false | Ok secret => totp secret code end.
Definition then_note (u : user) (ip : string) (i : issue) (r : result auth_error login_response) (w : W)
  : result auth_error login_response * W :=
  match r with
  | Fail e => (Fail e, w)
  | Ok a => let '(_, w) := update_user_last_login (usr_id u) ip (is_now3 i) w in (Ok a, w)
  end.
Definition login_with_two_factor_code (u : user) (code ip : string) (i : issue) (w : W) : result auth_error login_response * W :=
  if code_verifies u code
  then let '(r, w) := create_full_auth_session u i None w in then_note u ip i r w
  else (Fail BadTwoFactorCode, w).
Definition login_with_recovery_key (u : user) (key ip : string) (now : instant) (i : issue) (w : W)
  : result auth_error login_response * W :=
  let '(v, w) := verify_and_use (usr_id u) key now w in
  match v with
  | Ok true =>
      let '(r, w) := full_session u i w in
      match r with
      | Fail e => (Fail e, w)
      | Ok te =>
          let '(n, w) := get_unused_keys_count (usr_id u) w in
          match n with
          | None => (Fail KeysUnknown, w)
          | Some n => then_note u ip i (Ok (FullSession te.1 (build_auth_user_summary u) te.2 (Some n))) w
          end
      end
  | _ => (Fail BadRecoveryKey, w)
  end.

(** LoginAPIUser, after the credentials *)
Definition login_second_step (u : user) (req : login_request) (ip : string) (now : instant) (i : issue) (w : W)
  : result auth_error login_response * W :=
  let '(p, w) := has_passkeys (usr_id u) w in
  match p with
  | None => (Fail PasskeysUnknown, w)
  | Some passkeys =>
      if usr_two_factor u || passkeys then
        if negb (is_empty (lr_recovery req)) then login_with_recovery_key u (lr_recovery req) ip now i w
        else if negb (is_empty (lr_code req)) then
          if negb (usr_two_factor u) then (Fail BadTwoFactorCode, w) else login_with_two_factor_code u (lr_code req) ip i w
        else let '(r, w) := create_pending_session (usr_id u) i w in (let? t := r in Ok (SecondFactor t), w)
      else let '(r, w) := create_full_auth_session u i None w in then_note u ip i r w
  end.
Definition login_api_user (req : login_request) (ip : string) (now : instant) (i : issue) (w : W)
  : result auth_error login_response * W :=
  if negb (str_eqb (lr_password req) (trim_space (lr_password req))) then (Fail SpacedPassword, w)
  else
    let '(r, w) := user_by_identifier (trim_space (lr_identifier req)) w in
    match r with
    | Fail _ => (Fail InvalidCredentials, w)
    | Ok u =>
        if negb (check_user_password id_key u (lr_password req)) then (Fail InvalidCredentials, w)
        else match validate_auth_user required u with
             | Fail e => (Fail e, w)
             | Ok _ => login_second_step u req ip now i w
             end
    end.

(** CompleteAPIUserTwoFactor and UseAPIUserRecoveryKey *)
Definition complete_pending (token : string) (now : instant) (finish : user → W → result auth_error login_response * W) (w : W)
  : result auth_error login_response * W :=
  let '(p, w) := load_pending_session token now w in
  match p with
  | Fail e => (Fail e, w)
  | Ok s =>
      let '(r, w) := user_by_id (s_user s) w in
      match r with
      | Fail _ => (Fail BadSessionToken, w)
      | Ok u =>
          match validate_auth_user required u with
          | Fail e => (Fail e, w)
          | Ok _ =>
              let '(r, w) := finish u w in
              match r with
              | Fail e => (Fail e, w)
              | Ok a => let '(_, w) := delete_session (s_id s) w in (Ok a, w)
              end
          end
      end
  end.
Definition complete_api_user_two_factor (token code ip : string) (now : instant) (i : issue) : W → result auth_error login_response * W :=
  complete_pending token now (λ u, login_with_two_factor_code u code ip i).
Definition use_api_user_recovery_key (token key ip : string) (now1 now2 : instant) (i : issue) : W → result auth_error login_response * W :=
  complete_pending token now1 (λ u, login_with_recovery_key u key ip now2 i).

(** LogoutCurrentUserSession and RefreshCurrentUserSession, with the session and the user of
    the request *)
Definition logout_current (s : option (@session jobject)) (w : W) : result auth_error unit * W :=
  match s with
  | None => (Fail BadSessionToken, w)
  | Some s => let '(ok, w) := delete_session (s_id s) w in (if ok : bool then Ok tt else Fail NotLoggedOut, w)
  end.
Definition refresh_current (s : option (@session jobject)) (u : option user) (i : issue) (w : W) : result auth_error login_response * W :=
  match s, u with
  | Some s, Some u =>
      let '(ok, w) := delete_session (s_id s) w in
      if negb ok then (Fail NotRefreshed, w)
      else let '(r, w) := create_full_auth_session u i None w in (match r with Ok a => Ok a | Fail _ => Fail NotRefreshed end, w)
  | _, _ => (Fail BadSessionToken, w)
  end.

(** RegisterAPIUser; [multi] and [registration] are the two settings *)
Inductive register_response := Registered (who : auth_summary) (token : string) | VerificationSent (who : auth_summary) (link : string).
Definition register_api_user (multi registration fk : bool) (name email password : string) (salt draw : option (list Z))
    (now : instant) (i : issue) (w : W) : result auth_error register_response * W :=
  if negb multi then (Fail RegistrationUnavailable, w)
  else if negb registration then (Fail RegistrationClosed, w)
  else
    let email := trim_space email in
    let name := normalize_username (trim_space name) in
    match validate_username name, validate_email email with
    | Fail e, _ => (Fail (BadName e), w)
    | _, Fail e => (Fail (BadEmail e), w)
    | Ok _, Ok _ =>
        if (String.length password <? 8)%nat then (Fail ShortPassword, w)
        else
          let '(r, w) := create_user_account id_key fk name email password ["user"] salt now w in
          match r with
          | Fail NotUnique => (Fail AlreadyExists, w)
          | Fail _ => (Fail NoAccount, w)
          | Ok u =>
              if required then
                let '(v, w) := create_verification fk (usr_id u) (usr_email u) draw (is_now1 i) (is_now2 i) (is_now3 i) w in
                (match v with Ok v => Ok (VerificationSent (build_auth_user_summary u) (ver_token v)) | Fail _ => Fail NoVerification end, w)
              else
                let '(r, w) := create_full_auth_session u i None w in
                (match r with
                 | Ok (FullSession t who _ _) => Ok (Registered who t)
                 | _ => Fail NoSession
                 end, w)
          end
    end.

(** ** The form of HandleLogin, for an identifier that no administrator logs in with *)

Definition web_login (req : login_request) (use_recovery : bool) (timeout : Z) (now : instant) (i : issue) (w : W)
  : result auth_error (option (string * Z)) * W :=
  let code := trim_space (lr_code req) in
  let identifier := trim_space (lr_identifier req) in
  if negb (str_eqb (lr_password req) (trim_space (lr_password req))) then (Fail SpacedPassword, w)
  else if is_empty identifier || is_empty (lr_password req) then (Fail InvalidCredentials, w)
  else
    let '(r, w) := user_by_identifier identifier w in
    match r with
    | Fail _ => (Fail InvalidCredentials, w)
    | Ok u =>
        if negb (check_user_password id_key u (lr_password req)) then (Fail InvalidCredentials, w)
        else if required && negb (usr_verified u) then (Fail InvalidCredentials, w)
        else
          let start w :=
            let '(r, w) := create_session (D := jobject) (is_draw i) (UserInt (usr_id u)) timeout (is_now1 i) (is_now2 i) w in
            (match r with Fail _ => Fail NoSession | Ok s => Ok (Some (s_id s, usr_id u)) end, w) in
          if usr_two_factor u then
            if is_empty code then (Ok None, w)
            else if use_recovery then
              let '(v, w) := verify_and_use (usr_id u) code now w in
              match v with
              | Ok true => start w
              | Ok false => (Fail BadTwoFactorCode, w)
              | Fail _ => (Fail BadRecoveryKey, w)
              end
            else if code_verifies u code then start w else (Fail BadTwoFactorCode, w)
          else start w
    end.

(** ** AuthMiddleware *)

(** What a request starts with the keyword go, to run at an instant of its own on the tables of that instant *)
Abbreviation job := (instant → W → bool * W).
Inductive auth_method := ByApiToken | BySession (s : @session jobject).
Inductive passage := Admitted_as (u : user) (by_ : auth_method) | Anonymous | ToLogin | Unauthorized.

(** "Bearer <token>" *)
Definition bearer (header : string) : option string :=
  match split_first (byte 32) (bytes header) with
  | (scheme, Some token) => if str_eqb (of_bytes scheme) "Bearer" then Some (of_bytes token) else None
  | _ => None
  end.
Definition by_token (header : string) (now : instant) (w : W) : option (user * Z) * W :=
  match bearer header with
  | None => (None, w)
  | Some token =>
      let '(a, w) := get_by_token token now w in
      match a with
      | Fail _ => (None, w)
      | Ok a => let '(u, w) := user_by_id (at_user a) w in (match u with Ok u => Some (u, at_id a) | Fail _ => None end, w)
      end
  end.
Definition by_cookie (cookie : string) (now : instant) (w : W) : option (user * @session jobject) * W :=
  if is_empty cookie then (None, w)
  else
    let '(s, w) := get_by_id decode_data cookie now w in
    match s with
    | Fail _ => (None, w)
    | Ok s => let '(u, w) := user_by_id (s_user s) w in (match u with Ok u => Some (u, s) | Fail _ => None end, w)
    end.
Definition auth_middleware (needed : bool) (header cookie accept : string) (now1 now2 : instant) (w : W)
  : passage * option job * W :=
  let '(u, w) := by_token header now1 w in
  match u with
  | Some (u, id) => (Admitted_as u ByApiToken, Some (update_token_last_used id), w)
  | None =>
      let '(us, w) := by_cookie cookie now2 w in
      (match us with
       | Some (u, s) => Admitted_as u (BySession s)
       | None => if negb needed then Anonymous else if contains accept "text/html" then ToLogin else Unauthorized
       end, None, w)
  end.
(** RequireAdmin *)
Definition require_admin (u : option user) : option user := u ← u; if str_eqb (usr_role u) "admin" then Some u else None.
End Login.

(** * What the flows do to the database *)

Definition put_session_rows (p : list session_row * Z) (t : users_tables) : users_tables :=
  UsersTables (n_accounts t) (n_ids t) p (n_keys t) (n_tokens t) (n_verifications t) (n_resets t) (n_invites t)
    (n_activity t) (n_passkeys t) (n_columns t).
(** Only the sessions change, and only they *)
Definition sessions_only (t t' : users_tables) : Prop := t' = put_session_rows (n_sessions t') t.
Abbreviation users_registry := (λ t, registry_of (sessions_of t)).

Lemma sessions_only_refl t : sessions_only t t.
Proof. by destruct t. Qed.
Lemma sessions_only_trans t1 t2 t3 : sessions_only t1 t2 → sessions_only t2 t3 → sessions_only t1 t3.
Proof. unfold sessions_only. by intros -> ->. Qed.
#[local] Hint Resolve sessions_only_refl : core.

Section Steps.
Context `{DatabaseLaws W users_tables}.
Context (decode_data : string → option jobject) (encode_data : jobject → option string).
#[local] Existing Instance sessions_database.
#[local] Existing Instance keys_database.

Lemma sessions_laws : DatabaseLaws W session_tables.
Proof. apply part_laws; [by intros [? ? ?]|done]. Defined.
Lemma keys_laws : DatabaseLaws W key_tables.
Proof. apply part_laws; [by intros [? ? ?]|done]. Defined.

(** A statement on the sessions that leaves the index of the accounts alone *)
Lemma sessions_exec {A} (f : session_tables → A * session_tables) (w w' : W) a :
  (∀ s, t_accounts (f s).2 = t_accounts s) → exec f w = (a, w') →
  sessions_only (tables w) (tables w') ∧
  match a with Some x => f (sessions_of (tables w)) = (x, sessions_of (tables w')) | None => tables w' = tables w end.
Proof.
  intros Hacc E. change (exec (on_part sessions_of with_sessions f) w = (a, w')) in E. destruct a as [x|].
  - apply exec_ok in E. unfold on_part in E. specialize (Hacc (sessions_of (tables w))).
    destruct (f (sessions_of (tables w))) as [y [l n i]]. injection E as -> E. cbn in Hacc. subst i. rewrite <-E. done.
  - apply exec_fail in E. rewrite E. done.
Qed.

Lemma insert_session_accounts c e s : t_accounts (insert_session c e s).2 = t_accounts s.
Proof. unfold insert_session. by destruct (_ && _). Qed.

Lemma create_session_step rand user ttl n1 n2 (w w' : W) r :
  create_session (D := jobject) rand (UserInt user) ttl n1 n2 w = (r, w') → sessions_ok (sessions_of (tables w)) →
  sessions_only (tables w) (tables w') ∧ sessions_ok (sessions_of (tables w')) ∧
  match r with
  | Ok s => s_user s = user ∧ s_expires s = seconds_from n1 ttl ∧
            users_registry (tables w) !! hash_token (s_id s) = None ∧
            users_registry (tables w') = <[hash_token (s_id s) := (user, stored (seconds_from n1 ttl))]> (users_registry (tables w))
  | Fail _ => tables w' = tables w
  end.
Proof.
  unfold create_session. intros E Hok. destruct (generate_session_id rand) as [raw|]; [|by injection E as <- <-].
  destruct (exec _ w) as [o w1] eqn:X. apply sessions_exec in X as [Hs X]; [|apply insert_session_accounts].
  destruct o as [[id|]|].
  - injection E as <- <-. apply registry_insert in X as (H1 & H2 & H3); [|done]. split_and!; done.
  - unfold insert_session in X. destruct (_ && _); [discriminate X|]. injection E as <- <-.
    assert (tables w1 = tables w) as ->; [|done]. rewrite Hs.
    apply (f_equal (λ p, (t_sessions p.2, t_next p.2))) in X. cbn in X. rewrite <-!surjective_pairing in X. rewrite <-X.
    by destruct (tables w).
  - injection E as <- <-. rewrite X. done.
Qed.

Lemma update_data_step raw d (w w' : W) r : update_data encode_data raw d w = (r, w') → sessions_ok (sessions_of (tables w)) →
  sessions_only (tables w) (tables w') ∧ sessions_ok (sessions_of (tables w')) ∧
  users_registry (tables w') = users_registry (tables w) ∧
  (r = Ok tt → ∃ j, encode_data d = Some j ∧
     find_session raw (sessions_of (tables w')) = set_data j <$> find_session raw (sessions_of (tables w))).
Proof.
  unfold update_data. intros E Hok. destruct (encode_data d) as [j|]; [|by injection E as <- <-].
  destruct (exec _ w) as [o w1] eqn:X. apply sessions_exec in X as [Hs X]; [|done]. injection E as <- <-.
  destruct o as [[]|]; [|by rewrite X]. assert (X' := f_equal snd X). cbn [snd] in X'. rewrite <-X'.
  assert (same_keys (set_data j)) as Hk by done.
  split_and!; [done|by apply update_ok|by apply registry_same|]. intros _. exists j. split; [done|].
  unfold find_session, update_sessions. cbn [snd put_sessions t_sessions]. clear.
  induction (t_sessions (sessions_of (tables w))) as [|s l IH]; [done|]. cbn [map find].
  destruct (has_hash (hash_token raw) s) eqn:E; [|by rewrite E].
  assert (has_hash (hash_token raw) (set_data j s) = true) as -> by exact E. done.
Qed.

Lemma delete_session_step raw (w w' : W) ok : delete_session raw w = (ok, w') → sessions_ok (sessions_of (tables w)) →
  sessions_only (tables w) (tables w') ∧ sessions_ok (sessions_of (tables w')) ∧
  users_registry (tables w') = (if ok then delete (hash_token raw) (users_registry (tables w)) else users_registry (tables w)).
Proof.
  unfold delete_session. intros E Hok. destruct (exec _ w) as [o w1] eqn:X. apply sessions_exec in X as [Hs X]; [|done].
  injection E as <- <-. destruct o as [[]|].
  - assert (X' := f_equal snd X). cbn [snd] in X'. rewrite <-X', bool_decide_eq_true_2 by eauto.
    destruct (registry_delete (sessions_of (tables w)) (hash_token raw) Hok) as [? ->]. done.
  - rewrite X, bool_decide_eq_false_2 by (by intros [? ?]). done.
Qed.

Lemma delete_down raw (w w' : W) : delete_session raw w = (false, w') → ¬ never_fails W users_tables.
Proof.
  unfold delete_session. intros E Hup. destruct (exec _ w) as [[[]|] w1] eqn:X.
  - discriminate E.
  - match type of X with exec ?f w = _ => change (exec (on_part sessions_of with_sessions f) w = (None, w1)) in X end. by apply Hup in X.
Qed.

(** Adding columns changes nothing else. *)
Definition columns_only (t t' : users_tables) : Prop := t' = put_columns (n_columns t') t.
Lemma ensure_columns_step get put needed (w w' : W) ok : (∀ l t, columns_only t (put l t)) →
  ensure_columns get put needed w = (ok, w') →
  columns_only (tables w) (tables w') ∧ (never_fails W users_tables → ok = true).
Proof.
  intros Hput. assert (Hadd : ∀ names (w1 w2 : W) ok, add_columns get put names w1 = (ok, w2) →
    columns_only (tables w1) (tables w2) ∧ (never_fails W users_tables → ok = true)).
  { induction names as [|n names IH]; intros w1 w2 ok1; cbn.
    - intros [= <- <-]. split; [|done]. unfold columns_only. by destruct (tables w1).
    - destruct (exec _ w1) as [[[]|] w3] eqn:X.
      + apply exec_ok in X. injection X as X. intros [E Hup]%IH. split; [|done]. unfold columns_only in *.
        rewrite E, <-X, Hput. done.
      + apply exec_fail in X as Hx. intros [= <- <-]. rewrite Hx. split; [unfold columns_only; by destruct (tables w1)|].
        intros Hup. by apply Hup in X. }
  unfold ensure_columns. destruct (query get w) as [q w1] eqn:Q.
  destruct (query_cases _ get w) as [(w2 & Q' & Ht)|(w2 & Q' & Ht)]; rewrite Q in Q'; injection Q' as -> <-.
  - intros E%Hadd. by rewrite Ht in E.
  - intros [= <- <-]. rewrite Ht. split; [unfold columns_only; by destruct (tables w)|]. intros Hup. by apply Hup in Q.
Qed.

Lemma has_passkeys_step user (w w' : W) p : has_passkeys user w = (p, w') →
  tables w' = put_columns (n_columns (tables w')) (tables w) ∧
  (∀ b, p = Some b → b = bool_decide (user ∈ passkey_owners (tables w))).
Proof.
  unfold has_passkeys, ensure_passkey_schema. intros E. destruct (ensure_columns _ _ _ w) as [ok w3] eqn:X.
  apply ensure_columns_step in X as [X _]; [|done]. unfold columns_only in X. destruct ok; cbn [negb] in E; [|by injection E as <- <-].
  destruct (query _ w3) as [n w4] eqn:Q2.
  destruct (query_cases _ (λ t, length (filter (λ p, p = user) (passkey_owners t))) w3) as [(w5 & Q' & Ht2)|(w5 & Q' & Ht2)];
    rewrite Q2 in Q'; injection Q' as -> <-; injection E as <- <-; rewrite Ht2; (split; [done|]); [|done].
  intros b [= <-]. rewrite X. cbn. destruct (decide (user ∈ passkey_owners (tables w))) as [Hin|Hn].
  - rewrite bool_decide_eq_true_2 by done. apply negb_true_iff, Nat.eqb_neq. intros L%nil_length_inv.
    apply (not_elem_of_nil user). rewrite <-L. by apply list_elem_of_filter.
  - rewrite bool_decide_eq_false_2, filter_none by done || (intros x Hx ->; done). done.
Qed.

(** ** The account's last log-in *)

Definition seen_or_same (id : Z) (ip : string) (now : instant) (t t' : users_tables) : Prop :=
  ac_rows (n_accounts t') = ac_rows (n_accounts t) ∨
  ac_rows (n_accounts t') = map_user id (set_seen ip now) (ac_rows (n_accounts t)).

Lemma note_step u ip i (r r' : result auth_error login_response) (w w' : W) : then_note u ip i r w = (r', w') →
  r' = r ∧ n_sessions (tables w') = n_sessions (tables w) ∧ n_ids (tables w') = n_ids (tables w) ∧
  n_keys (tables w') = n_keys (tables w) ∧
  match r with Ok _ => seen_or_same (usr_id u) ip (is_now3 i) (tables w) (tables w') | Fail _ => tables w' = tables w end.
Proof.
  unfold then_note. destruct r as [a|e]; [|by intros [= <- <-]].
  unfold update_user_last_login, change_user. destruct (exec _ w) as [[b|] w1] eqn:X; intros [= <- <-].
  - apply exec_ok in X. unfold update_user in X. case_decide; injection X as _ <-; repeat split; [by right|by left].
  - apply exec_fail in X. rewrite X. repeat split. by left.
Qed.

(** ** Full sessions *)

Definition opened (t t' : users_tables) (id : Z) (token : string) (ends : instant) : Prop :=
  users_registry t !! hash_token token = None ∧
  users_registry t' = <[hash_token token := (id, stored ends)]> (users_registry t).

Lemma full_session_step u i (w w' : W) r : full_session u i w = (r, w') → sessions_ok (sessions_of (tables w)) →
  sessions_only (tables w) (tables w') ∧ sessions_ok (sessions_of (tables w')) ∧
  match r with
  | Ok te => opened (tables w) (tables w') (usr_id u) te.1 te.2 ∧ te.2 = seconds_from (is_now1 i) session_ttl
  | Fail _ => tables w' = tables w
  end.
Proof.
  unfold full_session. destruct (create_session _ _ _ _ _ w) as [r0 w1] eqn:C. intros [= <- <-] Hok.
  apply create_session_step in C as (H1 & H2 & H3); [|done]. split_and!; [done|done|]. destruct r0 as [s|]; [|done].
  destruct H3 as (_ & He & Hn & Hr). cbn. rewrite He. by split.
Qed.

Lemma sessions_same t t' : n_sessions t' = n_sessions t → n_ids t' = n_ids t → sessions_of t' = sessions_of t.
Proof. unfold sessions_of. by intros -> ->. Qed.

(** A full session followed by the note of the log-in *)
Lemma finished u ip i rem (r1 : result auth_error (string * instant)) (w w1 w' : W) res :
  full_session u i w = (r1, w1) → sessions_ok (sessions_of (tables w)) →
  then_note u ip i (let? te := r1 in Ok (FullSession te.1 (build_auth_user_summary u) te.2 rem)) w1 = (res, w') →
  match res with
  | Ok a => ∃ token ends, a = FullSession token (build_auth_user_summary u) ends rem ∧
      opened (tables w) (tables w') (usr_id u) token ends ∧ ends = seconds_from (is_now1 i) session_ttl ∧
      sessions_ok (sessions_of (tables w')) ∧ n_keys (tables w') = n_keys (tables w) ∧
      seen_or_same (usr_id u) ip (is_now3 i) (tables w) (tables w')
  | Fail _ => tables w' = tables w
  end.
Proof.
  intros F Hok N. apply full_session_step in F as (Hs & Hok1 & F); [|done].
  apply note_step in N as (-> & Nn & Ni & Nk & N). destruct r1 as [te|e]; [|by rewrite N, F].
  destruct F as [[Fn Fr] He]. exists te.1, te.2. unfold opened. rewrite (sessions_same _ _ Nn Ni), Nk, Hs in *.
  by split_and!.
Qed.

(** ** The second factor *)

Abbreviation down := (¬ never_fails W users_tables).

Section Factors.
Context (open : list Z → list Z → list Z → option (list Z)) (cipher_key : string) (totp : string → string → bool).

Lemma code_step u code ip i (w w' : W) res :
  login_with_two_factor_code open cipher_key totp u code ip i w = (res, w') → sessions_ok (sessions_of (tables w)) →
  match res with
  | Ok a => code_verifies open cipher_key totp u code = true ∧ ∃ token ends,
      a = FullSession token (build_auth_user_summary u) ends None ∧
      opened (tables w) (tables w') (usr_id u) token ends ∧ ends = seconds_from (is_now1 i) session_ttl ∧
      sessions_ok (sessions_of (tables w')) ∧ n_keys (tables w') = n_keys (tables w) ∧
      seen_or_same (usr_id u) ip (is_now3 i) (tables w) (tables w')
  | Fail _ => tables w' = tables w
  end.
Proof.
  unfold login_with_two_factor_code. destruct (code_verifies _ _ _ u code); [|by intros [= <- <-]].
  unfold create_full_auth_session. destruct (full_session u i w) as [r w1] eqn:F. intros N Hok.
  pose proof (finished _ _ _ _ _ _ _ _ _ F Hok N) as L. by destruct res.
Qed.

(** A recovery key that is open is marked before the session is created. *)
Definition key_spent (id : Z) (key : string) (now : instant) (t t' : users_tables) : Prop :=
  ∃ k, find (matches id (hash_token (canonical key))) (n_keys t).1 = Some k ∧
    n_keys t' = (map (λ r, if k_id r =? k_id k then mark now r else r) (n_keys t).1, (n_keys t).2).
(** What an error leaves: the accounts; the sessions, but for one of the account with the given end, whose token nobody
    got, when a later statement failed. *)
Definition harmless (id : Z) (ends : instant) (t t' : users_tables) : Prop :=
  n_accounts t' = n_accounts t ∧
  (users_registry t' = users_registry t ∨ down ∧ ∃ token, opened t t' id token ends).

Lemma harmless_same id ends t t' : n_accounts t' = n_accounts t → users_registry t' = users_registry t → harmless id ends t t'.
Proof. intros ? ?. split; [done|by left]. Qed.

Definition put_key_rows (p : list key_row * Z) (t : users_tables) : users_tables :=
  UsersTables (n_accounts t) (n_ids t) (n_sessions t) p (n_tokens t) (n_verifications t) (n_resets t) (n_invites t)
    (n_activity t) (n_passkeys t) (n_columns t).
Definition keys_only (t t' : users_tables) : Prop := t' = put_key_rows (n_keys t') t.

Lemma keys_exec {A} (f : key_tables → A * key_tables) (w w' : W) a :
  (∀ s, t_users (f s).2 = t_users s) → exec f w = (a, w') →
  keys_only (tables w) (tables w') ∧
  match a with Some x => f (keys_of (tables w)) = (x, keys_of (tables w')) | None => tables w' = tables w end.
Proof.
  intros Hacc E. change (exec (on_part keys_of with_keys f) w = (a, w')) in E. destruct a as [x|].
  - apply exec_ok in E. unfold on_part in E. specialize (Hacc (keys_of (tables w))).
    destruct (f (keys_of (tables w))) as [y [l n i]]. injection E as -> E. cbn in Hacc. subst i. rewrite <-E. done.
  - apply exec_fail in E. rewrite E. by destruct (tables w).
Qed.

Lemma keys_same t t' : keys_only t t' → keys_of t = keys_of t' → t' = t.
Proof.
  intros -> Q. apply (f_equal (λ k, (t_keys k, t_next_key k))) in Q. cbn in Q. rewrite <-!surjective_pairing in Q.
  rewrite <-Q. by destruct t.
Qed.

Lemma keys_query {A} (f : key_tables → A) (w w' : W) a : query f w = (a, w') →
  tables w' = tables w ∧ match a with Some x => x = f (keys_of (tables w)) | None => True end.
Proof.
  unfold query. intros [Hs Q]%keys_exec; [|done]. destruct a as [x|]; [|by split].
  pose proof (f_equal snd Q) as Q2. cbn [snd] in Q2. apply keys_same in Q2; [|done]. split; [done|].
  apply (f_equal fst) in Q. by cbn in Q.
Qed.

Lemma keys_down {A} (f : key_tables → A) (w w' : W) : query f w = (None, w') → down.
Proof.
  intros Q Hup. unfold query in Q. change (exec (on_part keys_of with_keys (λ t, (f t, t))) w = (None, w')) in Q. by apply Hup in Q.
Qed.

Lemma verify_step user key now (w w' : W) r : verify_and_use user key now w = (r, w') →
  match r with
  | Ok true => keys_only (tables w) (tables w') ∧ key_spent user key now (tables w) (tables w')
  | _ => tables w' = tables w
  end.
Proof.
  unfold verify_and_use, verify_lookup. destruct (query _ w) as [q w1] eqn:Q. apply keys_query in Q as [Ht Q].
  destruct q as [o|]; [|by intros [= <- <-]]. subst o.
  destruct (find _ _) as [k|] eqn:F; cbn [fmap option_fmap option_map]; [|by intros [= <- <-]].
  unfold verify_mark. destruct (exec _ w1) as [m w2] eqn:X. apply keys_exec in X as [Hk X]; [|done]. rewrite Ht in Hk, X.
  destruct m as [[]|]; intros [= <- <-]; [|done]. split; [done|]. exists k. split; [exact F|].
  apply (f_equal (λ p, (t_keys p.2, t_next_key p.2))) in X. cbn in X. by rewrite <-surjective_pairing in X.
Qed.

Lemma key_step u key ip now i (w w' : W) res :
  login_with_recovery_key u key ip now i w = (res, w') → sessions_ok (sessions_of (tables w)) →
  match res with
  | Ok a => key_spent (usr_id u) key now (tables w) (tables w') ∧ ∃ token ends n,
      a = FullSession token (build_auth_user_summary u) ends (Some n) ∧
      opened (tables w) (tables w') (usr_id u) token ends ∧ ends = seconds_from (is_now1 i) session_ttl ∧
      sessions_ok (sessions_of (tables w')) ∧
      n = length (filter (λ k, of_user (usr_id u) k && unused k = true) (n_keys (tables w')).1) ∧
      seen_or_same (usr_id u) ip (is_now3 i) (tables w) (tables w')
  | Fail _ => tables w' = tables w ∨
      key_spent (usr_id u) key now (tables w) (tables w') ∧ harmless (usr_id u) (seconds_from (is_now1 i) session_ttl) (tables w) (tables w')
  end.
Proof.
  unfold login_with_recovery_key. intros E Hok. destruct (verify_and_use _ _ _ w) as [v w1] eqn:V. apply verify_step in V.
  destruct v as [[]|]; [|injection E as <- <-; by left..]. destruct V as [Hk Hspent].
  assert (Hs1 : sessions_of (tables w1) = sessions_of (tables w)) by (by rewrite Hk).
  assert (Ha1 : n_accounts (tables w1) = n_accounts (tables w)) by (by rewrite Hk). rewrite <-Hs1 in Hok.
  destruct (full_session u i w1) as [r w2] eqn:F. apply full_session_step in F as (Hs & Hok2 & F); [|done].
  destruct r as [te|e]; [|injection E as <- <-; rewrite F; right; split; [done|]; apply harmless_same; [done|by rewrite Hs1]].
  destruct F as [[Fn Fr] He].
  assert (Hk2 : n_keys (tables w2) = n_keys (tables w1)) by (by rewrite Hs).
  assert (Ha2 : n_accounts (tables w2) = n_accounts (tables w1)) by (by rewrite Hs).
  unfold get_unused_keys_count in E. destruct (query _ w2) as [n w3] eqn:Q0. pose proof Q0 as [Ht3 Q]%keys_query.
  destruct n as [n|].
  2:{ injection E as <- <-. rewrite Ht3. right. split; [destruct Hspent as (k & Hf & Hkk); exists k; split; [done|]; by rewrite Hk2|].
      split; [by rewrite Ha2, Ha1|]. right. split; [by apply keys_down in Q0|]. exists te.1. rewrite <-He. unfold opened. by rewrite <-Hs1. }
  subst n. apply note_step in E as (-> & Nn & Ni & Nk & N). rewrite Ht3 in Nn, Ni, Nk, N.
  split.
  - destruct Hspent as (k & Hf & Hkk). exists k. split; [done|]. by rewrite Nk, Hk2.
  - exists te.1, te.2, (length (filter (λ k, of_user (usr_id u) k && unused k = true) (n_keys (tables w2)).1)).
    unfold opened. rewrite (sessions_same _ _ Nn Ni), <-Hs1, Nk. split_and!; try done.
    unfold seen_or_same in N |- *. by rewrite Ha2, Ha1 in N.
Qed.
End Factors.

(** ** The pending session *)

(** A pending session is registered for its fifteen minutes and marked as such. *)
Definition marked_pending (t : users_tables) (token : string) : Prop :=
  ∃ r j, find_session token (sessions_of t) = Some r ∧ u_data (r_rest r) = Some j ∧ encode_data pending_data = Some j.

Lemma pending_step user i (w w' : W) r : create_pending_session encode_data user i w = (r, w') →
  sessions_ok (sessions_of (tables w)) →
  match r with
  | Ok token => sessions_only (tables w) (tables w') ∧ sessions_ok (sessions_of (tables w')) ∧
      opened (tables w) (tables w') user token (seconds_from (is_now1 i) pending_ttl) ∧ marked_pending (tables w') token
  | Fail _ => n_keys (tables w') = n_keys (tables w) ∧ harmless user (seconds_from (is_now1 i) pending_ttl) (tables w) (tables w')
  end.
Proof.
  unfold create_pending_session. intros E Hok. destruct (create_session _ _ _ _ _ w) as [c w1] eqn:C.
  apply create_session_step in C as (Hs1 & Hok1 & C); [|done].
  destruct c as [s|]; [|injection E as <- <-; rewrite C; split; [done|by apply harmless_same]]. destruct C as (_ & _ & Cn & Cr).
  destruct (update_data _ _ _ w1) as [u w2] eqn:U. apply update_data_step in U as (Hs2 & Hok2 & Ur & Ud); [|done].
  assert (Hacc : n_accounts (tables w2) = n_accounts (tables w)) by (by rewrite Hs2, Hs1).
  destruct u as [[]|].
  - injection E as <- <-. split; [by eapply sessions_only_trans|]. split; [done|]. split.
    { unfold opened. by rewrite Ur. }
    destruct (Ud eq_refl) as (j & Ej & Fj). pose proof (registry_lookup (sessions_of (tables w1)) (hash_token (s_id s))) as L.
    rewrite Cr, lookup_insert_eq in L. unfold find_session in Fj. destruct (find _ (t_sessions (sessions_of (tables w1)))) as [r|]; [|done].
    exists (set_data j r), j. done.
  - destruct (delete_session (s_id s) w2) as [ok w3] eqn:X0. pose proof X0 as (Hs3 & _ & Xr)%delete_session_step; [|done].
    injection E as <- <-. split; [by rewrite Hs3, Hs2, Hs1|]. split; [by rewrite Hs3|]. rewrite Xr, Ur, Cr. destruct ok.
    + left. by rewrite delete_insert_id.
    + right. split; [by apply delete_down in X0|]. exists (s_id s). unfold opened. by rewrite Xr, Ur.
Qed.

(** ** Credentials *)

Lemma ask_user_found f scan (w w' : W) r : ask_user f scan w = (r, w') →
  tables w' = tables w ∧ (∀ u, r = Ok u → ∃ row, f (tables w) = Some row ∧ scan row = Some u).
Proof.
  unfold ask_user. destruct (query _ w) as [q w1] eqn:Q.
  destruct (query_cases _ f w) as [(w2 & Q' & Ht)|(w2 & Q' & Ht)]; rewrite Q in Q'; injection Q' as -> <-; intros [= <- <-]; (split; [done|]);
    intros u Hu; [|done]. destruct (f (tables w)) as [row|] eqn:F; [|done]. exists row. split; [done|].
  destruct (scan row); [|done]. by injection Hu as <-.
Qed.

(** The account an identifier names: by its name or its address *)
Definition named (identifier : string) (t : users_tables) (r : user_row) : Prop :=
  r ∈ ac_rows (n_accounts t) ∧ (n_name r = identifier ∨ n_email r = identifier).

Lemma identifier_found identifier (w w' : W) r : user_by_identifier identifier w = (r, w') →
  tables w' = tables w ∧ (∀ u, r = Ok u → ∃ row, named identifier (tables w) row ∧ u = scan_found row).
Proof.
  unfold user_by_identifier. destruct (user_by_name identifier w) as [r1 w1] eqn:N. apply ask_user_found in N as [Ht N].
  destruct r1 as [u1|].
  - intros [= <- <-]. split; [done|]. intros u [= <-]. destruct (N u1 eq_refl) as (row & F & [= <-]). exists row. split; [|done].
    apply find_some in F as [Hin%list_elem_of_In E%bool_decide_eq_true]. split; [done|by left].
  - intros E%ask_user_found. rewrite Ht in E. destruct E as [-> E]. split; [done|]. intros u Hu.
    destruct (E u Hu) as (row & F & [= <-]). exists row. split; [|done].
    apply find_some in F as [Hin%list_elem_of_In E2%bool_decide_eq_true]. split; [done|by right].
Qed.

Section Credentials.
Context (id_key : list Z → list Z → Z → Z → Z → Z → option (list Z)).
Context (open : list Z → list Z → list Z → option (list Z)) (cipher_key : string) (totp : string → string → bool).
Context (required : bool).

Definition in_good_standing (r : user_row) : Prop :=
  st_active (n_standing r) = true ∧ st_banned (n_standing r) = false ∧ (required = true → st_verified (n_standing r) = true).
Definition two_factor_account (t : users_tables) (r : user_row) : Prop :=
  st_two_factor (n_standing r) = true ∨ n_id r ∈ passkey_owners t.
Definition code_accepted (r : user_row) (code : string) : Prop :=
  st_two_factor (n_standing r) = true ∧ ∃ secret,
    decrypt_two_factor_secret open cipher_key (default "" (st_secret (n_standing r))) = Ok secret ∧ totp secret code = true.

Lemma validated u : validate_auth_user required u = Ok tt →
  usr_active u = true ∧ usr_banned u = false ∧ (required = true → usr_verified u = true).
Proof.
  unfold validate_auth_user. destruct (usr_active u), (usr_banned u), required, (usr_verified u); by cbn.
Qed.

Lemma code_verified u code : code_verifies open cipher_key totp u code = true →
  ∃ secret, decrypt_two_factor_secret open cipher_key (usr_secret u) = Ok secret ∧ totp secret code = true.
Proof. unfold code_verifies. destruct (decrypt_two_factor_secret _ _ _) as [s|]; [|done]. eauto. Qed.

(** What a log-in of the account leaves when it fails after the credentials *)
Definition half_done (r : user_row) (req : login_request) (now : instant) (i : issue) (t t' : users_tables) : Prop :=
  two_factor_account t r ∧
  (lr_recovery req ≠ "" ∧ key_spent (n_id r) (lr_recovery req) now t t' ∧ harmless (n_id r) (seconds_from (is_now1 i) session_ttl) t t' ∨
   lr_recovery req = "" ∧ lr_code req = "" ∧ n_keys t' = n_keys t ∧ harmless (n_id r) (seconds_from (is_now1 i) pending_ttl) t t').
Definition unchanged (t t' : users_tables) : Prop := t' = put_columns (n_columns t') t.

Lemma unchanged_refl t : unchanged t t.
Proof. unfold unchanged. by destruct t. Qed.

Lemma second_step r req ip now i (w w' : W) res :
  login_second_step open cipher_key totp encode_data (scan_found r) req ip now i w = (res, w') →
  sessions_ok (sessions_of (tables w)) →
  match res with
  | Ok (FullSession token who ends remaining) =>
      who = build_auth_user_summary (scan_found r) ∧ ends = seconds_from (is_now1 i) session_ttl ∧
      opened (tables w) (tables w') (n_id r) token ends ∧ seen_or_same (n_id r) ip (is_now3 i) (tables w) (tables w') ∧
      (two_factor_account (tables w) r →
         lr_recovery req ≠ "" ∧ key_spent (n_id r) (lr_recovery req) now (tables w) (tables w') ∨
         lr_recovery req = "" ∧ code_accepted r (lr_code req) ∧ n_keys (tables w') = n_keys (tables w))
  | Ok (SecondFactor token) =>
      two_factor_account (tables w) r ∧ lr_recovery req = "" ∧ lr_code req = "" ∧
      sessions_only (tables w) (put_columns (n_columns (tables w)) (tables w')) ∧
      opened (tables w) (tables w') (n_id r) token (seconds_from (is_now1 i) pending_ttl) ∧ marked_pending (tables w') token
  | Fail _ => unchanged (tables w) (tables w') ∨ half_done r req now i (tables w) (tables w')
  end.
Proof.
  unfold login_second_step. intros E Hok. destruct (has_passkeys _ w) as [p w1] eqn:P. apply has_passkeys_step in P as [Ht P].
  assert (Hs : sessions_of (tables w1) = sessions_of (tables w)) by (by rewrite Ht).
  assert (Ha : n_accounts (tables w1) = n_accounts (tables w)) by (by rewrite Ht).
  assert (Hk : n_keys (tables w1) = n_keys (tables w)) by (by rewrite Ht). rewrite <-Hs in Hok.
  assert (Hh : ∀ t' id ends, harmless id ends (tables w1) t' → harmless id ends (tables w) t')
    by (intros t' id ends; unfold harmless, opened; by rewrite Ha, Hs).
  assert (Ho1 : ∀ t' id token ends, opened (tables w1) t' id token ends → opened (tables w) t' id token ends)
    by (unfold opened; by rewrite Hs).
  assert (Hs1 : ∀ t' id, seen_or_same id ip (is_now3 i) (tables w1) t' → seen_or_same id ip (is_now3 i) (tables w) t')
    by (unfold seen_or_same; by rewrite Ha).
  destruct p as [passkeys|]; [|injection E as <- <-; by left].
  specialize (P _ eq_refl). change (usr_id (scan_found r)) with (n_id r) in *. change (usr_two_factor (scan_found r)) with (st_two_factor (n_standing r)) in E.
  assert (H2 : st_two_factor (n_standing r) || passkeys = true ↔ two_factor_account (tables w) r).
  { unfold two_factor_account. by rewrite orb_true_iff, P, bool_decide_eq_true. }
  destruct (st_two_factor (n_standing r) || passkeys) eqn:F2.
  - destruct (is_empty (lr_recovery req)) eqn:R; cbn [negb] in E.
    + apply is_empty_spec in R. destruct (is_empty (lr_code req)) eqn:C; cbn [negb] in E.
      * destruct (create_pending_session _ _ _ w1) as [q w2] eqn:Q. apply pending_step in Q; [|done].
        destruct q as [token|]; injection E as <- <-.
        2:{ right. destruct Q as [Q1 Q2%Hh]. split; [tauto|]. right. rewrite Q1. split_and!; [done|by apply is_empty_spec|done|done]. }
        destruct Q as (Q1 & _ & Q3 & Q4).
        apply Ho1 in Q3. split_and!; try done; try tauto; [by apply is_empty_spec|].
        unfold sessions_only. rewrite Q1, Ht. by destruct (tables w).
      * destruct (st_two_factor (n_standing r)) eqn:TF; cbn [negb] in E; [|injection E as <- <-; by left].
        apply code_step in E; [|done]. destruct res as [a|]; [|rewrite E; by left].
        destruct E as (Hc & token & ends & -> & Ho & He & _ & Hkk & Hsn). apply code_verified in Hc as (secret & Hd & Htotp).
        apply Ho1 in Ho. apply Hs1 in Hsn. rewrite Hk in Hkk. split_and!; try done. intros _. right.
        split_and!; try done. split; [done|]. by exists secret.
    + assert (R' : lr_recovery req ≠ "") by (intros R'; by rewrite R' in R).
      apply key_step in E; [|done]. destruct res as [a|].
      2:{ destruct E as [->|[E1 E2%Hh]]; [by left|right]. split; [tauto|]. left. split_and!; [done| |done]. unfold key_spent in *. by rewrite Hk in E1. }
      destruct E as (Hsp & token & ends & n & -> & Ho & He & _ & _ & Hsn).
      apply Ho1 in Ho. apply Hs1 in Hsn. split_and!; try done. intros _. left. split; [done|].
      unfold key_spent in *. by rewrite Hk in Hsp.
  - unfold create_full_auth_session in E. destruct (full_session _ i w1) as [q w2] eqn:Q.
    pose proof (finished _ _ _ _ _ _ _ _ _ Q Hok E) as L. destruct res as [a|]; [|rewrite L; by left].
    destruct L as (token & ends & -> & Ho & He & _ & _ & Hsn). apply Ho1 in Ho. apply Hs1 in Hsn.
    split_and!; try done. intros H3%H2. done.
Qed.

(** C4: a log-in through the API is sound.  Whatever is sent and whichever statements fail:
    a full session is only issued for an account the identifier names whose stored hash
    verifies the password and which is active, not banned and, where that is required,
    verified; if the account has two-factor authentication or a passkey, then only together
    with an unused recovery key, which is used up, or a code its decrypted secret accepts.
    The session is then the only one added, for that account and thirty days, and besides
    the last log-in no account changes.  Without a factor such an account only gets a
    session of fifteen minutes that is marked as pending ([second_factor_bypassed] says what
    the middleware makes of it).  An error changes nothing but missing columns, unless the
    credentials are right and the account has a second factor: then it may have spent the
    recovery key that was sent, and, only when a statement failed, left a session whose
    token was not answered. *)
Theorem login_sound req ip now i (w w' : W) res :
  sessions_ok (sessions_of (tables w)) →
  login_api_user id_key open cipher_key totp encode_data required req ip now i w = (res, w') →
  match res with
  | Ok a => ∃ r, named (trim_space (lr_identifier req)) (tables w) r ∧
      verify_password id_key (lr_password req) (n_hash r) = Ok true ∧ in_good_standing r ∧
      match a with
      | FullSession token who ends _ =>
          who = build_auth_user_summary (scan_found r) ∧ ends = seconds_from (is_now1 i) session_ttl ∧
          opened (tables w) (tables w') (n_id r) token ends ∧ seen_or_same (n_id r) ip (is_now3 i) (tables w) (tables w') ∧
          (two_factor_account (tables w) r →
             lr_recovery req ≠ "" ∧ key_spent (n_id r) (lr_recovery req) now (tables w) (tables w') ∨
             lr_recovery req = "" ∧ code_accepted r (lr_code req) ∧ n_keys (tables w') = n_keys (tables w))
      | SecondFactor token =>
          two_factor_account (tables w) r ∧ lr_recovery req = "" ∧ lr_code req = "" ∧
          sessions_only (tables w) (put_columns (n_columns (tables w)) (tables w')) ∧
          opened (tables w) (tables w') (n_id r) token (seconds_from (is_now1 i) pending_ttl) ∧ marked_pending (tables w') token
      end
  | Fail _ => unchanged (tables w) (tables w') ∨
      ∃ r, named (trim_space (lr_identifier req)) (tables w) r ∧ verify_password id_key (lr_password req) (n_hash r) = Ok true ∧
        in_good_standing r ∧ half_done r req now i (tables w) (tables w')
  end.
Proof.
  intros Hok. unfold login_api_user. destruct (negb (str_eqb _ _)); [intros [= <- <-]; left; apply unchanged_refl|].
  destruct (user_by_identifier _ w) as [u w1] eqn:U. apply identifier_found in U as [Ht U].
  assert (Hh : unchanged (tables w) (tables w1)) by (rewrite Ht; apply unchanged_refl).
  destruct u as [u|]; [|intros [= <- <-]; by left]. destruct (U u eq_refl) as (r & Hn & ->).
  destruct (check_user_password _ _ _) eqn:P; cbn [negb]; [|intros [= <- <-]; by left].
  destruct (validate_auth_user required _) as [[]|] eqn:V; [|intros [= <- <-]; by left].
  apply validated in V. intros S%second_step; [|by rewrite Ht]. rewrite Ht in S.
  assert (Hp : verify_password id_key (lr_password req) (n_hash r) = Ok true).
  { revert P. unfold check_user_password. change (usr_hash (scan_found r)) with (n_hash r).
    destruct (verify_password _ _ _) as [[]|]; done. }
  destruct res as [a|]; [exists r; by split_and!|]. destruct S as [S|S]; [by left|right]. exists r. by split_and!.
Qed.
End Credentials.

(** ** Sessions that are looked up *)

Lemma sessions_same_tables t t' : sessions_only t t' → sessions_of t = sessions_of t' → t' = t.
Proof.
  intros -> Q. apply (f_equal (λ k, (t_sessions k, t_next k))) in Q. cbn in Q. rewrite <-!surjective_pairing in Q.
  rewrite <-Q. by destruct t.
Qed.

Lemma sessions_query {A} (f : session_tables → A) (w w' : W) a : query f w = (a, w') →
  tables w' = tables w ∧ match a with Some x => x = f (sessions_of (tables w)) | None => True end.
Proof.
  unfold query. intros [Hs Q]%sessions_exec; [|done]. destruct a as [x|]; [|by split].
  pose proof (f_equal snd Q) as Q2. cbn [snd] in Q2. apply sessions_same_tables in Q2; [|done]. split; [done|].
  apply (f_equal fst) in Q. by cbn in Q.
Qed.

Definition data_of (r : session_row) : option jobject :=
  j ← u_data (r_rest r); if is_empty j then None else decode_data j.

Lemma get_session_step raw now (w w' : W) r : get_by_id decode_data raw now w = (r, w') → sessions_ok (sessions_of (tables w)) →
  sessions_only (tables w) (tables w') ∧ sessions_ok (sessions_of (tables w')) ∧
  match r with
  | Ok s => tables w' = tables w ∧ s_id s = raw ∧ now < s_expires s ∧
      users_registry (tables w) !! hash_token raw = Some (s_user s, Some (s_expires s)) ∧
      ∃ row, find_session raw (sessions_of (tables w)) = Some row ∧ s_data s = data_of row
  | Fail _ => users_registry (tables w') = users_registry (tables w) ∨
      users_registry (tables w') = delete (hash_token raw) (users_registry (tables w)) ∧
      ∃ e, users_registry (tables w) !! hash_token raw = Some e ∧ good now e = false
  end.
Proof.
  unfold get_by_id. destruct (query _ w) as [q w1] eqn:Q. apply sessions_query in Q as [Ht Q]. intros E Hok.
  destruct q as [[row|]|]; [|injection E as <- <-; rewrite Ht; by split_and!; [..|left]|injection E as <- <-; rewrite Ht; by split_and!; [..|left]].
  assert (L : users_registry (tables w) !! hash_token raw = Some (entry row)).
  { rewrite registry_lookup. unfold find_session in Q. by rewrite <-Q. }
  destruct (negb (unexpired now row)) eqn:X.
  - destruct (delete_session raw w1) as [ok w2] eqn:D. apply delete_session_step in D as (D1 & D2 & D3); [|by rewrite Ht].
    injection E as <- <-. rewrite Ht in D1, D3. split_and!; [done|done|]. rewrite D3. destruct ok; [right|by left]. split; [done|].
    exists (entry row). split; [done|]. unfold good, entry. cbn. apply negb_true_iff in X. exact X.
  - apply negb_false_iff in X. unfold unexpired in X.
    assert (Hfail : (Fail BadData, w1) = (r, w') → sessions_only (tables w) (tables w') ∧ sessions_ok (sessions_of (tables w')) ∧
      match r with Ok _ => False | Fail _ => users_registry (tables w') = users_registry (tables w) end).
    { intros [= <- <-]. rewrite Ht. by split_and!. }
    assert (Hgood : ∀ d, d = data_of row →
      (Ok (Session raw (u_user (r_rest row)) d (default zero_time (parse_stored_timestamp (r_stamp row)))
         (default zero_time (parse_stored_timestamp (u_created (r_rest row))))), w1) = (r, w') →
      sessions_only (tables w) (tables w') ∧ sessions_ok (sessions_of (tables w')) ∧
      match r with
      | Ok s => tables w' = tables w ∧ s_id s = raw ∧ now < s_expires s ∧
          users_registry (tables w) !! hash_token raw = Some (s_user s, Some (s_expires s)) ∧
          ∃ row, find_session raw (sessions_of (tables w)) = Some row ∧ s_data s = data_of row
      | Fail _ => False
      end).
    { intros d Hd [= <- <-]. rewrite Ht. split_and!; try done; cbn [s_expires s_user s_data].
      - destruct (parse_stored_timestamp (r_stamp row)) as [e|]; [|done]. by apply Z.ltb_lt in X.
      - rewrite L. unfold entry. by destruct (parse_stored_timestamp (r_stamp row)).
      - by exists row. }
    destruct (u_data (r_rest row)) as [j|] eqn:J.
    + destruct (is_empty j) eqn:Ej; [|destruct (decode_data j) as [d|] eqn:Dj].
      * apply Hgood in E; [destruct r; tauto|]. unfold data_of. rewrite J. cbn. by rewrite Ej.
      * apply Hgood in E; [destruct r; tauto|]. unfold data_of. rewrite J. cbn. by rewrite Ej, Dj.
      * apply Hfail in E. destruct r; tauto.
    + apply Hgood in E; [destruct r; tauto|]. unfold data_of. by rewrite J.
Qed.

(** ** What a request is admitted with *)

Definition account_read (id : Z) (u : user) (t : users_tables) : Prop :=
  ∃ row, row ∈ ac_rows (n_accounts t) ∧ n_id row = id ∧ scan_user row = Some u.

Lemma by_id_found id (w w' : W) r : user_by_id id w = (r, w') →
  tables w' = tables w ∧ (∀ u, r = Ok u → account_read id u (tables w)) ∧
  (never_fails W users_tables → users_ok (tables w) → ∀ u, account_read id u (tables w) → r = Ok u).
Proof.
  intros E. pose proof (ask_user_found _ _ _ _ _ E) as [Ht F]. split_and!; [done| |].
  - intros u Hu. destruct (F u Hu) as (row & Fr & Fs). exists row.
    apply find_some in Fr as [Hin%list_elem_of_In Hid]. unfold user_has_id in Hid. bool_facts. done.
  - intros Hup Hok u (row & Hin & Hid & Hs). unfold user_by_id, ask_user in E. destruct (query _ w) as [q w1] eqn:Q.
    destruct (query_cases _ (find_user (user_has_id id)) w) as [(w2 & Q' & _)|(w2 & Q' & _)]; rewrite Q in Q'; injection Q' as -> <-.
    2:{ by apply Hup in Q. }
    rewrite (find_user_spec _ _ row Hok Hin Hid), Hs in E. by injection E as <- _.
Qed.

Lemma scan_user_id row u : scan_user row = Some u → usr_id u = n_id row.
Proof. unfold scan_user. destruct (n_role row); [|done]. by intros [= <-]. Qed.

Lemma by_token_sound header now (w w' : W) o : by_token header now w = (o, w') → tokens_ok (tables w) →
  tables w' = tables w ∧ ∀ u id, o = Some (u, id) → ∃ token g, bearer header = Some token ∧
    grants_of (tables w) !! hash_token token = Some g ∧ alive now g = true ∧ g_id g = id ∧ account_read (g_user g) u (tables w).
Proof.
  unfold by_token. intros E Hok. destruct (bearer header) as [token|]; [|by injection E as <- <-].
  destruct (get_by_token token now w) as [a w1] eqn:G.
  assert (Ht : tables w1 = tables w).
  { unfold get_by_token in G. destruct (query _ w) as [q w2] eqn:Q.
    destruct (query_cases _ (token_row_of (hash_token token)) w) as [(w3 & Q' & Ht)|(w3 & Q' & Ht)];
      rewrite Q in Q'; injection Q' as -> <-; by injection G as _ <-. }
  destruct (get_step token now w w1 (TToken a)) as (_ & [J _] & _); [cbn; by rewrite G|done|].
  destruct a as [a|]; [|injection E as <- <-; by rewrite Ht]. destruct J as (g & Hg & Hl & Hi & Hu & _).
  destruct (user_by_id _ w1) as [r w2] eqn:B. apply by_id_found in B as (Ht2 & B & _). rewrite Ht in Ht2, B.
  destruct r as [u|]; injection E as <- <-; (split; [done|]); [|done]. intros u' id [= <- <-]. exists token, g.
  split_and!; try done. rewrite <-Hu. by apply B.
Qed.

(** A session is only deleted where it has ended. *)
Definition ended_gone (cookie : string) (now : instant) (t t' : users_tables) : Prop :=
  users_registry t' = users_registry t ∨
  users_registry t' = delete (hash_token cookie) (users_registry t) ∧
  ∃ e, users_registry t !! hash_token cookie = Some e ∧ good now e = false.

Lemma by_cookie_sound cookie now (w w' : W) o : by_cookie decode_data cookie now w = (o, w') → sessions_ok (sessions_of (tables w)) →
  match o with
  | Some (u, s) => tables w' = tables w ∧ cookie ≠ "" ∧
      users_registry (tables w) !! hash_token cookie = Some (usr_id u, Some (s_expires s)) ∧ now < s_expires s ∧
      account_read (usr_id u) u (tables w)
  | None => sessions_only (tables w) (tables w') ∧ ended_gone cookie now (tables w) (tables w') ∧
      (never_fails W users_tables → users_ok (tables w) → cookie ≠ "" → ∀ row e u,
         find_session cookie (sessions_of (tables w)) = Some row → (∀ j, u_data (r_rest row) = Some j → j = "" ∨ is_Some (decode_data j)) →
         entry row = (usr_id u, Some e) → account_read (usr_id u) u (tables w) → e <= now)
  end.
Proof.
  unfold by_cookie. intros E Hok. destruct (is_empty cookie) eqn:C.
  { injection E as <- <-. apply is_empty_spec in C. split_and!; [done|by left|]. intros _ _ Hc. done. }
  destruct (get_by_id _ _ _ w) as [r w1] eqn:G. pose proof (get_session_step _ _ _ _ _ G Hok) as (Hs & Hok1 & R).
  destruct r as [s|].
  - destruct R as (Ht & Hid & Hl & Hr & Hd). destruct (user_by_id _ w1) as [b w2] eqn:B. apply by_id_found in B as (Ht2 & B & Bc).
    rewrite Ht in Ht2, B, Bc. destruct b as [u|].
    + injection E as <- <-. pose proof (B u eq_refl) as Hacc.
      assert (Hu : usr_id u = s_user s) by (destruct Hacc as (row & _ & <- & Hsu); by apply scan_user_id in Hsu).
      rewrite Hu. split_and!; try done. intros Hc. by rewrite Hc in C.
    + injection E as <- <-. rewrite Ht2. split_and!; [done|by left|]. intros Hup Hu _ row e0 u Hf _ He Hacc.
      rewrite registry_lookup in Hr. unfold find_session in Hf. rewrite Hf in Hr. cbn in Hr. rewrite He in Hr. injection Hr as Hr Hr'.
      rewrite Hr in Hacc. specialize (Bc Hup Hu u Hacc). done.
  - injection E as <- <-. split_and!; [done|exact R|].
    intros Hup Hu _ row e' u Hf Hd He Hacc. unfold get_by_id in G. destruct (query _ w) as [q w2] eqn:Q.
      pose proof (sessions_query _ _ _ _ Q) as [Ht Q']. destruct q as [q|].
      2:{ exfalso. change (exec (on_part sessions_of with_sessions (λ t, (find_session cookie t, t))) w = (None, w2)) in Q. by apply Hup in Q. }
      subst q. rewrite Hf in G. unfold entry in He. injection He as He1 He2. unfold unexpired in G. rewrite He2 in G.
      destruct (now <? e') eqn:L; cbn [negb] in G; [|by apply Z.ltb_ge].
      destruct (u_data (r_rest row)) as [j|]; [|done]. destruct (Hd j eq_refl) as [->|[d Hdec]]; [done|].
      destruct (is_empty j); [done|]. by rewrite Hdec in G.
Qed.

(** What the job of an admission by a token does, whenever it runs *)
Lemma noted_use id now (w w' : W) ok : update_token_last_used id now w = (ok, w') →
  (if ok then tables w' = map_tokens (has_no id) (touch_token now) (tables w) else tables w' = tables w ∧ down) ∧
  (tokens_ok (tables w) → tokens_ok (tables w') ∧ grants_of (tables w') = grants_of (tables w)).
Proof.
  unfold update_token_last_used. destruct (exec _ w) as [r w1] eqn:X. intros [= <- <-]. destruct r as [[]|].
  - apply exec_ok in X. injection X as <-. rewrite bool_decide_eq_true_2 by eauto. split; [done|apply touch_token_spec].
  - pose proof (exec_fail _ _ _ _ X) as ->. rewrite bool_decide_eq_false_2 by (by intros [? ?]). split; [|done].
    split; [done|]. intros Hup. by apply Hup in X.
Qed.

(** C21: admission.  Whatever headers a request has and whichever statements fail, it is
    admitted as an account only with a token that is granted to it and has not ended, or with
    a cookie that opens a session of it that has not ended.  Deciding changes nothing but may
    delete the session of the cookie when that has ended.  An admission by a token, and no
    other, starts a job, which whenever it runs sets the last use of that token's row to its
    instant and changes nothing else, in particular no token's owner, scope or end.  When
    nothing fails, the cookie of a session that has not ended, with data that can be read, of
    an account that can be read, admits it.  Nobody is sent away where authentication is not
    required. *)
Theorem middleware_sound needed header cookie accept now1 now2 (w w' : W) p j :
  tokens_ok (tables w) → sessions_ok (sessions_of (tables w)) →
  auth_middleware decode_data needed header cookie accept now1 now2 w = (p, j, w') →
  match p with
  | Admitted_as u ByApiToken => tables w' = tables w ∧ ∃ token g, bearer header = Some token ∧
      grants_of (tables w) !! hash_token token = Some g ∧ alive now1 g = true ∧ account_read (g_user g) u (tables w) ∧
      ∃ note, j = Some note ∧ ∀ now (w1 w2 : W) ok, note now w1 = (ok, w2) →
        (if ok then tables w2 = map_tokens (has_no (g_id g)) (touch_token now) (tables w1) else tables w2 = tables w1 ∧ down) ∧
        (tokens_ok (tables w1) → tokens_ok (tables w2) ∧ grants_of (tables w2) = grants_of (tables w1))
  | Admitted_as u (BySession s) => j = None ∧ tables w' = tables w ∧ cookie ≠ "" ∧
      users_registry (tables w) !! hash_token cookie = Some (usr_id u, Some (s_expires s)) ∧ now2 < s_expires s ∧
      account_read (usr_id u) u (tables w)
  | _ => j = None ∧ (p = Anonymous ↔ needed = false) ∧
      sessions_only (tables w) (tables w') ∧ ended_gone cookie now2 (tables w) (tables w') ∧
      (never_fails W users_tables → users_ok (tables w) → cookie ≠ "" → ∀ row e u,
         find_session cookie (sessions_of (tables w)) = Some row → (∀ j, u_data (r_rest row) = Some j → j = "" ∨ is_Some (decode_data j)) →
         entry row = (usr_id u, Some e) → account_read (usr_id u) u (tables w) → e <= now2)
  end.
Proof.
  intros Ht Hs. unfold auth_middleware. destruct (by_token _ _ w) as [o w1] eqn:T. apply by_token_sound in T as [Tt T]; [|done].
  destruct o as [[u id]|].
  { intros [= <- <- <-]. split; [done|]. destruct (T u id eq_refl) as (token & g & H1 & H2 & H3 & H4 & H5). exists token, g. rewrite H4.
    split_and!; try done. eexists. split; [done|]. intros now w2 w3 ok. apply noted_use. }
  destruct (by_cookie _ _ _ w1) as [o w2] eqn:C. apply by_cookie_sound in C; [|by rewrite Tt]. rewrite Tt in C.
  destruct o as [[u s]|]; intros [= <- <- <-]; [done|].
  destruct needed; cbn [negb]; [destruct (contains _ _)|]; (split; [done|]; split; [by split|exact C]).
Qed.
End Steps.

(** * Witnesses and findings *)

(** A codec that knows one object, a cipher that opens nothing, a TOTP whose code is the secret *)
Definition pending_text : string := "{pending}".
Definition toy_encode (d : jobject) : option string := if bool_decide (d = pending_data) then Some pending_text else None.
Definition toy_decode (s : string) : option jobject := if str_eqb s pending_text then Some pending_data else None.
Definition no_open (key nonce text : list Z) : option (list Z) := None.
Definition toy_totp (secret code : string) : bool := str_eqb secret code.

Definition guarded_ann : user_row :=
  UserRow 1 "ann" "ann@example.org" (match hash_password toy_key "password" (Some [1; 2]) with Ok h => h | Fail _ => "" end)
    (Some "user") (Standing true true false None true (Some "123456")) new_profile VNull VNull VNull None.
Definition some_passkey (user : Z) : row passkey_cols :=
  Row (VInt 1) VNull (PasskeyCols user "AQ" "Ag" (Some "") 0 "phone" "[]" "none" false false VNull).
Definition users_with (u : user_row) (passkeys : list Z) : users_tables :=
  UsersTables (Accounts [u] 2 [1]) {[1]} ([], 1) ([], 1) (Table [] 1) (Table [] 1) (Table [] 1) (Table [] 1) (Table [] 1)
    (Table (map some_passkey passkeys) 2) ([], passkey_columns).
Definition issue_of (b : Z) : issue := Issue (draw b) t_now t_now t_now.
Definition login_of (req : login_request) (t : users_tables) :=
  login_api_user toy_key no_open "" toy_totp toy_encode false req "192.0.2.1" t_now (issue_of 1) (Reliable t).

Lemma users_without_sessions u passkeys : sessions_ok (sessions_of (tables (Reliable (users_with u passkeys)))).
Proof. unfold sessions_ok. cbn. split_and!; [constructor|constructor|by intros r ?%not_elem_of_nil|lia]. Qed.

Lemma login_sound_witness :
  let t := users_with guarded_ann [] in
  let r := login_of (LoginRequest " ann " "password" "123456" "") t in
  opened t (tables r.2) 1 (link 1) (seconds_from t_now session_ttl) ∧
  (login_of (LoginRequest "ann" "password" "654321" "") t).1 = Fail BadTwoFactorCode.
Proof.
  cbv zeta. split; [|vm_compute; reflexivity].
  destruct (login_of (LoginRequest " ann " "password" "123456" "") (users_with guarded_ann [])) as [res w'] eqn:E.
  assert (res = Ok (FullSession (link 1) (build_auth_user_summary (scan_found guarded_ann)) (seconds_from t_now session_ttl) None)) as ->.
  { apply (f_equal fst) in E. etransitivity; [symmetry; exact E|]. vm_compute. reflexivity. }
  pose proof (login_sound toy_decode toy_encode toy_key no_open "" toy_totp false _ _ _ _ _ _ _ (users_without_sessions guarded_ann []) E)
    as (r & [Hr _] & _ & _ & _ & _ & Ho & _).
  apply list_elem_of_singleton in Hr as ->. exact Ho.
Defined.

(** A session with its token and data, for the middleware *)
Definition logged_in (u : user_row) (data : option string) : users_tables :=
  with_sessions (SessionTables [Row (VInt 1) (stamp_of (t_now + hours 1))
    (SessionCols 1 (hash_token "token") None None data (stamp_of t_now) VNull)] 2 {[1]}) (users_with u []).

Lemma no_tokens_ok t : t_rows (n_tokens t) = [] → tokens_ok t.
Proof.
  intros E. unfold tokens_ok. rewrite E. split_and!; [constructor|constructor|by intros r ?%not_elem_of_nil|by intros r ?%not_elem_of_nil].
Qed.
Lemma one_session_ok u data : sessions_ok (sessions_of (logged_in u data)).
Proof.
  unfold sessions_ok. cbn [sessions_of logged_in with_sessions t_sessions t_next n_sessions fst snd map].
  split_and!; [apply NoDup_singleton|apply NoDup_singleton| |lia]. intros r ->%list_elem_of_singleton. by exists 1.
Qed.

Lemma middleware_sound_witness :
  let passes := λ now, (auth_middleware (W := reliable users_tables) toy_decode true "Basic x" "token" "text/html" t_now now
    (Reliable (logged_in guarded_ann None))).1.1 in
  (∃ u s, passes t_now = Admitted_as u (BySession s) ∧ usr_id u = 1) ∧ passes (t_now + hours 1) = ToLogin.
Proof.
  cbv zeta. split.
  - destruct (auth_middleware toy_decode true "Basic x" "token" "text/html" t_now t_now (Reliable (logged_in guarded_ann None))) as [[p j] w'] eqn:E.
    assert (Ht : tokens_ok (tables (Reliable (logged_in guarded_ann None)))) by (by apply no_tokens_ok).
    assert (Hs : sessions_ok (sessions_of (tables (Reliable (logged_in guarded_ann None))))) by exact (one_session_ok _ _).
    pose proof (middleware_sound toy_decode toy_encode true "Basic x" "token" "text/html" t_now t_now _ _ _ _ Ht Hs E) as M.
    assert (match p with Admitted_as _ (BySession _) => true | _ => false end = true) as Hp.
    { change p with (p, j, w').1.1. rewrite <-E. vm_compute. reflexivity. }
    destruct p as [u [|s]| | |]; [discriminate Hp| |discriminate Hp..]. clear Hp E.
    exists u, s. split; [done|]. destruct M as (_ & _ & _ & _ & _ & row & Hrow & <- & _). by apply list_elem_of_singleton in Hrow as ->.
  - vm_compute. reflexivity.
Defined.

(** The password alone is enough: the token of the pending session, in the cookie of a full
    one, is admitted as the account and refreshed to a session of thirty days. *)
Lemma second_factor_bypassed :
  let '(r, w) := login_of (LoginRequest "ann" "password" "" "") (users_with guarded_ann []) in
  match r with
  | Ok (SecondFactor token) =>
      let '(p, _, w) := auth_middleware toy_decode true "" token "" t_now t_now w in
      match p with
      | Admitted_as u (BySession s) =>
          usr_two_factor u = true ∧
          match fst (refresh_current (Some s) (Some u) (issue_of 2) w) with
          | Ok (FullSession _ who ends _) => su_id who = 1 ∧ ends = seconds_from t_now session_ttl
          | _ => False
          end
      | _ => False
      end
  | _ => False
  end.
Proof. vm_compute. done. Qed.

(** The form lets banned accounts and accounts with a passkey in; the API does not. *)
Definition banned_ann : user_row :=
  UserRow 1 "ann" "ann@example.org" (n_hash guarded_ann) (Some "user") (Standing true false true None false None) new_profile
    VNull VNull VNull None.
Definition form_login (t : users_tables) :=
  fst (web_login toy_key no_open "" toy_totp false (LoginRequest "ann" "password" "" "") false 60 t_now (issue_of 1) (Reliable t)).
Lemma banned_form_login :
  form_login (users_with banned_ann []) = Ok (Some (link 1, 1)) ∧
  fst (login_of (LoginRequest "ann" "password" "" "") (users_with banned_ann [])) = Fail IsDisabled.
Proof. vm_compute. done. Qed.
Definition passkey_ann : user_row :=
  UserRow 1 "ann" "ann@example.org" (n_hash guarded_ann) (Some "user") (Standing true true false None false None) new_profile
    VNull VNull VNull None.
Lemma passkey_form_login :
  form_login (users_with passkey_ann [1]) = Ok (Some (link 1, 1)) ∧
  is_ok (fst (login_of (LoginRequest "ann" "password" "000000" "") (users_with passkey_ann [1]))) = false.
Proof. vm_compute. done. Qed.

(** Sessions of a banned and disabled account stay open. *)
Lemma banned_session_admitted :
  match fst (fst (auth_middleware (W := reliable users_tables) toy_decode true "" "token" "" t_now t_now (Reliable (logged_in banned_ann None)))) with
  | Admitted_as u _ => usr_active u = false ∧ usr_banned u = true
  | _ => False
  end.
Proof. vm_compute. done. Qed.

(** Addresses are validated in lower case and stored as they are typed: one address, two
    accounts. *)
Lemma one_address_twice :
  let register name email w := register_api_user toy_key false true true true name email "password" (Some [1; 2]) None t_now
    (Issue (draw (Z.of_nat (String.length name))) t_now t_now t_now) w in
  let '(r1, w) := register "anna" "anna@example.org" (Reliable fresh_users) in
  let '(r2, w) := register "anna2" "Anna@Example.org" w in
  is_ok r1 = true ∧ is_ok r2 = true ∧
  map (λ r, normalize_email (n_email r)) (ac_rows (n_accounts (tables w))) =
    ["ann@example.org"; "anna@example.org"; "anna@example.org"].
Proof. vm_compute. done. Qed.

(** A profile saved without a phone number takes the empty one, which is UNIQUE. *)
Lemma empty_phone_taken :
  let bob := UserRow 2 "bob" "bob@example.org" "" (Some "user") (Standing true true false None false None) new_profile VNull VNull VNull None in
  let w := Reliable (put_accounts (Accounts [ann; bob] 3 [1; 2]) fresh_users) in
  let '(r1, w) := update_contact 1 "Ann" "" t_now w in
  let '(r2, w) := update_contact 2 "Bob" "" t_now w in
  r1 = Ok tt ∧ r2 = Fail UserNotStored.
Proof. vm_compute. done. Qed.

(** The second factor can be saved as a code of the recovery form only by the owner of the
    pending session: a full session's cookie is refused there. *)
Lemma full_session_not_pending :
  fst (complete_api_user_two_factor (W := reliable users_tables) no_open "" toy_totp toy_decode false "token" "123456" "" t_now
         (issue_of 2) (Reliable (logged_in guarded_ann None))) = Fail BadSessionToken.
Proof. vm_compute. done. Qed.
