(* ===== verification/Passkeys.v ===== *)
(** Passkeys (server/model/passkey.go, server/handler/passkey.go and passkey_helpers.go): the
    stored credentials, and the ceremonies that register one and log in with one, as the pages
    run them with a cookie and GraphQL with a token.  A ceremony lives in a cache of the process
    between its two requests.  The WebAuthn library, the JSON codecs and the checks of Login's
    parameters are arguments. *)
From S2P Require Import Prelude GoStrings GoTime GoNet Sql DbTime Sha256 Base64 Password Sessions RecoveryKeys Users UserTokens Login.
From Stdlib Require Import Ascii.
Open Scope Z_scope.

(** * Credentials as the library has them and as they are stored *)

Record credential := Credential {
  cr_id : list Z; cr_key : list Z; cr_attestation : string; cr_transport : list string; cr_eligible : bool;
  cr_backed_up : bool; cr_aaguid : list Z; cr_count : Z
}.
Record passkey := Passkey {
  ps_id : Z; ps_user : Z; ps_credential : string; ps_key : string; ps_aaguid : string; ps_count : Z; ps_name : string;
  ps_transport : string; ps_attestation : string; ps_eligible : bool; ps_backed_up : bool; ps_created : instant;
  ps_used : option instant
}.
Inductive passkey_error :=
| SchemaUnknown | PasskeysNotRead | BadStoredPasskey | BadTransport | PasskeyNotStored | PasskeyNotReloaded | PasskeyNotFound
| NameAndPassword | WrongPassword | NoHost | LibraryRefused | NoDraw | CeremonyMissing | CeremonyExpired | WrongCeremony
| PendingRefused (e : auth_error) | NoAccountThere | NoCredentials | NoBody | NoFullSession.

(** encodePasskeyBytes and decodePasskeyBytes *)
Definition encode_passkey_bytes (data : list Z) : string := raw_url_encode data.
Definition decode_passkey_bytes (value : string) : option (list Z) := if is_empty value then Some [] else raw_decode url value.

Abbreviation passkey_row := (row passkey_cols).
(** scanPasskey *)
Definition scan_passkey (r : passkey_row) : passkey :=
  let c := r_rest r in
  Passkey (row_no r) (pk_user c) (pk_credential c) (pk_key c) (default "" (pk_aaguid c)) (pk_count c mod 2 ^ 32) (pk_name c)
    (pk_transport c) (pk_attestation c) (pk_eligible c) (pk_backed_up c)
    (default zero_time (parse_stored_timestamp (r_stamp r))) (parse_stored_timestamp (pk_used c)).

(** INSERT, under the FOREIGN KEY of the account and the UNIQUE credential id *)
Definition insert_passkey (fk : bool) (c : passkey_cols) (created : scanned) (t : users_tables) : option Z * users_tables :=
  if (fk && negb (user_exists (pk_user c) t)) || bool_decide (pk_credential c ∈ map (λ r, pk_credential (r_rest r)) (t_rows (n_passkeys t)))
  then (None, t)
  else (Some (t_next_id (n_passkeys t)), put_passkeys (insert_row c created (n_passkeys t)) t).
(** An UPDATE and a DELETE with the number of rows they affect *)
Definition update_passkeys (p : passkey_row → bool) (f : passkey_row → passkey_row) (t : users_tables) : nat * users_tables :=
  (length (filter (λ r, p r = true) (t_rows (n_passkeys t))),
   put_passkeys (put_rows (map (λ r, if p r then f r else r) (t_rows (n_passkeys t))) (n_passkeys t)) t).
Definition delete_passkeys (p : passkey_row → bool) (t : users_tables) : nat * users_tables :=
  (length (filter (λ r, p r = true) (t_rows (n_passkeys t))),
   put_passkeys (put_rows (filter (λ r, p r = false) (t_rows (n_passkeys t))) (n_passkeys t)) t).

Definition of_owner (user : Z) (r : passkey_row) : bool := pk_user (r_rest r) =? user.
Definition is_credential (user : Z) (id : list Z) (r : passkey_row) : bool :=
  of_owner user r && str_eqb (pk_credential (r_rest r)) (encode_passkey_bytes id).
Definition set_credential (c : credential) (transport : string) (now : instant) (r : passkey_row) : passkey_row :=
  let o := r_rest r in
  Row (r_id r) (r_stamp r) (PasskeyCols (pk_user o) (pk_credential o) (pk_key o) (Some (encode_passkey_bytes (cr_aaguid c))) (cr_count c)
    (pk_name o) transport (cr_attestation c) (cr_eligible c) (cr_backed_up c) (VText (format_sql_timestamp now))).

(** * The ceremonies *)

Inductive ceremony_kind := KindLogin | KindTwoFactor | KindRegistration.
#[global] Instance ceremony_kind_dec : EqDecision ceremony_kind.
Proof. solve_decision. Defined.
(** passkeyCeremonyState, with the session data of the library *)
Record ceremony (S : Type) := Ceremony { cy_kind : ceremony_kind; cy_user : Z; cy_pending : string; cy_name : string; cy_data : S }.
Arguments Ceremony {S} _ _ _ _ _.
Arguments cy_kind {S} _.
Arguments cy_user {S} _.
Arguments cy_pending {S} _.
Arguments cy_name {S} _.
Arguments cy_data {S} _.
(** passkeyCeremonyCache: a value is found until it has expired. *)
Abbreviation ceremonies S := (gmap string (ceremony S * instant)).
Definition ceremony_ttl : duration := 15 * minute.
Definition cached {S} (token : string) (now : instant) (c : ceremonies S) : option (ceremony S) :=
  match c !! token with Some (s, e) => if e <? now then None else Some s | None => None end.
(** loadPasskeyCeremonyState, of the cookie ("" when there is none), and loadPasskeyCeremonyByToken *)
Definition load_ceremony {S} (graph : bool) (token : string) (now : instant) (c : ceremonies S) : result passkey_error (ceremony S) :=
  if is_empty (trim_space token) then Fail CeremonyMissing
  else match cached (if graph then trim_space token else token) now c with Some s => Ok s | None => Fail CeremonyExpired end.
(** storePasskeyCeremonyState and issuePasskeyCeremonyToken *)
Definition store_ceremony {S} (draw : option (list Z)) (s : ceremony S) (now : instant) (c : ceremonies S) : result passkey_error string * ceremonies S :=
  match generate_session_id draw with
  | None => (Fail NoDraw, c)
  | Some token => (Ok token, <[token := (s, now + ceremony_ttl)]> c)
  end.

Record relying_party := RelyingParty { rp_id : string; rp_origin : string }.
(** WebAuthnID and parsePasskeyUserHandle *)
Definition user_handle_prefix : string := "usr:".
Definition web_authn_id (u : user) : string := user_handle_prefix +:+ itoa (usr_id u).
Definition parse_user_handle (handle : string) : option Z :=
  if negb (has_prefix handle user_handle_prefix) then None
  else id ← atoi (trim_prefix handle user_handle_prefix); if id <=? 0 then None else Some id.

(** An account with its credentials, as the library is handed it *)
Record wa_user := WaUser { wu_user : user; wu_credentials : list credential }.
Definition web_authn_name (u : user) : string :=
  let display := trim_space (pf_display (usr_profile u)) in if is_empty display then usr_name u else display.

Section Passkeys.
Context `{Database W users_tables}.
Context (id_key : list Z → list Z → Z → Z → Z → Z → option (list Z)).
Context (decode_data : string → option jobject) (required fk : bool).
(** The codec of a JSON list of strings, and the engine's order by created_at and id *)
Context (encode_list : list string → option string) (decode_list : string → option (list string)).
Context (oldest : list passkey_row → list passkey_row).
#[local] Existing Instance sessions_database.
#[local] Existing Instance keys_database.

(** ** UserPasskeyModel *)

Definition marshal_transport (l : list string) : option string := match l with [] => Some "[]" | _ => encode_list l end.
Definition unmarshal_transport (raw : string) : option (list string) :=
  if is_empty raw then Some [] else filter (λ t, t ≠ "") <$> decode_list raw.

Definition list_by_user_id (user : Z) (w : W) : result passkey_error (list passkey) * W :=
  let '(ok, w) := ensure_passkey_schema w in
  if negb ok then (Fail SchemaUnknown, w)
  else let '(r, w) := query (λ t, oldest (filter (λ r, of_owner user r = true) (t_rows (n_passkeys t)))) w in
       (match r with Some l => Ok (map scan_passkey l) | None => Fail PasskeysNotRead end, w).
Definition count_by_user_id (user : Z) (w : W) : result passkey_error nat * W :=
  let '(ok, w) := ensure_passkey_schema w in
  if negb ok then (Fail SchemaUnknown, w)
  else let '(r, w) := query (λ t, length (filter (λ r, of_owner user r = true) (t_rows (n_passkeys t)))) w in
       (match r with Some n => Ok n | None => Fail PasskeysNotRead end, w).
Definition credential_of (p : passkey) : option credential :=
  id ← decode_passkey_bytes (ps_credential p); key ← decode_passkey_bytes (ps_key p); aaguid ← decode_passkey_bytes (ps_aaguid p);
  transports ← unmarshal_transport (ps_transport p);
  Some (Credential id key (ps_attestation p) transports (ps_eligible p) (ps_backed_up p) aaguid (ps_count p)).
Definition list_credentials (user : Z) (w : W) : result passkey_error (list credential) * W :=
  let '(r, w) := list_by_user_id user w in
  (let? l := r in match mapM credential_of l with Some l => Ok l | None => Fail BadStoredPasskey end, w).

(** CreateUserPasskey: the row is read back by its id. *)
Definition create_user_passkey (user : Z) (name : string) (c : credential) (now : instant) (w : W) : result passkey_error passkey * W :=
  let '(ok, w) := ensure_passkey_schema w in
  if negb ok then (Fail SchemaUnknown, w)
  else match marshal_transport (cr_transport c) with
  | None => (Fail BadTransport, w)
  | Some transport =>
      let cols := PasskeyCols user (encode_passkey_bytes (cr_id c)) (encode_passkey_bytes (cr_key c))
        (Some (encode_passkey_bytes (cr_aaguid c))) (cr_count c) name transport (cr_attestation c) (cr_eligible c) (cr_backed_up c) VNull in
      let '(r, w) := exec (insert_passkey fk cols (VText (format_sql_timestamp now))) w in
      match r with
      | Some (Some id) =>
          let '(r, w) := query (λ t, find (has_no id) (t_rows (n_passkeys t))) w in
          (match r with Some (Some r) => Ok (scan_passkey r) | _ => Fail PasskeyNotReloaded end, w)
      | _ => (Fail PasskeyNotStored, w)
      end
  end.
Definition update_credential (user : Z) (c : credential) (now : instant) (w : W) : result passkey_error unit * W :=
  let '(ok, w) := ensure_passkey_schema w in
  if negb ok then (Fail SchemaUnknown, w)
  else match marshal_transport (cr_transport c) with
  | None => (Fail BadTransport, w)
  | Some transport =>
      let '(r, w) := exec (update_passkeys (is_credential user (cr_id c)) (set_credential c transport now)) w in
      (match r with None => Fail PasskeyNotStored | Some 0%nat => Fail PasskeyNotFound | Some _ => Ok tt end, w)
  end.
Definition delete_by_id (user id : Z) (w : W) : result passkey_error unit * W :=
  let '(ok, w) := ensure_passkey_schema w in
  if negb ok then (Fail SchemaUnknown, w)
  else let '(r, w) := exec (delete_passkeys (λ r, has_no id r && of_owner user r)) w in
       (match r with None => Fail PasskeyNotStored | Some 0%nat => Fail PasskeyNotFound | Some _ => Ok tt end, w).

(** ** The library, for a relying party *)

Context {Data Options Assertion : Type}.
Context (usable : relying_party → bool).
Context (begin_registration : relying_party → wa_user → list (list Z) → option (Options * Data)).
Context (finish_registration : relying_party → wa_user → Data → string → option credential).
Context (begin_login : relying_party → wa_user → option (Options * Data)) (begin_discoverable : relying_party → option (Options * Data)).
Context (finish_login : relying_party → wa_user → Data → string → option credential).
(** ValidatePasskeyLogin: the body parsed, whether session and answer call for a user, what it asks for, and the check *)
Context (parse_assertion : string → option Assertion) (asks_user : relying_party → Data → Assertion → bool) (raw_id : Assertion → list Z) (user_handle : Assertion → string).
Context (check_assertion : relying_party → wa_user → Data → Assertion → option credential).

(** buildWebAuthn and buildWebAuthnFromEnvelope *)
Definition build_web_authn (host : string) (https : bool) : option relying_party :=
  let host := trim_space host in
  if is_empty host then None
  else
    let id := match split_host_port host with Some (h, _) => h | None => host end in
    let rp := RelyingParty (trim_prefix (trim_suffix id "]") "[") ((if https then "https" else "http") +:+ "://" +:+ host) in
    if usable rp then Some rp else None.

(** loadWebAuthnUser *)
Definition load_wa_user (u : user) (w : W) : result passkey_error wa_user * W :=
  let '(r, w) := list_credentials (usr_id u) w in (let? l := r in Ok (WaUser u l), w).

(** passkeyLookup, the handler ValidatePasskeyLogin calls *)
Definition passkey_lookup (raw : list Z) (handle : string) (w : W) : option wa_user * W :=
  match parse_user_handle handle with
  | None => (None, w)
  | Some id =>
      let '(r, w) := user_by_id id w in
      match r with
      | Fail _ => (None, w)
      | Ok u =>
          match validate_auth_user required u with
          | Fail _ => (None, w)
          | Ok _ =>
              let '(l, w) := load_wa_user u w in
              (match l with
               | Fail _ => None
               | Ok wu => if existsb (λ c, bool_decide (cr_id c = raw)) (wu_credentials wu) then Some wu else None
               end, w)
          end
      end
  end.
Definition validate_passkey_login (rp : relying_party) (s : Data) (body : string) (w : W) : option (user * credential) * W :=
  match parse_assertion body with
  | None => (None, w)
  | Some a =>
      if negb (asks_user rp s a) then (None, w)
      else
        let '(l, w) := passkey_lookup (raw_id a) (user_handle a) w in
        (wu ← l; c ← check_assertion rp wu s a; Some (wu_user wu, c), w)
  end.

(** ** Registering *)

(** The first half of RegisterPasskey and BeginPasskeyRegistrationToken, which trims the password *)
Definition begin_passkey_registration (graph : bool) (u : user) (name password host : string) (https : bool) (draw : option (list Z))
    (now : instant) (c : ceremonies Data) (w : W) : result passkey_error (string * Options) * ceremonies Data * W :=
  let name := trim_space name in
  if is_empty name || is_empty (trim_space password) then (Fail NameAndPassword, c, w)
  else if negb (check_user_password id_key u (if graph then trim_space password else password)) then (Fail WrongPassword, c, w)
  else
    let '(l, w) := load_wa_user u w in
    match l with
    | Fail e => (Fail e, c, w)
    | Ok wu =>
        match build_web_authn host https with
        | None => (Fail NoHost, c, w)
        | Some rp =>
            match begin_registration rp wu (map cr_id (wu_credentials wu)) with
            | None => (Fail LibraryRefused, c, w)
            | Some (options, data) =>
                let '(t, c) := store_ceremony draw (Ceremony KindRegistration (usr_id u) "" name data) now c in
                (let? t := t in Ok (t, options), c, w)
            end
        end
    end.
(** finishPasskeyRegistration and FinishPasskeyRegistrationToken: with the first passkey come recovery keys, if there are
    none and they can be stored. *)
Definition first_recovery_keys (u : user) (keys : list (option (list Z) * instant)) (w : W) : option (list string) * W :=
  let '(n, w) := count_by_user_id (usr_id u) w in
  match n with
  | Ok 1%nat =>
      let '(k, w) := get_unused_keys_count (usr_id u) w in
      match k with
      | Some 0%nat => let '(r, w) := generate_recovery_keys (usr_id u) keys w in (match r with Ok l => Some l | Fail _ => None end, w)
      | _ => (None, w)
      end
  | _ => (None, w)
  end.
Definition finish_passkey_registration (graph : bool) (u : user) (token host : string) (https : bool) (body : string) (now1 now2 : instant)
    (keys : list (option (list Z) * instant)) (c : ceremonies Data) (w : W)
  : result passkey_error (passkey * option (list string)) * ceremonies Data * W :=
  match load_ceremony graph token now1 c with
  | Fail e => (Fail e, c, w)
  | Ok s =>
      if negb (bool_decide (cy_kind s = KindRegistration)) || negb (cy_user s =? usr_id u) then (Fail WrongCeremony, c, w)
      else
        let '(l, w) := load_wa_user u w in
        match l with
        | Fail e => (Fail e, c, w)
        | Ok wu =>
            match build_web_authn host https with
            | None => (Fail NoHost, c, w)
            | Some rp =>
                match finish_registration rp wu (cy_data s) body with
                | None => (Fail LibraryRefused, c, w)
                | Some cred =>
                    let '(p, w) := create_user_passkey (usr_id u) (cy_name s) cred now2 w in
                    match p with
                    | Fail e => (Fail e, c, w)
                    | Ok p => let '(k, w) := first_recovery_keys u keys w in (Ok (p, k), delete token c, w)
                    end
                end
            end
        end
  end.

(** DeletePasskey: the number in the path *)
Definition delete_passkey (u : user) (param : string) (w : W) : result passkey_error unit * W :=
  match atoi (trim_space param) with
  | Some id => if id <=? 0 then (Fail PasskeyNotFound, w) else delete_by_id (usr_id u) id w
  | None => (Fail PasskeyNotFound, w)
  end.

(** ** Logging in *)

(** BeginPasskeyChallenge and BeginPasskeyChallengeToken *)
Definition begin_passkey_challenge (session_token host : string) (https : bool) (draw : option (list Z)) (now1 now2 : instant)
    (c : ceremonies Data) (w : W) : result passkey_error (string * Options) * ceremonies Data * W :=
  match build_web_authn host https with
  | None => (Fail NoHost, c, w)
  | Some rp =>
      let start kind user pending (o : option (Options * Data)) :=
        match o with
        | None => (Fail LibraryRefused, c)
        | Some (options, data) =>
            let '(t, c) := store_ceremony draw (Ceremony kind user pending "" data) now2 c in (let? t := t in Ok (t, options), c)
        end in
      if is_empty (trim_space session_token) then (start KindLogin 0 "" (begin_discoverable rp), w)
      else
        let '(p, w) := load_pending_session decode_data session_token now1 w in
        match p with
        | Fail e => (Fail (PendingRefused e), c, w)
        | Ok s =>
            let '(r, w) := user_by_id (s_user s) w in
            match r with
            | Fail _ => (Fail NoAccountThere, c, w)
            | Ok u =>
                match validate_auth_user required u with
                | Fail e => (Fail (PendingRefused e), c, w)
                | Ok _ =>
                    let '(l, w) := load_wa_user u w in
                    match l with
                    | Fail e => (Fail e, c, w)
                    | Ok wu =>
                        if bool_decide (wu_credentials wu = []) then (Fail NoCredentials, c, w)
                        else (start KindTwoFactor (usr_id u) (s_id s) (begin_login rp wu), w)
                    end
                end
            end
        end
  end.

(** The account and the credential that an answer proves, and the pending session that led to it *)
Definition prove_ceremony (s : ceremony Data) (rp : relying_party) (body : string) (now : instant) (w : W)
  : result passkey_error (user * credential * option string) * W :=
  match cy_kind s with
  | KindLogin =>
      let '(r, w) := validate_passkey_login rp (cy_data s) body w in
      (match r with Some (u, cred) => Ok (u, cred, None) | None => Fail LibraryRefused end, w)
  | KindTwoFactor =>
      let '(p, w) := load_pending_session decode_data (cy_pending s) now w in
      match p with
      | Fail e => (Fail (PendingRefused e), w)
      | Ok p =>
          let '(r, w) := user_by_id (s_user p) w in
          match r with
          | Fail _ => (Fail NoAccountThere, w)
          | Ok u =>
              match validate_auth_user required u with
              | Fail e => (Fail (PendingRefused e), w)
              | Ok _ =>
                  let '(l, w) := load_wa_user u w in
                  (let? wu := l in
                   match finish_login rp wu (cy_data s) body with Some cred => Ok (u, cred, Some (s_id p)) | None => Fail LibraryRefused end, w)
              end
          end
      end
  | KindRegistration => (Fail WrongCeremony, w)
  end.
(** VerifyPasskey and FinishPasskeyChallengeToken *)
Definition verify_passkey (graph : bool) (token host : string) (https : bool) (body ip : string) (now1 now2 now3 : instant)
    (i : issue) (c : ceremonies Data) (w : W) : result passkey_error login_response * ceremonies Data * W :=
  if is_empty body then (Fail NoBody, c, w)
  else match load_ceremony graph token now1 c with
  | Fail e => (Fail e, c, w)
  | Ok s =>
      match build_web_authn host https with
      | None => (Fail NoHost, c, w)
      | Some rp =>
          let '(r, w) := prove_ceremony s rp body now2 w in
          match r with
          | Fail e => (Fail e, c, w)
          | Ok (u, cred, pending) =>
              let '(a, w) := create_full_auth_session u i None w in
              match a with
              | Fail _ => (Fail NoFullSession, c, w)
              | Ok a =>
                  let w := match pending with Some id => (delete_session id w).2 | None => w end in
                  let '(k, w) := update_credential (usr_id u) cred now3 w in
                  match k with
                  | Fail e => (Fail e, c, w)
                  | Ok _ => let '(_, w) := update_user_last_login (usr_id u) ip (is_now3 i) w in (Ok a, delete token c, w)
                  end
              end
          end
      end
  end.
End Passkeys.

(** * What the operations do *)

Lemma columns_only_refl t : columns_only t t.
Proof. unfold columns_only. by destruct t. Qed.
Lemma columns_only_trans t1 t2 t3 : columns_only t1 t2 → columns_only t2 t3 → columns_only t1 t3.
Proof. unfold columns_only. by intros -> ->. Qed.
#[local] Hint Resolve columns_only_refl : core.

Lemma handle_of_user u : 0 < usr_id u → in_int64 (usr_id u) → parse_user_handle (web_authn_id u) = Some (usr_id u).
Proof.
  intros Hp Hi. unfold parse_user_handle, web_authn_id. assert (has_prefix (user_handle_prefix +:+ itoa (usr_id u)) user_handle_prefix = true) as ->.
  { apply has_prefix_spec. eauto. }
  assert (trim_prefix (user_handle_prefix +:+ itoa (usr_id u)) user_handle_prefix = itoa (usr_id u)) as -> by (cbn; by destruct (itoa (usr_id u))).
  cbn [negb]. rewrite atoi_itoa by done. cbn. by rewrite (proj2 (Z.leb_gt _ _)).
Qed.

Section Steps.
Context `{DatabaseLaws W users_tables}.
Context (id_key : list Z → list Z → Z → Z → Z → Z → option (list Z)).
Context (decode_data : string → option jobject) (required fk : bool).
Context (encode_list : list string → option string) (decode_list : string → option (list string)).
Context (oldest : list passkey_row → list passkey_row).
#[local] Existing Instance sessions_database.
#[local] Existing Instance keys_database.

Lemma schema_step (w w' : W) ok : ensure_passkey_schema w = (ok, w') → columns_only (tables w) (tables w').
Proof. by intros [? _]%ensure_columns_step. Qed.

Lemma query_step {A} (f : users_tables → A) (w w' : W) a : query f w = (a, w') → tables w' = tables w ∧ (∀ x, a = Some x → x = f (tables w)).
Proof.
  intros Q. destruct (query_cases _ f w) as [(w2 & Q' & Ht)|(w2 & Q' & Ht)]; rewrite Q in Q'; injection Q' as -> <-; (split; [done|]); [|done].
  by intros x [= ->].
Qed.

(** The credentials of an account, as its rows decode *)
Definition stored_credentials (user : Z) (t : users_tables) : option (list credential) :=
  mapM (credential_of decode_list) (map scan_passkey (oldest (filter (λ r, of_owner user r = true) (t_rows (n_passkeys t))))).

Lemma list_step user (w w' : W) r : list_credentials decode_list oldest user w = (r, w') →
  columns_only (tables w) (tables w') ∧ (∀ l, r = Ok l → stored_credentials user (tables w) = Some l).
Proof.
  unfold list_credentials, list_by_user_id. destruct (ensure_passkey_schema w) as [ok w1] eqn:X. apply schema_step in X.
  destruct ok; cbn [negb]; [|by intros [= <- <-]]. destruct (query _ w1) as [q w2] eqn:Q. apply query_step in Q as [Ht Q].
  intros [= <- <-]. rewrite Ht. split; [done|]. intros l. destruct q as [rows|]; [|done]. rewrite (Q rows eq_refl).
  unfold stored_credentials. rewrite X. cbn. destruct (mapM _ _) as [cs|]; [|done]. by intros [= ->].
Qed.
Lemma load_step u (w w' : W) r : load_wa_user decode_list oldest u w = (r, w') →
  columns_only (tables w) (tables w') ∧
  (∀ wu, r = Ok wu → wu_user wu = u ∧ stored_credentials (usr_id u) (tables w) = Some (wu_credentials wu)).
Proof.
  unfold load_wa_user. destruct (list_credentials _ _ _ w) as [l w1] eqn:L. apply list_step in L as [Hc L]. intros [= <- <-].
  split; [done|]. destruct l as [l|]; [|done]. intros wu [= <-]. split; [done|]. by apply L.
Qed.

(** Nothing but sessions and missing columns changes *)
Definition core_same (t t' : users_tables) : Prop := t' = put_session_rows (n_sessions t') (put_columns (n_columns t') t).
(** Nor does anything but these, the accounts and the passkeys *)
Definition login_only (t t' : users_tables) : Prop :=
  t' = put_accounts (n_accounts t') (put_passkeys (n_passkeys t') (put_session_rows (n_sessions t') (put_columns (n_columns t') t))).

Lemma passkeys_after t t1 x : columns_only t t1 → put_passkeys x t1 = put_passkeys x (put_columns (n_columns t1) t).
Proof. unfold columns_only. destruct t, t1. cbn. intros [=]. by subst. Qed.
Lemma passkeys_back t t3 t4 : core_same t t3 → t4 = put_passkeys (n_passkeys t4) (put_columns (n_columns t4) t3) →
  login_only t t4 ∧ (n_passkeys t4 = n_passkeys t → core_same t t4).
Proof.
  unfold core_same, login_only. destruct t, t3, t4. cbn. intros [=] [=]. subst. split; [done|]. by intros ->.
Qed.
Lemma login_seen id ip now t t' : login_only t t' →
  login_only t (with_rows (map_user id (set_seen ip now) (ac_rows (n_accounts t'))) t').
Proof. unfold login_only. destruct t, t'. cbn. intros [=]. by subst. Qed.

Lemma update_step user cred now (w w' : W) r : update_credential encode_list user cred now w = (r, w') →
  tables w' = put_passkeys (n_passkeys (tables w')) (put_columns (n_columns (tables w')) (tables w)) ∧
  match r with
  | Ok _ => (∃ row, row ∈ t_rows (n_passkeys (tables w)) ∧ is_credential user (cr_id cred) row = true) ∧
      ∃ transport, marshal_transport encode_list (cr_transport cred) = Some transport ∧
      n_passkeys (tables w') = put_rows (map (λ r, if is_credential user (cr_id cred) r then set_credential cred transport now r else r)
        (t_rows (n_passkeys (tables w)))) (n_passkeys (tables w))
  | Fail _ => n_passkeys (tables w') = n_passkeys (tables w) ∧
      ((∀ row, row ∈ t_rows (n_passkeys (tables w)) → is_credential user (cr_id cred) row = false) ∨
       marshal_transport encode_list (cr_transport cred) = None ∨ ¬ never_fails W users_tables)
  end.
Proof.
  unfold update_credential. destruct (ensure_passkey_schema w) as [ok w1] eqn:X. apply ensure_columns_step in X as [X Hok]; [|done].
  unfold columns_only in X. assert (Hp : n_passkeys (tables w1) = n_passkeys (tables w)) by by rewrite X.
  assert (Hback : tables w1 = put_passkeys (n_passkeys (tables w1)) (put_columns (n_columns (tables w1)) (tables w))).
  { rewrite X. by destruct (tables w). }
  destruct ok; cbn [negb]; [|intros [= <- <-]; split_and!; [done|done|]; right; right; intros Hup; by apply Hok in Hup].
  destruct (marshal_transport _ _) as [transport|]; [|intros [= <- <-]; split_and!; [done|done|]; right; by left].
  destruct (exec _ w1) as [[n|] w2] eqn:E.
  2:{ intros [= <- <-]. assert (¬ never_fails W users_tables) by (intros Hup; by apply Hup in E). apply exec_fail in E. rewrite E.
      split_and!; [done|done|]. right. by right. }
  apply exec_ok in E. injection E as En E. assert (Hp2 : n_passkeys (tables w2) = _) by (rewrite <-E; reflexivity). rewrite Hp in Hp2, En.
  assert (Hback2 : tables w2 = put_passkeys (n_passkeys (tables w2)) (put_columns (n_columns (tables w2)) (tables w))).
  { rewrite <-E. cbn [put_passkeys n_passkeys n_columns]. by apply passkeys_after. }
  destruct n as [|n]; intros [= <- <-]; (split; [exact Hback2|]).
  - apply nil_length_inv in En.
    assert (Hnone : ∀ row, row ∈ t_rows (n_passkeys (tables w)) → is_credential user (cr_id cred) row = false).
    { intros row Hin. destruct (is_credential _ _ row) eqn:I; [|done]. exfalso. apply (not_elem_of_nil row). rewrite <-En. by apply list_elem_of_filter. }
    split; [|by left]. rewrite Hp2. destruct (n_passkeys (tables w)) as [rows next]. cbn in *. unfold put_rows. cbn. f_equal.
    rewrite <-(map_id rows) at 2. apply map_ext_in. intros a Ha%list_elem_of_In. by rewrite (Hnone a).
  - split; [|by exists transport]. assert (Hne : filter (λ r, is_credential user (cr_id cred) r = true) (t_rows (n_passkeys (tables w))) ≠ []) by (intros Hn; by rewrite Hn in En).
    destruct (filter _ _) as [|row l] eqn:F; [done|]. exists row. assert (Hin : row ∈ row :: l) by by left. rewrite <-F in Hin.
    by apply list_elem_of_filter in Hin as [? ?].
Qed.
End Steps.

(** * A passkey logs in the account it belongs to *)

Section Soundness.
Context `{DatabaseLaws W users_tables}.
Context (decode_data : string → option jobject) (required : bool).
Context (encode_list : list string → option string) (decode_list : string → option (list string)).
Context (oldest : list passkey_row → list passkey_row).
#[local] Existing Instance sessions_database.
#[local] Existing Instance keys_database.
Context {Data Assertion : Type} (usable : relying_party → bool) (finish_login : relying_party → wa_user → Data → string → option credential).
Context (parse_assertion : string → option Assertion) (asks_user : relying_party → Data → Assertion → bool) (raw_id : Assertion → list Z) (user_handle : Assertion → string).
Context (check_assertion : relying_party → wa_user → Data → Assertion → option credential).
Abbreviation prove_here := (prove_ceremony decode_data required decode_list oldest finish_login parse_assertion asks_user raw_id user_handle check_assertion).
Abbreviation verify_here := (verify_passkey decode_data required encode_list decode_list oldest usable finish_login parse_assertion asks_user raw_id user_handle check_assertion).

Lemma columns_core t t' : columns_only t t' → core_same t t'.
Proof. unfold columns_only, core_same. intros ->. by destruct t. Qed.
Lemma sessions_core t t' : sessions_only t t' → core_same t t'.
Proof. unfold sessions_only, core_same. intros ->. by destruct t. Qed.
Lemma core_same_trans t1 t2 t3 : core_same t1 t2 → core_same t2 t3 → core_same t1 t3.
Proof. unfold core_same. intros -> ->. by destruct t1. Qed.
Lemma columns_sessions t t' : columns_only t t' → sessions_of t' = sessions_of t.
Proof. unfold columns_only. by intros ->. Qed.

(** The sessions stay, but for one that had ended *)
Definition ended_gone (now : instant) (t t' : users_tables) : Prop :=
  users_registry t' = users_registry t ∨
  ∃ h e, users_registry t !! h = Some e ∧ good now e = false ∧ users_registry t' = delete h (users_registry t).
Lemma ended_refl now t : ended_gone now t t.
Proof. by left. Qed.
Lemma core_refl t : core_same t t.
Proof. by destruct t. Qed.
#[local] Hint Resolve ended_refl core_refl : core.
Lemma load_pending_step token now (w w' : W) r : load_pending_session decode_data token now w = (r, w') → sessions_ok (sessions_of (tables w)) →
  sessions_only (tables w) (tables w') ∧ sessions_ok (sessions_of (tables w')) ∧
  match r with
  | Ok s => tables w' = tables w ∧ s_id s = trim_space token ∧ now < s_expires s ∧
      users_registry (tables w) !! hash_token (s_id s) = Some (s_user s, Some (s_expires s)) ∧
      ∃ row d, find_session (s_id s) (sessions_of (tables w)) = Some row ∧ data_of decode_data row = Some d ∧ is_pending d = true
  | Fail _ => ended_gone now (tables w) (tables w')
  end.
Proof.
  unfold load_pending_session. destruct (get_by_id _ _ _ w) as [g w1] eqn:G. intros [= <- <-] Hok.
  apply (get_session_step decode_data (λ _, None)) in G as (H1 & H2 & G); [|done]. split; [exact H1|]. split; [exact H2|]. destruct g as [s|].
  2:{ destruct G as [G|(G & x & He & Hg)]; [by left|right]. by exists (hash_token (trim_space token)), x. }
  destruct G as (Ht & Hid & Hl & Hr & row & Hf & Hd). destruct (s_data s) as [d|] eqn:D; [|left; by rewrite Ht]. destruct (is_pending d) eqn:P; [|left; by rewrite Ht].
  rewrite Hid. split_and!; try done. exists row, d. by rewrite <-Hd.
Qed.

(** What an answer to a ceremony proves *)
Definition proven (s : ceremony Data) (rp : relying_party) (body : string) (now : instant) (t : users_tables) (u : user) (cred : credential)
    (pending : option string) : Prop :=
  account_read (usr_id u) u t ∧ validate_auth_user required u = Ok tt ∧
  ∃ creds, stored_credentials decode_list oldest (usr_id u) t = Some creds ∧
  match cy_kind s, pending with
  | KindLogin, None => ∃ a, parse_assertion body = Some a ∧ asks_user rp (cy_data s) a = true ∧ parse_user_handle (user_handle a) = Some (usr_id u) ∧
      (∃ c, c ∈ creds ∧ cr_id c = raw_id a) ∧ check_assertion rp (WaUser u creds) (cy_data s) a = Some cred
  | KindTwoFactor, Some id => id = trim_space (cy_pending s) ∧
      (∃ e, users_registry t !! hash_token id = Some (usr_id u, Some e) ∧ now < e) ∧
      (∃ row d, find_session id (sessions_of t) = Some row ∧ data_of decode_data row = Some d ∧ is_pending d = true) ∧
      finish_login rp (WaUser u creds) (cy_data s) body = Some cred
  | _, _ => False
  end.

Lemma lookup_step raw handle (w w' : W) o : passkey_lookup required decode_list oldest raw handle w = (o, w') →
  columns_only (tables w) (tables w') ∧ ∀ wu, o = Some wu → parse_user_handle handle = Some (usr_id (wu_user wu)) ∧
    account_read (usr_id (wu_user wu)) (wu_user wu) (tables w) ∧ validate_auth_user required (wu_user wu) = Ok tt ∧
    stored_credentials decode_list oldest (usr_id (wu_user wu)) (tables w) = Some (wu_credentials wu) ∧ ∃ c, c ∈ wu_credentials wu ∧ cr_id c = raw.
Proof.
  unfold passkey_lookup. destruct (parse_user_handle handle) as [id|]; [|intros [= <- <-]; split; [apply columns_only_refl|done]].
  destruct (user_by_id id w) as [r w1] eqn:B. apply by_id_found in B as (Ht & B & _).
  destruct r as [u|]; [|intros [= <- <-]; rewrite Ht; split; [apply columns_only_refl|done]].
  pose proof (B u eq_refl) as Hacc. assert (Hu : usr_id u = id) by (destruct Hacc as (row & _ & <- & Hsu); by apply scan_user_id in Hsu).
  destruct (validate_auth_user required u) as [[]|] eqn:V; [|intros [= <- <-]; rewrite Ht; split; [apply columns_only_refl|done]].
  destruct (load_wa_user _ _ u w1) as [l w2] eqn:L. apply load_step in L as [Hc L]. rewrite Ht in Hc, L. intros [= <- <-]. split; [done|].
  destruct l as [wu|]; [|done]. destruct (L wu eq_refl) as [Hwu Hs]. intros wu'. destruct (existsb _ _) eqn:X; [|done]. intros [= <-].
  rewrite Hwu, Hu. rewrite Hu in Hs. split_and!; try done. apply existsb_exists in X as (c & Hin%list_elem_of_In & E%bool_decide_eq_true). by exists c.
Qed.

Lemma prove_step s rp body now (w w' : W) r : prove_here s rp body now w = (r, w') → sessions_ok (sessions_of (tables w)) →
  core_same (tables w) (tables w') ∧ sessions_ok (sessions_of (tables w')) ∧ ended_gone now (tables w) (tables w') ∧
  ∀ u cred pending, r = Ok (u, cred, pending) → columns_only (tables w) (tables w') ∧ proven s rp body now (tables w) u cred pending.
Proof.
  unfold prove_ceremony, proven. intros E Hok. destruct (cy_kind s) eqn:K.
  - unfold validate_passkey_login in E. destruct (parse_assertion body) as [a|] eqn:P; [|by injection E as <- <-].
    destruct (asks_user rp (cy_data s) a) eqn:Q; cbn [negb] in E; [|by injection E as <- <-].
    destruct (passkey_lookup _ _ _ _ _ w) as [l w1] eqn:L. apply lookup_step in L as [Hc L]. injection E as <- <-.
    split_and!; [by apply columns_core|by rewrite (columns_sessions _ _ Hc)|left; by rewrite (columns_sessions _ _ Hc)|]. destruct l as [wu|]; cbn [mbind option_bind]; [|done].
    destruct (check_assertion rp wu (cy_data s) a) as [c|] eqn:C; [|done]. intros u cred pending [= <- <- <-]. split; [done|].
    destruct (L wu eq_refl) as (Hh & Hacc & Hv & Hs & Hc'). split_and!; try done. exists (wu_credentials wu). split; [done|].
    exists a. destruct wu as [u l]. by split_and!.
  - destruct (load_pending_session _ _ _ w) as [p w1] eqn:P. apply load_pending_step in P as (Hs & Hok1 & P); [|done].
    destruct p as [p|]; [|injection E as <- <-; split_and!; [by apply sessions_core|done|done|done]].
    destruct P as (Ht & Hid & Hl & Hr & Hrow). destruct (user_by_id _ w1) as [q w2] eqn:B. apply by_id_found in B as (Ht2 & B & _).
    rewrite Ht in Ht2, B. destruct q as [u|]; [|injection E as <- <-; by rewrite Ht2].
    pose proof (B u eq_refl) as Hacc. assert (Hu : usr_id u = s_user p) by (destruct Hacc as (row & _ & <- & Hsu); by apply scan_user_id in Hsu).
    destruct (validate_auth_user required u) as [[]|] eqn:V; [|injection E as <- <-; by rewrite Ht2].
    destruct (load_wa_user _ _ u w2) as [l w3] eqn:L. apply load_step in L as [Hc L]. rewrite Ht2 in Hc, L. injection E as <- <-.
    split_and!; [by apply columns_core|by rewrite (columns_sessions _ _ Hc)|left; by rewrite (columns_sessions _ _ Hc)|]. destruct l as [wu|]; [|done].
    destruct (finish_login rp wu (cy_data s) body) as [c|] eqn:F; [|done]. intros u' cred pending [= <- <- <-]. split; [done|].
    destruct (L wu eq_refl) as [<- Hst]. rewrite Hu. rewrite Hu in Hst. split_and!; try done. exists (wu_credentials wu). split; [done|].
    split_and!; try done; [by exists (s_expires p)|]. by destruct wu.
  - by injection E as <- <-.
Qed.

(** The session that is issued, with the pending one ended *)
Lemma session_step u i pending (w w1 : W) a : create_full_auth_session u i None w = (a, w1) → sessions_ok (sessions_of (tables w)) →
  let w2 := match pending with Some id => (delete_session id w1).2 | None => w1 end in
  sessions_only (tables w) (tables w1) ∧ sessions_only (tables w) (tables w2) ∧
  match a with
  | Ok a => ∃ session ends, a = FullSession session (build_auth_user_summary u) ends None ∧ ends = seconds_from (is_now1 i) session_ttl ∧
      users_registry (tables w) !! hash_token session = None ∧
      let added := <[hash_token session := (usr_id u, stored ends)]> (users_registry (tables w)) in
      (users_registry (tables w2) = added ∨ ∃ id, pending = Some id ∧ users_registry (tables w2) = delete (hash_token id) added)
  | Fail _ => tables w1 = tables w
  end.
Proof.
  unfold create_full_auth_session. destruct (full_session u i w) as [r w0] eqn:F. intros [= <- <-] Hok.
  apply full_session_step in F as (Hs & Hok1 & F); [|done]. cbv zeta.
  assert (Hd : sessions_only (tables w) (tables (match pending with Some id => (delete_session id w0).2 | None => w0 end)) ∧
    (users_registry (tables (match pending with Some id => (delete_session id w0).2 | None => w0 end)) = users_registry (tables w0) ∨
     ∃ id, pending = Some id ∧ users_registry (tables (match pending with Some id => (delete_session id w0).2 | None => w0 end)) = delete (hash_token id) (users_registry (tables w0)))).
  { destruct pending as [id|]; [|by split; [|left]]. destruct (delete_session id w0) as [ok w2] eqn:D. cbn [snd].
    apply delete_session_step in D as (D1 & _ & D3); [|done]. split; [by eapply sessions_only_trans|].
    rewrite D3. destruct ok; [right; by exists id|by left]. }
  destruct Hd as [Hd1 Hd2]. split; [done|]. split; [done|]. destruct r as [te|]; [|done]. destruct F as [[Fn Fr] He].
  exists te.1, te.2. split_and!; try done. by rewrite <-Fr.
Qed.

(** A session of the account is added, and the pending one may end. *)
Definition session_added (u : user) (i : issue) (pending : option string) (session : string) (t t' : users_tables) : Prop :=
  users_registry t !! hash_token session = None ∧
  let added := <[hash_token session := (usr_id u, stored (seconds_from (is_now1 i) session_ttl))]> (users_registry t) in
  users_registry t' = added ∨ ∃ id, pending = Some id ∧ users_registry t' = delete (hash_token id) added.
(** What a ceremony that succeeds does *)
Definition let_in (s : ceremony Data) (rp : relying_party) (body ip : string) (now2 now3 : instant) (i : issue) (t t' : users_tables)
    (a : login_response) : Prop :=
  ∃ u cred pending session transport, proven s rp body now2 t u cred pending ∧
    a = FullSession session (build_auth_user_summary u) (seconds_from (is_now1 i) session_ttl) None ∧ session_added u i pending session t t' ∧
    (∃ row, row ∈ t_rows (n_passkeys t) ∧ is_credential (usr_id u) (cr_id cred) row = true) ∧
    n_passkeys t' = put_rows (map (λ r, if is_credential (usr_id u) (cr_id cred) r then set_credential cred transport now3 r else r)
      (t_rows (n_passkeys t))) (n_passkeys t) ∧
    (n_accounts t' = n_accounts t ∨
     n_accounts t' = n_accounts (with_rows (map_user (usr_id u) (set_seen ip (is_now3 i)) (ac_rows (n_accounts t))) t)) ∧
    login_only t t'.
(** What one that fails may leave: a session nobody was given, when the credential could not be written *)
Definition left_behind (s : ceremony Data) (rp : relying_party) (body : string) (now2 : instant) (i : issue) (t t' : users_tables) : Prop :=
  ∃ u cred pending session, proven s rp body now2 t u cred pending ∧ session_added u i pending session t t' ∧
    ((∀ row, row ∈ t_rows (n_passkeys t) → is_credential (usr_id u) (cr_id cred) row = false) ∨
     marshal_transport encode_list (cr_transport cred) = None ∨ ¬ never_fails W users_tables).

Lemma last_login_step id ip now (w w' : W) r : update_user_last_login id ip now w = (r, w') →
  tables w' = tables w ∨ tables w' = with_rows (map_user id (set_seen ip now) (ac_rows (n_accounts (tables w)))) (tables w).
Proof.
  unfold update_user_last_login, change_user. destruct (exec _ w) as [[b|] w1] eqn:X; intros [= _ <-].
  - apply exec_ok in X. unfold update_user in X. case_decide; injection X as _ <-; [by right|by left].
  - apply exec_fail in X. by left.
Qed.

Lemma verifying_sound graph token host https body ip now1 now2 now3 i c (w w' : W) c' res :
  sessions_ok (sessions_of (tables w)) → verify_here graph token host https body ip now1 now2 now3 i c w = (res, c', w') →
  match res with
  | Ok a => c' = delete token c ∧ ∃ s rp, load_ceremony graph token now1 c = Ok s ∧ build_web_authn usable host https = Some rp ∧
      let_in s rp body ip now2 now3 i (tables w) (tables w') a
  | Fail _ => c' = c ∧ core_same (tables w) (tables w') ∧
      (ended_gone now2 (tables w) (tables w') ∨
       ∃ s rp, load_ceremony graph token now1 c = Ok s ∧ build_web_authn usable host https = Some rp ∧
         left_behind s rp body now2 i (tables w) (tables w'))
  end.
Proof.
  intros Hok. unfold verify_passkey. destruct (is_empty body); [intros [= <- <- <-]; by auto 7|].
  destruct (load_ceremony graph token now1 c) as [s|] eqn:L; [|intros [= <- <- <-]; by auto 7].
  destruct (build_web_authn usable host https) as [rp|] eqn:B; [|intros [= <- <- <-]; by auto 7].
  destruct (prove_here s rp body now2 w) as [r w1] eqn:P. apply prove_step in P as (Hc1 & Hok1 & Hend & P); [|done].
  destruct r as [[[u cred] pending]|]; [|intros [= <- <- <-]; by auto 7]. destruct (P u cred pending eq_refl) as [Hcol Hp]. clear P.
  destruct (create_full_auth_session u i None w1) as [a w2] eqn:F. apply (session_step u i pending) in F as (_ & Hs3 & F); [|done].
  destruct a as [a|]; [|intros [= <- <- <-]; rewrite F; by auto 7].
  destruct F as (session & ends & -> & -> & Hfresh & Hreg). rewrite (columns_sessions _ _ Hcol) in Hfresh, Hreg.
  set (w3 := match pending with Some id => (delete_session id w2).2 | None => w2 end) in *.
  pose proof (core_same_trans _ _ _ Hc1 (sessions_core _ _ Hs3)) as Hc3.
  assert (Hpk : n_passkeys (tables w3) = n_passkeys (tables w)) by by rewrite Hc3.
  assert (Hac : n_accounts (tables w3) = n_accounts (tables w)) by by rewrite Hc3.
  destruct (update_credential _ _ cred now3 w3) as [k w4] eqn:U. apply update_step in U as [Hback U].
  assert (Hadd : session_added u i pending session (tables w) (tables w4)).
  { split; [exact Hfresh|]. rewrite Hback. exact Hreg. }
  destruct k as [[]|]; rewrite Hpk in U.
  2:{ destruct U as [U Hwhy]. intros [= <- <- <-]. split; [done|]. split; [|right; exists s, rp; split_and!; [done..|by exists u, cred, pending, session]].
      by apply (passkeys_back _ _ _ Hc3 Hback). }
  destruct U as (Hrow & transport & _ & Hpk4).
  destruct (passkeys_back _ _ _ Hc3 Hback) as [Hl4 _].
  assert (Ha4 : n_accounts (tables w4) = n_accounts (tables w)) by by rewrite Hback.
  destruct (update_user_last_login (usr_id u) ip (is_now3 i) w4) as [n w5] eqn:N. intros [= <- <- <-]. split; [done|].
  exists s, rp. split; [done|]. split; [done|]. exists u, cred, pending, session, transport. rewrite <-Hpk4.
  apply last_login_step in N as [->| ->]; [split_and!; try done; by left|].
  split; [done|]. split; [done|]. split; [done|]. split; [done|]. split; [done|]. split; [right; unfold with_rows; by rewrite Ha4|]. by apply login_seen.
Qed.
End Soundness.

(** * Runs of requests *)

Section Requests.
Context `{DatabaseLaws W users_tables}.
Context (id_key : list Z → list Z → Z → Z → Z → Z → option (list Z)).
Context (decode_data : string → option jobject) (required fk : bool).
Context (encode_list : list string → option string) (decode_list : string → option (list string)).
Context (oldest : list passkey_row → list passkey_row).
#[local] Existing Instance sessions_database.
#[local] Existing Instance keys_database.
Context {Data Options Assertion : Type} (usable : relying_party → bool).
Context (begin_registration : relying_party → wa_user → list (list Z) → option (Options * Data)).
Context (finish_registration : relying_party → wa_user → Data → string → option credential).
Context (begin_login : relying_party → wa_user → option (Options * Data)) (begin_discoverable : relying_party → option (Options * Data)).
Context (finish_login : relying_party → wa_user → Data → string → option credential).
Context (parse_assertion : string → option Assertion) (asks_user : relying_party → Data → Assertion → bool) (raw_id : Assertion → list Z) (user_handle : Assertion → string).
Context (check_assertion : relying_party → wa_user → Data → Assertion → option credential).
Abbreviation begin_here := (begin_passkey_registration id_key decode_list oldest usable begin_registration).
Abbreviation finish_here := (finish_passkey_registration fk encode_list decode_list oldest usable finish_registration).
Abbreviation challenge_here := (begin_passkey_challenge decode_data required decode_list oldest usable begin_login begin_discoverable).
Abbreviation verify_here := (verify_passkey decode_data required encode_list decode_list oldest usable finish_login parse_assertion asks_user raw_id user_handle check_assertion).

Inductive passkey_request :=
| RBegin (graph : bool) (u : user) (name password host : string) (https : bool) (draw : option (list Z)) (now : instant)
| RFinish (graph : bool) (u : user) (token host : string) (https : bool) (body : string) (now1 now2 : instant) (keys : list (option (list Z) * instant))
| RChallenge (session_token host : string) (https : bool) (draw : option (list Z)) (now1 now2 : instant)
| RVerify (graph : bool) (token host : string) (https : bool) (body ip : string) (now1 now2 now3 : instant) (i : issue)
| RDelete (u : user) (param : string).
Inductive passkey_answer :=
| Begun (r : result passkey_error (string * Options))
| Registered_as (r : result passkey_error (passkey * option (list string)))
| Verified (r : result passkey_error login_response)
| Deleted (r : result passkey_error unit).
Definition run_request (q : passkey_request) (c : ceremonies Data) (w : W) : passkey_answer * ceremonies Data * W :=
  match q with
  | RBegin g u name password host https draw now => let '(r, c, w) := begin_here g u name password host https draw now c w in (Begun r, c, w)
  | RFinish g u token host https body now1 now2 keys =>
      let '(r, c, w) := finish_here g u token host https body now1 now2 keys c w in (Registered_as r, c, w)
  | RChallenge st host https draw now1 now2 => let '(r, c, w) := challenge_here st host https draw now1 now2 c w in (Begun r, c, w)
  | RVerify g token host https body ip now1 now2 now3 i =>
      let '(r, c, w) := verify_here g token host https body ip now1 now2 now3 i c w in (Verified r, c, w)
  | RDelete u param => let '(r, w) := delete_passkey u param w in (Deleted r, c, w)
  end.
Fixpoint run_requests (l : list passkey_request) (c : ceremonies Data) (w : W) : list passkey_answer * ceremonies Data * W :=
  match l with
  | [] => ([], c, w)
  | q :: l => let '(a, c, w) := run_request q c w in let '(r, c, w) := run_requests l c w in (a :: r, c, w)
  end.

(** ** What happens to the passkeys and to the ceremonies *)

Definition own_token (g : bool) (token : string) : string := if g then trim_space token else token.
(** The request begins the ceremony, with the password of the account where a passkey is to be registered. *)
Definition starts (q : passkey_request) (o : Options) (s : ceremony Data) (at_ : instant) : Prop :=
  match q with
  | RBegin g u name password host https _ now => at_ = now ∧ cy_kind s = KindRegistration ∧ cy_user s = usr_id u ∧
      check_user_password id_key u (own_token g password) = true ∧
      ∃ rp wu, build_web_authn usable host https = Some rp ∧ wu_user wu = u ∧
        begin_registration rp wu (map cr_id (wu_credentials wu)) = Some (o, cy_data s)
  | RChallenge st host https _ _ now => at_ = now ∧ ∃ rp, build_web_authn usable host https = Some rp ∧
      match cy_kind s with
      | KindLogin => begin_discoverable rp = Some (o, cy_data s)
      | KindTwoFactor => cy_pending s = trim_space st ∧ ∃ wu, begin_login rp wu = Some (o, cy_data s)
      | KindRegistration => False
      end
  | _ => False
  end.

Definition pairs (t : users_tables) : list (Z * string) := map (λ r, (pk_user (r_rest r), pk_credential (r_rest r))) (t_rows (n_passkeys t)).
Lemma pairs_same t t' : n_passkeys t' = n_passkeys t → pairs t' = pairs t.
Proof. unfold pairs. by intros ->. Qed.
Lemma pairs_columns t t' : columns_only t t' → pairs t' = pairs t.
Proof. unfold columns_only. by intros ->. Qed.
Lemma pairs_sessions t t' : sessions_only t t' → pairs t' = pairs t.
Proof. unfold sessions_only. by intros ->. Qed.
Lemma pairs_keys t t' : keys_only t t' → pairs t' = pairs t.
Proof. unfold keys_only. by intros ->. Qed.

Lemma delete_only raw (w w' : W) ok : delete_session raw w = (ok, w') → pairs (tables w') = pairs (tables w).
Proof. unfold delete_session. destruct (exec _ w) as [o w1] eqn:X. apply sessions_exec in X as [Hs _]; [|done]. intros [= _ <-]. by apply pairs_sessions. Qed.
Lemma pending_only token now (w w' : W) r : load_pending_session decode_data token now w = (r, w') → pairs (tables w') = pairs (tables w).
Proof.
  unfold load_pending_session, get_by_id. destruct (query _ w) as [q w1] eqn:Q. apply sessions_query in Q as [Ht _].
  rewrite <-Ht. destruct q as [[row|]|]; [|by intros [= _ <-]..]. destruct (negb (unexpired now row)).
  - destruct (delete_session _ w1) as [ok w2] eqn:D. apply delete_only in D. by intros [= _ <-].
  - destruct (u_data (r_rest row)) as [j|]; [destruct (is_empty j); [|destruct (decode_data j)]|]; by intros [= _ <-].
Qed.
Lemma pending_id token now (w w' : W) r : load_pending_session decode_data token now w = (r, w') →
  match r with Ok s => s_id s = trim_space token | Fail _ => True end.
Proof.
  unfold load_pending_session. destruct (get_by_id _ _ _ w) as [g w1] eqn:G. intros [= <- _].
  assert (Hid : match g with Ok s => s_id s = trim_space token | Fail _ => True end).
  { unfold get_by_id in G. destruct (query _ w) as [[[row|]|] w2]; [|by injection G as <- _..].
    destruct (negb _); [destruct (delete_session _ w2); by injection G as <- _|].
    destruct (u_data _) as [j|]; [destruct (is_empty j); [|destruct (decode_data j)]|]; by injection G as <- _. }
  destruct g as [s|]; [|done]. destruct (s_data s) as [d|]; [|done]. by destruct (is_pending d).
Qed.
Lemma full_only u i (w w' : W) r : create_full_auth_session u i None w = (r, w') → pairs (tables w') = pairs (tables w).
Proof.
  unfold create_full_auth_session, full_session, create_session. destruct (generate_session_id (is_draw i)) as [raw|]; [|by intros [= _ <-]].
  destruct (exec _ w) as [o w1] eqn:X. apply sessions_exec in X as [Hs _]; [|apply insert_session_accounts].
  apply pairs_sessions in Hs. destruct o as [[id|]|]; by intros [= _ <-].
Qed.
Lemma by_id_only id (w w' : W) r : user_by_id id w = (r, w') → pairs (tables w') = pairs (tables w).
Proof. intros E. by apply by_id_found in E as [-> _]. Qed.
Lemma load_only u (w w' : W) r : load_wa_user decode_list oldest u w = (r, w') → pairs (tables w') = pairs (tables w).
Proof. intros E. apply load_step in E as [Hc _]. by apply pairs_columns. Qed.
Lemma generate_only user draws (w w' : W) r : generate_recovery_keys user draws w = (r, w') → pairs (tables w') = pairs (tables w).
Proof.
  assert (Hloop : ∀ draws keys (w w' : W) r, generate_loop user draws keys w = (r, w') → pairs (tables w') = pairs (tables w)).
  { clear draws w w' r. induction draws as [|[[raw|] now] draws IH]; intros keys w w' r; cbn [generate_loop]; [by intros [= _ <-]| |by intros [= _ <-]].
    set (h := hash_token _). clearbody h. destruct (exec _ w) as [o w1] eqn:X. apply keys_exec in X as [Hk _].
    - apply pairs_keys in Hk. destruct o as [[]|]; [|by intros [= _ <-]..]. intros E%IH. by rewrite E.
    - intros s. unfold insert_key. by destruct (bool_decide _). }
  unfold generate_recovery_keys, delete_all_for_user. destruct (exec _ w) as [o w1] eqn:X. apply keys_exec in X as [Hk _]; [|done].
  apply pairs_keys in Hk. destruct (negb _); [by intros [= _ <-]|]. intros E%Hloop. by rewrite E.
Qed.
Lemma recovery_only u keys (w w' : W) r : first_recovery_keys u keys w = (r, w') → pairs (tables w') = pairs (tables w).
Proof.
  unfold first_recovery_keys, count_by_user_id. destruct (ensure_passkey_schema w) as [ok w1] eqn:X. apply schema_step, pairs_columns in X.
  destruct ok; cbn [negb]; [|by intros [= _ <-]]. destruct (query _ w1) as [n w2] eqn:Q. apply query_step in Q as [Ht _]. rewrite <-Ht in X.
  destruct n as [[|[|n]]|]; [by intros [= _ <-]| |by intros [= _ <-]..].
  unfold get_unused_keys_count. destruct (query _ w2) as [k w3] eqn:Q. apply keys_query in Q as [Ht3 _]. rewrite <-Ht3 in X.
  destruct k as [[|k]|]; [|by intros [= _ <-]..]. destruct (generate_recovery_keys _ _ w3) as [g w4] eqn:G. apply generate_only in G.
  intros [= _ <-]. by rewrite G.
Qed.

Lemma stored_ceremony draw (s : ceremony Data) now c r c' : store_ceremony draw s now c = (r, c') →
  match r with Ok token => c' = <[token := (s, now + ceremony_ttl)]> c | Fail _ => c' = c end.
Proof. unfold store_ceremony. destruct (generate_session_id draw); by intros [= <- <-]. Qed.

Lemma begin_step g u name password host https draw now c c' (w w' : W) r :
  begin_here g u name password host https draw now c w = (r, c', w') → pairs (tables w') = pairs (tables w) ∧
  match r with
  | Ok (token, o) => ∃ s, c' = <[token := (s, now + ceremony_ttl)]> c ∧ starts (RBegin g u name password host https draw now) o s now
  | Fail _ => c' = c
  end.
Proof.
  unfold begin_passkey_registration. destruct (_ || _); [by intros [= <- <- <-]|].
  destruct (check_user_password _ _ _) eqn:P; cbn [negb]; [|by intros [= <- <- <-]].
  destruct (load_wa_user _ _ u w) as [l w1] eqn:L. apply load_step in L as [Hc L]. apply pairs_columns in Hc. destruct l as [wu|]; [|by intros [= <- <- <-]].
  destruct (L wu eq_refl) as [Hwu _].
  destruct (build_web_authn _ _ _) as [rp|] eqn:B; [|by intros [= <- <- <-]]. destruct (begin_registration _ _ _) as [[o data]|] eqn:R; [|by intros [= <- <- <-]].
  destruct (store_ceremony _ _ _ _) as [t c1] eqn:S. apply stored_ceremony in S. intros [= <- <- <-]. split; [done|].
  destruct t as [token|]; [|done]. eexists. split; [exact S|]. unfold starts. split_and!; try done. by exists rp, wu.
Qed.

Lemma finishing_step g u token host https body now1 now2 keys c c' (w w' : W) r :
  finish_here g u token host https body now1 now2 keys c w = (r, c', w') →
  (pairs (tables w') = pairs (tables w) ∨
   ∃ s rp wu cred, load_ceremony g token now1 c = Ok s ∧ cy_kind s = KindRegistration ∧ cy_user s = usr_id u ∧
     finish_registration rp wu (cy_data s) body = Some cred ∧ build_web_authn usable host https = Some rp ∧ wu_user wu = u ∧
     pairs (tables w') = pairs (tables w) ++ [(usr_id u, encode_passkey_bytes (cr_id cred))]) ∧
  match r with Ok _ => (∃ s, load_ceremony g token now1 c = Ok s) ∧ c' = delete token c | Fail _ => c' = c end.
Proof.
  unfold finish_passkey_registration. destruct (load_ceremony g token now1 c) as [s|] eqn:L; [|intros [= <- <- <-]; by split; [left|]].
  destruct (negb _ || _) eqn:K; [intros [= <- <- <-]; by split; [left|]|]. apply orb_false_iff in K as [K%negb_false_iff%bool_decide_eq_true U%negb_false_iff%Z.eqb_eq].
  destruct (load_wa_user _ _ u w) as [l w1] eqn:Lo. apply load_step in Lo as [Hcol Lo]. apply pairs_columns in Hcol. rewrite <-Hcol. clear Hcol.
  destruct l as [wu|]; [|intros [= <- <- <-]; by split; [left|]]. destruct (Lo wu eq_refl) as [Hwu _].
  destruct (build_web_authn _ _ _) as [rp|] eqn:B; [|intros [= <- <- <-]; by split; [left|]].
  destruct (finish_registration _ _ _ _) as [cred|] eqn:FR; [|intros [= <- <- <-]; by split; [left|]].
  destruct (create_user_passkey _ _ _ _ cred now2 w1) as [p w2] eqn:C.
  assert (Hp : pairs (tables w2) = pairs (tables w1) ∨ pairs (tables w2) = pairs (tables w1) ++ [(usr_id u, encode_passkey_bytes (cr_id cred))]).
  { revert C. unfold create_user_passkey. destruct (ensure_passkey_schema w1) as [ok w3] eqn:X. apply schema_step, pairs_columns in X. rewrite <-X.
    destruct ok; cbn [negb]; [|intros [= _ <-]; by left]. destruct (marshal_transport _ _) as [tr|]; [|intros [= _ <-]; by left].
    destruct (exec _ w3) as [o w4] eqn:E. destruct o as [o|]; [apply exec_ok in E|apply exec_fail in E; intros [= _ <-]; left; by rewrite E].
    unfold insert_passkey in E. destruct (_ || _); [injection E as <- E; intros [= _ <-]; left; by rewrite E|].
    assert (Hp4 : pairs (tables w4) = pairs (tables w3) ++ [(usr_id u, encode_passkey_bytes (cr_id cred))]).
    { injection E as _ <-. unfold pairs. cbn. by rewrite map_app. }
    injection E as <- _. destruct (query _ w4) as [q w5] eqn:Q. apply query_step in Q as [Ht _]. intros [= _ <-]. right. by rewrite Ht. }
  assert (Hrows : pairs (tables w2) = pairs (tables w1) ∨ ∃ s' rp' wu' cred', Ok s = @Ok passkey_error _ s' ∧ cy_kind s' = KindRegistration ∧ cy_user s' = usr_id u ∧
    finish_registration rp' wu' (cy_data s') body = Some cred' ∧ Some rp = Some rp' ∧ wu_user wu' = u ∧
    pairs (tables w2) = pairs (tables w1) ++ [(usr_id u, encode_passkey_bytes (cr_id cred'))]) by (destruct Hp as [?|?]; [by left|right; by exists s, rp, wu, cred]).
  destruct p as [p|]; [|by intros [= <- <- <-]]. destruct (first_recovery_keys u keys w2) as [k w3] eqn:R. apply recovery_only in R.
  intros [= <- <- <-]. rewrite R. split; [done|]. split; [by exists s|done].
Qed.

Lemma challenge_step st host https draw now1 now2 c c' (w w' : W) r : challenge_here st host https draw now1 now2 c w = (r, c', w') →
  pairs (tables w') = pairs (tables w) ∧
  match r with
  | Ok (token, o) => ∃ s, c' = <[token := (s, now2 + ceremony_ttl)]> c ∧ starts (RChallenge st host https draw now1 now2) o s now2
  | Fail _ => c' = c
  end.
Proof.
  unfold begin_passkey_challenge, starts. destruct (build_web_authn _ _ _) as [rp|]; [|by intros [= <- <- <-]].
  assert (Hstart : ∀ kind user pending (so : option (Options * Data)) r c',
    match so with
    | None => (Fail LibraryRefused, c)
    | Some (options, data) =>
        let '(t, c) := store_ceremony draw (Ceremony kind user pending "" data) now2 c in (let? t := t in Ok (t, options), c)
    end = (r, c') →
    match r with
    | Ok (token, o) => ∃ s, c' = <[token := (s, now2 + ceremony_ttl)]> c ∧ so = Some (o, cy_data s) ∧ cy_kind s = kind ∧ cy_pending s = pending
    | Fail _ => c' = c
    end).
  { intros kind user pending [[o data]|] r0 c0; [|by intros [= <- <-]]. destruct (store_ceremony _ _ _ _) as [t c1] eqn:S.
    apply stored_ceremony in S. intros [= <- <-]. destruct t as [token|]; [|done]. eexists. split; [exact S|done]. }
  destruct (is_empty _).
  { intros [= E <-]. split; [done|]. apply Hstart in E. destruct r as [[token o]|]; [|done]. destruct E as (s & -> & Ho & Hk & _).
    exists s. split; [done|]. split; [done|]. exists rp. by rewrite Hk. }
  destruct (load_pending_session _ _ _ w) as [p w1] eqn:P. apply pending_id in P as Hid. apply pending_only in P. rewrite <-P. clear P.
  destruct p as [p|]; [|by intros [= <- <- <-]].
  destruct (user_by_id _ w1) as [q w2] eqn:B. apply by_id_only in B. rewrite <-B. clear B. destruct q as [u|]; [|by intros [= <- <- <-]].
  destruct (validate_auth_user _ _); [|by intros [= <- <- <-]].
  destruct (load_wa_user _ _ u w2) as [l w3] eqn:L. apply load_only in L. rewrite <-L. clear L. destruct l as [wu|]; [|by intros [= <- <- <-]].
  case_bool_decide; [by intros [= <- <- <-]|]. intros [= E <-]. split; [done|]. apply Hstart in E. destruct r as [[token o]|]; [|done].
  destruct E as (s & -> & Ho & Hk & Hp). exists s. split; [done|]. split; [done|]. exists rp. rewrite Hk, Hp. split; [done|]. split; [exact Hid|]. by exists wu.
Qed.

Lemma prove_only s rp body now (w w' : W) r :
  prove_ceremony decode_data required decode_list oldest finish_login parse_assertion asks_user raw_id user_handle check_assertion s rp body now w = (r, w') →
  pairs (tables w') = pairs (tables w).
Proof.
  unfold prove_ceremony. destruct (cy_kind s); [| |by intros [= _ <-]].
  - unfold validate_passkey_login. destruct (parse_assertion body) as [a|]; [|by intros [= _ <-]]. destruct (negb _); [by intros [= _ <-]|].
    destruct (passkey_lookup _ _ _ _ _ w) as [l w1] eqn:L. apply lookup_step in L as [Hc _]. apply pairs_columns in Hc. by intros [= _ <-].
  - destruct (load_pending_session _ _ _ w) as [p w1] eqn:P. apply pending_only in P. rewrite <-P. destruct p as [p|]; [|by intros [= _ <-]].
    destruct (user_by_id _ w1) as [q w2] eqn:B. apply by_id_only in B. rewrite <-B. destruct q as [u|]; [|by intros [= _ <-]].
    destruct (validate_auth_user _ _); [|by intros [= _ <-]].
    destruct (load_wa_user _ _ u w2) as [l w3] eqn:L. apply load_only in L. by intros [= _ <-].
Qed.

Lemma verifying_step g token host https body ip now1 now2 now3 i c c' (w w' : W) r :
  verify_here g token host https body ip now1 now2 now3 i c w = (r, c', w') → pairs (tables w') = pairs (tables w) ∧
  match r with Ok _ => (∃ s, load_ceremony g token now1 c = Ok s) ∧ c' = delete token c | Fail _ => c' = c end.
Proof.
  unfold verify_passkey. destruct (is_empty body); [by intros [= <- <- <-]|]. destruct (load_ceremony _ _ _ _) as [s|] eqn:L; [|by intros [= <- <- <-]].
  destruct (build_web_authn _ _ _) as [rp|]; [|by intros [= <- <- <-]].
  destruct (prove_ceremony _ _ _ _ _ _ _ _ _ _ s rp body now2 w) as [p w1] eqn:P. apply prove_only in P. rewrite <-P. clear P.
  destruct p as [[[u cred] pending]|]; [|by intros [= <- <- <-]].
  destruct (create_full_auth_session u i None w1) as [a w2] eqn:F. apply full_only in F. rewrite <-F. clear F. destruct a as [a|]; [|by intros [= <- <- <-]].
  set (w3 := match pending with Some id => (delete_session id w2).2 | None => w2 end) in *.
  assert (H3 : pairs (tables w3) = pairs (tables w2)).
  { destruct pending as [id|]; [|done]. unfold w3. destruct (delete_session id w2) as [ok w4] eqn:D. by apply delete_only in D. }
  rewrite <-H3. clearbody w3. clear H3. destruct (update_credential _ _ cred now3 w3) as [k w4] eqn:U. apply update_step in U as [_ U].
  destruct k as [[]|]; [|intros [= <- <- <-]; split; [apply pairs_same, U|done]]. destruct U as (_ & tr & _ & U).
  destruct (update_user_last_login _ _ _ w4) as [n w5] eqn:N. intros [= <- <- <-]. split; [|split; [by exists s|done]].
  transitivity (pairs (tables w4)).
  - unfold update_user_last_login, change_user in N. destruct (exec _ w4) as [[b|] w6] eqn:X; injection N as _ <-.
    + apply exec_ok in X. unfold update_user in X. case_decide; injection X as _ <-; reflexivity.
    + apply exec_fail in X. by rewrite X.
  - unfold pairs. rewrite U. cbn. rewrite map_map. apply map_ext. intros r. by destruct (is_credential _ _ r).
Qed.

Lemma drop_step u param (w w' : W) r : delete_passkey u param w = (r, w') → ∀ p, p ∈ pairs (tables w') → p ∈ pairs (tables w).
Proof.
  unfold delete_passkey. destruct (atoi _) as [id|]; [|by intros [= _ <-]]. destruct (id <=? 0); [by intros [= _ <-]|].
  unfold delete_by_id. destruct (ensure_passkey_schema w) as [ok w1] eqn:X. apply schema_step, pairs_columns in X. rewrite <-X. clear X.
  destruct ok; cbn [negb]; [|by intros [= _ <-]]. destruct (exec _ w1) as [[n|] w2] eqn:E; intros [= _ <-].
  - apply exec_ok in E. injection E as _ <-. intros p. unfold pairs. cbn. rewrite !list_elem_of_fmap. intros (r0 & -> & [_ Hin]%list_elem_of_filter). eauto.
  - apply exec_fail in E. by rewrite E.
Qed.

(** ** Each ceremony is finished once *)

Lemma loaded g token now c (s : ceremony Data) : load_ceremony g token now c = Ok s → ∃ e, c !! own_token g token = Some (s, e) ∧ now <= e.
Proof.
  unfold load_ceremony, cached. fold (own_token g token). destruct (is_empty _); [done|]. destruct (c !! own_token g token) as [[s' e]|]; [|done].
  destruct (e <? now) eqn:L; [done|]. intros [= ->]. exists e. split; [done|]. by apply Z.ltb_ge.
Qed.

(** The token of a GraphQL request comes without space around it. *)
Definition tidy (q : passkey_request) : Prop :=
  match q with
  | RFinish g _ token _ _ _ _ _ _ | RVerify g token _ _ _ _ _ _ _ _ => own_token g token = token
  | _ => True
  end.
Definition one (b : bool) : nat := if b then 1 else 0.
Definition issued (k : string) (a : passkey_answer) : nat := match a with Begun (Ok (t, _)) => one (str_eqb t k) | _ => 0 end.
Definition used (k : string) (qa : passkey_request * passkey_answer) : nat :=
  match qa with
  | (RFinish g _ token _ _ _ _ _ _, Registered_as (Ok _)) => one (str_eqb (own_token g token) k)
  | (RVerify g token _ _ _ _ _ _ _ _, Verified (Ok _)) => one (str_eqb (own_token g token) k)
  | _ => 0
  end.
Definition present (k : string) (c : ceremonies Data) : nat := one (bool_decide (is_Some (c !! k))).

Lemma present_insert k t (v : ceremony Data * instant) c : (present k (<[t := v]> c) ≤ present k c + one (str_eqb t k))%nat.
Proof.
  unfold present, str_eqb. destruct (decide (t = k)) as [->|Hne].
  - rewrite lookup_insert_eq, (bool_decide_eq_true_2 (is_Some (Some v))), (bool_decide_eq_true_2 (k = k)) by eauto. cbn. lia.
  - rewrite lookup_insert_ne, (bool_decide_eq_false_2 (t = k)) by done. cbn. lia.
Qed.
Lemma present_delete k t c : is_Some (c !! t) → (one (str_eqb t k) + present k (delete t c) = present k c)%nat.
Proof.
  unfold present, str_eqb. intros Ht. destruct (decide (t = k)) as [->|Hne].
  - rewrite lookup_delete_eq, bool_decide_eq_true_2, bool_decide_eq_false_2, (bool_decide_eq_true_2 (is_Some (c !! k))) by (done || by intros [? ?]). done.
  - rewrite lookup_delete_ne, (bool_decide_eq_false_2 (t = k)) by done. done.
Qed.
Lemma once_step q c c' (w w' : W) a k : tidy q → run_request q c w = (a, c', w') → (used k (q, a) + present k c' ≤ present k c + issued k a)%nat.
Proof.
  destruct q as [g u name password host https draw now|g u token host https body now1 now2 keys|st host https draw now1 now2|g token host https body ip now1 now2 now3 i|u param];
    cbn [run_request tidy]; intros Htidy.
  - destruct (begin_here _ _ _ _ _ _ _ _ c w) as [[r c1] w1] eqn:E. apply begin_step in E as [_ E]. intros [= <- <- <-].
    destruct r as [[t o]|]; cbn; [|by rewrite E, Nat.add_0_r]. destruct E as (s & -> & _). apply present_insert.
  - destruct (finish_here _ _ _ _ _ _ _ _ _ c w) as [[r c1] w1] eqn:E. apply finishing_step in E as [_ E]. intros [= <- <- <-].
    destruct r as [p|]; cbn; [|by rewrite E, Nat.add_0_r]. destruct E as [[s L] ->]. apply loaded in L as (e & L & _). rewrite Htidy in *.
    rewrite present_delete by eauto. lia.
  - destruct (challenge_here _ _ _ _ _ _ c w) as [[r c1] w1] eqn:E. apply challenge_step in E as [_ E]. intros [= <- <- <-].
    destruct r as [[t o]|]; cbn; [|by rewrite E, Nat.add_0_r]. destruct E as (s & -> & _). apply present_insert.
  - destruct (verify_here _ _ _ _ _ _ _ _ _ _ c w) as [[r c1] w1] eqn:E. apply verifying_step in E as [_ E]. intros [= <- <- <-].
    destruct r as [p|]; cbn; [|by rewrite E, Nat.add_0_r]. destruct E as [[s L] ->]. apply loaded in L as (e & L & _). rewrite Htidy in *.
    rewrite present_delete by eauto. lia.
  - destruct (delete_passkey u param w) as [r w1]. intros [= <- <- <-]. cbn. lia.
Qed.
Lemma once_run l c c' (w w' : W) answers k : Forall tidy l → run_requests l c w = (answers, c', w') →
  (sum_list_with (used k) (zip l answers) + present k c' ≤ present k c + sum_list_with (issued k) answers)%nat.
Proof.
  intros Ht. revert c w answers. induction Ht as [|q l Hq _ IH]; intros c w answers; cbn [run_requests]; [intros [= <- <- <-]; cbn; lia|].
  destruct (run_request q c w) as [[a c1] w1] eqn:E. destruct (run_requests l c1 w1) as [[r c2] w2] eqn:R. intros [= <- <- <-].
  apply (once_step _ _ _ _ _ _ k) in E; [|done]. apply IH in R. cbn [zip_with sum_list_with]. lia.
Qed.

(** C24: each ceremony is finished at most once.  Over any sequence of requests, begun registrations and challenges,
    answers to them, and deletions, in whatever order and with whichever statements failing: at most as many requests
    are answered with success on a token as ceremonies were begun under it, provided GraphQL requests send the token
    without space around it (with one they can use it again: [ceremony_used_twice]). *)
Theorem ceremony_once l (w w' : W) answers c' k : Forall tidy l → run_requests l ∅ w = (answers, c', w') →
  (sum_list_with (used k) (zip l answers) ≤ sum_list_with (issued k) answers)%nat.
Proof. intros Ht R. apply (once_run _ _ _ _ _ _ k) in R; [|done]. unfold present in R at 2. rewrite lookup_empty in R. cbn in R. lia. Qed.

(** ** No passkey without the password *)

(** ** What the ceremonies of the cache go back to *)

(** Each was begun by a request that was answered with its token, fifteen minutes before it expires. *)
Definition ledger (past : list (passkey_request * passkey_answer)) (c : ceremonies Data) : Prop :=
  ∀ k s e, c !! k = Some (s, e) → ∃ q o at_, (q, Begun (Ok (k, o))) ∈ past ∧ starts q o s at_ ∧ e = at_ + 15 * 60 * 1000000000.
Lemma ledger_app past l c : ledger past c → ledger (past ++ l) c.
Proof. intros H' k s e E. destruct (H' k s e E) as (q & o & t & Hin & Hs). exists q, o, t. split; [|done]. apply elem_of_app. by left. Qed.
Lemma ledger_delete past k c : ledger past c → ledger past (delete k c).
Proof. intros H' k' s e [_ E]%lookup_delete_Some. by apply (H' k'). Qed.
Lemma ledger_insert past q k o s at_ c : ledger past c → starts q o s at_ →
  ledger (past ++ [(q, Begun (Ok (k, o)))]) (<[k := (s, at_ + ceremony_ttl)]> c).
Proof.
  intros H' Hs k' s' e'. rewrite lookup_insert_Some. intros [[<- [= <- <-]]|[_ E]]; [|by apply (ledger_app _ _ _ H')].
  exists q, o, at_. split; [|done]. apply elem_of_app. right. by left.
Qed.
Lemma ledger_step past q c c' (w w' : W) a : ledger past c → run_request q c w = (a, c', w') → ledger (past ++ [(q, a)]) c'.
Proof.
  intros Hl. destruct q as [g u name password host https draw now|g u token host https body now1 now2 keys|st host https draw now1 now2|g token host https body ip now1 now2 now3 i|u param];
    cbn [run_request].
  - destruct (begin_here _ _ _ _ _ _ _ _ c w) as [[r c1] w1] eqn:E. apply begin_step in E as [_ E]. intros [= <- <- <-].
    destruct r as [[t o]|]; [|rewrite E; by apply ledger_app]. destruct E as (s & -> & Hs). by apply ledger_insert.
  - destruct (finish_here _ _ _ _ _ _ _ _ _ c w) as [[r c1] w1] eqn:E. apply finishing_step in E as [_ E]. intros [= <- <- <-].
    destruct r as [p|]; [destruct E as [_ ->]; apply ledger_delete|rewrite E]; by apply ledger_app.
  - destruct (challenge_here _ _ _ _ _ _ c w) as [[r c1] w1] eqn:E. apply challenge_step in E as [_ E]. intros [= <- <- <-].
    destruct r as [[t o]|]; [|rewrite E; by apply ledger_app]. destruct E as (s & -> & Hs). by apply ledger_insert.
  - destruct (verify_here _ _ _ _ _ _ _ _ _ _ c w) as [[r c1] w1] eqn:E. apply verifying_step in E as [_ E]. intros [= <- <- <-].
    destruct r as [p|]; [destruct E as [_ ->]; apply ledger_delete|rewrite E]; by apply ledger_app.
  - destruct (delete_passkey u param w) as [r w1]. intros [= <- <- <-]. by apply ledger_app.
Qed.
Lemma ledger_run l past c c' (w w' : W) answers : ledger past c → run_requests l c w = (answers, c', w') → ledger (past ++ zip l answers) c'.
Proof.
  revert past c w answers. induction l as [|q l IH]; intros past c w answers Hl; cbn [run_requests]; [intros [= <- <- <-]; by apply ledger_app|].
  destruct (run_request q c w) as [[a c1] w1] eqn:E. destruct (run_requests l c1 w1) as [[r c2] w2] eqn:R. intros [= <- <- <-].
  apply (ledger_step past) in E; [|done]. apply (IH _ _ _ _ E) in R. by rewrite <-app_assoc in R.
Qed.
(** A ceremony found in the cache of a process that started without any *)
Lemma found_ceremony l g token now c (w w' : W) answers s : run_requests l ∅ w = (answers, c, w') → load_ceremony g token now c = Ok s →
  ∃ q o at_, (q, Begun (Ok (own_token g token, o))) ∈ zip l answers ∧ starts q o s at_ ∧ now <= at_ + 15 * 60 * 1000000000.
Proof.
  intros R L. apply (ledger_run l []) in R; [|by intros k s0 e E%lookup_empty_Some]. apply loaded in L as (e & L & Hle).
  destruct (R _ _ _ L) as (q & o & t & Hin & Hs & ->). by exists q, o, t.
Qed.

(** C22: what a passkey opens.  Over any sequence of requests, from a start without ceremonies and whichever statements
    fail, followed by an answer in whichever of the two ways: a session is only issued when an earlier request, at most
    fifteen minutes before, was answered with the token, and the library accepts the answer for what it made up for that
    request, for the account it names, in good standing, with the credentials stored for it, of which the answer's is
    one; as a second factor only for the account of the pending session the request came with, which has not ended and
    ends now.  The session is then the only one added, for that account and thirty days; only the credential that was
    used changes, its account keeps all but the last log-in, the ceremony is forgotten, and nothing else changes in any
    table but for missing columns.  An error changes no other table than that of the sessions: there it only drops one
    that has ended, or it leaves the session of an answer that was proven so but whose credential could not be
    written. *)
Theorem passkey_login_sound l answers graph token host https body ip now1 now2 now3 i c (w0 w w' : W) c' res :
  run_requests l ∅ w0 = (answers, c, w) → sessions_ok (sessions_of (tables w)) →
  verify_here graph token host https body ip now1 now2 now3 i c w = (res, c', w') →
  let begun s := ∃ q o at_, (q, Begun (Ok (own_token graph token, o))) ∈ zip l answers ∧ starts q o s at_ ∧ now1 <= at_ + 15 * 60 * 1000000000 in
  match res with
  | Ok a => c' = delete token c ∧ ∃ s rp, begun s ∧ build_web_authn usable host https = Some rp ∧
      let_in decode_data required decode_list oldest finish_login parse_assertion asks_user raw_id user_handle check_assertion
        s rp body ip now2 now3 i (tables w) (tables w') a
  | Fail _ => c' = c ∧ core_same (tables w) (tables w') ∧
      (ended_gone now2 (tables w) (tables w') ∨
       ∃ s rp, begun s ∧ build_web_authn usable host https = Some rp ∧
         left_behind decode_data required encode_list decode_list oldest finish_login parse_assertion asks_user raw_id user_handle check_assertion
           s rp body now2 i (tables w) (tables w'))
  end.
Proof.
  intros R Hok V. cbv zeta. apply verifying_sound in V; [|done]. destruct res as [a|e].
  - destruct V as (-> & s & rp & L & V). split; [done|]. exists s, rp. split; [|done]. by eapply found_ceremony.
  - destruct V as (-> & Hc & V). split; [done|]. split; [done|]. destruct V as [V|(s & rp & L & V)]; [by left|right].
    exists s, rp. split; [|done]. by eapply found_ceremony.
Qed.

(** ** No passkey without the password *)

(** A request of the run stored this very passkey, of its own account, as the answer to a registration that an earlier
    request of the account had begun with the password, at most fifteen minutes before. *)
Definition earned (w : W) (l : list passkey_request) (p : Z * string) : Prop :=
  ∃ l1 g u token host https body now1 now2 keys l2 answers c w1, l = l1 ++ RFinish g u token host https body now1 now2 keys :: l2 ∧
    run_requests l1 ∅ w = (answers, c, w1) ∧ (p ∉ pairs (tables w1)) ∧ usr_id u = p.1 ∧
    pairs (tables (finish_here g u token host https body now1 now2 keys c w1).2) = pairs (tables w1) ++ [p] ∧
    ∃ g' u' name password host' https' draw' now o s rp wu cred,
      (RBegin g' u' name password host' https' draw' now, Begun (Ok (own_token g token, o))) ∈ zip l1 answers ∧
      usr_id u' = p.1 ∧ check_user_password id_key u' (own_token g' password) = true ∧ now1 <= now + 15 * 60 * 1000000000 ∧
      starts (RBegin g' u' name password host' https' draw' now) o s now ∧
      finish_registration rp wu (cy_data s) body = Some cred ∧ p.2 = encode_passkey_bytes (cr_id cred).
Lemma earned_app w l k p : earned w l p → earned w (l ++ k) p.
Proof.
  intros (l1 & g & u & token & host & https & body & now1 & now2 & keys & l2 & answers & c & w1 & -> & H').
  exists l1, g, u, token, host, https, body, now1, now2, keys, (l2 ++ k), answers, c, w1. by rewrite <-app_assoc.
Qed.
Lemma run_requests_snoc l q c (w : W) : run_requests (l ++ [q]) c w =
  let '(r, c, w) := run_requests l c w in let '(a, c, w) := run_request q c w in (r ++ [a], c, w).
Proof.
  revert c w. induction l as [|q' l IH]; intros c w; cbn [run_requests app].
  - by destruct (run_request q c w) as [[a c1] w1].
  - destruct (run_request q' c w) as [[a c1] w1]. rewrite IH. destruct (run_requests l c1 w1) as [[r c2] w2].
    by destruct (run_request q c2 w2) as [[b c3] w3].
Qed.
Lemma added_by q c c' (w w' : W) a p : run_request q c w = (a, c', w') → p ∈ pairs (tables w') → p ∉ pairs (tables w) →
  ∃ g u token host https body now1 now2 keys s rp wu cred, q = RFinish g u token host https body now1 now2 keys ∧
    load_ceremony g token now1 c = Ok s ∧ cy_kind s = KindRegistration ∧ cy_user s = usr_id u ∧
    finish_registration rp wu (cy_data s) body = Some cred ∧ p = (usr_id u, encode_passkey_bytes (cr_id cred)) ∧
    pairs (tables w') = pairs (tables w) ++ [p].
Proof.
  destruct q as [g u name password host https draw now|g u token host https body now1 now2 keys|st host https draw now1 now2|g token host https body ip now1 now2 now3 i|u param];
    cbn [run_request].
  - destruct (begin_here _ _ _ _ _ _ _ _ c w) as [[r c1] w1] eqn:E. apply begin_step in E as [Hp _]. intros [= <- <- <-]. by rewrite Hp.
  - destruct (finish_here _ _ _ _ _ _ _ _ _ c w) as [[r c1] w1] eqn:E. apply finishing_step in E as [Hp _]. intros [= <- <- <-].
    destruct Hp as [Hp|(s & rp & wu & cred & L & K & U & F & _ & _ & Hp)]; [by rewrite Hp|]. intros Hin Hno. rewrite Hp in Hin.
    apply elem_of_app in Hin as [?|Hq%list_elem_of_singleton]; [done|]. subst p. by exists g, u, token, host, https, body, now1, now2, keys, s, rp, wu, cred.
  - destruct (challenge_here _ _ _ _ _ _ c w) as [[r c1] w1] eqn:E. apply challenge_step in E as [Hp _]. intros [= <- <- <-]. by rewrite Hp.
  - destruct (verify_here _ _ _ _ _ _ _ _ _ _ c w) as [[r c1] w1] eqn:E. apply verifying_step in E as [Hp _]. intros [= <- <- <-]. by rewrite Hp.
  - destruct (delete_passkey u param w) as [r w1] eqn:E. intros [= <- <- <-] Hin []. by eapply drop_step.
Qed.

(** C23: no passkey without the password.  Over any such sequence of requests, from a start without ceremonies: each
    passkey that an account has afterwards and did not have before was stored by a request of that account that finished
    a registration, begun under the token it sent, at most fifteen minutes before, by a request of the same account that
    gave its password; it is the credential the library made of that request's answer. *)
Theorem passkey_needs_password l (w w' : W) answers c' : run_requests l ∅ w = (answers, c', w') →
  ∀ p, p ∈ pairs (tables w') → p ∈ pairs (tables w) ∨ earned w l p.
Proof.
  revert w' answers c'. induction l as [|q l IH] using rev_ind; intros w' answers c'; [intros [= <- <- <-]; by left|].
  rewrite run_requests_snoc. destruct (run_requests l ∅ w) as [[r c1] w1] eqn:R. destruct (run_request q c1 w1) as [[a c2] w2] eqn:E.
  intros [= <- <- <-] p Hin. destruct (decide (p ∈ pairs (tables w1))) as [Hold|Hnew].
  { destruct (IH _ _ _ eq_refl p Hold) as [?|?]; [by left|right]. by apply earned_app. }
  right. destruct (added_by _ _ _ _ _ _ _ E Hin Hnew) as (g & u & token & host & https & body & now1 & now2 & keys & s & rp & wu & cred & -> & L & K & U & F & Hp & Hadd).
  destruct (found_ceremony _ _ _ _ _ _ _ _ _ R L) as (b & o & t & Hb & Hs & Ht).
  destruct b as [g' u' name password host' https' draw' now| |st host' https' draw' n1 n2| |]; try (by destruct Hs);
    [|destruct Hs as (_ & rp' & _ & Hs); by rewrite K in Hs].
  pose proof Hs as (-> & _ & Hu & Hpw & _).
  exists l, g, u, token, host, https, body, now1, now2, keys, [], r, c1, w1. split_and!; try done; [by rewrite Hp| |].
  - cbn [run_request] in E. destruct (finish_here _ _ _ _ _ _ _ _ _ c1 w1) as [[r0 c0] w0]. by injection E as <- <- <-.
  - exists g', u', name, password, host', https', draw', now, o, s, rp, wu, cred. rewrite Hp. split_and!; try done. by rewrite <-Hu.
Qed.
End Requests.

(** * A stored credential is read back *)

Section RoundTrip.
Context `{DatabaseLaws W users_tables} (fk : bool).
Context (encode_list : list string → option string) (decode_list : string → option (list string)).
Context (oldest : list passkey_row → list passkey_row) (oldest_perm : ∀ l, (oldest l) ≡ₚ l).
Context (list_codec : ∀ l, l ≠ [] → ∃ s, encode_list l = Some s ∧ s ≠ "" ∧ decode_list s = Some l) (empty_list : decode_list "[]" = Some []).

Lemma passkey_bytes l : is_bytes l → decode_passkey_bytes (encode_passkey_bytes l) = Some l.
Proof.
  intros Hl. unfold decode_passkey_bytes, encode_passkey_bytes, raw_url_encode. pose proof (raw_decode_encode url (or_intror eq_refl) l Hl) as E.
  destruct (is_empty _) eqn:X; [|done]. apply is_empty_spec in X. rewrite X in E. rewrite <-E. vm_compute. reflexivity.
Qed.
Lemma transport_back l : "" ∉ l → ∃ s, marshal_transport encode_list l = Some s ∧ unmarshal_transport decode_list s = Some l.
Proof.
  intros Hl. unfold marshal_transport, unmarshal_transport. destruct l as [|t l].
  - exists "[]". split; [done|]. cbn. by rewrite empty_list.
  - destruct (list_codec (t :: l)) as (s & Es & Hs & Ds); [done|]. exists s. split; [done|].
    destruct (is_empty s) eqn:X; [by apply is_empty_spec in X|]. rewrite Ds. cbn [fmap option_fmap option_map]. f_equal.
    apply filter_all. intros x Hx ->. done.
Qed.

Definition credential_ok (c : credential) : Prop :=
  is_bytes (cr_id c) ∧ is_bytes (cr_key c) ∧ is_bytes (cr_aaguid c) ∧ ("" ∉ cr_transport c) ∧ 0 <= cr_count c < 2 ^ 32.
Definition passkey_ids_ok (t : users_tables) : Prop := ∀ r, r ∈ t_rows (n_passkeys t) → row_no r < t_next_id (n_passkeys t).

Lemma mapM_perm {A B} (f : A → option B) l k cs : l ≡ₚ k → mapM f k = Some cs → ∃ cs', mapM f l = Some cs' ∧ cs' ≡ₚ cs.
Proof.
  intros Hp. revert cs. induction Hp as [|x l k _ IH|x y l|l k m _ IH1 _ IH2]; intros cs.
  - intros [= <-]. by exists [].
  - cbn. destruct (f x) as [b|]; [|done]. cbn. destruct (mapM f k) as [bs|] eqn:E; [|done]. intros [= <-].
    destruct (IH bs eq_refl) as (bs' & -> & Hb). exists (b :: bs'). split; [done|]. by constructor.
  - cbn. destruct (f x) as [b|], (f y) as [b'|]; try done; cbn; [|by destruct (mapM f l)..]. destruct (mapM f l) as [bs|]; [|done]. intros [= <-].
    exists (b' :: b :: bs). split; [done|]. constructor.
  - intros E. destruct (IH2 cs E) as (cs2 & E2 & P2). destruct (IH1 cs2 E2) as (cs1 & E1 & P1). exists cs1. split; [done|]. by trans cs2.
Qed.

Lemma mapM_app_some {A B} (f : A → option B) l k cs ds : mapM f l = Some cs → mapM f k = Some ds → mapM f (l ++ k) = Some (cs ++ ds).
Proof.
  intros Hl Hk. revert cs Hl. induction l as [|x l IH]; intros cs; cbn; [by intros [= <-]|].
  destruct (f x) as [b|]; [|done]. cbn. destruct (mapM f l) as [bs|]; [|done]. intros [= <-]. cbn. by rewrite (IH bs eq_refl).
Qed.
Lemma find_app_new {A} (q : A → bool) l new x : find q (l ++ [new]) = Some x → (∀ a, a ∈ l → q a = false) → q new = true → x = new.
Proof.
  induction l as [|a l IH]; cbn; intros E Hl Hn; [rewrite Hn in E; by injection E|].
  rewrite (Hl a) in E by by left. apply IH; [done| |done]. intros b Hb. apply Hl. by right.
Qed.

(** a stored credential is read back.  When storing a credential of the library succeeds, the passkey it returns
    decodes to that credential, under the account and the name it was stored for, and the credentials of the account
    are those it had and this one, in whatever order the engine lists them. *)
Theorem credential_roundtrip user name c now (w w' : W) p cs :
  credential_ok c → passkey_ids_ok (tables w) → stored_credentials decode_list oldest user (tables w) = Some cs →
  create_user_passkey fk encode_list user name c now w = (Ok p, w') →
  credential_of decode_list p = Some c ∧ ps_user p = user ∧ ps_name p = name ∧ ps_used p = None ∧
  ∃ cs', stored_credentials decode_list oldest user (tables w') = Some cs' ∧ cs' ≡ₚ cs ++ [c].
Proof.
  intros (Hid & Hkey & Haa & Htr & Hcount) Hnext Hcs. unfold create_user_passkey.
  destruct (ensure_passkey_schema w) as [ok w1] eqn:X. apply schema_step in X. unfold columns_only in X. destruct ok; cbn [negb]; [|done].
  destruct (transport_back (cr_transport c) Htr) as (tr & -> & Hback). set (cols := PasskeyCols _ _ _ _ _ _ _ _ _ _ _).
  destruct (exec _ w1) as [[[id|]|] w2] eqn:E; [|done..]. apply exec_ok in E. unfold insert_passkey in E. destruct (_ || _); [done|].
  injection E as <- E. destruct (query _ w2) as [q w3] eqn:Q. apply query_step in Q as [Ht Q]. intros [= Hq <-]. rewrite Ht.
  set (new := Row (VInt (t_next_id (n_passkeys (tables w)))) (VText (format_sql_timestamp now)) cols).
  assert (Hrows : t_rows (n_passkeys (tables w2)) = t_rows (n_passkeys (tables w)) ++ [new]) by by rewrite <-E, X.
  assert (Hp : p = scan_passkey new).
  { destruct q as [[r|]|]; [|done..]. injection Hq as <-. specialize (Q _ eq_refl). f_equal. rewrite Hrows, X in Q. cbn [n_passkeys put_columns] in Q.
    symmetry in Q. apply find_app_new in Q; [done| |apply Z.eqb_refl]. intros r0 Hr0. apply Z.eqb_neq. specialize (Hnext r0 Hr0). lia. }
  assert (Hc : credential_of decode_list p = Some c).
  { rewrite Hp. unfold credential_of, scan_passkey. cbn. rewrite !passkey_bytes by done. cbn. rewrite Hback. cbn. rewrite Z.mod_small by done. by destruct c. }
  split; [exact Hc|]. split; [by rewrite Hp|]. split; [by rewrite Hp|]. split; [by rewrite Hp|].
  unfold stored_credentials in *. rewrite Hrows, filter_app, (filter_cons_True _ new []) by apply Z.eqb_refl. cbn [filter list_filter].
  set (old := filter _ (t_rows (n_passkeys (tables w)))) in *.
  apply (mapM_perm _ (map scan_passkey old)) in Hcs as (cs0 & E0 & P0); [|apply Permutation_map; symmetry; apply oldest_perm].
  destruct (mapM_perm (credential_of decode_list) (map scan_passkey (oldest (old ++ [new]))) (map scan_passkey (old ++ [new])) (cs0 ++ [c])) as (cs' & E' & P').
  - apply Permutation_map, oldest_perm.
  - rewrite map_app. apply mapM_app_some; [done|]. cbn. by rewrite <-Hp, Hc.
  - exists cs'. split; [exact E'|]. by rewrite P', P0.
Qed.
End RoundTrip.

(** * Witnesses and findings *)

(** An authenticator whose answer is the user handle it stored; the credential it answers with is the account's first *)
Definition toy_assertion (body : string) : option (list Z * string) := Some ([1], body).
Definition toy_check (rp : relying_party) (wu : wa_user) (s : string) (a : list Z * string) : option credential := head (wu_credentials wu).
Definition toy_finish (rp : relying_party) (wu : wa_user) (s body : string) : option credential :=
  Some (Credential [9] [8] "none" [] true false [] 1).
(** A codec of lists: a dot before each character, a semicolon after each string *)
Fixpoint dotted (s rest : string) : string :=
  match s with EmptyString => String ";" rest | String c s => String "." (String c (dotted s rest)) end.
Fixpoint undotted (s cur : string) : option (list string) :=
  match s with
  | EmptyString => if is_empty cur then Some [] else None
  | String ";" s => cons cur <$> undotted s ""
  | String _ (String c s) => undotted s (cur +:+ String c "")
  | _ => None
  end.
Definition toy_list (l : list string) : option string := Some (foldr dotted "" l).
Definition toy_unlist (s : string) : option (list string) := if str_eqb s "[]" then Some [] else undotted s "".
Lemma undotted_dotted s rest cur : undotted (dotted s rest) cur = cons (cur +:+ s) <$> undotted rest "".
Proof.
  revert cur. induction s as [|c s IH]; intros cur; cbn; [by rewrite app_empty|]. rewrite IH.
  assert ((cur +:+ String c "") +:+ s = cur +:+ String c s) as -> by (induction cur as [|a cur E]; [done|exact (f_equal (String a) E)]). done.
Qed.
Lemma toy_list_codec l : l ≠ [] → ∃ s, toy_list l = Some s ∧ s ≠ "" ∧ toy_unlist s = Some l.
Proof.
  intros Hl. exists (foldr dotted "" l). split; [done|]. assert (undotted (foldr dotted "" l) "" = Some l) as U.
  { clear Hl. induction l as [|s l IH]; [done|]. cbn [foldr]. by rewrite undotted_dotted, IH. }
  split; [by destruct l as [|[|c s] l]|]. unfold toy_unlist. rewrite U. by destruct l as [|[|c s] l].
Qed.
Abbreviation toy_verify := (verify_passkey (W := reliable users_tables) toy_decode false toy_list toy_unlist (λ l, l) (λ _, true) toy_finish toy_assertion
  (λ _ _ _, true) fst snd toy_check).
Abbreviation toy_run := (run_requests (W := reliable users_tables) toy_key toy_decode false true toy_list toy_unlist (λ l, l) (λ _, true)
  (λ _ _ _, Some (tt, "s")) toy_finish (λ _ _, Some (tt, "s")) (λ _, Some (tt, "s")) toy_finish toy_assertion (λ _ _ _, true) fst snd toy_check).
Abbreviation toy_earned := (earned (W := reliable users_tables) toy_key toy_decode false true toy_list toy_unlist (λ l, l) (λ _, true)
  (λ _ _ _, Some (tt, "s")) toy_finish (λ _ _, Some (tt, "s")) (λ _, Some (tt, "s")) toy_finish toy_assertion (λ _ _ _, true) fst snd toy_check).
Definition a_ceremony : ceremonies string := {["tok" := (Ceremony KindLogin 0 "" "" "s", t_now + 15 * minute)]}.
Definition ann : user := scan_account "user" (map_profile (default "") new_profile) guarded_ann.
Definition keyed_ann : reliable users_tables := Reliable (users_with guarded_ann [1]).

Definition some_login (graph : bool) (token body : string) (now : instant) (c : ceremonies string) (w : reliable users_tables) :=
  toy_verify graph token "example.org" true body "192.0.2.1" now now now (issue_of 1) c w.
(** A log-in is begun *)
Definition toy_challenge : list (passkey_answer (Options := unit)) * ceremonies string * reliable users_tables :=
  toy_run [RChallenge "" "example.org" true (draw 3) t_now t_now] ∅ keyed_ann.

Lemma some_login_answer : (some_login false (link 3) "usr:1" t_now toy_challenge.1.2 keyed_ann).1.1 =
  Ok (FullSession (link 1) (build_auth_user_summary ann) (seconds_from t_now session_ttl) None).
Proof. vm_compute. reflexivity. Qed.
Lemma toy_challenge_world : toy_challenge.2 = keyed_ann.
Proof. vm_compute. reflexivity. Qed.

(** The handle of another account, and a ceremony that has run out, open nothing. *)
Lemma passkey_login_sound_witness :
  (∃ w', some_login false (link 3) "usr:1" t_now toy_challenge.1.2 keyed_ann =
     (Ok (FullSession (link 1) (build_auth_user_summary ann) (seconds_from t_now session_ttl) None), delete (link 3) toy_challenge.1.2, w') ∧
     login_only (users_with guarded_ann [1]) (tables w')) ∧
  (some_login false (link 3) "usr:2" t_now toy_challenge.1.2 keyed_ann).1.1 = Fail LibraryRefused ∧
  (some_login false (link 3) "usr:1" (t_now + 16 * minute) toy_challenge.1.2 keyed_ann).1.1 = Fail CeremonyExpired.
Proof.
  split; [|split; vm_compute; reflexivity]. pose proof some_login_answer as A. pose proof toy_challenge_world as Hw.
  destruct toy_challenge as [[answers c] w] eqn:R. cbn [fst snd] in A, Hw |- *. subst w.
  destruct (some_login false (link 3) "usr:1" t_now c keyed_ann) as [[res c'] w'] eqn:E. cbn [fst] in A. subst res.
  eapply (passkey_login_sound _ _ _ _ _ _ _ _ _ _ _ _ _ _ _ _ _ _ _ answers) in E as
    (-> & s & rp & _ & _ & u & cred & pending & session & transport & _ & _ & _ & _ & _ & _ & Hl); [|exact R|exact (users_without_sessions guarded_ann [1])].
  exists w'. split; [reflexivity|exact Hl].
Defined.

(** Ann begins a registration with her password, finishes it, and tries the token again *)
Definition toy_requests : list passkey_request :=
  [RBegin false ann "phone" "password" "example.org" true (draw 1) t_now;
   RFinish false ann (link 1) "example.org" true "{}" t_now t_now [];
   RFinish false ann (link 1) "example.org" true "{}" t_now t_now []].
Lemma toy_answers : map (λ a : passkey_answer, match a with Begun (Ok (t, _)) => Some t | Registered_as (Ok _) => Some "registered" | _ => None end)
  (toy_run toy_requests ∅ keyed_ann).1.1 = [Some (link 1); Some "registered"; None].
Proof. vm_compute. reflexivity. Qed.

Lemma toy_tidy : Forall tidy toy_requests.
Proof. repeat (constructor; [done|]). constructor. Qed.

(** The registration begun under the token was finished, and only once. *)
Lemma ceremony_once_witness : ∃ answers,
  answers = (toy_run toy_requests ∅ keyed_ann).1.1 ∧ sum_list_with (used (link 1)) (zip toy_requests answers) = 1%nat ∧
  (1 ≤ sum_list_with (issued (link 1)) answers)%nat.
Proof.
  assert (U : sum_list_with (used (link 1)) (zip toy_requests (toy_run toy_requests ∅ keyed_ann).1.1) = 1%nat) by (vm_compute; reflexivity).
  destruct (toy_run toy_requests ∅ keyed_ann) as [[answers c'] w'] eqn:E. exists answers. split; [reflexivity|]. split; [exact U|].
  eapply (ceremony_once _ _ _ _ _ _ _ _ _ _ _ _ _ _ _ _ _ _ _ _ _ _ _ (link 1)) in E; [|exact toy_tidy]. rewrite <-U. exact E.
Defined.

Lemma toy_pairs : pairs (tables (toy_run toy_requests ∅ keyed_ann).2) = [(1, "AQ"); (1, "CQ")].
Proof. vm_compute. reflexivity. Qed.
Lemma passkey_needs_password_witness : (1, "CQ") ∈ pairs (tables (toy_run toy_requests ∅ keyed_ann).2) ∧
  toy_earned keyed_ann toy_requests (1, "CQ").
Proof.
  assert (Hin : (1, "CQ") ∈ pairs (tables (toy_run toy_requests ∅ keyed_ann).2)) by (rewrite toy_pairs; right; left).
  split; [exact Hin|]. destruct (toy_run toy_requests ∅ keyed_ann) as [[answers c'] w'] eqn:E.
  eapply passkey_needs_password in E; [|exact Hin]. destruct E as [Hold|He]; [exfalso|exact He].
  cbn in Hold. apply list_elem_of_singleton in Hold. discriminate Hold.
Defined.

(** A credential with a transport, stored beside the one there is *)
Definition usb_key : credential := Credential [7; 255] [0; 1] "none" ["usb"; "nfc"] true false (replicate 16 0) 5.
Definition store_usb := create_user_passkey (W := reliable users_tables) true toy_list 1 "key" usb_key t_now keyed_ann.
Lemma store_usb_answer : match store_usb.1 with Ok p => ps_id p =? 2 | Fail _ => false end = true.
Proof. vm_compute. reflexivity. Qed.
Lemma keyed_ids : passkey_ids_ok (tables keyed_ann).
Proof. intros r ->%list_elem_of_singleton. done. Qed.
Lemma usb_key_ok : credential_ok usb_key.
Proof.
  unfold credential_ok. split; [|split; [|split; [|split]]]; [repeat (constructor; [done|]); by constructor..| |done].
  cbn. intros [?|[?|[]%not_elem_of_nil]%elem_of_cons]%elem_of_cons; discriminate.
Qed.
Lemma credential_roundtrip_witness : ∃ p w', store_usb = (Ok p, w') ∧ credential_of toy_unlist p = Some usb_key ∧
  ∃ cs, stored_credentials toy_unlist (λ l, l) 1 (tables w') = Some cs ∧ cs ≡ₚ [Credential [1] [2] "none" [] false false [] 0; usb_key].
Proof.
  pose proof store_usb_answer as A. destruct store_usb as [[p|e] w'] eqn:E; [|discriminate A]. exists p, w'. split; [reflexivity|].
  eapply (credential_roundtrip _ _ toy_unlist (λ l, l) (λ l, reflexivity l) toy_list_codec eq_refl) in E as (Hc & _ & _ & _ & Hs);
    [|exact usb_key_ok|exact keyed_ids|vm_compute; reflexivity].
  split; [exact Hc|exact Hs].
Defined.

(** GraphQL looks the ceremony up by the trimmed token and forgets the one it was sent: with a space before it, one
    answer logs in twice, and the two sessions are different. *)
Definition again (graph : bool) (token : string) : list (option string) :=
  let login i c w := toy_verify graph token "example.org" true "usr:1" "192.0.2.1" t_now t_now t_now (issue_of i) c w in
  let shown (r : result passkey_error login_response) := match r with Ok (FullSession s _ _ _) => Some s | _ => None end in
  let '(r1, c, w) := login 1 a_ceremony keyed_ann in let '(r2, _, _) := login 2 c w in [shown r1; shown r2].
Lemma ceremony_used_twice : again true " tok" = [Some (link 1); Some (link 2)] ∧ again true "tok" = [Some (link 1); None].
Proof. vm_compute. done. Qed.

(** A second factor whose credential is gone when its counter is stored: the request fails, the pending session has
    ended and nobody can finish it, and a full session exists that nobody was given. *)
Definition stranger (rp : relying_party) (wu : wa_user) (s body : string) : option credential := Some (Credential [9] [8] "none" [] true false [] 1).
Definition pending_ann : reliable users_tables := Reliable (with_sessions (SessionTables [Row (VInt 1) (stamp_of (t_now + hours 1))
  (SessionCols 1 (hash_token "pending") None None (Some pending_text) (stamp_of t_now) VNull)] 2 {[1]}) (users_with guarded_ann [1])).
Lemma factor_lost :
  let c : ceremonies string := {["tok" := (Ceremony KindTwoFactor 1 "pending" "" "s", t_now + 15 * minute)]} in
  let '(r, _, w) := verify_passkey toy_decode false toy_list toy_unlist (λ l, l) (λ _, true) stranger toy_assertion (λ _ _ _, true) fst snd toy_check
    false "tok" "example.org" true "usr:1" "192.0.2.1" t_now t_now t_now (issue_of 1) c pending_ann in
  r = Fail PasskeyNotFound ∧ users_registry (tables pending_ann) !! hash_token "pending" = Some (1, Some (t_now + hours 1)) ∧
  users_registry (tables w) !! hash_token "pending" = None ∧
  users_registry (tables w) !! hash_token (link 1) = Some (1, stored (seconds_from t_now session_ttl)).
Proof. vm_compute. done. Qed.

(** Recovery keys come with the first passkey only: after its keys failed to be stored, the second one brings none, and
    the account has two passkeys and no recovery key. *)
Lemma no_keys_later :
  let register token draw keys c w := finish_passkey_registration (W := reliable users_tables) true toy_list toy_unlist (λ l, l) (λ _, true)
    (λ _ _ _ _, Some (Credential draw [8] "none" [] true false [] 1)) false ann token "example.org" true "{}" t_now t_now keys c w in
  let ceremony := (Ceremony KindRegistration 1 "" "phone" "s", t_now + 15 * minute) in
  let '(r1, c, w) := register "a" [1] [(None, t_now)] {["a" := ceremony; "b" := ceremony]} (Reliable (users_with guarded_ann [])) in
  let '(r2, _, w) := register "b" [2] [(draw 1, t_now)] c w in
  match r1, r2 with Ok (_, None), Ok (_, None) => length (t_rows (n_passkeys (tables w))) = 2%nat ∧ (n_keys (tables w)).1 = [] | _, _ => False end.
Proof. vm_compute. done. Qed.
