(* ===== verification/TwoFactor.v ===== *)
(** The second factor of the signed-in account (server/handler/twofa.go): its status, the secret
    to set it up, turning it on with the recovery keys it comes with and off again, a code checked,
    and fresh recovery keys; as the REST handlers and the GraphQL resolvers call them.  The account
    is the one the request was let in as, read before. *)
From S2P Require Import Prelude GoStrings GoTime Sql DbTime Base64 Encryption Password Sessions RecoveryKeys Users UserTokens Login.
Open Scope Z_scope.

Record two_factor_status := TwoFactorStatus { tf_enabled : bool; tf_keys : nat }.
Record two_factor_setup := TwoFactorSetup { su_secret : string; su_qr : string; su_url : string; su_account : string; su_issuer : string }.
Inductive two_factor_error :=
| NoStatus | AlreadyOn | NoSecret | NotOn | BadCode | NotTurnedOn | NoKeys | NotRolledBack | BadPassword | NotTurnedOff | KeysKept | BadRequest.

(** GenerateOTPAuthURL *)
Definition generate_otp_auth_url (email secret issuer : string) : string :=
  "otpauth://totp/" +:+ issuer +:+ ":" +:+ email +:+ "?secret=" +:+ secret +:+ "&issuer=" +:+ issuer.

Section TwoFactor.
Context `{Database W users_tables}.
Context (id_key : list Z → list Z → Z → Z → Z → Z → option (list Z)).
Context (seal : list Z → list Z → list Z → list Z) (open : list Z → list Z → list Z → option (list Z)) (cipher_key : string).
(** The TOTP library: whether a code fits a secret, and a new secret with its picture for an address *)
Context (totp : string → string → bool) (generate : string → option (string * string)).
#[local] Existing Instance keys_database.

Definition load_two_factor_status (u : user) (w : W) : result two_factor_error two_factor_status * W :=
  if usr_two_factor u then
    let '(n, w) := get_unused_keys_count (usr_id u) w in
    (match n with Some n => Ok (TwoFactorStatus true n) | None => Fail NoStatus end, w)
  else (Ok (TwoFactorStatus false 0), w).
Definition prepare_two_factor_setup (u : user) : result two_factor_error two_factor_setup :=
  if usr_two_factor u then Fail AlreadyOn
  else match generate (usr_email u) with
  | None => Fail NoSecret
  | Some (secret, qr) => Ok (TwoFactorSetup secret qr (generate_otp_auth_url (usr_email u) secret "Weather") (usr_email u) "Weather")
  end.

(** The clock at the UPDATE, the draws of the recovery keys, and the clock at the roll-back *)
Definition enable_current_two_factor (u : user) (secret code : string) (nonce : option (list Z)) (now1 : instant)
    (draws : list (option (list Z) * instant)) (now2 : instant) (w : W) : result two_factor_error (list string) * W :=
  if usr_two_factor u then (Fail AlreadyOn, w)
  else if negb (totp secret code) then (Fail BadCode, w)
  else
    let '(r, w) := enable_2fa seal cipher_key (usr_id u) secret nonce now1 w in
    match r with
    | Fail _ => (Fail NotTurnedOn, w)
    | Ok _ =>
        let '(k, w) := generate_recovery_keys (usr_id u) draws w in
        match k with
        | Ok keys => (Ok keys, w)
        | Fail _ =>
            let '(r, w) := disable_2fa (usr_id u) now2 w in
            (match r with Fail _ => Fail NotRolledBack | Ok _ => Fail NoKeys end, w)
        end
    end.
Definition disable_current_two_factor (u : user) (password : string) (now : instant) (w : W) : result two_factor_error unit * W :=
  if negb (usr_two_factor u) then (Fail NotOn, w)
  else if negb (check_user_password id_key u password) then (Fail BadPassword, w)
  else
    let '(r, w) := disable_2fa (usr_id u) now w in
    match r with
    | Fail _ => (Fail NotTurnedOff, w)
    | Ok _ => let '(ok, w) := delete_all_for_user (usr_id u) w in (if ok then Ok tt else Fail KeysKept, w)
    end.
Definition verify_current_code (u : user) (code : string) : result two_factor_error unit :=
  if negb (usr_two_factor u) then Fail NotOn
  else if code_verifies open cipher_key totp u code then Ok tt else Fail BadCode.
Definition regenerate_current_keys (u : user) (code : string) (draws : list (option (list Z) * instant)) (w : W)
  : result two_factor_error (list string) * W :=
  match verify_current_code u code with
  | Fail e => (Fail e, w)
  | Ok _ => let '(k, w) := generate_recovery_keys (usr_id u) draws w in (match k with Ok keys => Ok keys | Fail _ => Fail NoKeys end, w)
  end.

(** The REST handlers, whose fields may not be empty, and the GraphQL resolvers *)
Definition enable_two_factor (rest : bool) (u : user) (secret code password : string) (nonce : option (list Z)) (now1 : instant)
    (draws : list (option (list Z) * instant)) (now2 : instant) (w : W) : result two_factor_error (list string) * W :=
  if rest && (is_empty secret || is_empty code || is_empty password) then (Fail BadRequest, w)
  else if negb (check_user_password id_key u password) then (Fail BadPassword, w)
  else enable_current_two_factor u secret code nonce now1 draws now2 w.
Definition disable_two_factor (rest : bool) (u : user) (password : string) (now : instant) (w : W) : result two_factor_error unit * W :=
  if rest && is_empty password then (Fail BadRequest, w) else disable_current_two_factor u password now w.
Definition verify_two_factor_code (rest : bool) (u : user) (code : string) : result two_factor_error unit :=
  if rest && is_empty code then Fail BadRequest else verify_current_code u code.
Definition regenerate_keys (rest : bool) (u : user) (code : string) (draws : list (option (list Z) * instant)) (w : W)
  : result two_factor_error (list string) * W :=
  if rest && is_empty code then (Fail BadRequest, w) else regenerate_current_keys u code draws w.

(** * Requests one after the other *)

Inductive factor_request :=
| FEnable (rest : bool) (u : user) (secret code password : string) (nonce : option (list Z)) (now1 : instant)
    (draws : list (option (list Z) * instant)) (now2 : instant)
| FDisable (rest : bool) (u : user) (password : string) (now : instant)
| FVerify (rest : bool) (u : user) (code : string)
| FRegenerate (rest : bool) (u : user) (code : string) (draws : list (option (list Z) * instant)).
Definition run_factor (q : factor_request) (w : W) : W :=
  match q with
  | FEnable rest u secret code password nonce now1 draws now2 => (enable_two_factor rest u secret code password nonce now1 draws now2 w).2
  | FDisable rest u password now => (disable_two_factor rest u password now w).2
  | FVerify _ _ _ => w
  | FRegenerate rest u code draws => (regenerate_keys rest u code draws w).2
  end.
Definition run_factors (l : list factor_request) (w : W) : W := fold_left (λ w q, run_factor q w) l w.
End TwoFactor.

(** * What the operations do *)

Definition factor_of (id : Z) (t : users_tables) : option (bool * option string) :=
  (λ r, (st_two_factor (n_standing r), st_secret (n_standing r))) <$> find (user_has_id id) (ac_rows (n_accounts t)).
Abbreviation open_keys id t := (open_hashes id (keys_of t)).

Lemma find_map_user id id' f l : (∀ r, n_id (f r) = n_id r) →
  find (user_has_id id') (map_user id f l) = (λ r, if user_has_id id r then f r else r) <$> find (user_has_id id') l.
Proof.
  intros Hf. unfold map_user. induction l as [|r l IH]; [done|]. cbn [map find].
  assert (user_has_id id' (if user_has_id id r then f r else r) = user_has_id id' r) as ->.
  { destruct (user_has_id id r); [|done]. unfold user_has_id. by rewrite Hf. }
  by destruct (user_has_id id' r).
Qed.
Lemma factor_of_map id id' g now t : factor_of id' (with_rows (map_user id (set_standing g now) (ac_rows (n_accounts t))) t) =
  if id' =? id then (λ r, (st_two_factor (g (n_standing r)), st_secret (g (n_standing r)))) <$> find (user_has_id id) (ac_rows (n_accounts t)) else factor_of id' t.
Proof.
  unfold factor_of. cbn [with_rows put_accounts n_accounts ac_rows]. rewrite find_map_user by done.
  destruct (id' =? id) eqn:E; [apply Z.eqb_eq in E as ->|]; destruct (find _ _) as [r|] eqn:F; try done; apply find_some in F as [_ Hr].
  - cbn [fmap option_fmap option_map]. by rewrite Hr.
  - apply Z.eqb_eq in Hr. cbn [fmap option_fmap option_map]. unfold user_has_id. by rewrite Hr, E.
Qed.

Section Steps.
Context `{DatabaseLaws W users_tables}.
#[local] Existing Instance keys_database.
#[local] Existing Instance keys_laws.

Lemma change_standing_step id g now (w w' : W) r : change_standing id g now w = (r, w') →
  match r with Ok _ => tables w' = with_rows (map_user id (set_standing g now) (ac_rows (n_accounts (tables w)))) (tables w) | Fail _ => tables w' = tables w end.
Proof.
  unfold change_standing, change_user. destruct (exec _ w) as [[b|] w1] eqn:X; intros [= <- <-]; [|by apply exec_fail in X].
  apply exec_ok in X. unfold update_user in X. case_decide; by injection X as <- <-.
Qed.

Lemma delete_all_step user (w w' : W) ok : delete_all_for_user user w = (ok, w') → n_accounts (tables w') = n_accounts (tables w) ∧
  (∀ user', user' ≠ user → open_keys user' (tables w') = open_keys user' (tables w)) ∧
  (ok = true → keys_ok (keys_of (tables w)) → open_keys user (tables w') = []) ∧ (ok = false → tables w' = tables w).
Proof.
  intros D. split; [|split; [exact (delete_all_frame _ _ _ _ D)|split]].
  - unfold delete_all_for_user in D. destruct (exec _ w) as [o w1] eqn:X. apply keys_exec in X as [Hk _]; [|done]. injection D as _ <-.
    unfold keys_only in Hk. by rewrite Hk.
  - intros -> Hok. by apply (delete_all_spec (W := W)) in D as (_ & ? & _).
  - intros ->. unfold delete_all_for_user in D. destruct (exec _ w) as [[[]|] w1] eqn:X; [done|]. injection D as <-. by apply keys_exec in X as [_ X].
Qed.
Lemma generate_accounts user draws (w w' : W) r : generate_recovery_keys user draws w = (r, w') → n_accounts (tables w') = n_accounts (tables w).
Proof.
  assert (Hloop : ∀ draws keys (w w' : W) r, generate_loop user draws keys w = (r, w') → n_accounts (tables w') = n_accounts (tables w)).
  { clear draws w w' r. induction draws as [|[[raw|] now] draws IH]; intros keys w w' r; cbn [generate_loop]; [by intros [= _ <-]| |by intros [= _ <-]].
    set (h := hash_token _). clearbody h. destruct (exec _ w) as [o w1] eqn:X. apply keys_exec in X as [Hk _].
    - unfold keys_only in Hk. destruct o as [[]|]; [intros E%IH|intros [= _ <-]..]; by rewrite ?E, Hk.
    - intros s. unfold insert_key. by destruct (bool_decide _). }
  unfold generate_recovery_keys. destruct (delete_all_for_user user w) as [ok w1] eqn:D. apply delete_all_step in D as (<- & _).
  destruct (negb ok); [by intros [= _ <-]|apply Hloop].
Qed.
End Steps.

Section Properties.
Context `{DatabaseLaws W users_tables}.
Context (id_key : list Z → list Z → Z → Z → Z → Z → option (list Z)).
Context (seal : list Z → list Z → list Z → list Z) (open : list Z → list Z → list Z → option (list Z)) (cipher_key : string).
Context (totp : string → string → bool).
(** crypto/cipher: Open undoes Seal, and a ciphertext is bytes. *)
Context (open_seal : ∀ key nonce text, is_bytes text → open key nonce (seal key nonce text) = Some text).
Context (seal_bytes : ∀ key nonce text, is_bytes text → is_bytes (seal key nonce text)).
#[local] Existing Instance keys_database.
#[local] Existing Instance keys_laws.

Definition nonce_ok (nonce : option (list Z)) : Prop := ∀ n, nonce = Some n → length n = nonce_size ∧ is_bytes n.
(** The secret as it is stored: it is read back *)
Definition seals (secret stored : string) : Prop := decrypt_two_factor_secret open cipher_key stored = Ok secret.
Lemma stored_secret secret nonce stored : nonce_ok nonce → encrypt_two_factor_secret seal cipher_key secret nonce = Ok stored → seals secret stored.
Proof.
  intros Hn E. destruct nonce as [n|].
  - destruct (Hn n eq_refl) as [Hl Hb]. exact (secret_reads_back seal open open_seal seal_bytes _ _ _ _ Hl Hb E).
  - unfold encrypt_two_factor_secret in E. unfold seals, decrypt_two_factor_secret. destruct (is_empty cipher_key); [|unfold encrypt_at_rest in E; by destruct (new_aes_cipher _)].
    injection E as <-. destruct (is_empty secret) eqn:S; [by apply is_empty_spec in S as ->|done].
Qed.

Definition others_same (id : Z) (t t' : users_tables) : Prop :=
  ∀ id', id' ≠ id → factor_of id' t' = factor_of id' t ∧ open_keys id' t' = open_keys id' t.
Lemma standing_others id g now t : others_same id t (with_rows (map_user id (set_standing g now) (ac_rows (n_accounts t))) t).
Proof. intros id' Hne. rewrite factor_of_map, (proj2 (Z.eqb_neq id' id)) by done. done. Qed.
Lemma keys_others id t t' : n_accounts t' = n_accounts t → (∀ id', id' ≠ id → open_keys id' t' = open_keys id' t) → others_same id t t'.
Proof. intros Ha Hk id' Hne. unfold factor_of. rewrite Ha. split; [done|by apply Hk]. Qed.
Lemma others_trans id t1 t2 t3 : others_same id t1 t2 → others_same id t2 t3 → others_same id t1 t3.
Proof. intros H1 H2 id' Hne. destruct (H1 id' Hne) as [<- <-]. by apply H2. Qed.

(** The factor after it was turned on and off *)
Definition turned_on (id : Z) (stored : string) (t t' : users_tables) : Prop := factor_of id t' = (λ _, (true, Some stored)) <$> factor_of id t.
Definition turned_off (id : Z) (t t' : users_tables) : Prop := factor_of id t' = (λ _, (false, None)) <$> factor_of id t.

Lemma enable_step id secret nonce now (w w' : W) r : enable_2fa seal cipher_key id secret nonce now w = (r, w') →
  match r with
  | Fail _ => tables w' = tables w
  | Ok _ => ∃ stored, encrypt_two_factor_secret seal cipher_key secret nonce = Ok stored ∧
      (∀ row, row ∈ ac_rows (n_accounts (tables w')) → n_id row = id → st_two_factor (n_standing row) = true ∧ st_secret (n_standing row) = Some stored) ∧
      turned_on id stored (tables w) (tables w') ∧ others_same id (tables w) (tables w') ∧ keys_of (tables w') = keys_of (tables w)
  end.
Proof.
  unfold enable_2fa. destruct (encrypt_two_factor_secret _ _ _ _) as [stored|]; [|by intros [= <- <-]].
  intros E. apply change_standing_step in E. destruct r as [[]|]; [|done]. exists stored. rewrite E. split; [done|]. split; [|split; [|split; [|done]]].
  - cbn. intros row (r0 & -> & _)%list_elem_of_fmap. destruct (user_has_id id r0) eqn:X; [done|]. apply Z.eqb_neq in X. done.
  - unfold turned_on. rewrite factor_of_map, Z.eqb_refl. unfold factor_of. by destruct (find _ _).
  - apply standing_others.
Qed.
Lemma disable_step id now (w w' : W) r : disable_2fa id now w = (r, w') →
  match r with
  | Fail _ => tables w' = tables w
  | Ok _ => turned_off id (tables w) (tables w') ∧ others_same id (tables w) (tables w') ∧ keys_of (tables w') = keys_of (tables w)
  end.
Proof.
  intros E. apply change_standing_step in E. destruct r as [[]|]; [|done]. rewrite E. split; [|split; [|done]].
  - unfold turned_off. rewrite factor_of_map, Z.eqb_refl. unfold factor_of. by destruct (find _ _).
  - apply standing_others.
Qed.

Lemma enable_spec rest u secret code password nonce now1 draws now2 (w w' : W) r : nonce_ok nonce →
  enable_two_factor id_key seal cipher_key totp rest u secret code password nonce now1 draws now2 w = (r, w') →
  others_same (usr_id u) (tables w) (tables w') ∧
  let given := check_user_password id_key u password = true ∧ usr_two_factor u = false ∧ totp secret code = true in
  match r with
  | Ok keys => given ∧ ∃ stored, seals secret stored ∧ turned_on (usr_id u) stored (tables w) (tables w') ∧
      (length draws = 10%nat → keys_ok (keys_of (tables w)) →
       length keys = 10%nat ∧ open_keys (usr_id u) (tables w') = map hash_token keys ∧ keys_ok (keys_of (tables w'))) ∧
      (∀ row, row ∈ ac_rows (n_accounts (tables w')) → n_id row = usr_id u → st_two_factor (n_standing row) = true ∧ st_secret (n_standing row) = Some stored)
  | Fail NoKeys => given ∧ turned_off (usr_id u) (tables w) (tables w')
  | Fail NotRolledBack => given ∧ ∃ stored, seals secret stored ∧ turned_on (usr_id u) stored (tables w) (tables w')
  | Fail _ => tables w' = tables w
  end.
Proof.
  intros Hn. unfold enable_two_factor. destruct (rest && _); [by intros [= <- <-]|].
  destruct (check_user_password _ u password); cbn [negb]; [|by intros [= <- <-]]. unfold enable_current_two_factor.
  destruct (usr_two_factor u); [by intros [= <- <-]|]. destruct (totp secret code); cbn [negb]; [|by intros [= <- <-]].
  destruct (enable_2fa _ _ _ _ _ _ w) as [e w1] eqn:E. apply enable_step in E. destruct e as [[]|]; [|intros [= <- <-]; by rewrite E].
  destruct E as (stored & Es & Hrows & Hon & Hot & Hk). apply stored_secret in Es; [|done].
  destruct (generate_recovery_keys (usr_id u) draws w1) as [k w2] eqn:G. pose proof (generate_accounts _ _ _ _ _ G) as Ha.
  assert (Hot2 : others_same (usr_id u) (tables w) (tables w2)).
  { eapply others_trans; [exact Hot|]. apply keys_others; [done|]. exact (generate_frame _ _ _ _ _ G). }
  assert (Hon2 : turned_on (usr_id u) stored (tables w) (tables w2)) by (unfold turned_on, factor_of at 1; rewrite Ha; exact Hon).
  destruct k as [keys|].
  - intros [= <- <-]. split; [done|]. split; [done|]. exists stored. split; [done|]. split; [done|]. split; [|by rewrite Ha]. intros Hl Hok.
    apply (generate_spec (W := W)) in G as (Hok' & _ & Hten & Ho & _); [done| |done].
    change (tables w1) with (keys_of (tables w1)). rewrite Hk. exact Hok.
  - destruct (disable_2fa (usr_id u) now2 w2) as [d w3] eqn:D. apply disable_step in D. destruct d as [[]|]; intros [= <- <-].
    + destruct D as (Hoff & Hot3 & _). split; [by eapply others_trans|]. split; [done|]. unfold turned_off in *. rewrite Hoff, Hon2.
      by destruct (factor_of _ (tables w)).
    + rewrite D. split; [done|]. split; [done|]. by exists stored.
Qed.

(** C26: turning the second factor on.  Whatever is sent, and whichever statements fail: it succeeds only with the
    password of an account without a second factor, and a code that fits the secret; then the account asks for codes
    of exactly that secret, and its ten open recovery keys are exactly those shown.  When the keys cannot be stored
    it is off again; only when that fails too, which is reported, may it stay on without them.  In every other case
    nothing changes; and no other account changes in any case. *)
Theorem enable_two_factor_correct rest u secret code password nonce now1 draws now2 (w w' : W) r :
  keys_ok (keys_of (tables w)) → length draws = 10%nat → nonce_ok nonce →
  enable_two_factor id_key seal cipher_key totp rest u secret code password nonce now1 draws now2 w = (r, w') →
  others_same (usr_id u) (tables w) (tables w') ∧
  match r with
  | Ok keys => check_user_password id_key u password = true ∧ usr_two_factor u = false ∧ totp secret code = true ∧
      length keys = 10%nat ∧ open_keys (usr_id u) (tables w') = map hash_token keys ∧ keys_ok (keys_of (tables w')) ∧
      (∀ u', account_read (usr_id u) u' (tables w') → usr_two_factor u' = true ∧ ∀ c, code_verifies open cipher_key totp u' c = totp secret c)
  | Fail NoKeys => turned_off (usr_id u) (tables w) (tables w')
  | Fail NotRolledBack => ∃ stored, seals secret stored ∧ turned_on (usr_id u) stored (tables w) (tables w')
  | Fail _ => tables w' = tables w
  end.
Proof.
  intros Hok Hl Hn E. apply enable_spec in E as [Hot E]; [|done]. split; [exact Hot|]. destruct r as [keys|[]]; try done; cbn in E.
  - destruct E as ((? & ? & ?) & stored & Es & _ & Hk & Hrows). destruct (Hk Hl Hok) as (? & ? & ?). split_and!; try done.
    intros u' (row & Hin & Hid & Hu). destruct (Hrows row Hin Hid) as [Hf Hs]. unfold scan_user in Hu. destruct (n_role row); [|done].
    injection Hu as <-. cbn. rewrite Hf. split; [done|]. intros c. unfold code_verifies. cbn [usr_secret scan_account]. rewrite Hs. cbn [default from_option id]. by rewrite Es.
  - by destruct E as [_ E].
  - by destruct E as [_ E].
Qed.

Lemma disable_spec rest u password now (w w' : W) r :
  disable_two_factor id_key rest u password now w = (r, w') →
  others_same (usr_id u) (tables w) (tables w') ∧
  match r with
  | Ok _ => check_user_password id_key u password = true ∧ usr_two_factor u = true ∧
      turned_off (usr_id u) (tables w) (tables w') ∧ (keys_ok (keys_of (tables w)) → open_keys (usr_id u) (tables w') = [])
  | Fail KeysKept => check_user_password id_key u password = true ∧ turned_off (usr_id u) (tables w) (tables w') ∧ keys_of (tables w') = keys_of (tables w)
  | Fail _ => tables w' = tables w
  end.
Proof.
  unfold disable_two_factor. destruct (rest && _); [by intros [= <- <-]|]. unfold disable_current_two_factor.
  destruct (usr_two_factor u); cbn [negb]; [|by intros [= <- <-]]. destruct (check_user_password _ u password); cbn [negb]; [|by intros [= <- <-]].
  destruct (disable_2fa _ _ w) as [d w1] eqn:D. apply disable_step in D. destruct d as [[]|]; [|intros [= <- <-]; by rewrite D].
  destruct D as (Hoff & Hot & Hk). destruct (delete_all_for_user (usr_id u) w1) as [ok w2] eqn:X. apply delete_all_step in X as (Ha & Ho & Hd & Hs).
  intros [= <- <-]. split; [eapply others_trans; [exact Hot|by apply keys_others]|].
  assert (Hoff2 : turned_off (usr_id u) (tables w) (tables w2)) by (unfold turned_off, factor_of at 1; rewrite Ha; exact Hoff).
  destruct ok; [|split; [done|]; split; [done|by rewrite Hs]]. split_and!; try done. intros Hok. apply Hd; [done|]. rewrite Hk. exact Hok.
Qed.

(** turning it off.  It succeeds only with the password of an account with a second factor, which then asks for no
    code and has no recovery key; when only the keys could not be deleted, which is reported, it is off as well; in
    every other case nothing changes, and no other account does in any case. *)
Theorem disable_two_factor_correct rest u password now (w w' : W) r : keys_ok (keys_of (tables w)) →
  disable_two_factor id_key rest u password now w = (r, w') →
  others_same (usr_id u) (tables w) (tables w') ∧
  match r with
  | Ok _ => check_user_password id_key u password = true ∧ usr_two_factor u = true ∧
      turned_off (usr_id u) (tables w) (tables w') ∧ open_keys (usr_id u) (tables w') = []
  | Fail KeysKept => turned_off (usr_id u) (tables w) (tables w') ∧ keys_of (tables w') = keys_of (tables w)
  | Fail _ => tables w' = tables w
  end.
Proof.
  intros Hok E. apply disable_spec in E as [Hot E]. split; [exact Hot|]. destruct r as [[]|[]]; try done.
  - destruct E as (? & ? & ? & Hk). split_and!; [done..|by apply Hk].
  - by destruct E as [_ E].
Qed.

(** ** Nothing changes without the password or a code *)

Definition factor_user (q : factor_request) : user :=
  match q with FEnable _ u _ _ _ _ _ _ _ | FDisable _ u _ _ | FVerify _ u _ | FRegenerate _ u _ _ => u end.
Definition gives_password (q : factor_request) : Prop :=
  match q with
  | FEnable _ u _ _ p _ _ _ _ | FDisable _ u p _ => check_user_password id_key u p = true
  | _ => False
  end.
Definition gives_code (q : factor_request) : Prop :=
  match q with FRegenerate _ u code _ => usr_two_factor u = true ∧ code_verifies open cipher_key totp u code = true | _ => False end.
(** The factor a request left: none, or the secret whose code it gave *)
Definition leaves (q : factor_request) (f : option (bool * option string)) : Prop :=
  f = Some (false, None) ∨
  match q with FEnable _ _ secret code _ _ _ _ _ => totp secret code = true ∧ ∃ stored, seals secret stored ∧ f = Some (true, Some stored) | _ => False end.
Definition fresh_nonces (q : factor_request) : Prop := match q with FEnable _ _ _ _ _ nonce _ _ _ => nonce_ok nonce | _ => True end.
Abbreviation run_here := (run_factors id_key seal open cipher_key totp).

Lemma regenerate_spec rest u code draws (w w' : W) r : regenerate_keys open cipher_key totp rest u code draws w = (r, w') →
  n_accounts (tables w') = n_accounts (tables w) ∧ others_same (usr_id u) (tables w) (tables w') ∧
  (tables w' = tables w ∨ usr_two_factor u = true ∧ code_verifies open cipher_key totp u code = true).
Proof.
  unfold regenerate_keys, regenerate_current_keys, verify_current_code. destruct (rest && _); [intros [= <- <-]; by split_and!; [..|left]|].
  destruct (usr_two_factor u); cbn [negb]; [|intros [= <- <-]; by split_and!; [..|left]].
  destruct (code_verifies _ _ _ u code); [|intros [= <- <-]; by split_and!; [..|left]].
  destruct (generate_recovery_keys (usr_id u) draws w) as [k w1] eqn:G. pose proof (generate_accounts _ _ _ _ _ G) as Ha.
  intros [= <- <-]. split_and!; [done| |by right]. apply keys_others; [done|]. exact (generate_frame _ _ _ _ _ G).
Qed.

Lemma factor_step q (w : W) : fresh_nonces q → let t := tables w in let t' := tables (run_factor id_key seal open cipher_key totp q w) in
  let id := usr_id (factor_user q) in
  others_same id t t' ∧ (factor_of id t' = factor_of id t ∨ gives_password q ∧ leaves q (factor_of id t')) ∧
  (open_keys id t' = open_keys id t ∨ gives_password q ∨ gives_code q).
Proof.
  intros Hn. destruct q as [rest u secret code password nonce now1 draws now2|rest u password now|rest u code|rest u code draws]; cbn.
  - destruct (enable_two_factor _ _ _ _ _ _ _ _ _ _ _ _ _ w) as [r w'] eqn:E. apply enable_spec in E as [Hot E]; [|done]. split; [done|]. cbn [snd] in *.
    unfold turned_on, turned_off, leaves in *. destruct r as [keys|[]]; cbn in E; try (rewrite E; by split; left);
      [destruct E as ((Hp & _ & Ht) & stored & Es & Hf & _)|destruct E as ((Hp & _ & Ht) & Hf)|destruct E as ((Hp & _ & Ht) & stored & Es & Hf)];
      (split; [|by right; left]); destruct (factor_of (usr_id u) (tables w)) as [f|]; cbn in Hf; rewrite Hf; try (by left); right; (split; [done|]); eauto.
  - destruct (disable_two_factor _ _ _ _ _ w) as [r w'] eqn:E. apply disable_spec in E as [Hot E]. split; [done|]. cbn [snd] in *.
    unfold turned_off, leaves in *. destruct r as [[]|[]]; cbn in E; try (rewrite E; by split; left);
      [destruct E as (Hp & _ & Hf & _)|destruct E as (Hp & Hf & _)];
      (split; [|by right; left]); destruct (factor_of (usr_id u) (tables w)) as [f|]; cbn in Hf; rewrite Hf; try (by left); right; eauto.
  - by split_and!; [|left|left].
  - destruct (regenerate_keys _ _ _ _ _ _ _ w) as [r w'] eqn:E. apply regenerate_spec in E as (Ha & Hot & E). split; [done|]. cbn [snd] in *.
    unfold factor_of. rewrite Ha. split; [by left|]. destruct E as [->|E]; [by left|by right; right].
Qed.

(** C25: nothing changes without the password or a code.  Over any sequence of requests of any accounts, whichever
    statements fail: the second factor an account has afterwards is the one it had, or one that a request of
    that account with its password left, none or the secret it gave a code of; and its open recovery keys are those
    it had unless a request of that account gave its password or a code of its factor. *)
Theorem two_factor_guarded l (w : W) id : Forall fresh_nonces l →
  (factor_of id (tables (run_here l w)) = factor_of id (tables w) ∨
   ∃ q, q ∈ l ∧ usr_id (factor_user q) = id ∧ gives_password q ∧ leaves q (factor_of id (tables (run_here l w)))) ∧
  (open_keys id (tables (run_here l w)) = open_keys id (tables w) ∨
   ∃ q, q ∈ l ∧ usr_id (factor_user q) = id ∧ (gives_password q ∨ gives_code q)).
Proof.
  intros Hn. revert w. induction Hn as [|q l Hq _ IH]; intros w; [by split; left|].
  change (run_here (q :: l) w) with (run_here l (run_factor id_key seal open cipher_key totp q w)).
  destruct (factor_step q w Hq) as (Hot & Hf & Hk). specialize (IH (run_factor id_key seal open cipher_key totp q w)) as [IHf IHk].
  set (w1 := run_factor _ _ _ _ _ q w) in *. clearbody w1. destruct (decide (usr_id (factor_user q) = id)) as [<-|Hne].
  - split.
    + destruct IHf as [->|(q' & Hin & ?)]; [|right; exists q'; split; [by right|done]]. destruct Hf as [->|Hf]; [by left|right].
      exists q. split; [by left|done].
    + destruct IHk as [->|(q' & Hin & ?)]; [|right; exists q'; split; [by right|done]]. destruct Hk as [->|Hk]; [by left|right].
      exists q. split; [by left|done].
  - destruct (Hot id) as [E1 E2]; [done|]. rewrite <-E1, <-E2. split.
    + destruct IHf as [->|(q' & Hin & ?)]; [by left|right; exists q'; split; [by right|done]].
    + destruct IHk as [->|(q' & Hin & ?)]; [by left|right; exists q'; split; [by right|done]].
Qed.
End Properties.

(** * Witnesses and findings *)

Definition toy_nonce : option (list Z) := Some (map Z.of_nat (seq 0 12)).
Definition ten_draws : list (option (list Z) * instant) := map (λ i, (Some [i; 162; 195; 212; 229; 246], t_now)) (seqZ 0 10).
Definition plain_ann : user := scan_account "user" (map_profile (default "") new_profile) passkey_ann.
Definition factor_ann : user := scan_account "user" (map_profile (default "") new_profile) guarded_ann.
Abbreviation toy_enable := (enable_two_factor (W := reliable users_tables) toy_key toy_seal demo_key toy_totp).
Definition plain_world : reliable users_tables := Reliable (users_with passkey_ann []).
Definition some_enable (password code : string) := toy_enable true plain_ann "123456" code password toy_nonce t_now ten_draws t_now plain_world.

Lemma toy_nonce_ok : nonce_ok toy_nonce.
Proof. intros n [= <-]. split; [done|]. repeat (constructor; [done|]). constructor. Qed.
Lemma no_keys_yet u passkeys : keys_ok (keys_of (tables (Reliable (users_with u passkeys)))).
Proof. split; [apply NoDup_nil_2|]. by intros r ?%not_elem_of_nil. Qed.
Lemma some_enable_answer : match (some_enable "password" "123456").1 with Ok keys => length keys | Fail _ => 0%nat end = 10%nat.
Proof. vm_compute. reflexivity. Qed.

Lemma enable_two_factor_correct_witness :
  (∃ keys w', some_enable "password" "123456" = (Ok keys, w') ∧ open_keys 1 (tables w') = map hash_token keys) ∧
  (some_enable "pass" "123456").1 = Fail BadPassword ∧ (some_enable "password" "654321").1 = Fail BadCode.
Proof.
  split; [|split; vm_compute; reflexivity]. pose proof some_enable_answer as A.
  destruct (some_enable "password" "123456") as [[keys|e] w'] eqn:E; [|discriminate A]. exists keys, w'. split; [reflexivity|].
  eapply (enable_two_factor_correct _ _ toy_open _ _ toy_open_seal toy_seal_bytes) in E as [_ E]; [|exact (no_keys_yet passkey_ann [])|reflexivity|exact toy_nonce_ok].
  destruct E as (_ & _ & _ & _ & E & _). exact E.
Defined.

Definition keyed_world (u : user_row) : reliable users_tables :=
  Reliable (put_key_rows ([KeyRow 1 1 (hash_token "key") VNull (VTime t_now)], 2) (users_with u [])).
Lemma keyed_world_ok u : keys_ok (keys_of (tables (keyed_world u))).
Proof. split; [apply NoDup_singleton|]. intros r ->%list_elem_of_singleton. cbn. lia. Qed.
Definition some_disable (password : string) := disable_two_factor toy_key true factor_ann password t_now (keyed_world guarded_ann).
Lemma some_disable_answer : (some_disable "password").1 = Ok tt.
Proof. vm_compute. reflexivity. Qed.
Lemma disable_two_factor_correct_witness :
  (∃ w', some_disable "password" = (Ok tt, w') ∧ factor_of 1 (tables (keyed_world guarded_ann)) = Some (true, Some "123456") ∧
     factor_of 1 (tables w') = Some (false, None) ∧ open_keys 1 (tables w') = []) ∧
  (some_disable "pass").1 = Fail BadPassword.
Proof.
  split; [|vm_compute; reflexivity]. pose proof some_disable_answer as A. destruct (some_disable "password") as [r w'] eqn:E.
  cbn [fst] in A. subst r. exists w'. split; [reflexivity|]. split; [reflexivity|].
  apply disable_two_factor_correct in E as [_ (_ & _ & Hoff & Ho)]; [|exact (keyed_world_ok guarded_ann)]. split; [exact Hoff|exact Ho].
Defined.

(** Ann turns her factor on, and somebody tries to turn it off without her password *)
Definition toy_factors : list factor_request :=
  [FEnable true plain_ann "123456" "123456" "password" toy_nonce t_now ten_draws t_now; FDisable true factor_ann "pass" t_now].
Abbreviation toy_factors_run := (run_factors (W := reliable users_tables) toy_key toy_seal toy_open demo_key toy_totp).
Definition is_on (f : option (bool * option string)) : bool := match f with Some (true, Some _) => true | _ => false end.
Lemma toy_factors_end : is_on (factor_of 1 (tables (toy_factors_run toy_factors plain_world))) = true.
Proof. vm_compute. reflexivity. Qed.
Lemma toy_fresh : Forall fresh_nonces toy_factors.
Proof. constructor; [exact toy_nonce_ok|]. by repeat constructor. Qed.
Lemma toy_left (f : option (bool * option string)) q : is_on f = true → q ∈ toy_factors →
  leaves toy_open demo_key toy_totp q f → ∃ stored, f = Some (true, Some stored) ∧ seals toy_open demo_key "123456" stored.
Proof.
  intros F Hin [->|Hl]; [discriminate F|]. unfold toy_factors in Hin.
  apply elem_of_cons in Hin as [->|Hin%list_elem_of_singleton]; [|by subst q]. destruct Hl as (_ & stored & Hs & Hl). by exists stored.
Qed.
Lemma toy_before (f : option (bool * option string)) : is_on f = true →
  f ≠ factor_of 1 (tables plain_world).
Proof. intros F ->. vm_compute in F. discriminate F. Qed.
Lemma two_factor_guarded_witness : ∃ q stored, q ∈ toy_factors ∧ gives_password toy_key q ∧
  factor_of 1 (tables (toy_factors_run toy_factors plain_world)) = Some (true, Some stored) ∧ seals toy_open demo_key "123456" stored.
Proof.
  destruct (two_factor_guarded toy_key toy_seal toy_open demo_key toy_totp toy_open_seal toy_seal_bytes toy_factors plain_world 1 toy_fresh)
    as [[Hf|(q & Hin & _ & Hp & Hl)] _]; [destruct (toy_before _ toy_factors_end Hf)|].
  destruct (toy_left _ q toy_factors_end Hin Hl) as (stored & Hf & Hs).
  exists q, stored. exact (conj Hin (conj Hp (conj Hf Hs))).
Defined.

(** Asking for fresh recovery keys deletes the old ones first: when the fresh ones then cannot be drawn, the request
    fails, and the account asks for codes and has no recovery key. *)
Lemma left_without_keys :
  let '(r, w) := regenerate_keys toy_open demo_key toy_totp true factor_ann "123456" [(None, t_now)] (keyed_world guarded_ann) in
  r = Fail NoKeys ∧ open_keys 1 (tables (keyed_world guarded_ann)) = [hash_token "key"] ∧ open_keys 1 (tables w) = [] ∧
  factor_of 1 (tables w) = Some (true, Some "123456").
Proof. vm_compute. done. Qed.

(** Recovery keys also come with the first passkey.  Turning the codes off deletes them, though the account still has
    a passkey it is asked for at log-in; and so does turning them on in vain. *)
Lemma passkey_keys_lost :
  open_keys 1 (tables (some_disable "password").2) = [] ∧
  let '(r, w) := toy_enable true plain_ann "123456" "123456" "password" toy_nonce t_now [(None, t_now)] t_now (keyed_world passkey_ann) in
  r = Fail NoKeys ∧ open_keys 1 (tables (keyed_world passkey_ann)) = [hash_token "key"] ∧ open_keys 1 (tables w) = [].
Proof. vm_compute. done. Qed.

(** The address is put into the URL as it is. *)
Lemma url_not_escaped : generate_otp_auth_url "a%b@example.org" "ABC" "Weather" = "otpauth://totp/Weather:a%b@example.org?secret=ABC&issuer=Weather".
Proof. reflexivity. Qed.
