(* ===== verification/UserInvites.v ===== *)
(** Invitations of users (UserInviteModel of server/model/user.go, CompleteAPIUserInvite of
    server/handler/auth_api.go, the mutations of graphql/schema.resolvers.go and the status of
    graphql/resolvers_helpers.go).  A token is kept as its digest in the column code; the
    expiry is the stamp of the row. *)
From S2P Require Import Prelude GoStrings GoTime Sql DbTime Sha256 Base64 Password Sessions Registry Users ApiTokens Names.
From S2P Require Import UserTokens Login.
From Stdlib Require Import Ascii.
Open Scope Z_scope.

Abbreviation invite_row := (row user_invite_cols).

Record user_invite := UserInvite {
  iv_id : Z; iv_token : string; iv_name : string; iv_email : string; iv_role : string; iv_by : Z; iv_created : instant;
  iv_expires : instant; iv_max : Z; iv_count : Z; iv_used : option instant
}.
Inductive invite_error :=
| SchemaFailed | NoInviteToken | NotPositive | InviteNotStored | InviteDriver | InvalidInvite | ExpiredInvite | UsedInvite
| TokenRequired | InviteName (e : username_error) | NameMismatch | NoAddress | AccountNotCreated | AccountNotFinal
| InviteNotFinal | NotAdmin | InviteEmail (e : email_error) | NameInUse | AddressInUse.

(** Scan: COALESCE of the texts, the stored digest as the token *)
Definition scan_user_invite (r : invite_row) : user_invite :=
  let c := r_rest r in
  UserInvite (row_no r) (ui_code c) (default "" (ui_name c)) (default "" (ui_email c)) (ui_role c) (default 0 (ui_by c))
    (read_stamp (ui_created c)) (read_stamp (r_stamp r)) (ui_max c) (ui_count c) (parse_stored_timestamp (ui_used c)).

Definition invite_has (h : string) (r : invite_row) : bool := str_eqb (ui_code (r_rest r)) h.
Definition insert_user_invite (c : user_invite_cols) (expires : scanned) (t : users_tables) : option Z * users_tables :=
  if existsb (invite_has (ui_code c)) (t_rows (n_invites t)) then (None, t)
  else (Some (t_next_id (n_invites t)), put_user_invites (insert_row c expires (n_invites t)) t).
Definition use_invite (by_ : Z) (now : instant) (r : invite_row) : invite_row :=
  let c := r_rest r in
  Row (r_id r) (r_stamp r) (UserInviteCols (ui_code c) (ui_name c) (ui_email c) (ui_by c) (ui_role c) (ui_created c)
    (Some by_) (stamp_of now) (ui_max c) (ui_count c + 1)).
Definition on_invites (f : list invite_row → list invite_row) (t : users_tables) : users_tables :=
  put_user_invites (put_rows (f (t_rows (n_invites t))) (n_invites t)) t.
(** UPDATE ... SET used_by: the account is a foreign key *)
Definition mark_invite_row (fk : bool) (h : string) (by_ : Z) (now : instant) (t : users_tables) : bool * users_tables :=
  if fk && existsb (invite_has h) (t_rows (n_invites t)) && negb (user_exists by_ t) then (false, t)
  else (true, on_invites (map (λ r, if invite_has h r then use_invite by_ now r else r)) t).

(** time.Now().Add(time.Duration(days) * 24 * time.Hour) *)
Definition days_from (now : instant) (days : Z) : instant := now + wrap64 (wrap64 (days * 24) * hour).

Section Invites.
Context `{Database W users_tables} (newest_invite : list invite_row → list invite_row).

Definition ensure_invite_schema : W → bool * W :=
  ensure_columns (λ t, (n_columns t).1) (λ l t, put_columns (l, (n_columns t).2) t) ["username"; "role"].

Definition create_user_invite (name email role : string) (days : Z) (rand : option (list Z)) (now1 now2 now3 : instant) (w : W)
  : result invite_error user_invite * W :=
  let '(ok, w) := ensure_invite_schema w in
  if negb ok then (Fail SchemaFailed, w)
  else match generate_session_id rand with
  | None => (Fail NoInviteToken, w)
  | Some token =>
      if days <=? 0 then (Fail NotPositive, w)
      else
        let role := if is_empty role then "user" else role in
        let expires := days_from now1 days in
        let '(r, w) := exec (insert_user_invite (UserInviteCols (hash_token token) (Some name) (Some email) None role
          (stamp_of now2) None VNull 1 0) (stamp_of expires)) w in
        (match r with
         | Some (Some id) => Ok (UserInvite id token name email role 0 now3 expires 1 0 None)
         | _ => Fail InviteNotStored
         end, w)
  end.

(** GetByToken and GetByID: no row is no error *)
Definition find_invite (p : invite_row → bool) (w : W) : result invite_error (option user_invite) * W :=
  let '(ok, w) := ensure_invite_schema w in
  if negb ok then (Fail SchemaFailed, w)
  else let '(r, w) := query (λ t, find p (t_rows (n_invites t))) w in
       (match r with None => Fail InviteDriver | Some r => Ok (scan_user_invite <$> r) end, w).
Definition invite_by_token (token : string) : W → result invite_error (option user_invite) * W :=
  find_invite (invite_has (hash_token token)).
Definition invite_by_id (id : Z) : W → result invite_error (option user_invite) * W := find_invite (has_no id).

Definition verify_user_invite (token : string) (now : instant) (w : W) : result invite_error user_invite * W :=
  let '(r, w) := invite_by_token token w in
  (match r with
   | Fail e => Fail e
   | Ok None => Fail InvalidInvite
   | Ok (Some i) =>
       if iv_expires i <? now then Fail ExpiredInvite
       else if bool_decide (is_Some (iv_used i)) then Fail UsedInvite
       else if (0 <? iv_max i) && (iv_max i <=? iv_count i) then Fail UsedInvite
       else Ok i
   end, w).
Definition mark_user_invite_used (fk : bool) (token : string) (by_ : Z) (now : instant) (w : W) : result invite_error unit * W :=
  let '(ok, w) := ensure_invite_schema w in
  if negb ok then (Fail SchemaFailed, w)
  else let '(r, w) := exec (mark_invite_row fk (hash_token token) by_ now) w in
       (match r with Some true => Ok tt | _ => Fail InviteNotStored end, w).

Definition delete_expired_user_invites (now : instant) (w : W) : bool * W :=
  let '(ok, w) := ensure_invite_schema w in
  if negb ok then (false, w)
  else
    let '(r, w) := exec (λ t, (tt, on_invites (filter (λ r, ui_used (r_rest r) = VNull)) t)) w in
    match r with
    | None => (false, w)
    | Some _ =>
        let '((_, ok), w) := @delete_rows_before _ _
          (part_database (t_rows ∘ n_invites) (λ l t, put_user_invites (put_rows l (n_invites t)) t)) now false w in (ok, w)
    end.
Definition list_user_invites (w : W) : result invite_error (list user_invite) * W :=
  let '(ok, w) := ensure_invite_schema w in
  if negb ok then (Fail SchemaFailed, w)
  else let '(r, w) := query (λ t, map scan_user_invite (newest_invite (t_rows (n_invites t)))) w in
       (match r with None => Fail InviteDriver | Some l => Ok l end, w).
Definition is_pending_invite (now : instant) (i : user_invite) : bool :=
  bool_decide (iv_used i = None) && (now <? iv_expires i) && ((iv_max i =? 0) || (iv_count i <? iv_max i)).
Definition pending_user_invites (now : instant) (w : W) : result invite_error (list user_invite) * W :=
  let '(r, w) := list_user_invites w in (let? l := r in Ok (filter (λ i, is_pending_invite now i = true) l), w).
Definition delete_user_invite (id : Z) (w : W) : bool * W :=
  let '(ok, w) := ensure_invite_schema w in
  if negb ok then (false, w)
  else let '(r, w) := exec (λ t, (tt, on_invites (filter (λ r, has_no id r = false)) t)) w in (bool_decide (is_Some r), w).

(** ** CompleteAPIUserInvite *)

Context (id_key : list Z → list Z → Z → Z → Z → Z → option (list Z)).
#[local] Existing Instance sessions_database.

Inductive invite_completion := LogInYourself | Welcome (token : string) (who : auth_summary).

Definition finish_invite (fk : bool) (token : string) (u : user) (now2 now3 : instant) (i : issue) (w : W)
  : result invite_error invite_completion * W :=
  let '(v, w) := exec (update_user (usr_id u) (set_standing verified now2)) w in
  match v with
  | Some true =>
      let '(m, w) := mark_user_invite_used fk token (usr_id u) now3 w in
      match m with
      | Fail _ => (Fail InviteNotFinal, w)
      | Ok _ =>
          let '(s, w) := create_session (D := jobject) (is_draw i) (UserInt (usr_id u)) session_ttl (is_now1 i) (is_now2 i) w in
          (Ok (match s with Fail _ => LogInYourself | Ok s => Welcome (s_id s) (build_auth_user_summary u) end), w)
      end
  | _ => (Fail AccountNotFinal, w)
  end.
Definition complete_api_user_invite (fk : bool) (token name password : string) (salt : option (list Z))
    (now0 now1 now2 now3 : instant) (i : issue) (w : W) : result invite_error invite_completion * W :=
  let token := trim_space token in
  if is_empty token then (Fail TokenRequired, w)
  else
    let '(v, w) := verify_user_invite token now0 w in
    match v with
    | Fail e => (Fail e, w)
    | Ok invite =>
        let name := normalize_username name in
        match validate_username name with
        | Fail e => (Fail (InviteName e), w)
        | Ok _ =>
            if negb (is_empty (iv_name invite)) && negb (str_eqb name (normalize_username (iv_name invite))) then (Fail NameMismatch, w)
            else if is_empty (iv_email invite) then (Fail NoAddress, w)
            else
              let '(c, w) := create_user_account id_key fk name (iv_email invite) password [iv_role invite] salt now1 w in
              match c with
              | Fail _ => (Fail AccountNotCreated, w)
              | Ok u => finish_invite fk token u now2 now3 i w
              end
        end
    end.

(** ** The mutations; [role] is that of the caller's context *)

Definition admin_create_user_invite (role : option string) (name email : string) (invite_role : option string)
    (default_days : Z) (days : option Z) (rand : option (list Z)) (now1 now2 now3 : instant) (w : W)
  : result invite_error user_invite * W :=
  if negb (bool_decide (role = Some "admin")) then (Fail NotAdmin, w)
  else
    let name := normalize_username name in
    let email := normalize_email email in
    match validate_username name, validate_email email with
    | Fail e, _ => (Fail (InviteName e), w)
    | _, Fail e => (Fail (InviteEmail e), w)
    | Ok _, Ok _ =>
        let '(r, w) := user_by_name name w in
        match r with
        | Ok _ => (Fail NameInUse, w)
        | Fail _ =>
            let '(r, w) := user_by_email email w in
            match r with
            | Ok _ => (Fail AddressInUse, w)
            | Fail _ =>
                let asked := trim_space (default "" invite_role) in
                let days := match days with Some d => if 0 <? d then d else default_days | None => default_days end in
                create_user_invite name email (if is_empty asked then "user" else asked) days rand now1 now2 now3 w
            end
        end
    end.
Definition admin_delete_user_invite (role : option string) (id : Z) (w : W) : option bool * W :=
  if negb (bool_decide (role = Some "admin")) then (None, w)
  else let '(ok, w) := delete_user_invite id w in (Some ok, w).
End Invites.

(** graphQLUserInviteStatus *)
Inductive invite_status := PendingInvite | IsUsed | IsExpired.
Definition user_invite_status (now : instant) (i : option user_invite) : invite_status :=
  match i with
  | None => PendingInvite
  | Some i =>
      if bool_decide (is_Some (iv_used i)) || (0 <? iv_max i) && (iv_max i <=? iv_count i) then IsUsed
      else if iv_expires i <? now then IsExpired
      else PendingInvite
  end.

(** * What an invitation is good for *)

Definition invite_code (r : invite_row) : string := ui_code (r_rest r).
Definition invites_ok (t : users_tables) : Prop := NoDup (map invite_code (t_rows (n_invites t))).
(** The row opens an account at [now]: the test of VerifyInvite *)
Definition usable (now : instant) (r : invite_row) : bool :=
  negb (read_stamp (r_stamp r) <? now) && bool_decide (parse_stored_timestamp (ui_used (r_rest r)) = None) &&
  negb ((0 <? ui_max (r_rest r)) && (ui_max (r_rest r) <=? ui_count (r_rest r))).

Lemma invite_has_spec h r : invite_has h r = true ↔ invite_code r = h.
Proof. apply bool_decide_eq_true. Qed.

Section Theorems.
Context `{DatabaseLaws W users_tables}.
#[local] Existing Instance sessions_database.

Lemma ensure_invite_step (w w' : W) ok : ensure_invite_schema w = (ok, w') →
  columns_only (tables w) (tables w') ∧ (never_fails W users_tables → ok = true).
Proof. by apply ensure_columns_step. Qed.

Lemma verify_user_invite_spec token now (w w' : W) r : verify_user_invite token now w = (r, w') →
  columns_only (tables w) (tables w') ∧
  (∀ i, r = Ok i → ∃ row, row ∈ t_rows (n_invites (tables w)) ∧ invite_code row = hash_token token ∧ usable now row = true ∧
     i = scan_user_invite row) ∧
  (never_fails W users_tables → invites_ok (tables w) → ∀ row, row ∈ t_rows (n_invites (tables w)) → invite_code row = hash_token token →
     usable now row = is_ok r).
Proof.
  unfold verify_user_invite, invite_by_token, find_invite. intros E. set (h := hash_token token) in *. clearbody h.
  destruct (ensure_invite_schema w) as [ok w1] eqn:S. apply ensure_invite_step in S as [Hs Hup]. destruct ok; cbn [negb] in E.
  2:{ injection E as <- <-. split_and!; [done|done|]. intros U. by apply Hup in U. }
  assert (Hrows : n_invites (tables w1) = n_invites (tables w)) by (by rewrite Hs).
  destruct (query _ w1) as [q w2] eqn:Q.
  destruct (query_cases _ (λ t, find (invite_has h) (t_rows (n_invites t))) w1) as [(w3 & Q' & Ht)|(w3 & Q' & Ht)];
    rewrite Q in Q'; injection Q' as -> <-; injection E as <- <-; rewrite Ht; (split; [done|]).
  2:{ split; [done|]. intros U. by apply U in Q. }
  rewrite Hrows. destruct (find (invite_has h) (t_rows (n_invites (tables w)))) as [row|] eqn:F; cbn [fmap option_fmap option_map].
  2:{ split; [done|]. intros _ _ row Hin Hh. apply list_elem_of_In in Hin. apply (find_none _ _ F) in Hin.
      apply invite_has_spec in Hh. by rewrite Hh in Hin. }
  apply find_some in F as [Hin%list_elem_of_In Hh%invite_has_spec].
  assert (Hc : ∀ r : result invite_error user_invite, r = (if iv_expires (scan_user_invite row) <? now then Fail ExpiredInvite
       else if bool_decide (is_Some (iv_used (scan_user_invite row))) then Fail UsedInvite
       else if (0 <? iv_max (scan_user_invite row)) && (iv_max (scan_user_invite row) <=? iv_count (scan_user_invite row)) then Fail UsedInvite
       else Ok (scan_user_invite row)) → is_ok r = usable now row ∧ (∀ i, r = Ok i → i = scan_user_invite row)).
  { intros r ->. unfold usable. cbn [scan_user_invite iv_expires iv_used iv_max iv_count].
    destruct (read_stamp (r_stamp row) <? now); [done|]. destruct (parse_stored_timestamp (ui_used (r_rest row))) as [x|].
    - rewrite bool_decide_eq_true_2 by eauto. rewrite bool_decide_eq_false_2 by done. by split.
    - rewrite bool_decide_eq_false_2 by (by intros [? ?]). rewrite bool_decide_eq_true_2 by done.
      destruct (_ && _); [done|]. split; [done|]. by intros i [= <-]. }
  destruct (Hc _ eq_refl) as [Hu Hi]. split.
  - intros i Ei. exists row. split_and!; [done|done| |by apply Hi]. rewrite <-Hu. by rewrite Ei.
  - intros _ Hok row' Hin' Hh'. assert (row' = row) as ->; [|done].
    by apply (same_key invite_code (t_rows (n_invites (tables w)))); [..|congruence].
Qed.

(** ** Registration with an invitation *)

Context (id_key : list Z → list Z → Z → Z → Z → Z → option (list Z)).
Context (id_key_length : ∀ p s t m th n, 1 ≤ t → 1 ≤ th → 1 ≤ n →
  ∃ k, id_key p s t m th n = Some k ∧ Z.of_nat (length k) = n ∧ is_bytes k).

Definition mark_all (h : string) (by_ : Z) (now : instant) : list invite_row → list invite_row :=
  map (λ r, if invite_has h r then use_invite by_ now r else r).
(** What the tables hold apart from the columns and the rows of the invitations *)
Definition elsewhere (t : users_tables) :=
  (n_accounts t, n_ids t, n_sessions t, n_keys t, n_tokens t, n_verifications t, n_resets t, n_activity t, n_passkeys t).

Lemma columns_elsewhere t t' : columns_only t t' → elsewhere t' = elsewhere t ∧ n_invites t' = n_invites t.
Proof. by intros ->. Qed.

Lemma mark_step fk token by_ now (w w' : W) m : never_fails W users_tables →
  mark_user_invite_used fk token by_ now w = (m, w') → user_exists by_ (tables w) = true →
  m = Ok tt ∧ elsewhere (tables w') = elsewhere (tables w) ∧
  t_rows (n_invites (tables w')) = mark_all (hash_token token) by_ now (t_rows (n_invites (tables w))).
Proof.
  intros Hup E Hu. unfold mark_user_invite_used in E. destruct (ensure_invite_schema w) as [ok w1] eqn:S.
  apply ensure_invite_step in S as [Hs Hok]. rewrite (Hok Hup) in E. cbn [negb] in E.
  destruct (exec_up _ (mark_invite_row fk (hash_token token) by_ now) w1 Hup) as (o & w2 & X & Ht). rewrite X in E.
  unfold mark_invite_row in Ht. assert (user_exists by_ (tables w1) = true) as Hu1 by (by rewrite Hs).
  rewrite Hu1, andb_false_r in Ht. injection Ht as <- Ht. injection E as <- <-. rewrite <-Ht, Hs. done.
Qed.

(** A marked invitation opens nothing any more. *)
Lemma stored_stamp now : stored now = parse_stored_timestamp (stamp_of now).
Proof. reflexivity. Qed.
Lemma use_invite_used by_ now r : ui_used (r_rest (use_invite by_ now r)) = stamp_of now.
Proof. reflexivity. Qed.
Lemma used_unusable row later x : parse_stored_timestamp (ui_used (r_rest row)) = Some x → usable later row = false.
Proof. intros E. unfold usable. rewrite E, andb_false_r. done. Qed.
Lemma marked_unusable h by_ now later l row : is_Some (stored now) → row ∈ mark_all h by_ now l → invite_code row = h →
  usable later row = false.
Proof.
  intros [x Hx] (r & -> & Hr)%list_elem_of_fmap E. destruct (invite_has h r) eqn:Hh.
  - apply (used_unusable _ _ x). rewrite use_invite_used, <-stored_stamp. exact Hx.
  - apply invite_has_spec in E. congruence.
Qed.
Lemma mark_codes h by_ now l : map invite_code (mark_all h by_ now l) = map invite_code l.
Proof. unfold mark_all. rewrite map_map. apply map_ext. intros r. by destruct (invite_has h r). Qed.

(** What the invitation asks of the account *)
Definition fits (name : string) (row : invite_row) : bool :=
  let i := scan_user_invite row in
  is_ok (validate_username name) && (is_empty (iv_name i) || str_eqb name (normalize_username (iv_name i))) &&
  negb (is_empty (iv_email i)).
Definition invited_role (row : invite_row) : string := default "user" (first_role [ui_role (r_rest row)]).
Definition invited (name hash : string) (now1 : instant) (row : invite_row) (id : Z) : user_row :=
  new_user name (iv_email (scan_user_invite row)) hash (invited_role row) now1 id.

Lemma map_user_last id f l r : (∀ r', r' ∈ l → n_id r' ≠ id) → n_id r = id → map_user id f (l ++ [r]) = l ++ [f r].
Proof.
  intros Hl Hr. unfold map_user. rewrite map_app. cbn [map]. unfold user_has_id at 2. rewrite (proj2 (Z.eqb_eq _ _) Hr). f_equal.
  rewrite <-(map_id l) at 2. apply map_ext_in. intros r' Hr'%list_elem_of_In. unfold user_has_id.
  by rewrite (proj2 (Z.eqb_neq _ _) (Hl r' Hr')).
Qed.

(** A session of an account that exists is only not made for want of a fresh token. *)
Definition no_fresh_token (rand : option (list Z)) (t : users_tables) : Prop :=
  ∀ raw, generate_session_id rand = Some raw → is_Some (users_registry t !! hash_token raw).
Lemma create_session_refused rand user ttl n1 n2 (w w' : W) e : never_fails W users_tables →
  create_session (D := jobject) rand (UserInt user) ttl n1 n2 w = (Fail e, w') →
  user ∈ t_accounts (sessions_of (tables w)) → no_fresh_token rand (tables w).
Proof.
  intros Hup E Hin raw Hraw. unfold create_session in E. rewrite Hraw in E. destruct (exec _ w) as [o w1] eqn:X.
  destruct o as [[id|]|]; [discriminate E| |].
  - apply sessions_exec in X as [_ X]; [|apply insert_session_accounts]. unfold insert_session in X. cbn [u_user u_hash] in X.
    rewrite (bool_decide_eq_true_2 _ Hin), andb_true_l in X. destruct (existsb _ _) eqn:F; [|discriminate X].
    apply existsb_exists in F as (row & Hr & F). rewrite registry_lookup. destruct (find _ _) as [r0|] eqn:G; [by eexists|].
    by rewrite (find_none _ _ G row Hr) in F.
  - match type of X with exec ?f w = _ => change (exec (on_part sessions_of with_sessions f) w = (None, w1)) in X end.
    by apply Hup in X.
Qed.

(** The account is there already; only the session may still fail. *)
Lemma finish_step fk token u r now2 now3 i (w w' : W) t0 res : never_fails W users_tables → is_Some (stored now3) →
  users_ok (with_user r t0) → users_ok t0 → invites_ok t0 → sessions_ok (sessions_of t0) → n_id r = ac_next (n_accounts t0) →
  scan_user r = Some u → tables w = with_user r t0 → finish_invite fk token u now2 now3 i w = (res, w') →
  ∃ c, res = Ok c ∧
    ac_rows (n_accounts (tables w')) = ac_rows (n_accounts t0) ++ [set_standing verified now2 r] ∧
    t_rows (n_invites (tables w')) = mark_all (hash_token token) (n_id r) now3 (t_rows (n_invites t0)) ∧
    match c with
    | LogInYourself => n_sessions (tables w') = n_sessions t0 ∧ no_fresh_token (is_draw i) t0
    | Welcome tok who => opened t0 (tables w') (n_id r) tok (seconds_from (is_now1 i) session_ttl) ∧ who = build_auth_user_summary u
    end ∧ users_ok (tables w') ∧ invites_ok (tables w') ∧ sessions_ok (sessions_of (tables w')).
Proof.
  intros Hup Hst Hok1 Hok0 Hinv Hses Hid Hu Ht E. apply scan_user_id in Hu as Hui. unfold finish_invite in E.
  destruct (exec_up _ (update_user (usr_id u) (set_standing verified now2)) w Hup) as (v & w1 & X & Htv). rewrite X in E. clear X.
  destruct (update_user_keeps (usr_id u) (set_standing verified now2) (tables w)) as [U Hok2]; [auto with wthr|by rewrite Ht|].
  rewrite Htv in U. injection U as -> Hw1. rewrite <-Hw1 in Hok2. clear Htv.
  assert (Hrows : map_user (usr_id u) (set_standing verified now2) (ac_rows (n_accounts (tables w))) =
    ac_rows (n_accounts t0) ++ [set_standing verified now2 r]).
  { rewrite Ht. apply map_user_last; [|done]. intros r' Hr'. apply Hok0 in Hr'. lia. }
  rewrite Hrows in Hw1. destruct (mark_user_invite_used fk token (usr_id u) now3 w1) as [m w2] eqn:M.
  assert (Hex : user_exists (usr_id u) (tables w1) = true).
  { rewrite Hw1, Ht, Hui. apply bool_decide_eq_true. cbn. set_solver. }
  apply mark_step in M as (-> & He & Hm); [|done..]. rewrite Hui, Hw1 in Hm. cbn [with_rows put_accounts n_invites] in Hm.
  rewrite Ht in Hm. change (n_invites (with_user r t0)) with (n_invites t0) in Hm.
  assert (Hs2 : sessions_of (tables w2) = sessions_of (with_user r t0)).
  { unfold sessions_of. injection He as Ha Hi Hs Hk _ _ _ _ _. rewrite Hs, Hi, Hw1, Ht. done. }
  assert (Hsn : n_sessions (tables w2) = n_sessions t0) by (injection He as _ _ -> _ _ _ _ _ _; by rewrite Hw1, Ht).
  assert (Hacc2 : n_accounts (tables w2) = n_accounts (tables w1)) by (by injection He).
  assert (Hids2 : n_ids (tables w2) = n_ids (tables w1)) by (by injection He).
  destruct (create_session _ _ _ _ _ w2) as [sr w3] eqn:C. injection E as <- <-.
  assert (Hin : usr_id u ∈ t_accounts (sessions_of (tables w2))) by (rewrite Hs2, Hui; cbn; set_solver).
  assert (Hfree : ∀ e, sr = Fail e → no_fresh_token (is_draw i) t0).
  { intros e ->. apply create_session_refused in C; [|done..]. intros raw Hraw. specialize (C raw Hraw). cbn beta in C. rewrite Hs2 in C. exact C. }
  apply create_session_step in C as (Hso & Hsok & C); [|by rewrite Hs2].
  assert (Hinv3 : n_invites (tables w3) = n_invites (tables w2)) by (by rewrite Hso).
  assert (Hacc3 : n_accounts (tables w3) = n_accounts (tables w2)) by (by rewrite Hso).
  assert (Hids3 : n_ids (tables w3) = n_ids (tables w2)) by (by rewrite Hso).
  eexists. split; [done|]. rewrite Hacc3, Hacc2, Hinv3, Hm. split_and!; [by rewrite Hw1|done| |..].
  - destruct sr as [s|e].
    + destruct C as (_ & _ & Hn & Hr). rewrite Hs2 in Hn, Hr. split; [|done]. unfold opened. rewrite <-Hui. by split.
    + rewrite C. split; [exact Hsn|by eapply Hfree].
  - unfold users_ok. rewrite Hacc3, Hacc2, Hids3, Hids2. exact Hok2.
  - unfold invites_ok. rewrite Hinv3, Hm, mark_codes. exact Hinv.
  - done.
Qed.

(** Once the invitation is found, what it asks of the account decides. *)
Lemma admission fk key n password salt now1 now2 now3 i row (w1 w' : W) res :
  (match validate_username n with
   | Fail e => (Fail (InviteName e), w1)
   | Ok _ =>
       let inv := scan_user_invite row in
       if negb (is_empty (iv_name inv)) && negb (str_eqb n (normalize_username (iv_name inv))) then (Fail NameMismatch, w1)
       else if is_empty (iv_email inv) then (Fail NoAddress, w1)
       else let '(c, w) := create_user_account id_key fk n (iv_email inv) password [iv_role inv] salt now1 w1 in
            match c with Fail _ => (Fail AccountNotCreated, w) | Ok u => finish_invite fk key u now2 now3 i w end
   end) = (res, w') →
  if fits n row
  then (let '(c, w) := create_user_account id_key fk n (iv_email (scan_user_invite row)) password [ui_role (r_rest row)] salt now1 w1 in
        match c with Fail _ => (Fail AccountNotCreated, w) | Ok u => finish_invite fk key u now2 now3 i w end) = (res, w')
  else is_ok res = false ∧ w' = w1.
Proof.
  intros E. unfold fits. cbv zeta in E |- *. change (iv_role (scan_user_invite row)) with (ui_role (r_rest row)) in E.
  destruct (validate_username n); [|by injection E as <- <-].
  destruct (is_empty (iv_name _)), (str_eqb n _), (is_empty (iv_email _)); cbn in E |- *; first [exact E|by injection E as <- <-].
Qed.

Lemma marked_refused token by_ used l fk name password salt now0 now1 now2 now3 i (w : W) : is_Some (stored used) →
  t_rows (n_invites (tables w)) = mark_all (hash_token (trim_space token)) by_ used l →
  is_ok (complete_api_user_invite id_key fk token name password salt now0 now1 now2 now3 i w).1 = false.
Proof.
  intros Hst Hm. unfold complete_api_user_invite. destruct (is_empty _); [done|].
  destruct (verify_user_invite _ now0 w) as [v w1] eqn:V. apply verify_user_invite_spec in V as (_ & V & _).
  destruct v as [inv|]; [|done]. destruct (V inv eq_refl) as (row & Hin & Hcode & Huse & _). rewrite Hm in Hin.
  by rewrite (marked_unusable _ _ _ _ _ _ Hst Hin Hcode) in Huse.
Qed.

(** C20: an invitation opens one account.  With statements that do not fail: if registering
    with a token is refused, nothing but missing columns has changed, and no usable
    invitation of that token admits the name with name and address still free; if it
    succeeds, the token's invitation was usable, there is exactly one account more, which has the
    invitation's address and role, a verified address and a hash that verifies the password,
    the invitation is marked with it, a session of that account is open and returned, except
    where the draw for its token fails or hits one that is taken, the invariants of the tables
    hold, and the same token is refused from then on.  (With statements that fail an account
    may be there after a refusal: [registered_and_refused].) *)
Theorem invite_opens_one_account fk token name password salt now0 now1 now2 now3 i (w w' : W) res :
  never_fails W users_tables → users_ok (tables w) → prefs_below (tables w) → invites_ok (tables w) →
  sessions_ok (sessions_of (tables w)) → is_bytes salt → is_Some (stored now3) →
  complete_api_user_invite id_key fk token name password (Some salt) now0 now1 now2 now3 i w = (res, w') →
  let t := tables w in let t' := tables w' in
  let key := trim_space token in let n := normalize_username name in
  let id := ac_next (n_accounts t) in
  let fitting row := row ∈ t_rows (n_invites t) ∧ invite_code row = hash_token key ∧ usable now0 row = true ∧ fits n row = true in
  match res with
  | Fail _ => columns_only t t' ∧
      (key ≠ "" → ∀ row hash, fitting row → hash_password id_key password (Some salt) = Ok hash →
         ¬ unique_users (ac_rows (n_accounts t) ++ [invited n hash now1 row id]))
  | Ok c => ∃ row hash, fitting row ∧ verify_password id_key password hash = Ok true ∧
      ac_rows (n_accounts t') = ac_rows (n_accounts t) ++ [set_standing verified now2 (invited n hash now1 row id)] ∧
      t_rows (n_invites t') = mark_all (hash_token key) id now3 (t_rows (n_invites t)) ∧
      match c with
      | LogInYourself => n_sessions t' = n_sessions t ∧ no_fresh_token (is_draw i) t
      | Welcome tok who => opened t t' id tok (seconds_from (is_now1 i) session_ttl) ∧ su_id who = id
      end ∧
      users_ok t' ∧ invites_ok t' ∧ sessions_ok (sessions_of t') ∧
      ∀ fk name password salt now0 now1 now2 now3 i,
        is_ok (complete_api_user_invite id_key fk token name password salt now0 now1 now2 now3 i w').1 = false
  end.
Proof.
  intros Hup Hu Hp Hi Hse Hb Hst E. cbv zeta. unfold complete_api_user_invite in E. set (key := trim_space token) in *.
  set (n := normalize_username name) in *. assert (Hrefl : ∀ t, columns_only t t) by (by intros []).
  destruct (is_empty key) eqn:Hk.
  { injection E as <- <-. split; [done|]. intros Hne. by apply is_empty_spec in Hk. }
  destruct (verify_user_invite key now0 w) as [v w1] eqn:V. apply verify_user_invite_spec in V as (Hc & Hok & Hall).
  specialize (Hall Hup Hi). destruct v as [inv|e].
  2:{ injection E as <- <-. split; [done|]. intros _ row hash (Hin & Hcode & Huse & _) _ _.
      by rewrite (Hall row Hin Hcode) in Huse. }
  destruct (Hok inv eq_refl) as (row & Hin & Hcode & Huse & ->).
  assert (Hsame : ∀ row', row' ∈ t_rows (n_invites (tables w)) → invite_code row' = hash_token key → row' = row).
  { intros row' Hin' Hcode'. apply (same_key invite_code (t_rows (n_invites (tables w)))); [done..|congruence]. }
  apply admission in E as Hcases.
  clear E. destruct (fits n row) eqn:Hf.
  2:{ destruct Hcases as [Hr ->]. destruct res; [done|]. split; [done|]. intros _ row' hash (Hin' & Hcode' & _ & Hf') _.
      rewrite (Hsame row' Hin' Hcode') in Hf'. congruence. }
  destruct (create_user_account _ _ _ _ _ _ _ _ w1) as [c w2] eqn:C. destruct (columns_elsewhere _ _ Hc) as [He Hinv].
  injection He as Hacc Hids Hses _ _ _ _ _ _.
  apply create_user_whole in C; [|done|unfold users_ok; by rewrite Hacc, Hids|unfold prefs_below; by rewrite Hacc].
  cbv zeta in C. destruct (derived_key id_key id_key_length password salt) as (k & Hkey & _).
  destruct (hash_password id_key password (Some salt)) as [hash|e] eqn:Hh.
  2:{ unfold hash_password, hash_with in Hh. by rewrite Hkey in Hh. }
  apply (hash_verifies id_key 19 id_key_length) in Hh as Hv; [|by left|done]. rewrite Hacc in C.
  set (r := new_user _ _ _ _ _ _) in C. change r with (invited n hash now1 row (ac_next (n_accounts (tables w)))) in *. clear r.
  set (r := invited _ _ _ _ _) in C. case_decide as U.
  2:{ destruct C as [-> Ht]. injection Hcases as <- <-. rewrite Ht. split; [done|].
      intros _ row' hash' (Hin' & Hcode' & _) [= <-]. by rewrite (Hsame row' Hin' Hcode'). }
  destruct C as ((u & Hscan & ->) & Ht & Hok2 & _). rewrite Ht in Hok2.
  apply (finish_step fk key u r now2 now3 i w2 w' (tables w1)) in Hcases as (c & -> & Ha & Hm & Hcs & Hu' & Hi' & Hs');
    [|done|done|done|unfold users_ok; by rewrite Hacc, Hids|unfold invites_ok; by rewrite Hinv| |by unfold r; rewrite Hacc|done|done].
  2:{ unfold sessions_of. rewrite Hses, Hids. exact Hse. }
  exists row, hash. split; [done|]. split; [done|]. rewrite Hacc in Ha. rewrite Hinv in Hm. rewrite Hses in Hcs.
  split_and!; [exact Ha|exact Hm| |done..|].
  - destruct c as [|tok who].
    { destruct Hcs as [-> Hf0]. split; [done|]. intros raw Hraw. specialize (Hf0 raw Hraw).
      unfold sessions_of in *. rewrite Hses, Hids in Hf0. exact Hf0. }
    destruct Hcs as [Ho ->]. split; [|by apply scan_user_id in Hscan].
    unfold opened in *. unfold sessions_of in *. rewrite Hses, Hids in Ho. exact Ho.
  - intros. by apply (marked_refused _ (n_id r) now3 (t_rows (n_invites (tables w)))).
Qed.

Lemma read_stamp_of t : 0 ≤ t < date_utc 10000 1 1 0 0 0 0 → read_stamp (stamp_of t) = truncate t second.
Proof. intros Ht. unfold read_stamp, stamp_of, parse_stored_timestamp. by rewrite parse_format_text. Qed.

(** an invitation lasts as long as it was asked for.  With statements that do not fail
    and an expiry before the year 10000, creating an invitation for some positive number of
    days succeeds exactly when there is randomness for a token that is not taken; the
    invitation then has the name, the address and the role asked for ("user" where none is), and its token, read back,
    is accepted at exactly the moments up to its expiry, in whole seconds, that many days after its creation (in
    the 64 bits of a duration), with what was asked for and no use. *)
Theorem invite_lifetime name email role days rand now1 now2 now3 (w w' : W) r :
  never_fails W users_tables → invites_ok (tables w) → 0 < days →
  0 ≤ days_from now1 days < date_utc 10000 1 1 0 0 0 0 →
  create_user_invite name email role days rand now1 now2 now3 w = (r, w') →
  match r with
  | Fail _ => columns_only (tables w) (tables w') ∧
      ∀ token, generate_session_id rand = Some token → hash_token token ∈ map invite_code (t_rows (n_invites (tables w)))
  | Ok inv => generate_session_id rand = Some (iv_token inv) ∧ invites_ok (tables w') ∧
      ∀ now,
        match (verify_user_invite (iv_token inv) now w').1 with
        | Ok inv' => now ≤ truncate (days_from now1 days) second ∧
            (iv_id inv', iv_name inv', iv_email inv', iv_role inv', iv_used inv', iv_count inv') =
            (iv_id inv, name, email, if is_empty role then "user" else role, None, 0)
        | Fail _ => truncate (days_from now1 days) second < now
        end
  end.
Proof.
  intros Hup Hi Hd He E. unfold create_user_invite in E. destruct (ensure_invite_schema w) as [ok w1] eqn:S.
  apply ensure_invite_step in S as [Hs Hok]. rewrite (Hok Hup) in E. cbn [negb] in E.
  destruct (generate_session_id rand) as [token|]; [|by injection E as <- <-].
  assert ((days <=? 0) = false) as Hd0 by lia. rewrite Hd0 in E. set (ends := days_from now1 days) in *.
  set (cols := UserInviteCols _ _ _ _ _ _ _ _ _ _) in E.
  destruct (exec_up _ (insert_user_invite cols (stamp_of ends)) w1 Hup) as (o & w2 & X & Ht). rewrite X in E. clear X.
  assert (Hinv : n_invites (tables w1) = n_invites (tables w)) by (by rewrite Hs).
  unfold insert_user_invite in Ht. rewrite Hinv in Ht. change (ui_code cols) with (hash_token token) in Ht.
  destruct (existsb _ _) eqn:X.
  - injection Ht as <- Ht. injection E as <- <-. rewrite <-Ht. split; [done|]. intros token' [= <-].
    apply existsb_exists in X as (row & Hin%list_elem_of_In & Hcode%invite_has_spec). apply list_elem_of_fmap. by exists row.
  - injection Ht as <- Ht. injection E as <- <-. cbn [iv_token]. split; [done|].
    set (row := Row (VInt (t_next_id (n_invites (tables w)))) (stamp_of ends) cols).
    assert (Hrows : t_rows (n_invites (tables w2)) = t_rows (n_invites (tables w)) ++ [row]) by (by rewrite <-Ht).
    assert (Hi2 : invites_ok (tables w2)).
    { unfold invites_ok. rewrite Hrows, map_app. apply NoDup_app. split_and!; [done| |apply NoDup_singleton].
      intros h Hh Hh'%list_elem_of_singleton. apply not_true_iff_false in X. apply X. apply existsb_exists.
      apply list_elem_of_fmap in Hh as (row' & -> & Hin). exists row'. by rewrite <-list_elem_of_In, invite_has_spec. }
    split; [done|]. intros now. destruct (verify_user_invite token now w2) as [v w3] eqn:V. cbn [fst].
    apply verify_user_invite_spec in V as (_ & V1 & V2).
    assert (Hin : row ∈ t_rows (n_invites (tables w2))) by (rewrite Hrows; apply elem_of_app; right; by left).
    specialize (V2 Hup Hi2 row Hin eq_refl).
    assert (Huse : usable now row = negb (truncate ends second <? now)).
    { unfold usable. change (r_stamp row) with (stamp_of ends). rewrite (read_stamp_of _ He). by rewrite !andb_true_r. }
    rewrite Huse in V2. destruct v as [inv|e]; cbn [is_ok] in V2; [|lia]. split; [lia|].
    destruct (V1 inv eq_refl) as (row' & Hin' & Hcode' & _ & ->).
    assert (row' = row) as -> by (by apply (same_key invite_code (t_rows (n_invites (tables w2))))). reflexivity.
Qed.
End Theorems.

(** * Witnesses and findings *)

(** Bob is invited for a week, under the token drawn from bytes 5. *)
Definition bob_row : invite_row :=
  Row (VInt 1) (stamp_of (t_now + hours 168))
    (UserInviteCols (hash_token (link 5)) (Some "bob") (Some "bob@example.org") None "editor" (stamp_of t_now) None VNull 1 0).
Definition columns_there : list string * list string := (["username"; "role"], []).
Definition inviting (l : list invite_row) : users_tables :=
  put_columns columns_there (put_user_invites (Table l (Z.of_nat (length l) + 1)) fresh_users).
Abbreviation bob_completes := (complete_api_user_invite (W := reliable users_tables) toy_key true (link 5) " Bob" "password" (Some [1; 2])
  t_now t_now t_now t_now (issue_of 6)).

Lemma fresh_users_ok l : users_ok (tables (Reliable (inviting l))) ∧ prefs_below (tables (Reliable (inviting l))).
Proof.
  split; [|by intros id ->%list_elem_of_singleton]. unfold users_ok. cbn. split_and!.
  - refine (bool_decide_unpack _ _). vm_compute. exact I.
  - apply NoDup_singleton.
  - intros r ->%list_elem_of_singleton. reflexivity.
  - intros id. by rewrite elem_of_singleton, list_elem_of_singleton.
Qed.
Lemma no_session_rows_ok l : sessions_ok (sessions_of (tables (Reliable (inviting l)))).
Proof. unfold sessions_ok. cbn. split_and!; [constructor|constructor|by intros r ?%not_elem_of_nil|lia]. Qed.

Definition welcomed (r : result invite_error invite_completion) : option auth_summary :=
  match r with Ok (Welcome _ who) => Some who | _ => None end.
Definition accounts_in (w : reliable users_tables) : nat := length (ac_rows (n_accounts (tables w))).

Lemma invite_opens_one_account_witness :
  ∃ r w, bob_completes (Reliable (inviting [bob_row])) = (r, w) ∧
  welcomed r = Some (AuthSummary 2 "bob" "b*b@e******.org" "editor") ∧ accounts_in w = 2%nat ∧ is_ok (bob_completes w).1 = false.
Proof.
  destruct (bob_completes (Reliable (inviting [bob_row]))) as [res w'] eqn:E. exists res, w'. split; [reflexivity|].
  assert (Hi : invites_ok (tables (Reliable (inviting [bob_row])))) by (apply NoDup_singleton).
  assert (Hb : is_bytes [1; 2]) by (repeat constructor; lia).
  assert (Hst : is_Some (stored t_now)) by (vm_compute; eauto).
  destruct (fresh_users_ok [bob_row]) as [Hu Hp].
  pose proof (invite_opens_one_account toy_key toy_key_length _ _ _ _ _ _ _ _ _ _ _ _ _ (reliable_never_fails _) Hu Hp Hi
    (no_session_rows_ok [bob_row]) Hb Hst E) as R.
  assert (Hr : welcomed res = Some (AuthSummary 2 "bob" "b*b@e******.org" "editor")).
  { apply (f_equal (λ p, welcomed p.1)) in E. etransitivity; [symmetry; exact E|]. vm_compute. reflexivity. }
  split; [exact Hr|]. clear E. destruct res as [c|e]; [|discriminate Hr]. destruct R as (row & hash & _ & _ & Ha & _ & _ & _ & _ & _ & Hagain).
  split; [unfold accounts_in; rewrite Ha, length_app; reflexivity|].
  exact (Hagain true " Bob" "password" (Some [1; 2]) t_now t_now t_now t_now (issue_of 6)).
Defined.

Lemma invite_lifetime_witness :
  let r := create_user_invite "bob" "bob@example.org" "" 7 (draw 5) t_now t_now t_now (Reliable (inviting [])) in
  is_ok r.1 = true ∧ is_ok (verify_user_invite (link 5) (t_now + hours 168) r.2).1 = true ∧
  is_ok (verify_user_invite (link 5) (t_now + hours 168 + second) r.2).1 = false.
Proof.
  cbv zeta. destruct (create_user_invite "bob" "bob@example.org" "" 7 (draw 5) t_now t_now t_now (Reliable (inviting []))) as [r w'] eqn:E.
  assert (Hi : invites_ok (tables (Reliable (inviting [])))) by constructor.
  assert (Hd : 0 ≤ days_from t_now 7 < date_utc 10000 1 1 0 0 0 0) by (vm_compute; split; [intros X; discriminate X|reflexivity]).
  pose proof (invite_lifetime "bob" "bob@example.org" "" 7 (draw 5) t_now t_now t_now _ _ r (reliable_never_fails _) Hi (eq_refl : 0 < 7) Hd E) as R.
  assert (is_ok r = true) as Hr by (change r with (r, w').1; rewrite <-E; vm_compute; reflexivity).
  destruct r as [inv|e]; [|discriminate Hr]. clear Hr E. destruct R as (Htok & _ & Hall).
  assert (Hl : iv_token inv = link 5) by (by unfold link; rewrite Htok). rewrite Hl in Hall. clear Hl Htok.
  assert (He : truncate (days_from t_now 7) second = t_now + hours 168) by (vm_compute; reflexivity). rewrite He in Hall.
  cbn [fst snd]. split; [done|]. split.
  - specialize (Hall (t_now + hours 168)). destruct (fst _); [done|]. lia.
  - specialize (Hall (t_now + hours 168 + second)). destruct (fst _); [|done]. unfold second in *. destruct Hall. lia.
Defined.

(** More days than a duration holds: the invitation has ended when it is made. *)
Lemma invite_for_centuries :
  let '(r, w) := create_user_invite "bob" "bob@example.org" "" 106752 (draw 5) t_now t_now t_now (Reliable (inviting [])) in
  is_ok r = true ∧ fst (verify_user_invite (link 5) t_now w) = Fail ExpiredInvite.
Proof. vm_compute. done. Qed.

(** The token of a listed invitation is the digest, which opens nothing. *)
Lemma listed_token_dead :
  let '(r, w) := list_user_invites (λ l, l) (Reliable (inviting [bob_row])) in
  match r with
  | Ok [inv] => is_ok (fst (verify_user_invite (link 5) t_now w)) = true ∧
      fst (verify_user_invite (iv_token inv) t_now w) = Fail InvalidInvite
  | _ => False
  end.
Proof. vm_compute. done. Qed.

(** A registration that cannot mark the invitation fails and leaves the account, so the person
    invited can neither register again nor is told to log in. *)
Lemma registered_and_refused :
  let complete w := complete_api_user_invite toy_key true (link 5) "bob" "password" (Some [1; 2]) t_now t_now t_now t_now (issue_of 6) w in
  let '(r1, w1) := complete (Faulty (inviting [bob_row]) [false; false; false; false; false; false; false; true]) in
  let '(r2, w2) := complete w1 in
  r1 = Fail InviteNotFinal ∧ r2 = Fail AccountNotCreated ∧ length (ac_rows (n_accounts (tables w2))) = 2%nat.
Proof. vm_compute. done. Qed.
