(* ===== verification/Proxies.v ===== *)
(** Who may speak for a client: the peers trusted to set forwarding headers
    (util/trusted_proxies.go), and the client address, the scheme and the host that follow
    from them (util/host.go).  The state is the cache of resolved names; net.LookupIP is a
    parameter, and so is what the machine says of itself. *)
From S2P Require Import Prelude GoStrings GoTime GoGlob GoNet.
From Stdlib Require Import Ascii.
Open Scope Z_scope.

Definition always_trusted_cidrs : list string :=
  ["127.0.0.0/8"; "10.0.0.0/8"; "172.16.0.0/12"; "192.168.0.0/16"; "fc00::/7"; "169.254.0.0/16"; "fe80::/10"].
Definition must_parse_cidrs (l : list string) : list ip_net := omap parse_cidr l.

Record dns_trust_entry := DnsEntry { dns_ips : list ip; dns_resolved : instant }.
Definition dns_trust_refresh : duration := 5 * minute.
Abbreviation dns_cache := (gmap string dns_trust_entry).

(** server.address and server.trusted_proxies.additional, of the global configuration *)
Record proxy_config := ProxyConfig { pc_address : string; pc_additional : list string }.

(** r.RemoteAddr, r.Host, whether r.TLS is there, and r.Header.Get *)
Record peer_request := PeerRequest { pr_remote : string; pr_host : string; pr_tls : bool; pr_header : string → string }.

(** The host of an address, or all of it *)
Definition host_part (s : string) : string := match split_host_port s with Some (h, _) => h | None => s end.

Section Proxies.
(** net.LookupIP; None is an error *)
Context (lookup_ip : string → option (list ip)).

Definition resolve_dns_trust_entry (name : string) (now : instant) (cache : dns_cache) : list ip * dns_cache :=
  let fresh := let addrs := default [] (lookup_ip name) in (addrs, <[name := DnsEntry addrs now]> cache) in
  match cache !! name with
  | Some e => if sub now (dns_resolved e) <? dns_trust_refresh then (dns_ips e, cache) else fresh
  | None => fresh
  end.

Definition same_slash24 (a : ip) (listen : string) : bool :=
  match to4 a, parse_ip (host_part listen) with
  | Some (x :: y :: z :: _), Some l =>
      match to4 l with
      | Some (x' :: y' :: z' :: _) => negb (is_unspecified l) && (x =? x') && (y =? y') && (z =? z')
      | _ => false
      end
  | _, _ => false
  end.

Fixpoint listed_peer (a : ip) (entries : list string) (now : instant) (cache : dns_cache) : bool * dns_cache :=
  match entries with
  | [] => (false, cache)
  | entry :: entries =>
      if is_empty entry then listed_peer a entries now cache
      else match parse_ip entry with
      | Some b => if bool_decide (b = a) then (true, cache) else listed_peer a entries now cache
      | None =>
          match parse_cidr entry with
          | Some n => if net_contains n a then (true, cache) else listed_peer a entries now cache
          | None =>
              let '(ips, cache) := resolve_dns_trust_entry entry now cache in
              if existsb (λ b, bool_decide (b = a)) ips then (true, cache) else listed_peer a entries now cache
          end
      end
  end.
Definition is_trusted_peer (cfg : option proxy_config) (remote : string) (now : instant) (cache : dns_cache) : bool * dns_cache :=
  match parse_ip (host_part remote) with
  | None => (false, cache)
  | Some a =>
      if is_loopback a then (true, cache)
      else if existsb (λ n, net_contains n a) (must_parse_cidrs always_trusted_cidrs) then (true, cache)
      else match cfg with
      | None => (false, cache)
      | Some cfg =>
          if negb (is_empty (pc_address cfg)) && same_slash24 a (pc_address cfg) then (true, cache)
          else listed_peer a (pc_additional cfg) now cache
      end
  end.

(** ** The client's address *)

(** The range over runes finds a comma where the bytes have one. *)
Definition get_client_ip (r : peer_request) : string :=
  let h := pr_header r in
  if negb (is_empty (h "CF-Connecting-IP")) then h "CF-Connecting-IP"
  else if negb (is_empty (h "X-Real-IP")) then h "X-Real-IP"
  else if negb (is_empty (h "X-Forwarded-For")) then (cut_byte (h "X-Forwarded-For") comma).1
  else if negb (is_empty (h "True-Client-IP")) then h "True-Client-IP"
  else if negb (is_empty (h "X-Client-IP")) then h "X-Client-IP"
  else host_part (pr_remote r).
Definition trusted_get_client_ip (cfg : option proxy_config) (r : peer_request) (now : instant) (cache : dns_cache) : string * dns_cache :=
  let '(t, cache) := is_trusted_peer cfg (pr_remote r) now cache in
  (if t then get_client_ip r else host_part (pr_remote r), cache).

(** ** The scheme *)

Definition trusted_is_https (cfg : option proxy_config) (r : peer_request) (now : instant) (cache : dns_cache) : bool * dns_cache :=
  if pr_tls r then (true, cache)
  else
    let '(t, cache) := is_trusted_peer cfg (pr_remote r) now cache in
    (if negb t then false
     else equal_fold (trim_space (pr_header r "X-Forwarded-Proto")) "https"
          || equal_fold (trim_space (pr_header r "X-Forwarded-Ssl")) "on", cache).

(** ** The host *)

Definition overlay_host_from_request (r : peer_request) : string :=
  let lower := to_lower (trim_suffix (host_part (pr_host r)) ".") in
  if has_suffix lower ".onion" || has_suffix lower ".i2p" then lower else "".

(** The variables DOMAIN and HOSTNAME, os.Hostname, and the addresses of the interfaces
    with their texts *)
Record machine := Machine {
  mc_domain : string; mc_hostname : option string; mc_hostname_var : string; mc_addrs : option (list (ip * string))
}.
Definition is_loopback_host (host : string) : bool :=
  if str_eqb (to_lower host) "localhost" then true
  else match parse_ip host with Some a => is_loopback a | None => false end.
(** IP.IsGlobalUnicast: not broadcast, unspecified, loopback, multicast or link-local *)
Definition is_global_unicast (a : ip) : bool :=
  negb (bool_decide (a = mapped [255; 255; 255; 255])) && negb (is_unspecified a) && negb (is_loopback a) &&
  match to4 a with
  | Some l => negb (Z.land (nth 0 l 0) 240 =? 224) && negb ((nth 0 l 0 =? 169) && (nth 1 l 0 =? 254))
  | None => negb (nth 0 a 0 =? 255) && negb ((nth 0 a 0 =? 254) && (Z.land (nth 1 a 0) 192 =? 128))
  end.
Definition get_global (v4 : bool) (m : machine) : string :=
  match find (λ p, Bool.eqb (bool_decide (is_Some (to4 p.1))) v4 && is_global_unicast p.1) (default [] (mc_addrs m)) with
  | Some (_, text) => text
  | None => ""
  end.
Definition get_fqdn (m : machine) : string :=
  if negb (is_empty (mc_domain m)) then
    match cut_byte (mc_domain m) comma with
    | (String c d, Some _) => trim_space (String c d)
    | _ => mc_domain m
    end
  else
    let hostname := default "" (mc_hostname m) in
    if negb (is_empty hostname) && negb (is_loopback_host hostname) then hostname
    else if negb (is_empty (mc_hostname_var m)) && negb (is_loopback_host (mc_hostname_var m)) then mc_hostname_var m
    else if negb (is_empty (get_global false m)) then get_global false m
    else if negb (is_empty (get_global true m)) then get_global true m
    else "localhost".

Definition host_headers : list string := ["X-Forwarded-Host"; "X-Real-Host"; "X-Original-Host"].
Definition forwarded_host (r : peer_request) : option string :=
  match find (λ h, negb (is_empty (pr_header r h))) host_headers with
  | Some h => Some (host_part (pr_header r h))
  | None => None
  end.
Definition get_host_from_request (m : machine) (r : peer_request) : string :=
  let overlay := overlay_host_from_request r in
  if negb (is_empty overlay) then overlay else default (get_fqdn m) (forwarded_host r).
Definition trusted_get_host_from_request (cfg : option proxy_config) (m : machine) (r : peer_request) (now : instant) (cache : dns_cache)
  : string * dns_cache :=
  let overlay := overlay_host_from_request r in
  if negb (is_empty overlay) then (overlay, cache)
  else
    let '(t, cache) := is_trusted_peer cfg (pr_remote r) now cache in
    (if t then default (get_fqdn m) (forwarded_host r) else get_fqdn m, cache).

(** GetHostInfo: protocol, host name and the two together; the port is PORT of the environment *)
Record host_info := HostInfo { hi_protocol : string; hi_hostname : string; hi_full : string }.
Definition get_host_info (cfg : option proxy_config) (m : machine) (r : peer_request) (now : instant) (cache : dns_cache)
  : host_info * dns_cache :=
  let overlay := overlay_host_from_request r in
  if negb (is_empty overlay) then (HostInfo "http" overlay ("http://" +:+ overlay), cache)
  else
    let '(tls, cache) := trusted_is_https cfg r now cache in
    let '(host, cache) := trusted_get_host_from_request cfg m r now cache in
    let protocol := if tls then "https" else "http" in
    (HostInfo protocol host (protocol +:+ "://" +:+ host), cache).
End Proxies.

(** * The ranges that are always trusted, in numbers *)

Definition private_peer (a : ip) : Prop :=
  match to4 a with
  | Some l => let x := nth 0 l 0 in let y := nth 1 l 0 in
      x = 127 ∨ x = 10 ∨ (x = 172 ∧ 16 ≤ y ≤ 31) ∨ (x = 192 ∧ y = 168) ∨ (x = 169 ∧ y = 254)
  | None => let x := nth 0 a 0 in let y := nth 1 a 0 in
      a = replicate 15 0 ++ [1] ∨ 252 ≤ x ≤ 253 ∨ (x = 254 ∧ 128 ≤ y ≤ 191)
  end.

Lemma octet_test (p : Z → bool) x : forallb p (map Z.of_nat (seq 0 256)) = true → 0 ≤ x ≤ 255 → p x = true.
Proof.
  intros Hp Hx. rewrite forallb_forall in Hp. apply Hp, in_map_iff. exists (Z.to_nat x). split; [lia|]. apply in_seq. lia.
Qed.
Lemma mask_octets x : 0 ≤ x ≤ 255 → Z.land x 255 = x ∧ (Z.land x 240 = 16 ↔ 16 ≤ x ≤ 31) ∧ (Z.land x 254 = 252 ↔ 252 ≤ x ≤ 253) ∧
  (Z.land x 192 = 128 ↔ 128 ≤ x ≤ 191).
Proof.
  intros Hx. pose (p := λ x, (Z.land x 255 =? x) && Bool.eqb (Z.land x 240 =? 16) ((16 <=? x) && (x <=? 31)) &&
    Bool.eqb (Z.land x 254 =? 252) ((252 <=? x) && (x <=? 253)) && Bool.eqb (Z.land x 192 =? 128) ((128 <=? x) && (x <=? 191))).
  assert (Hp : p x = true) by (apply octet_test; [vm_compute; reflexivity|done]). unfold p in Hp.
  repeat (apply andb_true_iff in Hp as [Hp ?]). repeat match goal with H : Bool.eqb _ _ = true |- _ => apply Bool.eqb_prop in H end. lia.
Qed.

Lemma cons_eqb (x y : Z) l k : bool_decide (x :: l = y :: k) = (x =? y) && bool_decide (l = k).
Proof.
  destruct (x =? y) eqn:E; cbn.
  - apply Z.eqb_eq in E as ->. apply bool_decide_ext. split; [by intros [= ->]|by intros ->].
  - apply Z.eqb_neq in E. apply bool_decide_eq_false_2. by intros [= ? _].
Qed.
Lemma to4_length a l : length a = 16%nat → to4 a = Some l → length l = 4%nat.
Proof. intros Hl. unfold to4. case_bool_decide; [|done]. intros [= <-]. by rewrite length_drop, Hl. Qed.

(** Membership in a network whose mask covers the first two octets at most *)
Lemma in_net n0 n1 m0 m1 k a : length a = 16%nat →
  let l := default a (to4 a) in
  net_contains (IpNet (n0 :: n1 :: replicate k 0) (m0 :: m1 :: replicate k 0)) a =
  (length l =? S (S k))%nat && (Z.land n0 m0 =? Z.land (nth 0 l 0) m0) && (Z.land n1 m1 =? Z.land (nth 1 l 0) m1).
Proof.
  intros Hl l. unfold net_contains. cbv zeta. change (default a (to4 a)) with l. clearbody l. cbn [net_number net_mask length].
  rewrite length_replicate. destruct (length l =? S (S k))%nat eqn:E; [|by rewrite andb_false_l]. apply Nat.eqb_eq in E. destruct l as [|x [|y l]]; try done. cbn [andb nth].
  unfold mask_with. cbn [zip_with]. rewrite !cons_eqb.
  assert (H0 : ∀ k' l', length l' = k' → zip_with Z.land l' (replicate k' 0) = replicate k' 0).
  { intros k' l' <-. induction l' as [|z l' IH]; [done|]. cbn. by rewrite IH, Z.land_0_r. }
  assert (Hk : length l = k) by (cbn in E; lia). rewrite (H0 _ _ Hk), H0 by apply length_replicate.
  by rewrite bool_decide_eq_true_2, andb_true_r.
Qed.

Lemma always_trusted_spec a : octets_ok 16 a →
  is_loopback a || existsb (λ n, net_contains n a) (must_parse_cidrs always_trusted_cidrs) = true ↔ private_peer a.
Proof.
  intros [Hl Ho]. assert (must_parse_cidrs always_trusted_cidrs =
    [IpNet (127 :: 0 :: replicate 2 0) (255 :: 0 :: replicate 2 0); IpNet (10 :: 0 :: replicate 2 0) (255 :: 0 :: replicate 2 0);
     IpNet (172 :: 16 :: replicate 2 0) (255 :: 240 :: replicate 2 0); IpNet (192 :: 168 :: replicate 2 0) (255 :: 255 :: replicate 2 0);
     IpNet (252 :: 0 :: replicate 14 0) (254 :: 0 :: replicate 14 0); IpNet (169 :: 254 :: replicate 2 0) (255 :: 255 :: replicate 2 0);
     IpNet (254 :: 128 :: replicate 14 0) (255 :: 192 :: replicate 14 0)]) as -> by (vm_compute; reflexivity).
  cbn [existsb]. rewrite !in_net by done. cbv zeta. unfold is_loopback, private_peer. destruct (to4 a) as [l|] eqn:F; cbn [default from_option id].
  - pose proof (to4_length _ _ Hl F) as L4. rewrite L4.
    assert (Hf : Forall (λ x, 0 ≤ x ≤ 255) l).
    { unfold to4 in F. case_bool_decide; [|done]. injection F as <-. by apply Forall_drop. }
    destruct l as [|x [|y [|z [|w []]]]]; try done. cbn [nth Nat.eqb andb]. inversion Hf as [|? ? Hx Hf1]; subst. inversion Hf1 as [|? ? Hy _]; subst.
    destruct (mask_octets x Hx) as (X1 & _), (mask_octets y Hy) as (Y1 & Y2 & _). rewrite X1, Y1, !Z.land_0_r.
    change (Z.land 16 240) with 16. change (Z.land 127 255) with 127. change (Z.land 10 255) with 10. change (Z.land 172 255) with 172.
    change (Z.land 192 255) with 192. change (Z.land 168 255) with 168. change (Z.land 169 255) with 169. change (Z.land 254 255) with 254. lia.
  - rewrite Hl. cbn [Nat.eqb andb orb]. destruct a as [|x [|y l]]; try done. cbn [nth]. inversion Ho as [|? ? Hx Hf1]; subst. inversion Hf1 as [|? ? Hy _]; subst.
    destruct (mask_octets x Hx) as (X1 & _ & X2 & _), (mask_octets y Hy) as (_ & _ & _ & Y2). rewrite X1, !Z.land_0_r.
    change (Z.land 252 254) with 252. change (Z.land 254 255) with 254. change (Z.land 128 192) with 128.
    destruct (bool_decide _) eqn:B; [apply bool_decide_eq_true in B; by split; [intros _; left|]|apply bool_decide_eq_false in B]. cbn [orb]. split; [|intros [?|?]; [done|]]; lia.
Qed.

(** * Who is trusted *)

Definition shares_slash24 (a : ip) (listen : string) : Prop :=
  ∃ x y z w w', a = mapped [x; y; z; w] ∧ parse_ip (host_part listen) = Some (mapped [x; y; z; w']) ∧ [x; y; z; w'] ≠ [0; 0; 0; 0].

Lemma to4_mapped l : to4 (mapped l) = Some l.
Proof. unfold to4, mapped. rewrite take_app_le by done. by rewrite take_ge, bool_decide_eq_true_2. Qed.
Lemma to4_some a l : octets_ok 16 a → to4 a = Some l → a = mapped l ∧ ∃ x y z w, l = [x; y; z; w].
Proof.
  intros [Hl _] F. pose proof (to4_length _ _ Hl F) as L4. unfold to4 in F. case_bool_decide as E; [|done]. injection F as <-.
  split; [unfold mapped; rewrite <-E; by rewrite take_drop|]. destruct (drop 12 a) as [|x [|y [|z [|w []]]]]; try done. by exists x, y, z, w.
Qed.
Lemma same_slash24_spec a listen : octets_ok 16 a → same_slash24 a listen = true ↔ shares_slash24 a listen.
Proof.
  intros Ha. unfold same_slash24, shares_slash24. split.
  - destruct (to4 a) as [l|] eqn:F; [|done]. destruct (to4_some a l Ha F) as (-> & x & y & z & w & ->).
    destruct (parse_ip (host_part listen)) as [b|] eqn:P; [|done]. apply parse_ip_octets in P as Hb.
    destruct (to4 b) as [k|] eqn:G; [|done]. destruct (to4_some b k Hb G) as (-> & x' & y' & z' & w' & ->). intros E. bool_facts.
    subst x' y' z'. exists x, y, z, w, w'. split_and!; [done..|]. intros E. injection E as -> -> -> ->.
    match goal with H : is_unspecified _ = false |- _ => vm_compute in H; discriminate H end.
  - intros (x & y & z & w & w' & -> & -> & Hne). rewrite !to4_mapped, !Z.eqb_refl, !andb_true_r. apply negb_true_iff, bool_decide_eq_false.
    intros [E|E]; [|discriminate E]. apply Hne. by injection E as -> -> -> ->.
Qed.

Section Trusted.
Context (lookup_ip : string → option (list ip)).

(** What a name stands for now: what is cached, if it was looked up less than five minutes ago *)
Definition resolution (now : instant) (cache : dns_cache) (name : string) : list ip := (resolve_dns_trust_entry lookup_ip name now cache).1.
Definition entry_admits (now : instant) (cache : dns_cache) (a : ip) (entry : string) : Prop :=
  entry ≠ "" ∧
  match parse_ip entry, parse_cidr entry with
  | Some b, _ => b = a
  | None, Some n => net_contains n a = true
  | None, None => a ∈ resolution now cache entry
  end.
Definition may_forward (cfg : option proxy_config) (now : instant) (cache : dns_cache) (remote : string) : Prop :=
  ∃ a, parse_ip (host_part remote) = Some a ∧
    (private_peer a ∨ ∃ c, cfg = Some c ∧ (shares_slash24 a (pc_address c) ∨ ∃ e, e ∈ pc_additional c ∧ entry_admits now cache a e)).

(** Looking one name up does not change what another, or the same, stands for. *)
Lemma resolution_stable now cache name other :
  resolution now (resolve_dns_trust_entry lookup_ip name now cache).2 other = resolution now cache other.
Proof.
  assert (Hnow : (sub now now <? dns_trust_refresh) = true) by (unfold sub; rewrite Z.sub_diag; reflexivity).
  unfold resolution, resolve_dns_trust_entry. destruct (cache !! name) as [e|] eqn:E; [destruct (sub now (dns_resolved e) <? dns_trust_refresh) eqn:F|];
    cbn [snd]; try done; (destruct (decide (other = name)) as [->|Hne]; [rewrite lookup_insert_eq, E; cbn [dns_resolved]; rewrite Hnow; try rewrite F; done|]);
    rewrite lookup_insert_ne by congruence;
    (destruct (cache !! other) as [e'|]; [by destruct (sub now (dns_resolved e') <? dns_trust_refresh)|done]).
Qed.
Lemma admits_stable now cache name a e :
  entry_admits now (resolve_dns_trust_entry lookup_ip name now cache).2 a e ↔ entry_admits now cache a e.
Proof. unfold entry_admits. by rewrite resolution_stable. Qed.

Lemma listed_spec a entries now cache : (listed_peer lookup_ip a entries now cache).1 = true ↔ ∃ e, e ∈ entries ∧ entry_admits now cache a e.
Proof.
  revert cache. induction entries as [|e entries IH]; intros cache; cbn [listed_peer]; [split; [done|by intros (e & []%not_elem_of_nil & _)]|].
  assert (Hskip : ¬ entry_admits now cache a e → (∃ e', e' ∈ entries ∧ entry_admits now cache a e') ↔ (∃ e', e' ∈ e :: entries ∧ entry_admits now cache a e')).
  { intros Hno. split; [intros (e' & Hin & He); exists e'; by split; [right|]|]. intros (e' & [->|Hin]%elem_of_cons & He); [done|by exists e']. }
  assert (Hhit : entry_admits now cache a e → true = true ↔ ∃ e', e' ∈ e :: entries ∧ entry_admits now cache a e').
  { intros He. split; [|done]. intros _. exists e. by split; [left|]. }
  unfold entry_admits in Hskip, Hhit at 1. destruct (is_empty e) eqn:Em.
  { apply is_empty_spec in Em as ->. rewrite IH. apply Hskip. by intros [? _]. }
  assert (Hne : e ≠ "") by (intros ->; discriminate Em).
  destruct (parse_ip e) as [b|] eqn:P.
  { destruct (bool_decide (b = a)) eqn:B; [apply bool_decide_eq_true in B; by apply Hhit|apply bool_decide_eq_false in B].
    rewrite IH. apply Hskip. by intros [_ ?]. }
  destruct (parse_cidr e) as [n|] eqn:C.
  { destruct (net_contains n a) eqn:B; [by apply Hhit|]. rewrite IH. apply Hskip. by intros [_ ?]. }
  destruct (resolve_dns_trust_entry lookup_ip e now cache) as [ips cache'] eqn:R.
  assert (Hips : resolution now cache e = ips) by (unfold resolution; by rewrite R). rewrite Hips in Hhit, Hskip.
  destruct (existsb (λ b, bool_decide (b = a)) ips) eqn:X.
  - apply Hhit. split; [done|]. apply existsb_exists in X as (b & Hb & ->%bool_decide_eq_true). by apply list_elem_of_In.
  - rewrite IH, <-Hskip.
    + assert (cache' = (resolve_dns_trust_entry lookup_ip e now cache).2) as -> by by rewrite R. by setoid_rewrite admits_stable.
    + intros [_ Hin]. apply not_true_iff_false in X. apply X, existsb_exists. exists a. split; [by apply list_elem_of_In|by apply bool_decide_eq_true].
Qed.

(** C31: who may set forwarding headers.  The peers trusted are exactly those whose address
    is private in the sense of the numbers above, or, with a configuration, an IPv4 address of the network /24 the
    server listens on, or admitted by an entry of the list: as the address it spells, in the network it spells, or
    among what the name resolves to, looked up within the last five minutes. *)
Theorem trusted_peer_correct cfg remote now cache :
  (is_trusted_peer lookup_ip cfg remote now cache).1 = true ↔ may_forward cfg now cache remote.
Proof.
  unfold is_trusted_peer, may_forward. destruct (parse_ip (host_part remote)) as [a|] eqn:P; [|by split; [|intros (? & ? & _)]].
  apply parse_ip_octets in P as Ha. pose proof (always_trusted_spec a Ha) as Hp.
  destruct (is_loopback a); [split; [intros _; exists a; split; [done|]; left; by apply Hp|done]|]. cbn [orb] in Hp.
  destruct (existsb _ _); [split; [intros _; exists a; split; [done|]; left; by apply Hp|done]|].
  assert (Hnp : ¬ private_peer a) by (by intros ?%Hp). destruct cfg as [c|]; [|split; [done|]; by intros (? & [= <-] & [?|(? & ? & _)])].
  pose proof (same_slash24_spec a (pc_address c) Ha) as Hs.
  destruct (is_empty (pc_address c)) eqn:Em; cbn [negb andb].
  - apply is_empty_spec in Em. rewrite listed_spec. split.
    + intros Hl. exists a. split; [done|]. right. exists c. by split; [|right].
    + intros (? & [= <-] & [?|(? & [= <-] & [Hsh|Hl])]); [done| |done]. rewrite Em in Hsh. by destruct Hsh as (? & ? & ? & ? & ? & _ & X & _).
  - destruct (same_slash24 a (pc_address c)) eqn:S.
    + split; [|done]. intros _. exists a. split; [done|]. right. exists c. split; [done|]. left. by apply Hs.
    + rewrite listed_spec. split.
      * intros Hl. exists a. split; [done|]. right. exists c. by split; [|right].
      * intros (? & [= <-] & [?|(? & [= <-] & [Hsh|Hl])]); [done| |done]. by apply Hs in Hsh.
Qed.
End Trusted.

(** * Headers nobody may set *)

Section Forged.
Context (lookup_ip : string → option (list ip)).

Definition same_connection (r r' : peer_request) : Prop := pr_remote r' = pr_remote r ∧ pr_host r' = pr_host r ∧ pr_tls r' = pr_tls r.

Lemma peer_cache cfg remote now cache cache' : is_trusted_peer lookup_ip cfg remote now cache = (false, cache') →
  ¬ may_forward lookup_ip cfg now cache remote.
Proof. intros E H. apply trusted_peer_correct in H. by rewrite E in H. Qed.

(** C30: forged headers.  Two requests over one connection, whatever headers either has, are taken for the same client
    address, scheme and host with the same effect on the cache, unless the peer may set forwarding headers;
    the address is then the peer's own and the scheme that of the connection.  A peer that may set them is believed
    about the address as the first of the five headers that is there says. *)
Theorem forged_headers_ignored cfg m r r' now cache : same_connection r r' →
  (¬ may_forward lookup_ip cfg now cache (pr_remote r) →
   trusted_get_client_ip lookup_ip cfg r' now cache = trusted_get_client_ip lookup_ip cfg r now cache ∧
   (trusted_get_client_ip lookup_ip cfg r now cache).1 = host_part (pr_remote r) ∧
   trusted_is_https lookup_ip cfg r' now cache = trusted_is_https lookup_ip cfg r now cache ∧
   (trusted_is_https lookup_ip cfg r now cache).1 = pr_tls r ∧
   trusted_get_host_from_request lookup_ip cfg m r' now cache = trusted_get_host_from_request lookup_ip cfg m r now cache) ∧
  (may_forward lookup_ip cfg now cache (pr_remote r) →
   (trusted_get_client_ip lookup_ip cfg r now cache).1 = get_client_ip r ∧
   (overlay_host_from_request r = "" → (trusted_get_host_from_request lookup_ip cfg m r now cache).1 = get_host_from_request m r)).
Proof.
  intros (Hr & Hh & Ht). pose proof (trusted_peer_correct lookup_ip cfg (pr_remote r) now cache) as Hp.
  unfold trusted_get_client_ip, trusted_is_https, trusted_get_host_from_request, overlay_host_from_request, get_host_from_request.
  rewrite Hr, Hh, Ht. destruct (is_trusted_peer lookup_ip cfg (pr_remote r) now cache) as [t cache'] eqn:E. cbn [fst] in Hp. split.
  - intros Hno. assert (t = false) as -> by (apply not_true_iff_false; by intros ?%Hp). cbn [fst].
    split_and!; [done..|by destruct (pr_tls r)|by destruct (is_empty _)].
  - intros Hyes. apply Hp in Hyes as ->. split; [done|]. unfold overlay_host_from_request. intros Ho. rewrite Ho. done.
Qed.
End Forged.

(** * Witness and findings *)

Definition no_names (_ : string) : option (list ip) := None.
Definition plain_request (remote : string) : peer_request := PeerRequest remote "wthr.example.org" false (λ _, "").
Definition forging (remote : string) : peer_request :=
  PeerRequest remote "wthr.example.org" false
    (λ h, if str_eqb h "X-Real-IP" then "127.0.0.1" else if str_eqb h "X-Forwarded-Proto" then "https" else "").

Lemma forged_headers_ignored_witness :
  (trusted_get_client_ip no_names None (forging "203.0.113.9:4711") 0 ∅).1 = "203.0.113.9" ∧
  (trusted_get_client_ip no_names None (forging "10.1.2.3:80") 0 ∅).1 = "127.0.0.1".
Proof.
  split.
  - destruct (forged_headers_ignored no_names None (Machine "" None "" None) (forging "203.0.113.9:4711")
      (plain_request "203.0.113.9:4711") 0 ∅) as [H _]; [by split_and!|]. destruct H as (_ & -> & _); [|reflexivity].
    apply (peer_cache _ _ _ _ _ ∅). vm_compute. reflexivity.
  - destruct (forged_headers_ignored no_names None (Machine "" None "" None) (forging "10.1.2.3:80")
      (plain_request "10.1.2.3:80") 0 ∅) as [_ H]; [by split_and!|]. destruct H as (-> & _); [|reflexivity].
    exists (mapped [10; 1; 2; 3]). split; [reflexivity|]. left. right. by left.
Defined.

(** A proxy that appends to X-Forwarded-For, as the header is meant, keeps what the client put in front: the
    address taken is the client's own invention. *)
Lemma first_forwarded_believed forged real r : comma ∉ bytes forged → forged ≠ "" →
  (∀ h, pr_header r h = if str_eqb h "X-Forwarded-For" then forged +:+ String comma real else "") → get_client_ip r = forged.
Proof.
  intros Hc Hne Hh. unfold get_client_ip. rewrite !Hh. change (str_eqb "CF-Connecting-IP" "X-Forwarded-For") with false.
  change (str_eqb "X-Real-IP" "X-Forwarded-For") with false. change (str_eqb "X-Forwarded-For" "X-Forwarded-For") with true. cbn [is_empty].
  assert (is_empty (forged +:+ String comma real) = false) as ->.
  { apply bool_decide_eq_false. by destruct forged. }
  cbn [negb]. change (is_empty "") with true. cbn [negb]. by rewrite cut_byte_app.
Qed.

(** A link-local peer comes with its zone, which net.ParseIP refuses: fe80::/10 admits none of them. *)
Lemma link_local_never_trusted :
  (is_trusted_peer no_names None "[fe80::1%eth0]:4711" 0 ∅).1 = false ∧ (is_trusted_peer no_names None "[fe80::1]:4711" 0 ∅).1 = true.
Proof. vm_compute. done. Qed.
