(* ===== verification/Csrf.v ===== *)
(** CSRF protection (server/middleware/csrf.go), the paths exempt from it, and its place in
    front of authentication in the chain of main.go.  A request is what the middleware reads
    of it; the context it travels with is a record of the keys the middleware uses. *)
From S2P Require Import Prelude GoStrings GoTime GoGlob Sql Base64 Sessions Users UserTokens Login.
From Stdlib Require Import Ascii.
Open Scope Z_scope.

Record csrf_config := CsrfConfig {
  cf_enabled : bool; cf_length : Z; cf_cookie : string; cf_header : string; cf_secure : string; cf_exempt : list string
}.
Definition default_csrf_config : csrf_config :=
  CsrfConfig true 32 "csrf_token" "X-CSRF-Token" "auto" ["/api/*/server/auth/oidc/*/callback"; "/api/*/webhooks/*"].

(** [rq_cookie], [rq_header] and [rq_form] are r.Cookie, r.Header.Get and r.PostFormValue *)
Record request := Request {
  rq_method : string; rq_path : string; rq_tls : bool;
  rq_cookie : string → option string; rq_header : string → string; rq_form : string → string
}.
(** The values under "user", "admin_id" and "csrf_token" *)
Record context := Context_ { cx_user : option user; cx_admin : option Z; cx_token : option string }.
Definition background : context := Context_ None None None.
Definition with_token (token : string) (c : context) : context := Context_ (cx_user c) (cx_admin c) (Some token).

Definition has_bearer_credential (r : request) : bool :=
  has_prefix (rq_header r "Authorization") "Bearer " ||
  existsb (λ h, negb (is_empty (rq_header r h))) ["X-API-Token"; "X-Api-Key"; "X-Auth-Token"].
Definition is_websocket_upgrade (r : request) : bool := equal_fold (rq_header r "Upgrade") "websocket".
Definition is_public_endpoint (path : string) : bool :=
  existsb (has_prefix path) ["/server/healthz"; "/healthz"; "/metrics"; "/openapi"].

(** strings.Split(strings.Trim(p, "/"), "/") *)
Definition path_segments (p : string) : list string := split_byte (trim_byte p slash) slash.
Fixpoint segments_match (ps rs : list string) : bool :=
  match ps, rs with
  | [], _ => true
  | p :: ps, r :: rs => match path_match p r with Some true => segments_match ps rs | _ => false end
  | _ :: _, [] => false
  end.
Definition pattern_matches (rs : list string) (pattern : string) : bool :=
  if is_empty pattern then false
  else
    let ps := path_segments pattern in
    let trailing := str_eqb (default "" (last ps)) "*" in
    if (length rs <? length ps)%nat || ((length ps <? length rs)%nat && negb trailing) then false else segments_match ps rs.
Definition matches_exempt_path (path : string) (patterns : list string) : bool :=
  existsb (pattern_matches (path_segments path)) patterns.

(** generateCSRFToken; the cookie of setCSRFCookie as its name, value and Secure flag *)
Definition generate_csrf_token (rand : option (list Z)) : option string := url_encode <$> rand.
Definition csrf_cookie (r : request) (cfg : csrf_config) (token : string) : string * string * bool :=
  (cf_cookie cfg, token, if str_eqb (cf_secure cfg) "auto" then rq_tls r else str_eqb (cf_secure cfg) "true").
(** RegenerateCSRFToken *)
Definition regenerate_csrf_token (rand : option (list Z)) (r : request) (cfg : csrf_config) (c : context)
  : option ((string * string * bool) * context) :=
  (λ t, (csrf_cookie r cfg t, with_token t c)) <$> generate_csrf_token rand.

Inductive csrf_answer := Serve (c : context) | TokenMissing | TokenNotProvided | TokenMismatch | NoRandomToken.
Definition safe_method (m : string) : bool := existsb (str_eqb m) ["GET"; "HEAD"; "OPTIONS"].
Definition bypasses (cfg : csrf_config) (r : request) : bool :=
  has_bearer_credential r || is_websocket_upgrade r || is_public_endpoint (rq_path r) || matches_exempt_path (rq_path r) (cf_exempt cfg).
(** The token submitted: the form's, or else the header's *)
Definition submitted (cfg : csrf_config) (r : request) : string :=
  let form := rq_form r "csrf_token" in if is_empty form then rq_header r (cf_header cfg) else form.

Definition csrf_check (cfg : csrf_config) (r : request) (c : context) : csrf_answer :=
  if safe_method (rq_method r) then Serve c
  else if bypasses cfg r then Serve c
  else match cx_user c, cx_admin c with
  | None, None => Serve c
  | _, _ =>
      let cookie := default "" (rq_cookie r (cf_cookie cfg)) in
      if is_empty cookie then TokenMissing
      else if is_empty (submitted cfg r) then TokenNotProvided
      else if str_eqb (submitted cfg r) cookie then Serve c else TokenMismatch
  end.
Definition csrf_protection (cfg : csrf_config) (rand : option (list Z)) (r : request) (c : context)
  : option (string * string * bool) * csrf_answer :=
  if negb (cf_enabled cfg) then (None, Serve c)
  else
    let token := default "" (rq_cookie r (cf_cookie cfg)) in
    if is_empty token then
      match generate_csrf_token rand with
      | None => (None, NoRandomToken)
      | Some token => (Some (csrf_cookie r cfg token), csrf_check cfg r (with_token token c))
      end
    else (None, csrf_check cfg r (with_token token c)).

(** ** The places of administrators: users of the role admin, under the configured path *)

Definition admin_reachable (admin_path path : string) : bool :=
  existsb (has_prefix path) [admin_path; "/api"; "/static"; "/server/auth/login"; "/server/auth/logout"; "/server/auth/register";
    "/server/healthz"; "/healthz"; "/debug"; "/docs"].
Definition is_admin_user (c : context) : bool := match cx_user c with Some u => str_eqb (usr_role u) "admin" | None => false end.
(** RestrictAdminToAdminRoutes *)
Definition restrict_admin (admin_path path : string) (c : context) : context :=
  if admin_reachable admin_path path then c
  else if is_admin_user c then Context_ None (cx_admin c) (cx_token c) else c.
(** BlockAdminFromUserRoutes *)
Inductive user_gate := Enter | ToAdminPath | AdminForbidden.
Definition block_admin (path accept : string) (c : context) : user_gate :=
  if negb (has_prefix path "/users") then Enter
  else if is_admin_user c then if contains accept "text/html" then ToAdminPath else AdminForbidden
  else Enter.

(** ** The chain of a route that requires a user: CSRFProtection and
    RestrictAdminToAdminRoutes are registered on the root router, RequireAuth on the router of the
    route, so it runs after them *)
Section Chain.
Context `{Database W users_tables} (decode_data : string → option jobject).
Inductive route_answer := CsrfRefused (a : csrf_answer) | NotAuthenticated (p : passage) | AdminTurnedAway (g : user_gate)
  | Reached (c : context).
Definition user_route (cfg : csrf_config) (admin_path : string) (rand : option (list Z)) (r : request) (now1 now2 : instant) (w : W)
  : route_answer * option (instant → W → bool * W) * W :=
  match (csrf_protection cfg rand r background).2 with
  | Serve c =>
      let c := restrict_admin admin_path (rq_path r) c in
      let '(p, j, w) := auth_middleware decode_data true (rq_header r "Authorization")
        (default "" (rq_cookie r "weather_session")) (rq_header r "Accept") now1 now2 w in
      (match p with
       | Admitted_as u _ =>
           let c := Context_ (Some u) (cx_admin c) (cx_token c) in
           match block_admin (rq_path r) (rq_header r "Accept") c with Enter => Reached c | g => AdminTurnedAway g end
       | p => NotAuthenticated p
       end, j, w)
  | a => (CsrfRefused a, None, w)
  end.
End Chain.

(** * The token of a page is the one its form must bring back *)

(** What excuses a request from the check, and the requests that are checked *)
Definition excused (cfg : csrf_config) (r : request) : Prop :=
  has_prefix (rq_header r "Authorization") "Bearer " = true ∨
  (rq_header r "X-API-Token" ≠ "" ∨ rq_header r "X-Api-Key" ≠ "" ∨ rq_header r "X-Auth-Token" ≠ "") ∨
  equal_fold (rq_header r "Upgrade") "websocket" = true ∨
  (∃ p, p ∈ ["/server/healthz"; "/healthz"; "/metrics"; "/openapi"] ∧ has_prefix (rq_path r) p = true) ∨
  matches_exempt_path (rq_path r) (cf_exempt cfg) = true.
Definition checked (cfg : csrf_config) (r : request) (c : context) : Prop :=
  (rq_method r ∉ ["GET"; "HEAD"; "OPTIONS"]) ∧ ¬ excused cfg r ∧ (cx_user c ≠ None ∨ cx_admin c ≠ None).

Lemma existsb_elem {A} (p : A → bool) l : existsb p l = true ↔ ∃ x, x ∈ l ∧ p x = true.
Proof. rewrite existsb_exists. by setoid_rewrite list_elem_of_In. Qed.

Lemma bypasses_spec cfg r : bypasses cfg r = true ↔ excused cfg r.
Proof.
  unfold bypasses, excused, has_bearer_credential, is_websocket_upgrade, is_public_endpoint.
  assert (Hh : existsb (λ h, negb (is_empty (rq_header r h))) ["X-API-Token"; "X-Api-Key"; "X-Auth-Token"] = true ↔
    rq_header r "X-API-Token" ≠ "" ∨ rq_header r "X-Api-Key" ≠ "" ∨ rq_header r "X-Auth-Token" ≠ "").
  { assert (He : ∀ s, negb (is_empty s) = true ↔ s ≠ "").
    { intros s. rewrite negb_true_iff. unfold is_empty. apply bool_decide_eq_false. }
    cbn [existsb]. rewrite !orb_true_iff, !He. intuition congruence. }
  rewrite !orb_true_iff, Hh, existsb_elem. tauto.
Qed.

Lemma safe_method_spec m : safe_method m = true ↔ m ∈ ["GET"; "HEAD"; "OPTIONS"].
Proof.
  unfold safe_method. rewrite existsb_elem. unfold str_eqb. split.
  - intros (x & Hx & E%bool_decide_eq_true). congruence.
  - intros Hm. exists m. split; [done|]. by apply bool_decide_eq_true.
Qed.

(** The check: a request that is checked is served with the token of its cookie, a request that is not checked always. *)
Lemma csrf_check_spec cfg r c :
  (checked cfg r c → let cookie := default "" (rq_cookie r (cf_cookie cfg)) in csrf_check cfg r c =
     if decide (cookie = "") then TokenMissing else if decide (submitted cfg r = "") then TokenNotProvided
     else if decide (submitted cfg r = cookie) then Serve c else TokenMismatch) ∧
  (¬ checked cfg r c → csrf_check cfg r c = Serve c).
Proof.
  unfold csrf_check, checked. destruct (safe_method _) eqn:Hs.
  { apply safe_method_spec in Hs. split; [tauto|done]. }
  assert (Hs' : rq_method r ∉ ["GET"; "HEAD"; "OPTIONS"]) by (intros ?%safe_method_spec; congruence).
  destruct (bypasses cfg r) eqn:Hb.
  { apply bypasses_spec in Hb. split; [tauto|done]. }
  assert (Hb' : ¬ excused cfg r) by (intros ?%bypasses_spec; congruence).
  unfold is_empty, str_eqb. rewrite <-!decide_bool_decide.
  destruct (cx_user c), (cx_admin c); (split; [intros (_ & _ & [?|?]); done|intros Hn]); try done; destruct Hn; split_and!; auto.
Qed.

(** What a browser sends under the name of the cookie after the answer to [r] *)
Definition kept_cookie (cfg : csrf_config) (r : request) (k : option (string * string * bool)) : string :=
  match k with Some (_, t, _) => t | None => default "" (rq_cookie r (cf_cookie cfg)) end.

Lemma url_encode_ne l : l ≠ [] → url_encode l ≠ "".
Proof. destruct l as [|x [|y [|z l]]]; done. Qed.

(** C29: the CSRF middleware, when it is switched on.  A request that changes state (its
    method is not GET, HEAD or OPTIONS) in whose context a user or an administrator is
    known, and that no credential, WebSocket upgrade, public endpoint or exempt path excuses, is served
    only when its cookie holds a token and its form, or else its header, the same one; it is
    refused without a cookie, without a token and with another token, whatever is drawn.
    Every other request is served.  And the token given to a page that is served, which is
    not empty, is the one its browser then has as the cookie, so exactly the one the next
    form must bring back. *)
Theorem csrf_protocol cfg rand1 rand2 r1 r2 c1 c1' c2 k k2 a2 : cf_enabled cfg = true →
  (∀ l, rand1 = Some l → l ≠ []) → csrf_protection cfg rand1 r1 c1 = (k, Serve c1') →
  csrf_protection cfg rand2 r2 c2 = (k2, a2) →
  (∃ t, t ≠ "" ∧ c1' = with_token t c1 ∧ kept_cookie cfg r1 k = t) ∧
  (checked cfg r2 c2 → let cookie := default "" (rq_cookie r2 (cf_cookie cfg)) in
     a2 = if decide (cookie = "") then match rand2 with Some _ => TokenMissing | None => NoRandomToken end
          else if decide (submitted cfg r2 = "") then TokenNotProvided
          else if decide (submitted cfg r2 = cookie) then Serve (with_token cookie c2) else TokenMismatch) ∧
  (¬ checked cfg r2 c2 → a2 = NoRandomToken ∧ rand2 = None ∨ a2 = Serve (with_token (kept_cookie cfg r2 k2) c2)).
Proof.
  intros He Hr E E2. split.
  - assert (Hserve : ∀ c, csrf_check cfg r1 c = Serve c1' → c1' = c).
    { intros c. unfold csrf_check. repeat case_match; congruence. }
    unfold csrf_protection in E. rewrite He in E. cbn [negb] in E. destruct (is_empty _) eqn:Em.
    + destruct rand1 as [l|]; [|done]. injection E as <- E. exists (url_encode l).
      split; [by apply url_encode_ne, Hr|]. split; [by apply Hserve|done].
    + injection E as <- E. eexists. split; [|split; [by apply Hserve|done]]. by apply bool_decide_eq_false in Em.
  - unfold csrf_protection in E2. rewrite He in E2. cbn [negb] in E2.
    pose proof (λ t, csrf_check_spec cfg r2 (with_token t c2)) as K. unfold checked in *. cbn [cx_user cx_admin with_token] in K.
    destruct (is_empty _) eqn:Em.
    + apply is_empty_spec in Em. destruct rand2 as [l|]; injection E2 as <- <-.
      * destruct (K (url_encode l)) as [K1 K2]. split; [intros C; rewrite (K1 C); by rewrite Em|intros C; right; by rewrite (K2 C)].
      * split; [intros _; by rewrite Em|by left].
    + apply bool_decide_eq_false in Em. injection E2 as <- <-. destruct (K (default "" (rq_cookie r2 (cf_cookie cfg)))) as [K1 K2].
      split; [intros C; rewrite (K1 C); cbv zeta; by rewrite !(decide_False (P := default "" _ = "")) by done|
              intros C; right; by rewrite (K2 C)].
Qed.

(** * The exempt paths *)

Lemma split_free c s w : w ∈ split_byte s c → c ∉ bytes w.
Proof.
  revert w. induction s as [|a s IH]; intros w; cbn; [intros ->%list_elem_of_singleton; apply not_elem_of_nil|].
  case_decide as E.
  - intros [->|Hw]%elem_of_cons; [apply not_elem_of_nil|by apply IH].
  - destruct (split_byte s c) as [|v vs]; [intros ->%list_elem_of_singleton; by intros ->%list_elem_of_singleton|].
    intros [->|Hw]%elem_of_cons; [|apply IH; by right]. intros [->|Hin]%elem_of_cons; [done|].
    by apply (IH v); [left|].
Qed.

(** A pattern whose segments are words and stars, and the segments it fits *)
Definition wild (p : string) : bool := str_eqb p "*".
Lemma segments_match_spec ps rs : Forall (λ p, p = "*" ∨ Forall (λ c, literal_byte c = true) (bytes p)) ps →
  (∀ r, r ∈ rs → slash ∉ bytes r) → (length ps ≤ length rs)%nat →
  segments_match ps rs = true ↔ Forall2 (λ p r, p = "*" ∨ p = r) ps (take (length ps) rs).
Proof.
  intros HF. revert rs. induction HF as [|p ps Hp HF IH]; intros rs Hrs Hlen; [split; constructor|].
  destruct rs as [|r rs]; cbn in Hlen; [lia|]. cbn [segments_match length take].
  assert (Hr : slash ∉ bytes r) by (apply Hrs; by left). rewrite Forall2_cons, <-IH; [|intros r' Hr'; apply Hrs; by right|lia].
  destruct (decide (p = "*")) as [->|Hne].
  - rewrite path_match_star by done. tauto.
  - destruct Hp as [|Hp]; [done|]. rewrite path_match_literal by done. unfold str_eqb. rewrite bool_decide_decide.
    case_decide as E; [by rewrite E; tauto|]. split; [done|]. intros [[?|?] _]; congruence.
Qed.

Definition fits_pattern (ps rs : list string) : Prop := Forall2 (λ p r, p = "*" ∨ p = r) ps rs.
Lemma pattern_spec pattern ps rs : path_segments pattern = ps → is_empty pattern = false →
  Forall (λ p, p = "*" ∨ Forall (λ c, literal_byte c = true) (bytes p)) ps → (∀ r, r ∈ rs → slash ∉ bytes r) →
  pattern_matches rs pattern = true ↔
  if str_eqb (default "" (last ps)) "*" then (length ps ≤ length rs)%nat ∧ fits_pattern ps (take (length ps) rs)
  else fits_pattern ps rs.
Proof.
  intros <- He HF Hrs. unfold pattern_matches. rewrite He. set (ps := path_segments pattern) in *. set (star := str_eqb _ _).
  destruct (length rs <? length ps)%nat eqn:L.
  { apply Nat.ltb_lt in L. cbn [orb]. split; [done|]. destruct star; [intros [? _]; lia|]. intros HF2%Forall2_length. lia. }
  apply Nat.ltb_ge in L. cbn [orb]. destruct star.
  - rewrite andb_false_r, segments_match_spec by done. by split; [|intros [_ ?]].
  - rewrite andb_true_r. destruct (length ps <? length rs)%nat eqn:L2.
    + apply Nat.ltb_lt in L2. split; [done|]. intros HF2%Forall2_length. lia.
    + apply Nat.ltb_ge in L2. rewrite segments_match_spec by done. by rewrite take_ge by lia.
Qed.

(** With the default settings the paths exempt from the check are exactly those whose
    segments, without slashes at either end, are api/*/server/auth/oidc/*/callback or begin
    with api/*/webhooks/*, where a star is any one segment, the empty one included. *)
Theorem exempt_paths_exact path : let s := path_segments path in
  matches_exempt_path path (cf_exempt default_csrf_config) = true ↔
  (∃ v p, s = ["api"; v; "server"; "auth"; "oidc"; p; "callback"]) ∨ (∃ v x rest, s = "api" :: v :: "webhooks" :: x :: rest).
Proof.
  intros s. unfold matches_exempt_path. fold s. cbn [cf_exempt default_csrf_config existsb]. rewrite orb_false_r, orb_true_iff.
  assert (Hs : ∀ r, r ∈ s → slash ∉ bytes r) by (intros r; apply split_free). clearbody s.
  assert (Hoidc : path_segments "/api/*/server/auth/oidc/*/callback" = ["api"; "*"; "server"; "auth"; "oidc"; "*"; "callback"]) by reflexivity.
  assert (Hhook : path_segments "/api/*/webhooks/*" = ["api"; "*"; "webhooks"; "*"]) by reflexivity.
  rewrite (pattern_spec _ _ s Hoidc), (pattern_spec _ _ s Hhook);
    [|done|refine (bool_decide_unpack _ _); vm_compute; exact I|done|done|refine (bool_decide_unpack _ _); vm_compute; exact I|done].
  change (str_eqb (default "" (last ["api"; "*"; "server"; "auth"; "oidc"; "*"; "callback"])) "*") with false.
  change (str_eqb (default "" (last ["api"; "*"; "webhooks"; "*"])) "*") with true. cbv iota. unfold fits_pattern. f_equiv.
  - split.
    + intros H. repeat (apply Forall2_cons_inv_l in H as (? & ? & E & H & ->); destruct E as [E|E]; try discriminate E; try subst; try clear E).
      all: apply Forall2_nil_inv_l in H as ->; eauto.
    + intros (v & p & ->). repeat (apply Forall2_cons; split; [auto|]). constructor.
  - split.
    + destruct s as [|s1 [|s2 [|s3 [|s4 s]]]]; cbn; intros [Hl H]; try lia.
      repeat (apply Forall2_cons in H as [E H]; destruct E as [E|E]; try discriminate E; try subst; try clear E); eauto.
    + intros (v & x & rest & ->). cbn. split; [lia|]. repeat (apply Forall2_cons; split; [auto|]). constructor.
Qed.

(** * Witness and findings *)

Definition browser (method path cookie form : string) : request :=
  Request method path false (λ n, if str_eqb n "csrf_token" then (if is_empty cookie then None else Some cookie)
                                  else if str_eqb n "weather_session" then Some "token" else None)
    (λ _, "") (λ n, if str_eqb n "csrf_token" then form else "").
Definition as_admin : context := Context_ None (Some 1) None.

Lemma csrf_protocol_witness :
  let page := browser "GET" "/server/admin/config" "" "" in
  let '(k, a) := csrf_protection default_csrf_config (Some [1; 2; 3]) page as_admin in
  k = Some ("csrf_token", "AQID", false) ∧
  let post cookie form := (csrf_protection default_csrf_config (Some [4]) (browser "POST" "/server/admin/config" cookie form) as_admin).2 in
  post "AQID" "AQID" = Serve (with_token "AQID" as_admin) ∧ post "AQID" "forged" = TokenMismatch ∧ post "AQID" "" = TokenNotProvided ∧
  post "" "" = TokenMissing.
Proof.
  cbv zeta. set (page := browser "GET" "/server/admin/config" "" "").
  destruct (csrf_protection default_csrf_config (Some [1; 2; 3]) page as_admin) as [k a] eqn:E.
  assert (k = Some ("csrf_token", "AQID", false) ∧ a = Serve (with_token "AQID" as_admin)) as [-> ->].
  { vm_compute in E. injection E as <- <-. split; reflexivity. }
  split; [reflexivity|]. assert (Hr : ∀ l, Some [1; 2; 3] = Some l → l ≠ []) by (by intros l [= <-]).
  assert (Hc : ∀ cookie form, checked default_csrf_config (browser "POST" "/server/admin/config" cookie form) as_admin).
  { intros cookie form. split_and!; [|intros B%bypasses_spec; vm_compute in B; discriminate B|right; discriminate].
    intros S%safe_method_spec. vm_compute in S. discriminate S. }
  assert (P : ∀ cookie form, let r := browser "POST" "/server/admin/config" cookie form in
    let cookie := default "" (rq_cookie r "csrf_token") in
    (csrf_protection default_csrf_config (Some [4]) r as_admin).2 =
      if decide (cookie = "") then TokenMissing else if decide (submitted default_csrf_config r = "") then TokenNotProvided
      else if decide (submitted default_csrf_config r = cookie) then Serve (with_token cookie as_admin) else TokenMismatch).
  { intros cookie form. cbv zeta. destruct (csrf_protection _ _ (browser _ _ cookie form) _) as [k2 a2] eqn:E2.
    destruct (csrf_protocol default_csrf_config (Some [1; 2; 3]) (Some [4]) page (browser "POST" "/server/admin/config" cookie form)
      as_admin _ as_admin _ _ _ eq_refl Hr E E2) as (_ & C & _). exact (C (Hc cookie form)). }
  rewrite !P. split_and!; reflexivity.
Defined.

(** The check runs before the user is known, so no request to a route of users is ever
    refused by it, whatever tokens it brings. *)
Lemma csrf_never_checked `{Database W users_tables} decode_data cfg admin_path rand r now1 now2 (w : W) a :
  (user_route decode_data cfg admin_path rand r now1 now2 w).1.1 = CsrfRefused a → a = NoRandomToken.
Proof.
  unfold user_route. assert (Hc : ∀ t, csrf_check cfg r (with_token t background) = Serve (with_token t background)).
  { intros t. unfold csrf_check. cbn. by repeat case_match. }
  unfold csrf_protection. destruct (cf_enabled cfg), (is_empty _), (generate_csrf_token rand); cbn; rewrite ?Hc; cbn;
    try (destruct (auth_middleware _ _ _ _ _ _ _ w) as [[p j] w']; cbn; by repeat case_match). by intros [= <-].
Qed.
(** For the same reason administrators are never made anonymous. *)
Lemma admins_never_restricted admin_path path t : restrict_admin admin_path path (with_token t background) = with_token t background.
Proof. unfold restrict_admin. by destruct (admin_reachable _ _). Qed.
(** A forged form with the session cookie of the victim reaches the handler. *)
Lemma forged_form_reaches :
  match (user_route toy_decode default_csrf_config "/server/admin" (Some [1]) (browser "POST" "/api/v1/users/tokens" "secret" "forged")
    t_now t_now (Reliable (logged_in guarded_ann None))).1.1 with
  | Reached c => usr_id <$> cx_user c = Some 1
  | _ => False
  end.
Proof. vm_compute. reflexivity. Qed.
