(* ===== verification/Admins.v ===== *)
(** Server administrators (AdminModel of server/model/admin.go, and the deletion, disabling
    and enabling of accounts in main.go and graphql/schema.resolvers.go).  Foreign keys are
    switched on for one connection of the pool when the database is opened, so whether a
    statement enforces them depends on the connection it gets: [fk].  The JSON text of the
    default preferences and argon2.IDKey are parameters. *)
From S2P Require Import Prelude GoStrings GoTime Sql DbTime Sha256 Password Sessions.
From Stdlib Require Import Ascii.
Open Scope Z_scope.

(** * The tables *)

Record admin_row := AdminRow {
  a_id : Z; a_name : string; a_email : string; a_hash : string; a_token : option string; a_prefix : option string;
  a_super : bool; a_active : bool; a_created : scanned; a_updated : scanned; a_login : scanned
}.
Record pref_row := PrefRow { p_admin : Z; p_text : string; p_updated : scanned }.
(** Invites have their expiry as the stamp of the row, and so have sessions. *)
Record invite_cols := InviteCols {
  i_token : string; i_email : string; i_by : Z; i_created : scanned; i_used_by : option Z; i_used : scanned
}.
Record login_cols := LoginCols { l_admin : Z; l_ip : string; l_agent : string; l_created : scanned }.

Record server_tables := ServerTables {
  t_admins : list admin_row; t_next_admin : Z; t_prefs : list pref_row;
  t_invites : list (row invite_cols); t_logins : list (row login_cols)
}.
Definition put_admins (l : list admin_row) (t : server_tables) : server_tables :=
  ServerTables l (t_next_admin t) (t_prefs t) (t_invites t) (t_logins t).
Definition put_prefs (l : list pref_row) (t : server_tables) : server_tables :=
  ServerTables (t_admins t) (t_next_admin t) l (t_invites t) (t_logins t).
Definition put_invites (l : list (row invite_cols)) (t : server_tables) : server_tables :=
  ServerTables (t_admins t) (t_next_admin t) (t_prefs t) l (t_logins t).
Definition put_logins (l : list (row login_cols)) (t : server_tables) : server_tables :=
  ServerTables (t_admins t) (t_next_admin t) (t_prefs t) (t_invites t) l.

Definition has_id (id : Z) (r : admin_row) : bool := a_id r =? id.

(** The UNIQUE columns *)
Definition unique (l : list admin_row) : Prop :=
  NoDup (map a_name l) ∧ NoDup (map a_email l) ∧ NoDup (omap a_token l).
#[export] Instance unique_dec l : Decision (unique l).
Proof. unfold unique. apply _. Defined.

(** INSERT and UPDATE fail when the result would not be unique. *)
Definition insert_admin (r : Z → admin_row) (t : server_tables) : option Z * server_tables :=
  let l := t_admins t ++ [r (t_next_admin t)] in
  if decide (unique l)
  then (Some (t_next_admin t), ServerTables l (t_next_admin t + 1) (t_prefs t) (t_invites t) (t_logins t))
  else (None, t).
Definition update_admin (id : Z) (f : admin_row → admin_row) (t : server_tables) : bool * server_tables :=
  let l := map (λ r, if has_id id r then f r else r) (t_admins t) in
  if decide (unique l) then (true, put_admins l t) else (false, t).
Definition insert_prefs (fk : bool) (p : pref_row) (t : server_tables) : bool * server_tables :=
  if existsb (λ q, p_admin q =? p_admin p) (t_prefs t) || (fk && negb (existsb (has_id (p_admin p)) (t_admins t)))
  then (false, t) else (true, put_prefs (t_prefs t ++ [p]) t).

(** ON DELETE SET NULL of used_by *)
Definition forget_user (id : Z) (r : row invite_cols) : row invite_cols :=
  let c := r_rest r in
  if bool_decide (i_used_by c = Some id)
  then Row (r_id r) (r_stamp r) (InviteCols (i_token c) (i_email c) (i_by c) (i_created c) None (i_used c))
  else r.
Definition delete_admin_row (fk : bool) (id : Z) (t : server_tables) : unit * server_tables :=
  let t := put_admins (filter (λ r, has_id id r = false) (t_admins t)) t in
  (tt, if fk then
    put_logins (filter (λ r, l_admin (r_rest r) ≠ id) (t_logins t))
      (put_invites (map (forget_user id) (filter (λ r, i_by (r_rest r) ≠ id) (t_invites t)))
        (put_prefs (filter (λ p, p_admin p ≠ id) (t_prefs t)) t))
    else t).

(** * AdminModel *)

Record admin := Admin {
  ad_id : Z; ad_name : string; ad_email : string; ad_hash : string; ad_prefix : string; ad_super : bool;
  ad_active : bool; ad_created : instant; ad_updated : instant; ad_login : option instant
}.

Inductive admin_error :=
| NoRows | DriverError | HashFailed (e : password_error) | NoRandomToken | StoreFailed | PrefsFailed | BadFlags
| InvalidCredentials | VerifyFailed (e : password_error) | Disabled | LastSuperAdmin.

(** The Scan of a row; GetAll leaves the two columns it does not read empty *)
Definition scan_admin (r : admin_row) : admin :=
  Admin (a_id r) (a_name r) (a_email r) (a_hash r) (default "" (a_prefix r)) (a_super r) (a_active r)
    (default zero_time (parse_stored_timestamp (a_created r))) (default zero_time (parse_stored_timestamp (a_updated r)))
    (parse_stored_timestamp (a_login r)).
Definition scan_listed (r : admin_row) : admin :=
  let a := scan_admin r in
  Admin (ad_id a) (ad_name a) (ad_email a) "" "" (ad_super a) (ad_active a) (ad_created a) (ad_updated a) (ad_login a).

(** GenerateAPIToken and GetAPITokenPrefix; HashAPIToken is [hash_token] *)
Definition generate_api_token (rand : option (list Z)) : option string := (λ l, "adm_" +:+ hex_encode l) <$> rand.
Definition get_api_token_prefix (token : string) : string :=
  if (String.length token <? 8)%nat then token else of_bytes (take 8 (bytes token)).

Definition set_account (name email : string) (now : instant) (r : admin_row) : admin_row :=
  AdminRow (a_id r) name email (a_hash r) (a_token r) (a_prefix r) (a_super r) (a_active r) (a_created r)
    (VText (format_sql_timestamp now)) (a_login r).
Definition set_flags (super active : bool) (r : admin_row) : admin_row :=
  AdminRow (a_id r) (a_name r) (a_email r) (a_hash r) (a_token r) (a_prefix r) super active (a_created r)
    (a_updated r) (a_login r).
Definition set_hash (hash : string) (now : instant) (r : admin_row) : admin_row :=
  AdminRow (a_id r) (a_name r) (a_email r) hash (a_token r) (a_prefix r) (a_super r) (a_active r) (a_created r)
    (VText (format_sql_timestamp now)) (a_login r).
Definition set_token (token prefix : option string) (now : instant) (r : admin_row) : admin_row :=
  AdminRow (a_id r) (a_name r) (a_email r) (a_hash r) token prefix (a_super r) (a_active r) (a_created r)
    (VText (format_sql_timestamp now)) (a_login r).
Definition set_login (now : instant) (r : admin_row) : admin_row :=
  AdminRow (a_id r) (a_name r) (a_email r) (a_hash r) (a_token r) (a_prefix r) (a_super r) (a_active r) (a_created r)
    (a_updated r) (VText (format_sql_timestamp now)).

(** The arguments of UpdateAdminAccount after the address are interface values *)
Inductive flag := FlagBool (b : bool) | FlagOther.

Section Admins.
Context `{Database W server_tables}.
Context (id_key : list Z → list Z → Z → Z → Z → Z → option (list Z)) (default_prefs : Z → string).

Definition ask (f : server_tables → option admin_row) (w : W) : result admin_error admin * W :=
  let '(r, w) := query f w in
  (match r with
   | None => Fail DriverError
   | Some None => Fail NoRows
   | Some (Some r) => Ok (scan_admin r)
   end, w).
Definition get_by_id (id : Z) : W → result admin_error admin * W := ask (λ t, find (has_id id) (t_admins t)).
Definition get_by_email (email : string) : W → result admin_error admin * W :=
  ask (λ t, find (λ r, str_eqb (a_email r) email) (t_admins t)).
Definition get_by_api_token (token : string) : W → result admin_error admin * W :=
  ask (λ t, find (λ r, bool_decide (a_token r = Some (hash_token token)) && a_active r) (t_admins t)).

(** GetAll, in the order of the ids, and GetCount *)
Definition get_all (w : W) : option (list admin) * W :=
  query (λ t, map scan_listed (sort_stable (λ a b, a_id a <? a_id b) (t_admins t))) w.
Definition get_count (w : W) : option nat * W := query (λ t, length (t_admins t)) w.

Definition create_admin_account (fk : bool) (name email password : string) (super : bool) (salt token : option (list Z))
    (now : instant) (w : W) : result admin_error admin * W :=
  match hash_password id_key password salt with
  | Fail e => (Fail (HashFailed e), w)
  | Ok hash =>
      match generate_api_token token with
      | None => (Fail NoRandomToken, w)
      | Some token =>
          let stamp := VText (format_sql_timestamp now) in
          let '(r, w) := exec (insert_admin (λ id, AdminRow id name email hash (Some (hash_token token))
            (Some (get_api_token_prefix token)) super true stamp stamp VNull)) w in
          match r with
          | Some (Some id) =>
              let '(ok, w) := exec (insert_prefs fk (PrefRow id (default_prefs id) stamp)) w in
              match ok with Some true => get_by_id id w | _ => (Fail PrefsFailed, w) end
          | _ => (Fail StoreFailed, w)
          end
      end
  end.

Definition run_update (id : Z) (f : admin_row → admin_row) (w : W) : result admin_error unit * W :=
  let '(r, w) := exec (update_admin id f) w in (match r with Some true => Ok tt | _ => Fail StoreFailed end, w).

Definition update_admin_account (id : Z) (name email : string) (opts : list flag) (now : instant) (w : W)
  : result admin_error unit * W :=
  match opts with
  | FlagBool super :: FlagBool active :: _ => run_update id (λ r, set_flags super active (set_account name email now r)) w
  | _ :: _ :: _ => (Fail BadFlags, w)
  | _ => run_update id (set_account name email now) w
  end.

Definition update_password (id : Z) (password : string) (salt : option (list Z)) (now : instant) (w : W)
  : result admin_error unit * W :=
  match hash_password id_key password salt with
  | Fail e => (Fail (HashFailed e), w)
  | Ok hash => run_update id (set_hash hash now) w
  end.

Definition regenerate_api_token (id : Z) (rand : option (list Z)) (now : instant) (w : W)
  : result admin_error string * W :=
  match generate_api_token rand with
  | None => (Fail NoRandomToken, w)
  | Some token =>
      let '(r, w) := run_update id (set_token (Some (hash_token token)) (Some (get_api_token_prefix token)) now) w in
      (let? _ := r in Ok token, w)
  end.
Definition revoke_api_token (id : Z) (now : instant) : W → result admin_error unit * W :=
  run_update id (set_token None None now).
Definition update_last_login (id : Z) (now : instant) : W → result admin_error unit * W := run_update id (set_login now).

(** The active super administrators besides [id]: the count of DeleteAdminAccount, of
    countOtherActiveSuperAdmins and of countGraphQLOtherActiveSuperAdmins *)
Definition active_super (r : admin_row) : bool := a_super r && a_active r.
Definition count_other_active_super_admins (id : Z) (w : W) : option nat * W :=
  query (λ t, length (filter (λ r, active_super r && negb (has_id id r) = true) (t_admins t))) w.

(** DeleteAdminAccount *)
Definition delete_row (fk : bool) (id : Z) (w : W) : result admin_error unit * W :=
  let '(r, w) := exec (delete_admin_row fk id) w in (match r with Some _ => Ok tt | None => Fail StoreFailed end, w).
Definition may_delete (id : Z) (w : W) : result admin_error unit * W :=
  let '(n, w) := count_other_active_super_admins id w in
  match n with
  | None => (Fail DriverError, w)
  | Some n =>
      let '(r, w) := get_by_id id w in
      (let? a := r in if ad_super a && (n =? 0)%nat then Fail LastSuperAdmin else Ok tt, w)
  end.
Definition delete_admin_account (fk : bool) (id : Z) (w : W) : result admin_error unit * W :=
  let '(r, w) := may_delete id w in
  match r with Fail e => (Fail e, w) | Ok _ => delete_row fk id w end.

Definition check_password (password : string) (a : admin) : result admin_error admin :=
  match verify_password id_key password (ad_hash a) with
  | Fail e => Fail (VerifyFailed e)
  | Ok false => Fail InvalidCredentials
  | Ok true => if ad_active a then Ok a else Fail Disabled
  end.
Definition verify_credentials (username password : string) (w : W) : result admin_error admin * W :=
  let '(r, w) := get_by_email username w in
  match r with
  | Ok a => (check_password password a, w)
  | Fail _ =>
      let '(r, w) := ask (λ t, find (λ r, str_eqb (a_name r) username && a_active r) (t_admins t)) w in
      (match r with
       | Fail NoRows => Fail InvalidCredentials
       | Fail e => Fail e
       | Ok a => check_password password a
       end, w)
  end.
End Admins.

(** * Deleting, disabling and enabling accounts *)

Inductive guard_answer := Forbidden | SelfChange | PrimaryAdmin | AdminNotFound | LastSuper | NotDone | Done.

Section Guards.
Context `{Database W server_tables}.

Definition done_or {A} (r : result admin_error A) : guard_answer := match r with Ok _ => Done | Fail _ => NotDone end.

(** The routes of main.go; [actor] is the administrator whose token came with the request *)
Definition guarded (actor : admin) (id : Z) (k : W → guard_answer * W) (w : W) : guard_answer * W :=
  if negb (ad_super actor) then (Forbidden, w)
  else if id =? ad_id actor then (SelfChange, w)
  else if id =? 1 then (PrimaryAdmin, w)
  else k w.
Definition delete_admin (fk : bool) (actor : admin) (id : Z) : W → guard_answer * W :=
  guarded actor id (λ w, let '(r, w) := delete_admin_account fk id w in (done_or r, w)).
(** The tests before an account is disabled: [needs_other] says of the target whether
    another active super administrator must be left *)
Definition may_disable (needs_other : admin → bool) (id : Z) (w : W) : (guard_answer + admin) * W :=
  let '(r, w) := get_by_id id w in
  match r with
  | Fail _ => (inl AdminNotFound, w)
  | Ok target =>
      if needs_other target then
        let '(n, w) := count_other_active_super_admins id w in
        (match n with None => inl NotDone | Some O => inl LastSuper | Some _ => inr target end, w)
      else (inr target, w)
  end.
Definition set_active (active : bool) (id : Z) (target : admin) (now : instant) (w : W) : guard_answer * W :=
  let '(r, w) := update_admin_account id (ad_name target) (ad_email target)
                   [FlagBool (ad_super target); FlagBool active] now w in (done_or r, w).
Definition disable_checked (needs_other : admin → bool) (id : Z) (now : instant) (w : W) : guard_answer * W :=
  let '(r, w) := may_disable needs_other id w in
  match r with inl a => (a, w) | inr target => set_active false id target now w end.
Definition disable_admin (actor : admin) (id : Z) (now : instant) : W → guard_answer * W :=
  guarded actor id (disable_checked ad_super id now).
Definition enable_found (id : Z) (now : instant) (w : W) : guard_answer * W :=
  let '(r, w) := get_by_id id w in
  match r with Fail _ => (AdminNotFound, w) | Ok target => set_active true id target now w end.
Definition enable_admin (actor : admin) (id : Z) (now : instant) (w : W) : guard_answer * W :=
  if negb (ad_super actor) then (Forbidden, w) else enable_found id now w.

(** The GraphQL mutations: any administrator may call them *)
Definition graphql_guarded (actor : admin) (id : Z) (k : W → guard_answer * W) (w : W) : guard_answer * W :=
  if id =? ad_id actor then (SelfChange, w) else if id =? 1 then (PrimaryAdmin, w) else k w.
Definition super_and_active (a : admin) : bool := ad_super a && ad_active a.
Definition admin_delete_server_admin (fk : bool) (actor : admin) (id : Z) : W → guard_answer * W :=
  graphql_guarded actor id (λ w,
    let '(r, w) := may_disable super_and_active id w in
    match r with
    | inl a => (a, w)
    | inr _ => let '(r, w) := delete_admin_account fk id w in (done_or r, w)
    end).
Definition admin_disable_server_admin (actor : admin) (id : Z) (now : instant) : W → guard_answer * W :=
  graphql_guarded actor id (disable_checked super_and_active id now).
Definition admin_enable_server_admin (id : Z) (now : instant) : W → guard_answer * W := enable_found id now.
End Guards.

(** * The invariant: unique accounts, and an active super administrator *)

Definition admins_ok (t : server_tables) : Prop :=
  unique (t_admins t) ∧ NoDup (map a_id (t_admins t)) ∧ (∀ r, r ∈ t_admins t → a_id r < t_next_admin t).
Definition has_super (t : server_tables) : Prop := ∃ r, r ∈ t_admins t ∧ active_super r = true.

Section Invariant.
Context `{DatabaseLaws W server_tables}.

Lemma find_has_id id l r : find (has_id id) l = Some r → r ∈ l ∧ a_id r = id.
Proof. intros [Hin Hid]%find_some. split; [by apply list_elem_of_In|by apply Z.eqb_eq]. Qed.

Lemma admin_by_id_cases id (w w' : W) r : get_by_id id w = (r, w') →
  tables w' = tables w ∧ (∀ a, r = Ok a → ∃ row, find (has_id id) (t_admins (tables w)) = Some row ∧ a = scan_admin row).
Proof.
  unfold get_by_id, ask. exec_case w1 E Ht; intros [= <- <-]; (split; [done|]); [|done].
  intros a. destruct (find _ _) as [row|]; [|done]. intros [= <-]. eauto.
Qed.

(** Counting the others answers whether there is one. *)
Lemma count_cases id (w w' : W) n : count_other_active_super_admins id w = (n, w') →
  tables w' = tables w ∧ ∀ k, n = Some (S k) → ∃ r, r ∈ t_admins (tables w) ∧ active_super r = true ∧ a_id r ≠ id.
Proof.
  unfold count_other_active_super_admins. exec_case w1 E Ht; intros [= <- <-]; (split; [done|]); [|done].
  intros k Hk. destruct (filter _ (t_admins (tables w))) as [|r l] eqn:F; [done|].
  assert (Hr : r ∈ r :: l) by left. rewrite <-F in Hr. apply list_elem_of_filter in Hr as [Hp Hin].
  apply andb_true_iff in Hp as [Hs Hn]. exists r. split_and!; [done..|]. intros <-. unfold has_id in Hn.
  by rewrite Z.eqb_refl in Hn.
Qed.

Definition keeps_id (f : admin_row → admin_row) : Prop := ∀ r, a_id (f r) = a_id r.

(** What an UPDATE of one account leaves. *)
Lemma update_admin_ok id f t b t' : update_admin id f t = (b, t') → keeps_id f → admins_ok t → admins_ok t'.
Proof.
  unfold update_admin. case_decide as Hu; intros [= <- <-] Hf Hok; [|done]. destruct Hok as (_ & ND & Hlt).
  set (g := λ r, if has_id id r then f r else r).
  assert (Hg : ∀ r, a_id (g r) = a_id r) by (intros r; unfold g; by destruct (has_id id r)).
  assert (Hm : map a_id (map g (t_admins t)) = map a_id (t_admins t)).
  { rewrite map_map. apply map_ext. exact Hg. }
  split_and!; [done|cbn; by rewrite Hm|].
  intros r (r0 & -> & Hr)%list_elem_of_fmap. cbn. fold (g r0). rewrite Hg. by apply Hlt.
Qed.

Lemma update_admin_super id f t b t' : update_admin id f t = (b, t') →
  (∀ r, r ∈ t_admins t → a_id r = id → active_super r = true → active_super (f r) = true) ∨
  (∃ r, r ∈ t_admins t ∧ active_super r = true ∧ a_id r ≠ id) →
  has_super t → has_super t'.
Proof.
  unfold update_admin. case_decide as Hu; intros [= <- <-] Hf Hs; [|done]. destruct Hf as [Hf|(r & Hr & Ha & Hne)].
  - destruct Hs as (r & Hr & Ha). exists (if has_id id r then f r else r).
    split; [by apply list_elem_of_fmap_2 with (f := λ r, if has_id id r then f r else r)|].
    destruct (has_id id r) eqn:E; [|done]. apply Hf; [done|by apply Z.eqb_eq|done].
  - exists r. split; [|done]. apply list_elem_of_fmap. exists r. split; [|done].
    assert (has_id id r = false) as -> by by apply Z.eqb_neq. done.
Qed.

Lemma insert_admin_ok r t o t' : insert_admin r t = (o, t') → (∀ n, a_id (r n) = n) → admins_ok t →
  admins_ok t' ∧ (has_super t → has_super t').
Proof.
  unfold insert_admin. case_decide as Hu; intros [= <- <-] Hr Hok; [|done]. destruct Hok as (_ & ND & Hlt). split; [split_and!|].
  - done.
  - cbn. rewrite map_app. apply NoDup_app. split_and!; [done| |apply NoDup_singleton].
    intros i (r0 & -> & Hin)%list_elem_of_fmap Hi%list_elem_of_singleton. apply Hlt in Hin. rewrite Hr in Hi. lia.
  - cbn. intros r0 [Hin|Hin%list_elem_of_singleton]%elem_of_app; [apply Hlt in Hin; lia|subst r0; rewrite Hr; lia].
  - intros (r0 & Hin & Ha). exists r0. split; [|done]. cbn. apply elem_of_app. by left.
Qed.

Lemma delete_row_admins fk id t : t_admins (delete_admin_row fk id t).2 = filter (λ r, has_id id r = false) (t_admins t) ∧
  t_next_admin (delete_admin_row fk id t).2 = t_next_admin t.
Proof. by destruct fk. Qed.

Lemma delete_row_ok fk id t : admins_ok t → admins_ok (delete_admin_row fk id t).2.
Proof.
  intros ((Hn & He & Ht) & ND & Hlt). unfold admins_ok. destruct (delete_row_admins fk id t) as [-> ->]. split_and!.
  - split_and!; [by apply NoDup_map_filter..|].
    by apply NoDup_omap_filter.
  - by apply NoDup_map_filter.
  - intros r [_ Hr]%list_elem_of_filter. by apply Hlt.
Qed.
End Invariant.

Inductive admin_op :=
| OpCreate (fk : bool) (name email password : string) (super : bool) (salt token : option (list Z)) (now : instant)
| OpRename (id : Z) (name email : string) (now : instant)
| OpPassword (id : Z) (password : string) (salt : option (list Z)) (now : instant)
| OpRegenerate (id : Z) (rand : option (list Z)) (now : instant)
| OpRevokeToken (id : Z) (now : instant)
| OpLastLogin (id : Z) (now : instant)
| OpDeleteAccount (fk : bool) (id : Z)
| OpDelete (fk : bool) (actor : admin) (id : Z)
| OpDisable (actor : admin) (id : Z) (now : instant)
| OpEnable (actor : admin) (id : Z) (now : instant)
| OpMutationDelete (fk : bool) (actor : admin) (id : Z)
| OpMutationDisable (actor : admin) (id : Z) (now : instant)
| OpMutationEnable (id : Z) (now : instant).

Section LastSuper.
Context `{DatabaseLaws W server_tables}.
Context (id_key : list Z → list Z → Z → Z → Z → Z → option (list Z)) (default_prefs : Z → string).

Definition run_admin_op (o : admin_op) (w : W) : W :=
  match o with
  | OpCreate fk n e p s salt token now => (create_admin_account id_key default_prefs fk n e p s salt token now w).2
  | OpRename id n e now => (update_admin_account id n e [] now w).2
  | OpPassword id p salt now => (update_password id_key id p salt now w).2
  | OpRegenerate id rand now => (regenerate_api_token id rand now w).2
  | OpRevokeToken id now => (revoke_api_token id now w).2
  | OpLastLogin id now => (update_last_login id now w).2
  | OpDeleteAccount fk id => (delete_admin_account fk id w).2
  | OpDelete fk actor id => (delete_admin fk actor id w).2
  | OpDisable actor id now => (disable_admin actor id now w).2
  | OpEnable actor id now => (enable_admin actor id now w).2
  | OpMutationDelete fk actor id => (admin_delete_server_admin fk actor id w).2
  | OpMutationDisable actor id now => (admin_disable_server_admin actor id now w).2
  | OpMutationEnable id now => (admin_enable_server_admin id now w).2
  end.

Definition governed (t : server_tables) : Prop := admins_ok t ∧ has_super t.

Lemma same_admin l r row id : NoDup (map a_id l) → r ∈ l → a_id r = id → find (has_id id) l = Some row → r = row.
Proof.
  intros ND Hr Hid Hrow. assert (E : find (has_id id) l = Some r); [|congruence].
  apply (find_unique a_id); [done|done|by apply Z.eqb_eq|]. intros y ->%Z.eqb_eq. done.
Qed.

Lemma run_update_governed id f (w : W) : keeps_id f →
  (∀ r, r ∈ t_admins (tables w) → a_id r = id → active_super r = true → active_super (f r) = true) ∨
  (∃ r, r ∈ t_admins (tables w) ∧ active_super r = true ∧ a_id r ≠ id) →
  governed (tables w) → governed (tables (run_update id f w).2).
Proof.
  intros Hk Hf [Hok Hs]. unfold run_update. exec_case w1 E Ht; cbn [snd]; [|by rewrite Ht].
  split; [by eapply update_admin_ok|by eapply update_admin_super].
Qed.

(** An update that leaves the flags alone *)
Lemma run_update_plain id f (w : W) : keeps_id f → (∀ r, active_super (f r) = active_super r) →
  governed (tables w) → governed (tables (run_update id f w).2).
Proof. intros Hk Hf. apply run_update_governed; [done|]. left. intros r _ _. by rewrite Hf. Qed.

Lemma create_governed fk n e p s salt token now (w : W) : governed (tables w) →
  governed (tables (create_admin_account id_key default_prefs fk n e p s salt token now w).2).
Proof.
  intros [Hok Hs]. unfold create_admin_account.
  destruct (hash_password _ _ _) as [hash|]; [|done]. destruct (generate_api_token token) as [tk|]; [|done].
  exec_case w1 E Ht; [|cbn; by rewrite Ht]. rename x into o.
  apply insert_admin_ok in Ht as [Hok1 Hs1]; [|done|done]. specialize (Hs1 Hs).
  destruct o as [id|]; [|done]. exec_case w2 E2 Ht2; [|cbn; by rewrite Ht2].
  assert (Hg : governed (tables w2)).
  { unfold insert_prefs in Ht2. destruct (_ || _); injection Ht2 as <- <-; by split. }
  rename x into ok. destruct ok; [|done].
  destruct (get_by_id id w2) as [r w3] eqn:G. apply admin_by_id_cases in G as [Ht3 _]. cbn. by rewrite Ht3.
Qed.

(** Deletion goes through only if another active super administrator is left, or the
    account was not one. *)
Lemma may_delete_ok id (w w' : W) : may_delete id w = (Ok tt, w') →
  tables w' = tables w ∧
  ((∃ r, r ∈ t_admins (tables w) ∧ active_super r = true ∧ a_id r ≠ id) ∨
   ∃ row, find (has_id id) (t_admins (tables w)) = Some row ∧ a_super row = false).
Proof.
  unfold may_delete. destruct (count_other_active_super_admins id w) as [n w1] eqn:C.
  apply count_cases in C as [Ht1 Hn]. destruct n as [n|]; [|done].
  destruct (get_by_id id w1) as [r w2] eqn:G. apply admin_by_id_cases in G as [Ht2 Hr]. rewrite Ht1 in *.
  destruct r as [a|]; [|done]. destruct (Hr a eq_refl) as (row & Hrow & ->). cbn [ad_super scan_admin].
  destruct (a_super row) eqn:S; cbn [andb].
  - destruct n as [|k]; [done|]. intros [= <-]. split; [done|]. left. by apply (Hn k).
  - intros [= <-]. split; [done|]. right. eauto.
Qed.
Lemma may_delete_tables id (w w' : W) r : may_delete id w = (r, w') → tables w' = tables w.
Proof.
  unfold may_delete. destruct (count_other_active_super_admins id w) as [n w1] eqn:C.
  apply count_cases in C as [Ht1 _]. destruct n as [n|]; [|by intros [= <- <-]].
  destruct (get_by_id id w1) as [a w2] eqn:G. apply admin_by_id_cases in G as [Ht2 _]. intros [= <- <-]. by rewrite Ht2.
Qed.

Lemma delete_governed fk id (w : W) : governed (tables w) → governed (tables (delete_admin_account fk id w).2).
Proof.
  intros [Hok Hs]. unfold delete_admin_account. destruct (may_delete id w) as [r w1] eqn:M.
  pose proof (may_delete_tables _ _ _ _ M) as Ht1. destruct r as [[]|]; [|cbn; by rewrite Ht1].
  apply may_delete_ok in M as [_ Hleft]. unfold delete_row. exec_case w2 E Ht; cbn [snd]; [|by rewrite Ht, Ht1].
  rewrite Ht1 in Ht. assert (Ht2 : tables w2 = (delete_admin_row fk id (tables w)).2) by (by rewrite Ht).
  rewrite Ht2. split; [by apply delete_row_ok|]. unfold has_super. rewrite (proj1 (delete_row_admins fk id (tables w))).
  assert (Hother : ∃ r, r ∈ t_admins (tables w) ∧ active_super r = true ∧ a_id r ≠ id).
  { destruct Hleft as [|(row & Hrow & Hnot)]; [done|]. destruct Hs as (r & Hr & Ha). exists r. split_and!; [done..|].
    intros Hid. destruct Hok as (_ & ND & _). pose proof (same_admin _ r row id ND Hr Hid Hrow) as ->.
    unfold active_super in Ha. by rewrite Hnot in Ha. }
  destruct Hother as (r & Hr & Ha & Hne). exists r. split; [|done]. apply list_elem_of_filter.
  split; [by apply Z.eqb_neq|done].
Qed.

(** Disabling, with either test *)
Lemma may_disable_ok needs id (w w' : W) a : may_disable needs id w = (a, w') →
  tables w' = tables w ∧ ∀ target, a = inr target →
    ∃ row, find (has_id id) (t_admins (tables w)) = Some row ∧ target = scan_admin row ∧
      (needs target = true → ∃ r, r ∈ t_admins (tables w) ∧ active_super r = true ∧ a_id r ≠ id).
Proof.
  unfold may_disable. destruct (get_by_id id w) as [r w1] eqn:G. apply admin_by_id_cases in G as [Ht1 Hr].
  destruct r as [target|]; [|by intros [= <- <-]]. destruct (Hr target eq_refl) as (row & Hrow & ->).
  destruct (needs (scan_admin row)) eqn:N.
  - destruct (count_other_active_super_admins id w1) as [n w2] eqn:C. apply count_cases in C as [Ht2 Hn].
    intros [= <- <-]. rewrite Ht2, Ht1 in *. split; [done|]. intros target. destruct n as [[|k]|]; try done.
    intros [= <-]. exists row. split_and!; [done..|]. intros _. by apply (Hn k).
  - intros [= <- <-]. split; [done|]. intros target [= <-]. exists row. split_and!; [done..|]. congruence.
Qed.

Lemma disable_governed (needs : admin → bool) id now (w : W) :
  (∀ a, ad_super a && ad_active a = true → needs a = true) →
  governed (tables w) → governed (tables (disable_checked needs id now w).2).
Proof.
  intros Hneeds [Hok Hs]. unfold disable_checked. destruct (may_disable needs id w) as [a w1] eqn:M.
  apply may_disable_ok in M as [Ht1 Ha]. destruct a as [a|target]; [cbn; by rewrite Ht1|].
  destruct (Ha target eq_refl) as (row & Hrow & -> & Hother). unfold set_active, update_admin_account.
  set (f := λ r, set_flags _ _ (set_account _ _ now r)).
  assert (Hg : governed (tables (run_update id f w1).2)).
  { apply run_update_governed; [done| |by rewrite Ht1]. rewrite Ht1.
    destruct (ad_super (scan_admin row) && ad_active (scan_admin row)) eqn:SA; [right; by apply Hother, Hneeds|].
    left. intros r Hr Hid Hact. destruct Hok as (_ & ND & _). pose proof (same_admin _ r row id ND Hr Hid Hrow) as ->.
    cbn in SA. unfold active_super in Hact. congruence. }
  by destruct (run_update id f w1).
Qed.

Lemma enable_governed id now (w : W) : governed (tables w) → governed (tables (enable_found id now w).2).
Proof.
  intros Hg. unfold enable_found. destruct (get_by_id id w) as [r w1] eqn:G. apply admin_by_id_cases in G as [Ht1 Hr].
  destruct r as [target|]; [|cbn; by rewrite Ht1]. destruct (Hr target eq_refl) as (row & Hrow & ->).
  unfold set_active, update_admin_account. set (f := λ r, set_flags _ _ (set_account _ _ now r)).
  assert (Hg' : governed (tables (run_update id f w1).2)).
  { apply run_update_governed; [done| |by rewrite Ht1]. rewrite Ht1. left. intros r Hin Hid Hact.
    destruct Hg as [(_ & ND & _) _]. pose proof (same_admin _ r row id ND Hin Hid Hrow) as ->.
    unfold active_super in Hact |- *. cbn. apply andb_true_iff in Hact as [-> _]. done. }
  by destruct (run_update id f w1).
Qed.

Lemma guarded_governed actor id k (w : W) : governed (tables w) → governed (tables (k w).2) →
  governed (tables (guarded actor id k w).2).
Proof. intros Hg Hk. unfold guarded. destruct (negb _); [done|]. destruct (_ =? _); [done|]. by destruct (_ =? _). Qed.

Lemma op_governed o (w : W) : governed (tables w) → governed (tables (run_admin_op o w)).
Proof.
  intros Hg. destruct o as [fk n e p s salt token now|id n e now|id p salt now|id rand now|id now|id now|fk id
    |fk actor id|actor id now|actor id now|fk actor id|actor id now|id now]; cbn [run_admin_op].
  - by apply create_governed.
  - by apply run_update_plain.
  - unfold update_password. destruct (hash_password _ _ _); [by apply run_update_plain|done].
  - unfold regenerate_api_token. destruct (generate_api_token rand) as [tk|]; [|done].
    pose proof (run_update_plain id (set_token (Some (hash_token tk)) (Some (get_api_token_prefix tk)) now) w) as P.
    destruct (run_update _ _ w). by apply P.
  - by apply run_update_plain.
  - by apply run_update_plain.
  - by apply delete_governed.
  - apply guarded_governed; [done|]. pose proof (delete_governed fk id w Hg) as P. by destruct (delete_admin_account fk id w).
  - apply guarded_governed; [done|]. apply disable_governed; [|done]. by intros a [? _]%andb_true_iff.
  - unfold enable_admin. case_match; [done|]. by apply enable_governed.
  - unfold admin_delete_server_admin, graphql_guarded.
    destruct (_ =? _); [done|]. destruct (_ =? _); [done|]. destruct (may_disable _ id w) as [a w1] eqn:M. apply may_disable_ok in M as [Ht1 _].
    destruct a; [cbn; by rewrite Ht1|]. rewrite <-Ht1 in Hg.
    pose proof (delete_governed fk id w1 Hg) as P. by destruct (delete_admin_account fk id w1).
  - unfold admin_disable_server_admin, graphql_guarded.
    destruct (_ =? _); [done|]. destruct (_ =? _); [done|]. by apply disable_governed.
  - by apply enable_governed.
Qed.

(** C32: an active super administrator remains.  Over every sequence of account operations
    and of the routes and mutations that delete, disable and enable accounts, whoever calls
    them and whichever statements fail: accounts stay unique in id, name, address and token,
    and if one of them is an active super administrator before, one is after. *)
Theorem last_super_admin ops (w : W) :
  admins_ok (tables w) → has_super (tables w) →
  let w' := foldl (λ w o, run_admin_op o w) w ops in admins_ok (tables w') ∧ has_super (tables w').
Proof.
  intros Hok Hs. cbv zeta. assert (Hg : governed (tables w)) by (by split). clear Hok Hs. revert w Hg.
  induction ops as [|o ops IH]; intros w Hg; [exact Hg|]. cbn [foldl]. apply IH. by apply op_governed.
Qed.
End LastSuper.

(** * Log-in *)

Section LogIn.
Context `{DatabaseLaws W server_tables}.
Context (id_key : list Z → list Z → Z → Z → Z → Z → option (list Z)).

Lemma ask_cases f (w w' : W) r : ask f w = (r, w') →
  tables w' = tables w ∧
  (r = Fail DriverError ∨ (r = Fail NoRows ∧ f (tables w) = None) ∨
   ∃ row, r = Ok (scan_admin row) ∧ f (tables w) = Some row).
Proof.
  unfold ask. exec_case w1 E Ht; intros [= <- <-]; (split; [done|]); [|by left]. right.
  destruct (f (tables w)) as [row|]; [right; eauto|by left].
Qed.
Lemma ask_up f (w w' : W) r : never_fails W server_tables → ask f w = (r, w') →
  r = match f (tables w) with Some row => Ok (scan_admin row) | None => Fail NoRows end.
Proof.
  intros Hup A. pose proof A as [_ [->|[[-> ->]|(row & -> & ->)]]]%ask_cases; [|done..].
  exfalso. unfold ask, query in A. destruct (exec _ w) as [[o|] w1] eqn:E; [by destruct o|by apply Hup in E].
Qed.

Lemma check_password_ok p row a : check_password id_key p (scan_admin row) = Ok a →
  a = scan_admin row ∧ a_active row = true ∧ verify_password id_key p (a_hash row) = Ok true.
Proof.
  unfold check_password. cbn [ad_hash ad_active scan_admin]. destruct (verify_password _ _ _) as [[]|]; try done.
  destruct (a_active row) eqn:E; [|done]. by intros [= <-].
Qed.

(** log-in with user name or address.  Whatever statements fail, nothing changes, and
    whoever is let in is an active account with that address or name whose stored hash
    verifies the password.  When the database answers, an active account is found by its
    address, and by its name as long as no account has that name for an address, and the
    answer for it is that of the password alone. *)
Theorem verify_credentials_correct u p (w w' : W) r :
  admins_ok (tables w) → verify_credentials id_key u p w = (r, w') →
  tables w' = tables w ∧
  (∀ a, r = Ok a → ∃ row, row ∈ t_admins (tables w) ∧ a = scan_admin row ∧ a_active row = true ∧
     (a_email row = u ∨ a_name row = u) ∧ verify_password id_key p (a_hash row) = Ok true) ∧
  (never_fails W server_tables → ∀ row, row ∈ t_admins (tables w) → a_active row = true →
     a_email row = u ∨ (a_name row = u ∧ ∀ other, other ∈ t_admins (tables w) → a_email other ≠ u) →
     r = check_password id_key p (scan_admin row)).
Proof.
  intros ((Hn & He & _) & _) V. unfold verify_credentials in V.
  destruct (get_by_email u w) as [r1 w1] eqn:G. unfold get_by_email in G.
  pose proof (ask_cases _ _ _ _ G) as [Ht1 C1]. set (byname := ask _ w1) in V. destruct byname as [r2 w2] eqn:N. subst byname.
  pose proof (ask_cases _ _ _ _ N) as [Ht2 C2]. rewrite Ht1 in Ht2, C2. split_and!.
  - destruct r1; by injection V as _ <-.
  - intros a ->. destruct C1 as [->|[[-> _]|(row & -> & F)]].
    1,2: injection V as V _; destruct C2 as [->|[[-> _]|(row & -> & F)]]; try done;
      apply check_password_ok in V as (-> & Ha & Hp); apply find_some in F as [Hin Hb]; apply andb_true_iff in Hb as [Hb _];
      apply bool_decide_eq_true in Hb; exists row; rewrite list_elem_of_In; tauto.
    injection V as V _. apply check_password_ok in V as (-> & Ha & Hp). apply find_some in F as [Hin Hb].
    apply bool_decide_eq_true in Hb. exists row. rewrite list_elem_of_In. tauto.
  - intros Hup row Hin Ha Hu. pose proof (ask_up _ _ _ _ Hup G) as R1. pose proof (ask_up _ _ _ _ Hup N) as R2. rewrite Ht1 in R2.
    cbv beta in R1, R2. destruct Hu as [Hu|[Hu Hother]].
    + rewrite (find_unique a_email _ _ row) in R1; [by subst r1; injection V|done|done|by apply bool_decide_eq_true|].
      intros y Hy. apply bool_decide_eq_true in Hy. congruence.
    + assert (Hnone : find (λ r, str_eqb (a_email r) u) (t_admins (tables w)) = None).
      { destruct (find _ _) as [x|] eqn:F; [|done]. apply find_some in F as [Hx Hb%bool_decide_eq_true].
        apply list_elem_of_In in Hx. by apply Hother in Hx. }
      rewrite Hnone in R1. subst r1. rewrite (find_unique a_name _ _ row) in R2; [by subst r2; injection V|done|done| |].
      * rewrite Ha, andb_true_r. by apply bool_decide_eq_true.
      * intros y [Hy _]%andb_true_iff. apply bool_decide_eq_true in Hy. congruence.
Qed.
End LogIn.

(** * At work *)

Definition sample_hash (p : string) : string :=
  match hash_password toy_key p (Some (map Z.of_nat (seq 100 16))) with Ok h => h | Fail _ => "" end.
Definition sample_admin (id : Z) (name : string) (super active : bool) : admin_row :=
  AdminRow id name (name +:+ "@example.org") (sample_hash name) None None super active VNull VNull VNull.
Definition sample_server : server_tables :=
  ServerTables [sample_admin 1 "ann" true false; sample_admin 2 "bob" true true; sample_admin 3 "cyd" true true;
                sample_admin 4 "dan" false true] 5 [] [] [].

Lemma sample_server_ok : admins_ok sample_server.
Proof.
  split; [refine (bool_decide_unpack _ _); vm_compute; exact I|].
  split; [refine (bool_decide_unpack _ _); vm_compute; exact I|].
  intros r Hr. cbn in Hr. repeat (apply elem_of_cons in Hr as [->|Hr]; [cbn; lia|]). by apply not_elem_of_nil in Hr.
Qed.

(** Each tries to remove the other. *)
Definition coup : list admin_op :=
  let bob := scan_admin (sample_admin 2 "bob" true true) in
  let cyd := scan_admin (sample_admin 3 "cyd" true true) in
  [OpDelete true bob 3; OpDisable cyd 2 0; OpMutationDelete false cyd 2; OpDeleteAccount true 2].

Lemma last_super_admin_witness :
  let w := foldl (λ w o, run_admin_op toy_key (λ _, "{}") o w) (Reliable sample_server) coup in
  map a_id (t_admins (tables w)) = [1; 2; 4] ∧ has_super (tables w).
Proof.
  split; [vm_compute; reflexivity|].
  assert (Hok : admins_ok (tables (Reliable sample_server))) by exact sample_server_ok.
  apply (last_super_admin (W := reliable server_tables) toy_key (λ _, "{}") coup (Reliable sample_server)); [exact Hok|].
  exists (sample_admin 2 "bob" true true). split; [by right; left|done].
Defined.

Lemma verify_credentials_correct_witness :
  (verify_credentials toy_key "bob" "bob" (Reliable sample_server)).1 = Ok (scan_admin (sample_admin 2 "bob" true true)) ∧
  (verify_credentials toy_key "bob" "eve" (Reliable sample_server)).1 = Fail InvalidCredentials.
Proof.
  assert (Hok : admins_ok (tables (Reliable sample_server))) by exact sample_server_ok.
  assert (Hrow : sample_admin 2 "bob" true true ∈ t_admins (tables (Reliable sample_server))) by (by right; left).
  assert (Hu : ∀ other, other ∈ t_admins (tables (Reliable sample_server)) → a_email other ≠ "bob").
  { intros other Hin. cbn in Hin. repeat (apply elem_of_cons in Hin as [->|Hin]; [discriminate|]). by apply not_elem_of_nil in Hin. }
  pose proof (λ p, verify_credentials_correct (W := reliable server_tables) toy_key "bob" p (Reliable sample_server) _ _ Hok
    (surjective_pairing _)) as P.
  split; (etransitivity; [refine (proj2 (proj2 (P _)) (reliable_never_fails _) _ Hrow eq_refl (or_intror (conj eq_refl Hu)))|
    vm_compute; reflexivity]).
Defined.

(** Two deletions at once: both count the other as the super administrator that is left. *)
Lemma both_supers_deleted :
  let w := Reliable sample_server in
  let '(r1, w) := may_delete 2 w in
  let '(r2, w) := may_delete 3 w in
  r1 = Ok tt ∧ r2 = Ok tt ∧
  filter (λ r, active_super r = true) (t_admins (tables (delete_row true 3 (delete_row true 2 w).2).2)) = [].
Proof. vm_compute. done. Qed.

(** A failure after the INSERT leaves the account, which the caller is told does not exist. *)
Lemma created_and_failed :
  let r := create_admin_account toy_key (λ _, "{}") true "eve" "eve@example.org" "secret" false
             (Some [1]) (Some [2]) 0 (Faulty sample_server [false; true]) in
  r.1 = Fail PrefsFailed ∧ map a_name (t_admins (tables r.2)) = ["ann"; "bob"; "cyd"; "dan"; "eve"].
Proof. vm_compute. done. Qed.
