(* ===== verification/AdminAccess.v ===== *)
(** Sessions and invitations of administrators (AdminSessionModel and AdminInviteModel of
    server/model/admin.go, server/service/admin_invite.go, RequireAdminAuth of
    server/middleware/admin_auth.go).  The order of rows of one creation time is the
    engine's: [newest_first] is a parameter with the law of [OrderBy]. *)
From S2P Require Import Prelude GoStrings GoTime Sql DbTime Sha256 Base64 Password Sessions Names Admins.
From Stdlib Require Import Ascii.
Open Scope Z_scope.

(** * Sessions *)

Record admin_session := AdminSession {
  as_id : string; as_admin : Z; as_ip : string; as_agent : string; as_created : instant; as_expires : instant; as_used : instant
}.
Definition login_id (r : row login_cols) : string := match r_id r with VText s | VBytes s => s | _ => "" end.
Definition scan_login (r : row login_cols) : admin_session :=
  let c := r_rest r in
  let created := default zero_time (parse_stored_timestamp (l_created c)) in
  AdminSession (login_id r) (l_admin c) (l_ip c) (l_agent c) created (default zero_time (parse_stored_timestamp (r_stamp r))) created.
Definition has_login (sid : string) (r : row login_cols) : bool := str_eqb (login_id r) sid.

Inductive access_error := NoRandom | ConnectionError | SessionNotFound | InviteNotFound | BadExpiration | NotStored
  | InviteUsed | InviteExpired | BadEmail (e : email_error) | BadName (e : username_error) | InviterNotFound
  | AlreadyAdmin | AccountFailed (e : admin_error).

(** INSERT into server_admin_sessions: the id is the primary key *)
Definition insert_login (fk : bool) (r : row login_cols) (t : server_tables) : bool * server_tables :=
  if existsb (has_login (login_id r)) (t_logins t) || (fk && negb (existsb (has_id (l_admin (r_rest r))) (t_admins t)))
  then (false, t) else (true, put_logins (t_logins t ++ [r]) t).

Section Logins.
Context `{Database W server_tables}.
Context (newest_login : list (row login_cols) → list (row login_cols)).

Definition create_admin_session (fk : bool) (rand : option (list Z)) (admin : Z) (ip agent : string) (duration : Z)
    (now1 now2 now3 : instant) (w : W) : result access_error admin_session * W :=
  match generate_session_id rand with
  | None => (Fail NoRandom, w)
  | Some sid =>
      let expires := now1 + duration in
      let '(r, w) := exec (insert_login fk (Row (VText sid) (VText (format_sql_timestamp expires))
        (LoginCols admin ip agent (VText (format_sql_timestamp now2))))) w in
      match r with
      | Some true => (Ok (AdminSession sid admin ip agent now3 expires now3), w)
      | _ => (Fail NotStored, w)
      end
  end.
Definition get_admin_session (sid : string) (w : W) : result access_error admin_session * W :=
  let '(r, w) := query (λ t, find (has_login sid) (t_logins t)) w in
  (match r with
   | None => Fail ConnectionError
   | Some None => Fail SessionNotFound
   | Some (Some r) => Ok (scan_login r)
   end, w).
Definition admin_session_expired (s : admin_session) (now : instant) : bool := as_expires s <? now.
(** UpdateSessionLastUsed does nothing *)
Definition update_admin_session_last_used (sid : string) (w : W) : result access_error unit * W := (Ok tt, w).

Definition delete_logins (p : row login_cols → bool) (w : W) : bool * W :=
  let '(r, w) := exec (λ t, (tt, put_logins (filter (λ r, p r = false) (t_logins t)) t)) w in (bool_decide (is_Some r), w).
Definition delete_admin_session (sid : string) : W → bool * W := delete_logins (has_login sid).
Definition delete_all_sessions_for_admin (admin : Z) : W → bool * W := delete_logins (λ r, l_admin (r_rest r) =? admin).
Definition delete_expired_admin_sessions (now : instant) (w : W) : bool * W :=
  let '((_, ok), w) := @delete_rows_before _ _ (part_database t_logins put_logins) now false w in (ok, w).

Definition live_login (now : instant) (r : row login_cols) : bool := is_after (r_stamp r) now.
Definition get_active_admin_sessions (admin : Z) (now : instant) (w : W) : result access_error (list admin_session) * W :=
  let '(r, w) := query (λ t, newest_login (filter (λ r, l_admin (r_rest r) = admin ∧ r_stamp r ≠ VNull) (t_logins t))) w in
  (match r with
   | None => Fail ConnectionError
   | Some rows => Ok (map scan_login (filter (λ r, live_login now r = true) rows))
   end, w).

(** RequireAdminAuth: who passes with the cookie, if any *)
Definition require_admin_auth (cookie : string) (now : instant) (w : W) : option Z * W :=
  if is_empty cookie then (None, w)
  else
    let '(r, w) := query (λ t, find (has_login cookie) (t_logins t)) w in
    (match r with
     | Some (Some r) => if is_after (r_stamp r) now then Some (l_admin (r_rest r)) else None
     | _ => None
     end, w).
End Logins.

(** * Invitations: AdminInviteModel *)

Record admin_invite := AdminInvite {
  ai_id : Z; ai_token : string; ai_email : string; ai_by : Z; ai_created : instant; ai_expires : instant;
  ai_used_by : option Z; ai_used : option instant
}.
Definition rowid (r : row invite_cols) : Z := match r_id r with VInt z => z | _ => 0 end.
Definition scan_invite (r : row invite_cols) : admin_invite :=
  let c := r_rest r in
  AdminInvite (rowid r) (i_token c) (i_email c) (i_by c) (default zero_time (parse_stored_timestamp (i_created c)))
    (default zero_time (parse_stored_timestamp (r_stamp r))) (i_used_by c) (parse_stored_timestamp (i_used c)).
Definition has_token (h : string) (r : row invite_cols) : bool := str_eqb (i_token (r_rest r)) h.
Definition admin_exists (id : Z) (t : server_tables) : bool := existsb (has_id id) (t_admins t).

(** The next rowid is one more than the largest; the digest is the primary key *)
Definition next_rowid (l : list (row invite_cols)) : Z := foldr (λ r, Z.max (rowid r)) 0 l + 1.
Definition insert_invite (fk : bool) (c : invite_cols) (expires : scanned) (t : server_tables) : option Z * server_tables :=
  let id := next_rowid (t_invites t) in
  if existsb (has_token (i_token c)) (t_invites t) || (fk && negb (admin_exists (i_by c) t))
  then (None, t) else (Some id, put_invites (t_invites t ++ [Row (VInt id) expires c]) t).
Definition mark_invite (by_id : Z) (now : instant) (r : row invite_cols) : row invite_cols :=
  let c := r_rest r in
  Row (r_id r) (r_stamp r) (InviteCols (i_token c) (i_email c) (i_by c) (i_created c) (Some by_id)
    (VText (format_sql_timestamp now))).
(** UPDATE: the foreign key matters only when a row is changed *)
Definition update_invite (fk : bool) (h : string) (by_id : Z) (now : instant) (t : server_tables) : bool * server_tables :=
  if fk && existsb (has_token h) (t_invites t) && negb (admin_exists by_id t) then (false, t)
  else (true, put_invites (map (λ r, if has_token h r then mark_invite by_id now r else r) (t_invites t)) t).

Section Invites.
Context `{Database W server_tables}.
Context (newest_invite : list (row invite_cols) → list (row invite_cols)).

Definition create_admin_invite (fk : bool) (rand : option (list Z)) (email : string) (by_id : Z) (expires_in : Z)
    (now1 now2 now3 : instant) (w : W) : result access_error admin_invite * W :=
  match generate_session_id rand with
  | None => (Fail NoRandom, w)
  | Some token =>
      if expires_in <=? 0 then (Fail BadExpiration, w)
      else
        let expires := now1 + expires_in in
        let '(r, w) := exec (insert_invite fk (InviteCols (hash_token token) email by_id
          (VText (format_sql_timestamp now2)) None VNull) (VText (format_sql_timestamp expires))) w in
        match r with
        | Some (Some id) => (Ok (AdminInvite id token email by_id now3 expires None None), w)
        | _ => (Fail NotStored, w)
        end
  end.
Definition get_invite (token : string) (w : W) : result access_error admin_invite * W :=
  let '(r, w) := query (λ t, find (has_token (hash_token token)) (t_invites t)) w in
  (match r with
   | None => Fail ConnectionError
   | Some None => Fail InviteNotFound
   | Some (Some r) => Ok (scan_invite r)
   end, w).
Definition mark_invite_used (fk : bool) (token : string) (used_by : Z) (now : instant) (w : W) : bool * W :=
  let '(r, w) := exec (update_invite fk (hash_token token) used_by now) w in (bool_decide (r = Some true), w).
Definition delete_expired_invites (now : instant) (w : W) : bool * W :=
  let '(r, w) := exec (λ t, (tt, put_invites (filter (λ r, i_used (r_rest r) = VNull) (t_invites t)) t)) w in
  match r with
  | None => (false, w)
  | Some _ => let '((_, ok), w) := @delete_rows_before _ _ (part_database t_invites put_invites) now false w in (ok, w)
  end.
Definition pending_invite (now : instant) (r : row invite_cols) : bool :=
  match parse_stored_timestamp (r_stamp r) with Some e => now <? e | None => false end.
Definition get_pending_invites (now : instant) (w : W) : result access_error (list admin_invite) * W :=
  let '(r, w) := query (λ t, newest_invite (filter (λ r, i_used (r_rest r) = VNull ∧ r_stamp r ≠ VNull) (t_invites t))) w in
  (match r with
   | None => Fail ConnectionError
   | Some rows => Ok (map (λ r, let i := scan_invite r in
       AdminInvite (ai_id i) (ai_token i) (ai_email i) (ai_by i) (ai_created i) (ai_expires i) None None)
       (filter (λ r, pending_invite now r = true) rows))
   end, w).

(** * AdminInviteService *)

Definition default_admin_invite_expiration : string := "24h".
Definition admin_invite_expirations : list (string * Z) :=
  [("1h", hour); ("6h", 6 * hour); ("24h", 24 * hour); ("48h", 48 * hour); ("7d", 7 * 24 * hour)].
Definition parse_admin_invite_expiration (value : string) : result access_error (string * Z) :=
  let normalized := if is_empty value then default_admin_invite_expiration else value in
  match find (λ e, str_eqb e.1 normalized) admin_invite_expirations with
  | Some (_, expires_in) => Ok (normalized, expires_in)
  | None => Fail BadExpiration
  end.

(** CreateInvite; the mail that may follow is left out *)
Definition service_create_invite (fk : bool) (rand : option (list Z)) (email : string) (invited_by : Z) (expiration : string)
    (now1 now2 now3 : instant) (w : W) : result access_error (admin_invite * string) * W :=
  let email := normalize_email email in
  match validate_email email with
  | Fail e => (Fail (BadEmail e), w)
  | Ok _ =>
      match parse_admin_invite_expiration expiration with
      | Fail e => (Fail e, w)
      | Ok (normalized, expires_in) =>
          let '(r, w) := get_by_id invited_by w in
          match r with
          | Fail _ => (Fail InviterNotFound, w)
          | Ok _ =>
              let '(r, w) := get_by_email email w in
              match r with
              | Ok _ => (Fail AlreadyAdmin, w)
              | Fail _ =>
                  let '(r, w) := create_admin_invite fk rand email invited_by expires_in now1 now2 now3 w in
                  (let? invite := r in Ok (invite, normalized), w)
              end
          end
      end
  end.

Definition verify_invite (token : string) (now : instant) (w : W) : result access_error admin_invite * W :=
  let '(r, w) := get_invite token w in
  (match r with
   | Fail _ => Fail InviteNotFound
   | Ok i => if bool_decide (is_Some (ai_used_by i)) then Fail InviteUsed
             else if ai_expires i <? now then Fail InviteExpired
             else Ok i
   end, w).

Context (id_key : list Z → list Z → Z → Z → Z → Z → option (list Z)) (default_prefs : Z → string).

(** AcceptInvite: an invite that cannot be marked as used is only reported *)
Definition accept_invite (fk : bool) (token name password : string) (salt api : option (list Z))
    (now1 now2 now3 : instant) (w : W) : result access_error admin * W :=
  let '(r, w) := verify_invite token now1 w in
  match r with
  | Fail e => (Fail e, w)
  | Ok invite =>
      let name := normalize_username name in
      match validate_username name with
      | Fail e => (Fail (BadName e), w)
      | Ok _ =>
          let '(r, w) := create_admin_account id_key default_prefs fk name (ai_email invite) password false salt api now2 w in
          match r with
          | Fail e => (Fail (AccountFailed e), w)
          | Ok a => let '(_, w) := mark_invite_used fk token (ad_id a) now3 w in (Ok a, w)
          end
      end
  end.
Definition revoke_invite (fk : bool) (token : string) (now : instant) : W → bool * W := mark_invite_used fk token 0 now.
End Invites.

(** * One invitation, one account *)

Definition digest (r : row invite_cols) : string := i_token (r_rest r).
(** Digests are the primary key, and no preferences wait for an account to come. *)
Definition access_ok (t : server_tables) : Prop :=
  admins_ok t ∧ NoDup (map digest (t_invites t)) ∧ (∀ p, p ∈ t_prefs t → p_admin p < t_next_admin t).
Definition open_invite (t : server_tables) (h : string) (r : row invite_cols) : Prop :=
  r ∈ t_invites t ∧ digest r = h ∧ i_used_by (r_rest r) = None.

Record acceptance := Acceptance {
  ac_fk : bool; ac_token : string; ac_name : string; ac_password : string; ac_salt : option (list Z);
  ac_api : option (list Z); ac_now1 : instant; ac_now2 : instant; ac_now3 : instant
}.
(** The digests of the accepted ones, in order *)
Definition accepted (l : list acceptance) (rs : list (result access_error admin)) : list string :=
  omap (λ p, if is_ok p.2 then Some (hash_token (ac_token p.1)) else None) (zip l rs).

Lemma accepted_cons a r l rs : accepted (a :: l) (r :: rs) =
  if is_ok r then hash_token (ac_token a) :: accepted l rs else accepted l rs.
Proof. by destruct r. Qed.

Section Once.
Context `{DatabaseLaws W server_tables} (up : never_fails W server_tables).
Context (id_key : list Z → list Z → Z → Z → Z → Z → option (list Z)) (default_prefs : Z → string).

Definition accept (a : acceptance) : W → result access_error admin * W :=
  accept_invite id_key default_prefs (ac_fk a) (ac_token a) (ac_name a) (ac_password a) (ac_salt a) (ac_api a)
    (ac_now1 a) (ac_now2 a) (ac_now3 a).
Fixpoint accept_all (l : list acceptance) (w : W) : list (result access_error admin) * W :=
  match l with
  | [] => ([], w)
  | a :: l => let '(r, w) := accept a w in let '(rs, w) := accept_all l w in (r :: rs, w)
  end.

Lemma query_up {A} (f : server_tables → A) (w : W) :
  ∃ w', query f w = (Some (f (tables w)), w') ∧ tables w' = tables w.
Proof.
  destruct (query_cases _ f w) as [|(w' & E & _)]; [done|]. unfold query in E. by apply up in E.
Qed.

Lemma verify_invite_cases token now (w w' : W) r : verify_invite token now w = (r, w') →
  tables w' = tables w ∧ ∀ i, r = Ok i → ∃ row, open_invite (tables w) (hash_token token) row ∧ ai_email i = i_email (r_rest row).
Proof.
  unfold verify_invite, get_invite. set (h := hash_token token). clearbody h.
  destruct (query_up (λ t, find (has_token h) (t_invites t)) w) as (w1 & -> & Ht). intros [= <- <-]. split; [done|].
  intros i. destruct (find _ _) as [row|] eqn:F; [|done]. apply find_some in F as [Hin Hd%bool_decide_eq_true].
  cbn [scan_invite ai_used_by ai_expires]. destruct (i_used_by (r_rest row)) eqn:U; [done|].
  rewrite bool_decide_eq_false_2 by (by intros []). destruct (_ <? _); [done|]. intros [= <-].
  exists row. split; [|done]. split_and!; [by apply list_elem_of_In|done|done].
Qed.

(** Without failing statements the account is created whole or not at all. *)
Lemma create_whole fk name email password salt api now (w w' : W) r :
  admins_ok (tables w) → (∀ p, p ∈ t_prefs (tables w) → p_admin p < t_next_admin (tables w)) →
  create_admin_account id_key default_prefs fk name email password false salt api now w = (r, w') →
  match r with
  | Fail _ => tables w' = tables w
  | Ok a => ∃ new p, ad_id a = t_next_admin (tables w) ∧ a_id new = t_next_admin (tables w) ∧ a_email new = email ∧
      a_name new = name ∧ a_super new = false ∧ p_admin p = t_next_admin (tables w) ∧ admins_ok (tables w') ∧
      tables w' = ServerTables (t_admins (tables w) ++ [new]) (t_next_admin (tables w) + 1) (t_prefs (tables w) ++ [p])
                    (t_invites (tables w)) (t_logins (tables w))
  end.
Proof.
  intros Hok Hp. unfold create_admin_account.
  destruct (hash_password _ _ _) as [hash|]; [|by intros [= <- <-]]. destruct (generate_api_token api) as [tk|]; [|by intros [= <- <-]].
  set (new := λ id, AdminRow id _ _ _ _ _ _ _ _ _ _).
  destruct (exec_up _ (insert_admin new) w up) as (o & w1 & -> & Ht). pose proof Ht as Hok1.
  apply insert_admin_ok in Hok1 as [Hok1 _]; [|done|done]. unfold insert_admin in Ht.
  case_decide as U; injection Ht as <- Ht; [|by intros [= <- <-]]. set (n := t_next_admin (tables w)) in *.
  set (p := PrefRow _ _ _). destruct (exec_up _ (insert_prefs fk p) w1 up) as (ok & w2 & -> & Ht2).
  unfold insert_prefs in Ht2. rewrite <-Ht in Ht2. cbn [t_prefs t_admins p_admin p] in Ht2.
  assert (E1 : existsb (λ q, p_admin q =? n) (t_prefs (tables w)) = false).
  { apply not_true_iff_false. rewrite existsb_spec. intros (q & Hq & E%Z.eqb_eq). apply Hp in Hq. lia. }
  assert (E2 : existsb (has_id n) (t_admins (tables w) ++ [new n]) = true).
  { apply existsb_spec. exists (new n). split; [apply elem_of_app; right; by left|apply Z.eqb_refl]. }
  rewrite E1, E2, andb_false_r in Ht2. cbn [orb] in Ht2. injection Ht2 as <- Ht2.
  unfold get_by_id, ask. destruct (query_up (λ t, find (has_id n) (t_admins t)) w2) as (w3 & -> & Ht3).
  rewrite <-Ht2 in Ht3 |- *. cbn [put_prefs t_admins].
  assert (F : find (has_id n) (t_admins (tables w) ++ [new n]) = Some (new n)).
  { rewrite find_app. destruct (find (has_id n) (t_admins (tables w))) as [x|] eqn:F; [|cbn; unfold has_id; cbn; by rewrite Z.eqb_refl].
    apply find_has_id in F as [Hx Hid]. destruct Hok as (_ & _ & Hlt). apply Hlt in Hx. unfold n in Hid. lia. }
  rewrite F. intros [= <- <-]. exists (new n), p. rewrite Ht3. rewrite <-Ht in Hok1. by split_and!.
Qed.

Lemma mark_same_digest h id now r : digest (if has_token h r then mark_invite id now r else r) = digest r.
Proof. by destruct (has_token h r). Qed.

(** One acceptance *)
Lemma accept_step a (w w' : W) r : access_ok (tables w) → accept a w = (r, w') →
  let h := hash_token (ac_token a) in
  access_ok (tables w') ∧
  match r with
  | Fail _ => tables w' = tables w
  | Ok adm => ∃ row new, open_invite (tables w) h row ∧ t_admins (tables w') = t_admins (tables w) ++ [new] ∧
      a_email new = i_email (r_rest row) ∧ a_super new = false ∧ validate_username (a_name new) = Ok tt ∧
      ∀ row', open_invite (tables w') h row' → False
  end ∧
  ∀ h' row', open_invite (tables w') h' row' → open_invite (tables w) h' row'.
Proof.
  intros Hacc. unfold accept, accept_invite. set (h := hash_token (ac_token a)).
  destruct (verify_invite (ac_token a) (ac_now1 a) w) as [r1 w1] eqn:V. apply verify_invite_cases in V as [Ht1 Hopen].
  fold h in Hopen. rewrite <-Ht1 in Hacc, Hopen |- *.
  destruct r1 as [invite|]; [|by intros [= <- <-]]. destruct (Hopen invite eq_refl) as (row & Hrow & ->).
  destruct (validate_username _) as [[]|] eqn:N; [|by intros [= <- <-]].
  destruct (create_admin_account _ _ _ _ _ _ _ _ _ _ w1) as [r2 w2] eqn:C.
  pose proof Hacc as (Hok & Hnd & Hp). apply create_whole in C; [|done|done].
  destruct r2 as [adm|]; [|by intros [= <- <-]; rewrite C].
  destruct C as (new & p & Hid & Hnid & He & Hname & Hs & Hpid & Hok2 & Ht2).
  unfold mark_invite_used. fold h.
  destruct (exec_up _ (update_invite (ac_fk a) h (ad_id adm) (ac_now3 a)) w2 up) as (b & w3 & -> & Ht3). intros [= <- <-].
  assert (Hex : admin_exists (ad_id adm) (tables w2) = true).
  { unfold admin_exists. rewrite Ht2. apply existsb_spec. exists new. split; [apply elem_of_app; right; by left|].
    apply Z.eqb_eq. congruence. }
  unfold update_invite in Ht3. rewrite Hex, andb_false_r in Ht3. injection Ht3 as _ Ht3.
  set (mark := λ r, if has_token h r then mark_invite (ad_id adm) (ac_now3 a) r else r) in *.
  assert (Hi : t_invites (tables w3) = map mark (t_invites (tables w1))) by (by rewrite <-Ht3, Ht2).
  assert (Hback : ∀ h' row', open_invite (tables w3) h' row' → h' ≠ h ∧ open_invite (tables w1) h' row').
  { intros h' row'. unfold open_invite. rewrite Hi. intros ((row0 & -> & Hin)%list_elem_of_fmap & Hd & Hu).
    unfold mark in *. destruct (has_token h row0) eqn:E; [done|]. split; [|done].
    intros ->. apply bool_decide_eq_false in E. by apply E. }
  split; [unfold access_ok; split_and!|split].
  - rewrite <-Ht3. exact Hok2.
  - rewrite Hi, map_map. rewrite (map_ext _ digest); [done|]. intros x. apply mark_same_digest.
  - rewrite <-Ht3, Ht2. cbn [put_invites t_prefs t_next_admin].
    intros q [Hq|Hq%list_elem_of_singleton]%elem_of_app; [apply Hp in Hq; lia|subst q; lia].
  - exists row, new. split_and!; [done| |done|done|by rewrite Hname|].
    + by rewrite <-Ht3, Ht2.
    + intros row' Ho%Hback. by destruct Ho.
  - intros h' row' Ho%Hback. by destruct Ho.
Qed.

(** What a sequence of acceptances leaves. *)
Lemma accept_all_spec l (w w' : W) rs : access_ok (tables w) → accept_all l w = (rs, w') →
  access_ok (tables w') ∧ NoDup (accepted l rs) ∧
  (∀ h, h ∈ accepted l rs → ∀ r, ¬ open_invite (tables w') h r) ∧
  (∀ h r, open_invite (tables w') h r → open_invite (tables w) h r) ∧
  ∃ invites new, Forall2 (open_invite (tables w)) (accepted l rs) invites ∧
    t_admins (tables w') = t_admins (tables w) ++ new ∧ map a_email new = map (λ r, i_email (r_rest r)) invites ∧
    Forall (λ r, a_super r = false ∧ validate_username (a_name r) = Ok tt) new ∧
    (accepted l rs = [] → tables w' = tables w).
Proof.
  intros Hok R.
  revert w rs Hok R. induction l as [|a l IH]; intros w rs Hok; cbn [accept_all].
  - intros [= <- <-]. split_and!; [done|apply NoDup_nil_2|by intros h ?%not_elem_of_nil|done|].
    exists [], []. rewrite app_nil_r. by split_and!.
  - destruct (accept a w) as [r w1] eqn:A. destruct (accept_all l w1) as [rs1 w2] eqn:R. intros [= <- <-].
    apply accept_step in A as (Hok1 & Hr & Hback); [|done].
    destruct (IH w1 rs1 Hok1 R) as (Hok2 & ND & Hgone & Hback2 & invites & new & Hinv & Hadm & Hmail & Hnew & Hsame).
    rewrite accepted_cons. assert (Hinv' : Forall2 (open_invite (tables w)) (accepted l rs1) invites).
    { eapply Forall2_impl; [exact Hinv|]. intros h r0. apply Hback. }
    destruct r as [adm|e]; cbn [is_ok].
    + destruct Hr as (row & nw & Hrow & Hadm1 & Hmail1 & Hs1 & Hn1 & Hclosed). split_and!; [done| | |by intros h r0 ?%Hback2%Hback|].
      * apply NoDup_cons. split; [|done]. intros Hin. apply list_elem_of_lookup in Hin as [i Hi]. destruct (Forall2_lookup_l _ _ _ _ _ Hinv Hi) as (r0 & _ & Ho).
        by apply Hclosed in Ho.
      * intros h [->|Hh]%elem_of_cons r0 Ho; [by apply Hback2, Hclosed in Ho|by apply (Hgone h Hh r0)].
      * exists (row :: invites), (nw :: new). rewrite Hadm, Hadm1, <-app_assoc. cbn.
        split_and!; [by constructor|done|by rewrite Hmail, Hmail1|by constructor|done].
    + split_and!; [done|done|done|by intros h r0 ?%Hback2%Hback|]. exists invites, new. rewrite Hadm, Hr. split_and!; try done.
      intros Hnil. by rewrite Hsame.
Qed.

(** an invitation makes one account.  While the database answers and no account is
    deleted, over any sequence of acceptances, by anyone with any token: the accepted tokens
    are pairwise different and were open invitations before; the new accounts are as many,
    each with the address its invitation was sent to and a valid user name, none of them a
    super administrator; and a refused acceptance changes nothing. *)
Theorem invite_once l (w w' : W) rs :
  access_ok (tables w) → accept_all l w = (rs, w') →
  NoDup (accepted l rs) ∧
  ∃ invites new, Forall2 (open_invite (tables w)) (accepted l rs) invites ∧
    t_admins (tables w') = t_admins (tables w) ++ new ∧
    map a_email new = map (λ r, i_email (r_rest r)) invites ∧
    Forall (λ r, a_super r = false ∧ validate_username (a_name r) = Ok tt) new ∧
    (accepted l rs = [] → tables w' = tables w).
Proof.
  intros Hok R. by destruct (accept_all_spec l w w' rs Hok R) as (_ & ND & _ & _ & Hrest).
Qed.
End Once.

(** * At work *)

Definition ann_invites : option (list Z) := Some (map Z.of_nat (seq 0 32)).
Definition invited : reliable server_tables :=
  (create_admin_invite true ann_invites "eve@example.org" 2 day_ns 0 0 0 (Reliable sample_server)).2.
Definition eves_token : string := url_encode (map Z.of_nat (seq 0 32)).
Definition eve_accepts (name : string) : acceptance :=
  Acceptance true eves_token name "secret" (Some [1]) (Some [Z.of_nat (String.length name)]) hour hour hour.

Lemma invited_ok : access_ok (tables invited).
Proof.
  split; [|split].
  - split; [refine (bool_decide_unpack _ _); vm_compute; exact I|].
    split; [refine (bool_decide_unpack _ _); vm_compute; exact I|]. apply sample_server_ok.
  - refine (bool_decide_unpack _ _). vm_compute. exact I.
  - intros p Hp. by apply not_elem_of_nil in Hp.
Qed.

(** A reserved name, then two acceptances: the second comes too late. *)
Lemma invite_once_witness :
  let l := map eve_accepts ["root"; "eve-1"; "eve-2"] in
  let r := accept_all toy_key (λ _, "{}") l invited in
  map is_ok r.1 = [false; true; false] ∧ map a_name (t_admins (tables r.2)) = ["ann"; "bob"; "cyd"; "dan"; "eve-1"] ∧
  NoDup (accepted l r.1).
Proof.
  cbv zeta. split; [vm_compute; reflexivity|]. split; [vm_compute; reflexivity|].
  assert (Hok : access_ok (tables invited)) by exact invited_ok.
  apply (invite_once (W := reliable server_tables) (reliable_never_fails _) toy_key (λ _, "{}")
    (map eve_accepts ["root"; "eve-1"; "eve-2"]) invited _ _ Hok (surjective_pairing _)).
Defined.

(** The acceptance is forgotten with the account: VerifyInvite looks at used_by alone, which
    the deletion of that account sets to NULL, and the invitation is open again. *)
Lemma deletion_reopens_invite :
  let w := (accept_all toy_key (λ _, "{}") [eve_accepts "eve-1"] invited).2 in
  let w' := (delete_admin_account true 5 w).2 in
  (verify_invite eves_token hour w).1 = Fail InviteUsed ∧ is_ok (verify_invite eves_token hour w').1 = true ∧
  (get_pending_invites id hour w').1 = Ok [].
Proof. vm_compute. done. Qed.

(** Revoking writes 0 into used_by: a connection that enforces foreign keys refuses it. *)
Lemma revoke_refused :
  let r := revoke_invite true eves_token hour invited in
  r.1 = false ∧ is_ok (verify_invite eves_token hour r.2).1 = true.
Proof. vm_compute. done. Qed.

(** The list of pending invitations shows digests, and revoking by what it shows changes
    nothing and succeeds. *)
Lemma revoke_by_list :
  match (get_pending_invites id hour invited).1 with
  | Ok [i] => let r := revoke_invite true (ai_token i) hour invited in
              r.1 = true ∧ is_ok (verify_invite eves_token hour r.2).1 = true
  | _ => False
  end.
Proof. vm_compute. done. Qed.

(** A disabled administrator keeps the sessions: the check of the panel reads no account. *)
Lemma disabled_keeps_session :
  let w := (create_admin_session true ann_invites 3 "::1" "curl" day_ns 0 0 0 (Reliable sample_server)).2 in
  let w := (disable_admin (scan_admin (sample_admin 2 "bob" true true)) 3 hour w).2 in
  (verify_credentials toy_key "cyd" "cyd" w).1 = Fail InvalidCredentials ∧
  (require_admin_auth eves_token (2 * hour) w).1 = Some 3.
Proof. vm_compute. done. Qed.
