(* ===== verification/AdminGate.v ===== *)
(** The API of administrators: server/middleware/token_auth.go in front of its routes, and the
    owner check of server/handler/admin_context.go.  Administrators and users are in two
    databases, so there are two worlds. *)
From S2P Require Import Prelude GoStrings GoTime Sql DbTime Sha256 Base64 Sessions Registry Users ApiTokens Login Admins.
From Stdlib Require Import Ascii.
Open Scope Z_scope.

Inductive token_type := TokenUnknown | TokenAdmin | TokenUser | TokenOrg | TokenAdminAgent | TokenUserAgent | TokenOrgAgent.
#[export] Instance token_type_dec : EqDecision token_type.
Proof. solve_decision. Defined.

Definition detect_token_type (token : string) : token_type :=
  if has_prefix token "adm_agt_" then TokenAdminAgent
  else if has_prefix token "usr_agt_" then TokenUserAgent
  else if has_prefix token "org_agt_" then TokenOrgAgent
  else if has_prefix token "adm_" then TokenAdmin
  else if has_prefix token "usr_" then TokenUser
  else if has_prefix token "org_" then TokenOrg
  else TokenUnknown.
Definition validate_token_prefix (token : string) : bool := negb (bool_decide (detect_token_type token = TokenUnknown)).

(** What the context carries of the caller under "admin", "user" and "auth_type" *)
Inductive caller := AnAdmin (a : admin) | AUser (u : user) (t : api_token).
Inductive gate_error := GateUnauthorized | GateTokenInvalid | GateForbidden | GateNotFound.

Section Gate.
Context `{Database Ws server_tables} `{Database Wu users_tables}.

(** TokenAuthMiddleware; the note of a user token's use is a goroutine of its own *)
Definition admin_caller (token : string) (ws : Ws) (wu : Wu) : result gate_error caller * Ws * Wu :=
  let '(a, ws) := get_by_api_token token ws in
  (match a with Ok a => Ok (AnAdmin a) | Fail _ => Fail GateTokenInvalid end, ws, wu).
Definition user_caller (token : string) (now : instant) (ws : Ws) (wu : Wu) : result gate_error caller * Ws * Wu :=
  let '(t, wu) := validate_token token now wu in
  match t with
  | Fail _ => (Fail GateTokenInvalid, ws, wu)
  | Ok t =>
      let '(u, wu) := user_by_id (at_user t) wu in
      (match u with Ok u => Ok (AUser u t) | Fail _ => Fail GateTokenInvalid end, ws, wu)
  end.
Definition token_auth (header : string) (now : instant) (ws : Ws) (wu : Wu) : result gate_error caller * Ws * Wu :=
  if is_empty header then (Fail GateUnauthorized, ws, wu)
  else match bearer header with
  | None => (Fail GateUnauthorized, ws, wu)
  | Some token =>
      if negb (validate_token_prefix token) then (Fail GateTokenInvalid, ws, wu)
      else match detect_token_type token with
      | TokenAdmin => admin_caller token ws wu
      | TokenUser => user_caller token now ws wu
      | _ => (Fail GateTokenInvalid, ws, wu)
      end
  end.
(** RequireAdminToken *)
Definition require_admin_token (c : caller) : result gate_error admin :=
  match c with AnAdmin a => Ok a | AUser _ _ => Fail GateForbidden end.
(** RequireAdminSelfAPI, on the {admin_username} of the path; a path without one is not asked *)
Definition admin_self_matches (requested : string) (a : admin) : bool :=
  negb (is_empty requested) && negb (is_empty (ad_name a)) && str_eqb requested (ad_name a).
Definition admin_api (header : string) (self : option string) (now : instant) (ws : Ws) (wu : Wu)
  : result gate_error admin * Ws * Wu :=
  let '(c, ws, wu) := token_auth header now ws wu in
  (let? c := c in let? a := require_admin_token c in
   match self with
   | Some name => if admin_self_matches name a then Ok a else Fail GateNotFound
   | None => Ok a
   end, ws, wu).
End Gate.

(** * Who reaches the API *)

Lemma starts_type token : detect_token_type token = TokenAdmin ↔ has_prefix token "adm_" = true ∧ has_prefix token "adm_agt_" = false.
Proof.
  assert (Hex : ∀ p q, length (bytes p) = length (bytes q) → p ≠ q → has_prefix token p = true → has_prefix token q = false).
  { intros p q Hl Hne (s & ->)%has_prefix_spec. apply not_true_iff_false. intros (s' & E)%has_prefix_spec. apply Hne.
    apply (f_equal bytes) in E. rewrite !bytes_app in E. apply app_inj_1 in E as [E _]; [|done].
    by rewrite <-(of_bytes_bytes p), <-(of_bytes_bytes q), E. }
  assert (Hsub : ∀ p q, has_prefix token (p +:+ q) = true → has_prefix token p = true).
  { intros p q (s & ->)%has_prefix_spec. apply has_prefix_spec. exists (q +:+ s).
    rewrite <-(of_bytes_bytes (_ +:+ s)), !bytes_app, <-app_assoc, <-!bytes_app. apply of_bytes_bytes. }
  unfold detect_token_type. destruct (has_prefix token "adm_agt_") eqn:A; [split; [done|by intros [_ ?]]|].
  destruct (has_prefix token "usr_agt_") eqn:B.
  { apply (Hsub "usr_" "agt_") in B. split; [done|]. intros [C _]. by rewrite (Hex "usr_" "adm_" eq_refl) in C. }
  destruct (has_prefix token "org_agt_") eqn:C.
  { apply (Hsub "org_" "agt_") in C. split; [done|]. intros [D _]. by rewrite (Hex "org_" "adm_" eq_refl) in D. }
  destruct (has_prefix token "adm_"); [done|]. split; [|by intros [? _]].
  by destruct (has_prefix token "usr_"), (has_prefix token "org_").
Qed.

Lemma bearer_empty : bearer "" = None.
Proof. reflexivity. Qed.

Section Theorems.
Context `{DatabaseLaws Ws server_tables} `{DatabaseLaws Wu users_tables}.

Lemma omap_unique {A B} (f : A → option B) (l : list A) x y h : NoDup (omap f l) → x ∈ l → y ∈ l → f x = Some h → f y = Some h → x = y.
Proof.
  induction l as [|a l IH]; intros ND Hx Hy Ex Ey; [by apply not_elem_of_nil in Hx|]. cbn in ND.
  assert (Hin : ∀ z, z ∈ l → f z = Some h → h ∈ omap f l) by (intros z Hz Ez; apply list_elem_of_omap; eauto).
  apply elem_of_cons in Hx, Hy. destruct (f a) as [b|] eqn:Ea.
  - apply NoDup_cons in ND as [Hb ND]. destruct Hx as [->|Hx], Hy as [->|Hy]; [done| | |by apply IH].
    + assert (b = h) as -> by congruence. by destruct Hb; apply (Hin y).
    + assert (b = h) as -> by congruence. by destruct Hb; apply (Hin x).
  - destruct Hx as [->|Hx], Hy as [->|Hy]; [done|congruence|congruence|by apply IH].
Qed.

Lemma user_caller_step token now (ws ws' : Ws) (wu wu' : Wu) res : user_caller token now ws wu = (res, ws', wu') →
  ws' = ws ∧ tables wu' = tables wu ∧ ∀ a, res ≠ Ok (AnAdmin a).
Proof.
  unfold user_caller. intros E. destruct (validate_token token now wu) as [t wu1] eqn:V.
  assert (Hv : tables wu1 = tables wu).
  { unfold validate_token in V. destruct (validate_token_format token) as [[]|]; [|by injection V as _ <-].
    destruct (query _ wu) as [q wu2] eqn:Q.
    destruct (query_cases _ (token_row_of (hash_token token)) wu) as [(wu3 & Q' & Ht)|(wu3 & Q' & Ht)];
      rewrite Q in Q'; injection Q' as -> <-; by injection V as _ <-. }
  destruct t as [t|]; [|by injection E as <- <- <-].
  destruct (user_by_id _ wu1) as [u wu2] eqn:B. apply by_id_found in B as [B _]. injection E as <- <- <-.
  split_and!; [done|congruence|]. by destruct u.
Qed.
Lemma require_spec self c a : (let? a := require_admin_token c in
   match self with Some name => if admin_self_matches name a then Ok a else Fail GateNotFound | None => Ok a end) = Ok a ↔
  c = AnAdmin a ∧ ∀ name, self = Some name → name ≠ "" ∧ name = ad_name a.
Proof.
  destruct c as [b|u t]; cbn; [|by split; [|intros []]]. destruct self as [name|].
  - unfold admin_self_matches. destruct (_ && _) eqn:E.
    + apply andb_true_iff in E as [[E1 _]%andb_true_iff E2]. apply negb_true_iff, bool_decide_eq_false in E1.
      apply bool_decide_eq_true in E2. split; [intros [= <-]; split; [done|]; by intros n [= <-]|by intros [[= ->] _]].
    + split; [done|]. intros [[= ->] Hn]. destruct (Hn name eq_refl) as [N1 N2]. rewrite <-N2 in E. unfold is_empty, str_eqb in E.
      rewrite (bool_decide_eq_false_2 (name = "")), bool_decide_eq_true_2 in E by done. done.
  - split; [by intros [= <-]|by intros [[= ->] _]].
Qed.

(** The account the API knows the caller as *)
Definition owns_token (token : string) (row : admin_row) : Prop :=
  a_token row = Some (hash_token token) ∧ a_active row = true.

(** C28: the API of administrators is reached by active administrators only.  Whatever
    fails, a request that passes brings a bearer token that begins with adm_, and not with
    adm_agt_, the account it passes as is active and has the digest of that token, its name is the
    one in the path where the path has one, and nothing has changed in either database;
    without failures every such request passes, so a token of a user, an agent or an
    organisation never does. *)
Theorem admin_api_guarded header self now (ws ws' : Ws) (wu wu' : Wu) res : admins_ok (tables ws) →
  admin_api header self now ws wu = (res, ws', wu') →
  tables ws' = tables ws ∧ tables wu' = tables wu ∧
  let goes_in token row := bearer header = Some token ∧ has_prefix token "adm_" = true ∧ has_prefix token "adm_agt_" = false ∧
    row ∈ t_admins (tables ws) ∧ owns_token token row ∧ (∀ name, self = Some name → name ≠ "" ∧ name = a_name row) in
  (∀ a, res = Ok a → ∃ token row, goes_in token row ∧ a = scan_admin row) ∧
  (never_fails Ws server_tables → ∀ token row, goes_in token row → res = Ok (scan_admin row)).
Proof.
  intros Hok E. cbv zeta. unfold admin_api, token_auth in E.
  destruct (bearer header) as [token|] eqn:B.
  2:{ assert (res = Fail GateUnauthorized ∧ ws' = ws ∧ wu' = wu) as (-> & -> & ->) by (destruct (is_empty header); by injection E as <- <- <-).
      split_and!; [done..|]. by intros _ token row ([=] & _). }
  assert (Hne : is_empty header = false).
  { apply bool_decide_eq_false. intros ->. by rewrite bearer_empty in B. }
  rewrite Hne in E. clear Hne. unfold validate_token_prefix in E. destruct (decide (detect_token_type token = TokenAdmin)) as [Ta|Ta].
  2:{ assert (ws' = ws ∧ tables wu' = tables wu ∧ ∀ a, res ≠ Ok a) as (-> & Ht & Hno).
      { destruct (detect_token_type token) eqn:T; cbn in E; try done; try by injection E as <- <- <-.
        destruct (user_caller _ _ _ _) as [[c ws1] wu1] eqn:U. apply user_caller_step in U as (-> & Ht & Hc).
        injection E as <- <- <-. split_and!; [done..|]. intros a. destruct c as [c|]; [|done]. intros X.
        apply require_spec in X as [-> _]. by apply (Hc a). }
      split_and!; [done..|by intros a Ha; apply Hno in Ha|]. intros _ token' row ([= <-] & P1 & P2 & _). destruct Ta. by apply starts_type. }
  rewrite Ta in E. cbn in E. unfold admin_caller in E. destruct (get_by_api_token token ws) as [r ws1] eqn:G. injection E as <- <- <-.
  apply starts_type in Ta as [P1 P2]. unfold get_by_api_token in G.
  pose proof G as [Ht C]%ask_cases. split_and!; [done..| |].
  - intros a X. destruct C as [->|[[-> _]|(row & -> & F)]]; [done|done|].
    apply (require_spec self (AnAdmin (scan_admin row))) in X as [[= <-] Hn].
    apply find_some in F as [Hin%list_elem_of_In [Htok%bool_decide_eq_true Hact]%andb_true_iff]. exists token, row.
    by split_and!.
  - intros Hup token' row ([= <-] & _ & _ & Hin & [Htok Hact] & Hn). apply (ask_up _ _ _ _ Hup) in G. subst r.
    assert (find (λ r, bool_decide (a_token r = Some (hash_token token)) && a_active r) (t_admins (tables ws)) = Some row) as ->.
    { destruct (find _ _) as [row'|] eqn:F.
      - apply find_some in F as [Hin'%list_elem_of_In [Htok'%bool_decide_eq_true _]%andb_true_iff]. f_equal.
        destruct Hok as ((_ & _ & ND) & _). by apply (omap_unique a_token (t_admins (tables ws)) _ _ (hash_token token)).
      - apply list_elem_of_In in Hin. apply (find_none _ _ F) in Hin. by rewrite Htok, Hact, bool_decide_eq_true_2 in Hin. }
    by apply (require_spec self (AnAdmin (scan_admin row))).
Qed.
End Theorems.

(** * Witness and findings *)

Definition key_holder : admin_row :=
  AdminRow 7 "root" "root@example.org" "" (Some (hash_token "adm_0123")) (Some "adm_0123") false true VNull VNull VNull.
Definition one_admin : server_tables := ServerTables [key_holder] 8 [] [] [].

Lemma admin_api_guarded_witness :
  (admin_api "Bearer adm_0123" (Some "root") 0 (Reliable one_admin) (Reliable fresh_users)).1.1 = Ok (scan_admin key_holder) ∧
  ¬ is_Some (bearer "Basic adm_0123").
Proof.
  split; [|by intros [t [=]]].
  assert (Hok : admins_ok (tables (Reliable one_admin))).
  { split; [refine (bool_decide_unpack _ _); vm_compute; exact I|]. split; [apply NoDup_singleton|].
    intros r ->%list_elem_of_singleton. reflexivity. }
  destruct (admin_api _ _ _ _ _) as [[res ws'] wu'] eqn:E. cbn [fst].
  destruct (admin_api_guarded _ _ _ _ _ _ _ _ Hok E) as (_ & _ & _ & Hgo).
  apply (Hgo (reliable_never_fails _) "adm_0123" key_holder). split_and!; [reflexivity..|by left|by split|].
  intros name [= <-]. split; [discriminate|reflexivity].
Defined.
