(* ===== verification/Setup.v ===== *)
(** First-run set-up: the token printed at start (util/firstrun.go), the signed proof that it
    was entered (util/setup_proof.go), the gates in front of the set-up routes
    (server/middleware/setup.go) and the handlers behind them (server/handler/setup.go).  The
    world is the server database, the file of the token and the settings; reading or
    removing the file may fail like a statement.  argon2.IDKey is a parameter. *)
From S2P Require Import Prelude GoStrings GoTime Sql DbTime Sha256 Base64 Password Sessions Admins AdminAccess AdminGate.
From Stdlib Require Import Ascii.
Open Scope Z_scope.

(** * The proof that the token was entered *)

Definition setup_proof_ttl : duration := hour.
(** Time.Unix and time.Unix: seconds since 1970 *)
Definition unix_epoch : Z := 62135596800.
Definition to_unix (t : instant) : Z := t / second - unix_epoch.
Definition of_unix (s : Z) : instant := wrap64 (s + unix_epoch) * second.

Definition setup_proof_mac (base64_key issued : string) : string :=
  match padded_decode std base64_key with
  | None => ""
  | Some key => raw_url_encode (hmac_sha256 key (octets issued))
  end.
Definition sign_setup_proof (base64_key : string) (now : instant) : string :=
  let issued := itoa (to_unix now) in issued +:+ String dot (setup_proof_mac base64_key issued).
Definition verify_setup_proof (base64_key value : string) (now : instant) : bool :=
  match padded_decode std base64_key with
  | Some (_ :: _) =>
      match cut_byte value dot with
      | (issued, Some signature) =>
          if is_empty signature then false
          else if negb (str_eqb signature (setup_proof_mac base64_key issued)) then false
          else match atoi issued with
               | None => false
               | Some s => if now <? of_unix s then false else sub now (of_unix s) <? setup_proof_ttl
               end
      | _ => false
      end
  | _ => false
  end.

(** * The world *)

Record setup_world := SetupWorld { sw_server : server_tables; sw_file : option string; sw_config : gmap string string }.
Definition put_server (t : server_tables) (s : setup_world) : setup_world := SetupWorld t (sw_file s) (sw_config s).
Definition put_file (f : option string) (s : setup_world) : setup_world := SetupWorld (sw_server s) f (sw_config s).
Definition put_config (c : gmap string string) (s : setup_world) : setup_world := SetupWorld (sw_server s) (sw_file s) c.

(** GenerateSetupToken; HashSetupToken is [hash_token] *)
Definition generate_setup_token (rand : option (list Z)) : option string := hex_encode <$> rand.
(** generateRandomPassword: an index below 68 is drawn for each of the characters *)
Definition password_charset : list ascii := bytes "abcdefghijklmnopqrstuvwxyzABCDEFGHIJKLMNOPQRSTUVWXYZ0123456789!@#-_$".
Definition generate_random_password (rand : option (list Z)) : option string :=
  (λ l, of_bytes (map (λ i, nth (Z.to_nat i) password_charset (byte 0)) l)) <$> rand.
(** generateAPIToken and generateSessionID of the handler *)
Definition setup_api_token (rand : option (list Z)) : option string := (λ l, "adm_" +:+ raw_url_encode l) <$> rand.
Definition setup_session_id (rand : option (list Z)) : option string := url_encode <$> rand.

Record create_request := CreateRequest {
  cr_name : string; cr_email : string; cr_random : bool; cr_password : string; cr_confirm : string
}.
Record draws := Draws {
  d_password : option (list Z); d_salt : option (list Z); d_session : option (list Z); d_token : option (list Z)
}.
Inductive setup_error :=
| TokenRequired | TokenGone | WrongToken | NotVerified | EmailRequired | BadEmailFormat | NoPassword | PasswordRequired
| PasswordSpaces | PasswordShort | PasswordsDiffer | NamesNotCounted | NameInUse | NotHashed | NotCreated | NoSessionId | NoSessionRow | NoApiToken.
(** What the answer shows: the session and the API token, the drawn password, the name *)
Record created := Created { ct_session : string; ct_token : string; ct_password : option string; ct_name : string }.

Inductive gate := Proceed | ToDashboard | ToAdminRoot | ToWizard | TokenForm | Incomplete.

Section Setup.
Context `{Database W setup_world}.
Context (id_key : list Z → list Z → Z → Z → Z → Z → option (list Z)) (argon2_version : Z).
(** server.security.encryption_key, and "/server/" with the path of the administrators *)
Context (key admin_path : string).
#[local] Instance server_database : Database W server_tables := part_database sw_server put_server.

Definition save_setup_token (token : string) (w : W) : bool * W :=
  let '(r, w) := exec (λ s, (tt, put_file (Some (hash_token token)) s)) w in (bool_decide (is_Some r), w).
Definition validate_setup_token (token : string) (w : W) : option bool * W :=
  let '(r, w) := query sw_file w in
  (match r with Some (Some stored) => Some (str_eqb (hash_token (trim_space token)) (trim_space stored)) | _ => None end, w).
Definition delete_setup_token (w : W) : bool * W :=
  let '(r, w) := exec (λ s, (tt, put_file None s)) w in (bool_decide (is_Some r), w).
Definition setup_token_exists (w : W) : bool * W :=
  let '(r, w) := query (λ s, bool_decide (is_Some (sw_file s))) w in (default false r, w).

(** VerifySetupTokenAtAdmin and VerifySetupToken: the cookie they set *)
Definition verify_setup_token (token : string) (now : instant) (w : W) : result setup_error string * W :=
  if is_empty token then (Fail TokenRequired, w)
  else
    let '(v, w) := validate_setup_token token w in
    (match v with
     | None => Fail TokenGone
     | Some false => Fail WrongToken
     | Some true => Ok (sign_setup_proof key now)
     end, w).

(** setupTokenVerified *)
Definition setup_token_verified (cookie : option string) (now : instant) : bool :=
  match cookie with Some v => verify_setup_proof key v now | None => false end.

(** BlockSetupAfterComplete and RequireSetupTokenVerified, in front of the set-up routes *)
Definition block_setup_after_complete (w : W) : gate * W :=
  let '(n, w) := get_count w in
  match n with
  | Some (S _) => (ToDashboard, w)
  | _ => let '(there, w) := setup_token_exists w in (if there then Proceed else ToAdminRoot, w)
  end.
Definition setup_routes (cookie : option string) (now : instant) (w : W) : gate * W :=
  let '(g, w) := block_setup_after_complete w in
  (match g with Proceed => if setup_token_verified cookie now then Proceed else ToAdminRoot | g => g end, w).
(** SetupTokenRequired, in front of the routes of administrators *)
Definition setup_token_required (path : string) (cookie : option string) (now : instant) (w : W) : gate * W :=
  if negb (has_prefix path admin_path) then (Proceed, w)
  else if has_prefix path (admin_path +:+ "/config/setup") then (Proceed, w)
  else
    let '(n, w) := get_count w in
    match n with
    | Some O =>
        let '(there, w) := setup_token_exists w in
        (if negb there then Incomplete
         else if setup_token_verified cookie now then ToWizard
         else if negb (str_eqb path admin_path) then ToAdminRoot
         else TokenForm, w)
    | _ => (Proceed, w)
    end.

(** ** CreateAdmin *)

Definition account_of (q : create_request) : result setup_error (string * string) :=
  let email := trim_space (cr_email q) in
  if is_empty email then Fail EmailRequired
  else if negb (contains email "@") || negb (contains email ".") then Fail BadEmailFormat
  else
    let name := trim_space (cr_name q) in
    Ok (to_lower (if is_empty name then "administrator" else name), email).
Definition password_of (q : create_request) (rand : option (list Z)) : result setup_error (string * option string) :=
  if cr_random q then
    match generate_random_password rand with None => Fail NoPassword | Some p => Ok (p, Some p) end
  else
    let p := cr_password q in
    if is_empty p then Fail PasswordRequired
    else if negb (str_eqb p (trim_space p)) then Fail PasswordSpaces
    else if (String.length p <? 12)%nat then Fail PasswordShort
    else if negb (str_eqb p (cr_confirm q)) then Fail PasswordsDiffer
    else Ok (p, None).
Definition first_admin (name email hash : string) (stamp : scanned) (id : Z) : admin_row :=
  AdminRow id name email hash None None true true stamp stamp VNull.

Definition finish_admin (id : Z) (name session : string) (drawn : option string) (rand : option (list Z)) (now : instant) (w : W)
  : result setup_error created * W :=
  let '(_, w) := delete_setup_token w in
  match setup_api_token rand with
  | None => (Fail NoApiToken, w)
  | Some token =>
      let '(_, w) := exec (update_admin id (set_token (Some (hash_token token)) (Some "adm_") now)) w in
      (Ok (Created session token drawn name), w)
  end.
Definition open_session (fk : bool) (id : Z) (name ip agent : string) (drawn : option string) (d : draws)
    (now1 now2 now3 : instant) (w : W) : result setup_error created * W :=
  match setup_session_id (d_session d) with
  | None => (Fail NoSessionId, w)
  | Some session =>
      let '(r, w) := exec (insert_login fk (Row (VText session) (VText (format_sql_timestamp (now1 + 7 * 24 * hour)))
        (LoginCols id ip agent (VText (format_sql_timestamp now2))))) w in
      match r with
      | Some true => finish_admin id name session drawn (d_token d) now3 w
      | _ => (Fail NoSessionRow, w)
      end
  end.
Definition admins_named (name : string) (t : server_tables) : nat :=
  length (filter (λ r, a_name r = name) (t_admins t)).
Definition create_admin (fk : bool) (cookie : option string) (q : create_request) (ip agent : string) (d : draws)
    (now0 now1 now2 now3 now4 : instant) (w : W) : result setup_error created * W :=
  if negb (setup_token_verified cookie now0) then (Fail NotVerified, w)
  else match account_of q, password_of q (d_password d) with
  | Fail e, _ => (Fail e, w)
  | Ok _, Fail e => (Fail e, w)
  | Ok (name, email), Ok (password, drawn) =>
      let '(n, w) := query (admins_named name) w in
      match n with
      | None => (Fail NamesNotCounted, w)
      | Some (S _) => (Fail NameInUse, w)
      | Some O =>
          match util_hash_password id_key argon2_version password (d_salt d) with
          | Fail _ => (Fail NotHashed, w)
          | Ok hash =>
              let '(r, w) := exec (insert_admin (first_admin name email hash (VText (format_sql_timestamp now1)))) w in
              match r with
              | Some (Some id) => open_session fk id name ip agent drawn d now2 now3 now4 w
              | _ => (Fail NotCreated, w)
              end
          end
      end
  end.

(** ** The later steps of the wizard, and its status *)

(** INSERT ... ON CONFLICT DO UPDATE, its error logged or dropped *)
Definition save_setting (name value : string) (w : W) : W :=
  (exec (λ s, (tt, put_config (<[name:=value]> (sw_config s)) s)) w).2.
Definition save_given (l : list (string * string)) (w : W) : W :=
  foldl (λ w '(name, value), if is_empty value then w else save_setting name value w) w l.
(** ProcessServerConfig: the source ranges over a map, whose keys are distinct *)
Definition process_server_config (app domain mode timezone : string) : W → W :=
  save_given [("server.branding.title", app); ("server.domain", domain); ("mode", mode); ("server.timezone", timezone)].
(** ProcessSecurity: false when the form is shown again *)
Definition process_security (password confirm : string) (salt : option (list Z)) (w : W) : bool * W :=
  if is_empty password then (true, w)
  else if negb (str_eqb password confirm) then (false, w)
  else match util_hash_password id_key argon2_version password salt with
       | Ok hash => (true, save_setting "backup.encryption_hash" hash w)
       | Fail _ => (true, w)
       end.
Definition process_services (ssl : bool) (domain email : string) (multi : bool) (mode : string) (w : W) : W :=
  let w := if ssl then save_given [("ssl.domain", domain); ("ssl.email", email)] (save_setting "ssl.enabled" "true" w) else w in
  if multi then save_given [("users.registration_mode", mode)] (save_setting "features.multiuser" "true" w) else w.
Definition complete_setup : W → W := save_setting "setup.completed" "true".

Inductive setup_status := StatusError | NotStarted | AdminCreated | Completed.
Definition get_setup_status (w : W) : setup_status * W :=
  let '(n, w) := get_count w in
  match n with
  | None => (StatusError, w)
  | Some O => (NotStarted, w)
  | Some _ =>
      let '(v, w) := query (λ s, sw_config s !! "setup.completed") w in
      (if bool_decide (v = Some (Some "true")) then Completed else AdminCreated, w)
  end.

(** ** The set-up routes *)

Inductive setup_step :=
| PostAdmin (fk : bool) (q : create_request) (ip agent : string) (d : draws) (now1 now2 now3 now4 : instant)
| ShowApiToken
| PostServerConfig (app domain mode timezone : string)
| PostSecurity (password confirm : string) (salt : option (list Z))
| PostServices (ssl : bool) (domain email : string) (multi : bool) (mode : string)
| ShowComplete.
Inductive setup_answer := TurnedAway (g : gate) | AdminMade (r : result setup_error created) | StepDone.

Definition run_step (cookie : option string) (now : instant) (s : setup_step) (w : W) : setup_answer * W :=
  match s with
  | PostAdmin fk q ip agent d now1 now2 now3 now4 =>
      let '(r, w) := create_admin fk cookie q ip agent d now now1 now2 now3 now4 w in (AdminMade r, w)
  | ShowApiToken => (StepDone, w)
  | PostServerConfig app domain mode timezone => (StepDone, process_server_config app domain mode timezone w)
  | PostSecurity password confirm salt => (StepDone, (process_security password confirm salt w).2)
  | PostServices ssl domain email multi mode => (StepDone, process_services ssl domain email multi mode w)
  | ShowComplete => (StepDone, complete_setup w)
  end.
Definition setup_request (cookie : option string) (now : instant) (s : setup_step) (w : W) : setup_answer * W :=
  let '(g, w) := setup_routes cookie now w in
  match g with Proceed => run_step cookie now s w | g => (TurnedAway g, w) end.
Fixpoint setup_requests (l : list (option string * instant * setup_step)) (w : W) : list setup_answer * W :=
  match l with
  | [] => ([], w)
  | (cookie, now, s) :: l =>
      let '(a, w) := setup_request cookie now s w in
      let '(as_, w) := setup_requests l w in (a :: as_, w)
  end.
End Setup.

(** * A proof is accepted for one hour *)

Lemma dot_free z : dot ∉ bytes (itoa z).
Proof. apply itoa_without; [|done]. intros k. unfold pretty_N_char. repeat case_match; discriminate. Qed.
Lemma cut_byte_some s c a t : cut_byte s c = (a, Some t) → s = a +:+ String c t.
Proof.
  revert a. induction s as [|b s IH]; intros a; cbn; [done|]. case_decide as E; [intros [= <- <-]; by subst|].
  destruct (cut_byte s c) as [v [t'|]] eqn:F; [|done]. intros [= <- <-]. by rewrite (IH v eq_refl).
Qed.
Lemma sum_bytes_there l : sum_bytes l ≠ [].
Proof. unfold sum_bytes. generalize (digest_words l). intros d. cbn [map concat be_bytes app]. discriminate. Qed.
Lemma raw_url_encode_there l : l ≠ [] → raw_url_encode l ≠ "".
Proof. unfold raw_url_encode. by destruct l as [|x [|y [|z l]]]. Qed.
Lemma mac_there base64_key k issued : padded_decode std base64_key = Some k → setup_proof_mac base64_key issued ≠ "".
Proof.
  intros E. unfold setup_proof_mac. rewrite E. apply raw_url_encode_there. unfold hmac_sha256. cbv zeta. apply sum_bytes_there.
Qed.

Lemma whole_seconds (t : Z) : t / second * second = truncate t second.
Proof. unfold truncate, second. pose proof (Z.div_mod t 1000000000). lia. Qed.

Lemma sign_verifies base64_key k now later : padded_decode std base64_key = Some k → k ≠ [] → 0 ≤ now < date_utc 10000 1 1 0 0 0 0 →
  verify_setup_proof base64_key (sign_setup_proof base64_key now) later =
  (truncate now second <=? later) && (later <? truncate now second + setup_proof_ttl).
Proof.
  intros Hk Hne Hnow. unfold verify_setup_proof, sign_setup_proof. rewrite Hk. destruct k as [|x k]; [done|].
  rewrite cut_byte_app by apply dot_free. pose proof (mac_there base64_key _ (itoa (to_unix now)) Hk) as Hm.
  assert (is_empty (setup_proof_mac base64_key (itoa (to_unix now))) = false) as -> by (by apply bool_decide_eq_false).
  unfold str_eqb at 1. rewrite bool_decide_eq_true_2 by done. cbn [negb].
  assert (Hend : date_utc 10000 1 1 0 0 0 0 = 315537897600 * second) by (vm_compute; reflexivity).
  assert (Hs : 0 ≤ now / second < 315537897600) by (unfold second in *; split; [apply Z.div_pos; lia|apply Z.div_lt_upper_bound; lia]).
  rewrite atoi_itoa by (unfold_int64; unfold to_unix, unix_epoch; lia).
  assert (of_unix (to_unix now) = truncate now second) as ->.
  { unfold of_unix, to_unix. rewrite wrap64_id by (unfold_int64; lia). replace (now / second - unix_epoch + unix_epoch) with (now / second) by lia. apply whole_seconds. }
  unfold sub, setup_proof_ttl, hour, minute, second, min_int64, max_int64. set (t := truncate now _). clearbody t.
  destruct (later <? t) eqn:E; lia.
Qed.

(** the proof that the set-up token was entered.  Under a key that can be decoded and is not empty, what
    is signed before the year 10000 is accepted at exactly the moments from the second it was signed in up to an
    hour later, and whatever is accepted is a decimal time, a dot and the HMAC of that time under the
    key, and is at most an hour old. *)
Theorem setup_proof_window base64_key k : padded_decode std base64_key = Some k → k ≠ [] →
  (∀ now later, 0 ≤ now < date_utc 10000 1 1 0 0 0 0 →
     verify_setup_proof base64_key (sign_setup_proof base64_key now) later =
     (truncate now second <=? later) && (later <? truncate now second + setup_proof_ttl)) ∧
  (∀ value now, verify_setup_proof base64_key value now = true →
     ∃ issued s, value = issued +:+ String dot (setup_proof_mac base64_key issued) ∧ atoi issued = Some s ∧
       of_unix s ≤ now < of_unix s + setup_proof_ttl).
Proof.
  intros Hk Hne. split; [intros now later; by apply (sign_verifies _ k)|].
  intros value now. unfold verify_setup_proof. rewrite Hk. destruct k as [|x k]; [done|].
    destruct (cut_byte value dot) as [issued [signature|]] eqn:C; [|done]. apply cut_byte_some in C as ->.
    destruct (is_empty signature); [done|]. destruct (str_eqb _ _) eqn:S; [|done]. apply bool_decide_eq_true in S as ->. cbn [negb].
    destruct (atoi issued) as [s|] eqn:A; [|done]. destruct (now <? of_unix s) eqn:L; [done|]. intros U. exists issued, s.
    do 2 (split; [done|]). bool_facts. unfold sub, setup_proof_ttl, hour, minute, second, min_int64, max_int64 in *. lia.
Qed.

(** * Set-up happens once *)

Lemma unique_one r : unique [r].
Proof. unfold unique. cbn. destruct (a_token r); split_and!; try apply NoDup_singleton; apply NoDup_nil_2. Qed.

Section Once.
Context `{DatabaseLaws W setup_world} (up : never_fails W setup_world).
Context (id_key : list Z → list Z → Z → Z → Z → Z → option (list Z)) (argon2_version : Z) (key : string).
Context (id_key_length : ∀ p s t m th n, 1 ≤ t → 1 ≤ th → 1 ≤ n →
  ∃ k, id_key p s t m th n = Some k ∧ Z.of_nat (length k) = n ∧ is_bytes k).
#[local] Existing Instance server_database.

Lemma server_exec {A} (f : server_tables → A * server_tables) (w : W) : ∃ a w', exec f w = (Some a, w') ∧
  f (sw_server (tables w)) = (a, sw_server (tables w')) ∧ tables w' = put_server (sw_server (tables w')) (tables w).
Proof.
  destruct (exec_up _ (on_part sw_server put_server f) w up) as (a & w' & E & Ht). exists a, w'. split; [exact E|].
  unfold on_part in Ht. destruct (f (sw_server (tables w))) as [b s]. by injection Ht as -> <-.
Qed.
Lemma world_query {A} (f : setup_world → A) (w : W) : ∃ w', query f w = (Some (f (tables w)), w') ∧ tables w' = tables w.
Proof. destruct (query_cases _ f w) as [|(w' & E & _)]; [done|]. unfold query in E. by apply up in E. Qed.
Lemma names_up name (w : W) : ∃ w', query (admins_named name) w = (Some (admins_named name (sw_server (tables w))), w') ∧ tables w' = tables w.
Proof.
  unfold query. destruct (server_exec (λ t, (admins_named name t, t)) w) as (n & w' & -> & Ht & Hp).
  injection Ht as <- Ht. exists w'. split; [done|]. rewrite Hp, <-Ht. by destruct (tables w).
Qed.
Lemma count_up (w : W) : ∃ w', get_count w = (Some (length (t_admins (sw_server (tables w)))), w') ∧ tables w' = tables w.
Proof.
  unfold get_count, query. destruct (server_exec (λ t, (length (t_admins t), t)) w) as (n & w' & -> & Ht & Hp).
  injection Ht as <- Ht. exists w'. split; [done|]. rewrite Hp, <-Ht. by destruct (tables w).
Qed.

(** The gates change nothing, and are open to a proof while no account exists. *)
Lemma routes_up cookie now (w : W) : ∃ w', tables w' = tables w ∧ setup_routes key cookie now w =
  (match t_admins (sw_server (tables w)) with
   | _ :: _ => ToDashboard
   | [] => if bool_decide (is_Some (sw_file (tables w))) && setup_token_verified key cookie now then Proceed else ToAdminRoot
   end, w').
Proof.
  unfold setup_routes, block_setup_after_complete. destruct (count_up w) as (w1 & -> & Ht1).
  destruct (t_admins (sw_server (tables w))) as [|r l]; cbn [length]; [|by exists w1].
  unfold setup_token_exists. destruct (world_query (λ s, bool_decide (is_Some (sw_file s))) w1) as (w2 & -> & Ht2).
  rewrite Ht1 in Ht2 |- *. exists w2. split; [done|]. cbn [default]. by destruct (bool_decide _), (setup_token_verified _ _ _).
Qed.

(** Only the settings may change. *)
Definition same_but_settings (s s' : setup_world) : Prop := sw_server s' = sw_server s ∧ sw_file s' = sw_file s.
Lemma save_setting_up name value (w : W) : same_but_settings (tables w) (tables (save_setting name value w)).
Proof.
  unfold save_setting. set (f := λ s, (tt, put_config _ s)). destruct (exec_up _ f w up) as ([] & w' & -> & Ht).
  injection Ht as Ht. cbn [snd]. by rewrite <-Ht.
Qed.
Lemma save_given_up l (w : W) : same_but_settings (tables w) (tables (save_given l w)).
Proof.
  unfold save_given. revert w. induction l as [|[name value] l IH]; intros w; [done|]. cbn [foldl].
  destruct (is_empty value); [apply IH|]. destruct (save_setting_up name value w) as [H1 H2].
  destruct (IH (save_setting name value w)) as [H3 H4]. split; congruence.
Qed.
Lemma wizard_step_up s (w w' : W) a cookie now : (∀ fk q ip agent d n1 n2 n3 n4, s ≠ PostAdmin fk q ip agent d n1 n2 n3 n4) →
  run_step id_key argon2_version key cookie now s w = (a, w') → a = StepDone ∧ same_but_settings (tables w) (tables w').
Proof.
  intros Hs. destruct s as [fk q ip agent d n1 n2 n3 n4| |a0 b c d|p c salt|ssl a0 b m e|];
    [by destruct (Hs fk q ip agent d n1 n2 n3 n4)|..]; cbn [run_step]; intros [= <- <-];
    (split; [reflexivity|]); [done|apply save_given_up| | |apply save_setting_up].
  - unfold process_security. destruct (is_empty p); [done|]. destruct (negb _); [done|].
    destruct (util_hash_password _ _ _ _); [|done]. apply save_setting_up.
  - unfold process_services.
    assert (Hssl : same_but_settings (tables w) (tables (if ssl then save_given [("ssl.domain", a0); ("ssl.email", b)] (save_setting "ssl.enabled" "true" w) else w))).
    { destruct ssl; [|done]. destruct (save_setting_up "ssl.enabled" "true" w) as [H1 H2].
      destruct (save_given_up [("ssl.domain", a0); ("ssl.email", b)] (save_setting "ssl.enabled" "true" w)). split; congruence. }
    destruct m; [|exact Hssl]. set (w1 := if ssl then _ else w) in *. clearbody w1. destruct Hssl as [H1 H2].
    destruct (save_setting_up "features.multiuser" "true" w1) as [H3 H4].
    destruct (save_given_up [("users.registration_mode", e)] (save_setting "features.multiuser" "true" w1)). split; congruence.
Qed.

(** The account a request makes, and what its answer shows of it *)
Definition made_by (q : create_request) (d : draws) (before : server_tables) (s : setup_world) (r : result setup_error created) : Prop :=
  ∃ name email password drawn salt row,
    account_of q = Ok (name, email) ∧ password_of q (d_password d) = Ok (password, drawn) ∧ d_salt d = Some salt ∧
    t_admins (sw_server s) = [row] ∧ a_name row = name ∧ a_email row = email ∧ active_super row = true ∧
    (is_bytes salt → verify_password id_key password (a_hash row) = Ok true) ∧
    (∀ c, r = Ok c → sw_file s = None ∧ a_token row = Some (hash_token (ct_token c)) ∧ ct_password c = drawn ∧ ct_name c = name ∧
       ∃ login, login ∈ t_logins (sw_server s) ∧ login_id login = ct_session c ∧ l_admin (r_rest login) = a_id row) ∧
    (is_Some (d_session d) → is_Some (d_token d) → t_logins before = [] → ∃ c, r = Ok c).

Lemma finish_up id name session drawn rand now row (w w' : W) r :
  t_admins (sw_server (tables w)) = [row] → a_id row = id → finish_admin id name session drawn rand now w = (r, w') →
  ∃ row', t_admins (sw_server (tables w')) = [row'] ∧ a_id row' = id ∧ a_name row' = a_name row ∧ a_email row' = a_email row ∧
    a_hash row' = a_hash row ∧ active_super row' = active_super row ∧ t_logins (sw_server (tables w')) = t_logins (sw_server (tables w)) ∧
    sw_file (tables w') = None ∧ (is_Some rand → ∃ c, r = Ok c) ∧
    ∀ c, r = Ok c → a_token row' = Some (hash_token (ct_token c)) ∧ ct_password c = drawn ∧ ct_name c = name ∧ ct_session c = session.
Proof.
  intros Hl Hid. unfold finish_admin, delete_setup_token. set (f := λ s, (tt, put_file None s)).
  destruct (exec_up _ f w up) as ([] & w1 & -> & Ht). injection Ht as Ht. destruct rand as [l|]; cbn [setup_api_token fmap option_fmap option_map].
  - set (token := "adm_" +:+ raw_url_encode l). set (g := set_token _ _ _).
    destruct (server_exec (update_admin id g) w1) as (b & w2 & -> & Hs & Hp). intros [= <- <-]. rewrite Hp, <-Ht.
    unfold update_admin in Hs. rewrite <-Ht in Hs. cbn [sw_server put_file] in Hs. rewrite Hl in Hs. cbn [map] in Hs.
    assert (has_id id row = true) as Hi by by apply Z.eqb_eq. rewrite Hi, decide_True in Hs by apply unique_one.
    injection Hs as _ <-. exists (g row). split_and!; [done..| |by intros c [= <-]]. intros _. by eexists.
  - intros [= <- <-]. rewrite <-Ht. exists row. by split_and!.
Qed.

(** A request past the gates, while no account exists *)
Lemma create_admin_up fk cookie q ip agent d now0 now1 now2 now3 now4 (w w' : W) r :
  t_admins (sw_server (tables w)) = [] →
  create_admin id_key argon2_version key fk cookie q ip agent d now0 now1 now2 now3 now4 w = (r, w') →
  (tables w' = tables w ∧ ∀ c, r ≠ Ok c) ∨
  (setup_token_verified key cookie now0 = true ∧ made_by q d (sw_server (tables w)) (tables w') r).
Proof.
  intros Hnone. unfold create_admin. destruct (setup_token_verified _ _ _) eqn:V; cbn [negb]; [|by intros [= <- <-]; left].
  destruct (account_of q) as [[name email]|e] eqn:A; [|by intros [= <- <-]; left].
  destruct (password_of q (d_password d)) as [[password drawn]|e] eqn:P; [|by intros [= <- <-]; left].
  destruct (names_up name w) as (w0 & -> & Ht0). unfold admins_named. rewrite Hnone. cbn [filter list_filter length]. rewrite <-Ht0 in Hnone |- *.
  destruct (util_hash_password _ _ _ _) as [hash|e] eqn:Hh; [|by intros [= <- <-]; left].
  assert (∃ salt, d_salt d = Some salt) as [salt Hsalt] by (destruct (d_salt d) as [salt|]; [by exists salt|done]).
  set (row := first_admin name email hash _). destruct (server_exec (insert_admin row) w0) as (o & w1 & -> & Hs & Hp).
  unfold insert_admin in Hs. rewrite Hnone in Hs. cbn [app] in Hs. rewrite decide_True in Hs by apply unique_one.
  injection Hs as <- Hs. set (id := t_next_admin _) in *. intros E. right. split; [done|].
  exists name, email, password, drawn, salt. unfold open_session in E. change (setup_session_id (d_session d)) with (url_encode <$> d_session d) in E.
  assert (Hver : is_bytes salt → verify_password id_key password hash = Ok true).
  { intros Hb. apply (hash_verifies id_key argon2_version id_key_length _ password salt hash (or_intror eq_refl) Hb). by rewrite <-Hsalt. }
  destruct (d_session d) as [bs|] eqn:Hd; cbn [fmap option_fmap option_map] in E.
  2:{ injection E as <- <-. exists (row id). rewrite <-Hs. by split_and!. }
  set (login := Row _ _ _) in E. destruct (server_exec (insert_login fk login) w1) as (b & w2 & E2 & Hs2 & Hp2).
  rewrite E2 in E. unfold insert_login in Hs2.
  assert (Hid : existsb (has_id (l_admin (r_rest login))) (t_admins (sw_server (tables w1))) = true).
  { rewrite <-Hs. cbn. unfold has_id. cbn. by rewrite Z.eqb_refl. }
  rewrite Hid, andb_false_r, orb_false_r in Hs2. destruct (existsb _ (t_logins _)) eqn:F in Hs2; injection Hs2 as <- Hs2.
  - injection E as <- <-. exists (row id). rewrite <-Hs2, <-Hs. split_and!; try done. intros _ _ Hnl.
    rewrite <-Hs in F. cbn [t_logins] in F. by rewrite Hnl in F.
  - apply (finish_up id name _ drawn _ _ (row id)) in E as (row' & H1 & H2 & H3 & H4 & H5 & H6 & H7 & H8 & H9 & H10);
      [|by rewrite <-Hs2, <-Hs|done].
    exists row'. rewrite H3, H4, H5, H6, H7, <-Hs2, <-Hs. split_and!; try done; [|by intros _ ? _; apply H9].
    intros c Hc. destruct (H10 c Hc) as (T1 & T2 & T3 & T4). split_and!; try done. exists login.
    split_and!; [by apply elem_of_app; right; left|by rewrite T4|by rewrite H2].
Qed.

(** Once an account exists, every request is sent to the dashboard and nothing changes. *)
Lemma after_setup l (w : W) : t_admins (sw_server (tables w)) ≠ [] → ∃ w', tables w' = tables w ∧
  setup_requests id_key argon2_version key l w = (map (λ _, TurnedAway ToDashboard) l, w').
Proof.
  revert w. induction l as [|[[cookie now] s] l IH]; intros w Hw; [by exists w|]. cbn [setup_requests map]. unfold setup_request.
  destruct (routes_up cookie now w) as (w1 & Ht1 & ->). destruct (t_admins _) eqn:A in |- *; [done|].
  destruct (IH w1) as (w2 & Ht2 & ->); [by rewrite Ht1|]. exists w2. split; [congruence|done].
Qed.

(** A request before that either changes nothing but the settings or makes the account. *)
Lemma request_up cookie now s (w w' : W) a : t_admins (sw_server (tables w)) = [] →
  setup_request id_key argon2_version key cookie now s w = (a, w') →
  (same_but_settings (tables w) (tables w') ∧ ∀ c, a ≠ AdminMade (Ok c)) ∨
  (setup_token_verified key cookie now = true ∧ is_Some (sw_file (tables w)) ∧
   ∃ fk q ip agent d n1 n2 n3 n4 r, s = PostAdmin fk q ip agent d n1 n2 n3 n4 ∧ a = AdminMade r ∧
     made_by q d (sw_server (tables w)) (tables w') r).
Proof.
  intros Hnone. unfold setup_request. destruct (routes_up cookie now w) as (w1 & Ht1 & ->). rewrite Hnone.
  destruct (bool_decide _ && _) eqn:P; [|intros [= <- <-]; left; by rewrite Ht1]. apply andb_true_iff in P as [P%bool_decide_eq_true V].
  intros E. rewrite <-Ht1 in Hnone, P |- *. destruct s as [fk q ip agent d n1 n2 n3 n4| | | | |].
  1:{ cbn [run_step] in E. destruct (create_admin _ _ _ _ _ _ _ _ _ _ _ _ _ _ w1) as [r w2] eqn:C. injection E as <- <-.
      apply (create_admin_up _ _ _ _ _ _ _ _ _ _ _ _ _ _ Hnone) in C as [[-> Hr]|[_ M]].
      - left. split; [done|]. intros c [= ->]. by apply (Hr c).
      - right. split_and!; [done..|]. by exists fk, q, ip, agent, d, n1, n2, n3, n4, r. }
  all: left; apply wizard_step_up in E as [-> Hsame]; [|done]; by split.
Qed.

(** C27: set-up makes one account, once.  As long as the database and the file answer, whatever requests arrive at the
    set-up routes of a server without accounts: either no account is made, the token stays and no answer says
    otherwise, or there is one request that made the only account, with a valid proof and while the token was there.
    Its fields were in order, the account is an active super administrator with the name and the address of the
    request, its stored hash verifies the password given or drawn; every earlier answer made nothing and every later
    one is a redirection to the dashboard that changes nothing.  If its answer says so, which it does when both random
    draws succeed and there was no session before, the token is gone, the session exists and the API token shown is
    the one stored. *)
Theorem setup_once l (w w' : W) answers : t_admins (sw_server (tables w)) = [] →
  setup_requests id_key argon2_version key l w = (answers, w') →
  (same_but_settings (tables w) (tables w') ∧ ∀ c, AdminMade (Ok c) ∉ answers) ∨
  (is_Some (sw_file (tables w)) ∧
   ∃ l1 cookie now fk q ip agent d n1 n2 n3 n4 l2 answers1 r,
     l = l1 ++ (cookie, now, PostAdmin fk q ip agent d n1 n2 n3 n4) :: l2 ∧
     answers = answers1 ++ AdminMade r :: map (λ _, TurnedAway ToDashboard) l2 ∧
     length answers1 = length l1 ∧ (∀ c, AdminMade (Ok c) ∉ answers1) ∧
     setup_token_verified key cookie now = true ∧ made_by q d (sw_server (tables w)) (tables w') r).
Proof.
  revert w w' answers. induction l as [|[[cookie now] s] l IH]; intros w w' answers Hnone; cbn [setup_requests].
  - intros [= <- <-]. left. split; [done|]. intros c. by apply not_elem_of_nil.
  - destruct (setup_request _ _ _ _ _ _ w) as [a w1] eqn:R. destruct (setup_requests _ _ _ l w1) as [as' w2] eqn:E. intros [= <- <-].
    apply request_up in R as [[[Hs Hf] Ha]|(V & Hfile & fk & q & ip & agent & d & n1 & n2 & n3 & n4 & r & -> & -> & M)]; [| |done].
    + destruct (IH w1 w2 as') as [[[Hs' Hf'] Hno]|(Hfile & l1 & c & n & fk & q & ip & agent & d & n1 & n2 & n3 & n4 & l2 & a1 & r & -> & -> & Hlen & Hno & V & M)];
        [by rewrite Hs|done| |].
      * left. split; [split; congruence|]. intros c [E'|Hin]%elem_of_cons; [by apply (Ha c)|by apply (Hno c)].
      * right. rewrite <-Hf, <-Hs. split; [done|]. exists ((cookie, now, s) :: l1), c, n, fk, q, ip, agent, d, n1, n2, n3, n4, l2, (a :: a1), r.
        split_and!; try done; [cbn; congruence|]. intros c' [E'|Hin]%elem_of_cons; [by apply (Ha c')|by apply (Hno c')].
    + destruct (after_setup l w1) as (w3 & Ht & E'); [by destruct M as (? & ? & ? & ? & ? & ? & _ & _ & _ & -> & _)|].
      rewrite E in E'. injection E' as -> <-. right. split; [done|].
      exists [], cookie, now, fk, q, ip, agent, d, n1, n2, n3, n4, l, [], r. rewrite Ht. split_and!; try done. intros c. apply not_elem_of_nil.
Qed.
End Once.

(** * Witnesses and findings *)

Lemma setup_proof_window_witness : padded_decode std "a2V5" = Some [107; 101; 121] ∧
  verify_setup_proof "a2V5" (sign_setup_proof "a2V5" (5 * second + 7)) (5 * second) = true ∧
  verify_setup_proof "a2V5" (sign_setup_proof "a2V5" (5 * second + 7)) (5 * second + hour) = false.
Proof.
  split; [vm_compute; reflexivity|].
  destruct (setup_proof_window "a2V5" [107; 101; 121]) as [Hw _]; [vm_compute; reflexivity|discriminate|].
  rewrite !Hw by (split; [vm_compute; discriminate|vm_compute; reflexivity]). split; vm_compute; reflexivity.
Defined.

Definition first_start : reliable setup_world := Reliable (SetupWorld (ServerTables [] 1 [] [] []) (Some "digest") ∅).
Definition root_request (name : string) : create_request := CreateRequest name (name +:+ "@example.org") false "correct horse" "correct horse".
Definition root_draws : draws := Draws None (Some [1; 2]) (Some [3; 4]) (Some [5; 6]).
Definition first_requests (cookie : option string) : list (option string * instant * setup_step) :=
  [(cookie, 0, PostAdmin true (root_request "root") "::1" "curl" root_draws 0 0 0 0); (None, 0, ShowApiToken)].
Abbreviation first_run cookie := (setup_requests toy_key 19 "a2V5" (first_requests cookie) first_start).

Lemma first_run_names cookie : setup_token_verified "a2V5" cookie 0 = true →
  map a_name (t_admins (sw_server (tables (first_run cookie).2))) = ["root"].
Proof.
  intros V. unfold first_requests. cbn [setup_requests]. unfold setup_request at 1, setup_routes at 1, run_step, create_admin. rewrite V.
  vm_compute. reflexivity.
Qed.
Lemma setup_once_witness : ∃ q d r, made_by toy_key q d (sw_server (tables first_start))
  (tables (first_run (Some (sign_setup_proof "a2V5" 0))).2) r.
Proof.
  assert (V : setup_token_verified "a2V5" (Some (sign_setup_proof "a2V5" 0)) 0 = true).
  { unfold setup_token_verified. rewrite (sign_verifies _ [107; 101; 121]); [vm_compute; reflexivity| |discriminate|].
    - vm_compute. reflexivity.
    - split; [vm_compute; discriminate|vm_compute; reflexivity]. }
  apply first_run_names in V as Hone. destruct (setup_once (reliable_never_fails _) toy_key 19 "a2V5" toy_key_length
      (first_requests (Some (sign_setup_proof "a2V5" 0))) first_start _ _ eq_refl (surjective_pairing _))
    as [[[Hs _] _]|(_ & l1 & c & n & fk & q & ip & agent & d & n1 & n2 & n3 & n4 & l2 & a1 & r & _ & _ & _ & _ & _ & M)].
  - rewrite Hs in Hone. discriminate Hone.
  - by exists q, d, r.
Defined.

(** Once the account row is there the set-up is over, whatever becomes of the rest of the request: when the session
    cannot be stored, the password and the API token drawn for the account are never shown, and the
    set-up does not open again. *)
Lemma locked_out key cookie now : setup_token_verified key cookie now = true →
  let q := CreateRequest "root" "root@example.org" true "" "" in
  let '(r, w) := create_admin toy_key 19 key true cookie q "" "curl" (Draws (Some (replicate 20 0)) (Some [1]) (Some [2]) (Some [3]))
                   now 0 0 0 0 (Faulty (tables first_start) [false; false; true]) in
  r = Fail NoSessionRow ∧ map a_name (t_admins (sw_server (tables w))) = ["root"] ∧ sw_file (tables w) = Some "digest" ∧
  (setup_routes key cookie now w).1 = ToDashboard.
Proof. intros V. unfold create_admin. rewrite V. vm_compute. done. Qed.

(** The gates look at the accounts before the handlers add one: two requests that have passed them make two super
    administrators, where the set-up means to make one. *)
Lemma two_super_admins key cookie now : setup_token_verified key cookie now = true →
  let post name w := create_admin toy_key 19 key true cookie (root_request name) "" "curl" (Draws None (Some [1]) None None) now 0 0 0 0 w in
  (setup_routes key cookie now first_start).1 = Proceed ∧
  map (λ r, (a_name r, active_super r)) (t_admins (sw_server (tables (post "ann" (post "root" first_start).2).2))) = [("root", true); ("ann", true)].
Proof. intros V. cbv zeta. unfold create_admin, setup_routes. rewrite V. vm_compute. done. Qed.

(** A name that is there is answered before anything is hashed or stored, and so is a count that fails. *)
Lemma name_in_use key cookie now : setup_token_verified key cookie now = true →
  let post name w := create_admin toy_key 19 key true cookie (root_request name) "" "curl" (Draws None None None None) now 0 0 0 0 w in
  let start faults := Faulty (SetupWorld (ServerTables [key_holder] 8 [] [] []) (Some "digest") ∅) faults in
  post (a_name key_holder) (start []) = (Fail NameInUse, start []) ∧ post "root" (start [true]) = (Fail NamesNotCounted, start []).
Proof. intros V. cbv zeta. unfold create_admin. rewrite V. vm_compute. done. Qed.

(** A count that fails is taken for no accounts: the set-up lets the next one in beside those there are. *)
Lemma gate_fails_open key cookie now : setup_token_verified key cookie now = true →
  (setup_routes key cookie now (Faulty (SetupWorld (ServerTables [key_holder] 8 [] [] []) (Some "digest") ∅) [true])).1 = Proceed.
Proof. intros V. unfold setup_routes. rewrite V. vm_compute. done. Qed.

(** Where administrators are, as after a restore, the token on the disk is not asked for: the gate lets every request pass. *)
Lemma restored_token_not_asked key admin_path path cookie now :
  (setup_token_required key admin_path path cookie now (Faulty (SetupWorld (ServerTables [key_holder] 8 [] [] []) (Some "digest") ∅) [])).1 = Proceed.
Proof. unfold setup_token_required. destruct (has_prefix _ _); [|done]. by destruct (has_prefix _ _). Qed.


(** The token is drawn in base 64 after adm_, and may begin like an agent's, which the API of administrators refuses. *)
Lemma drawn_like_an_agent : ∃ token, setup_api_token (Some ([106; 11; 127] ++ replicate 29 0)) = Some token ∧
  detect_token_type token = TokenAdminAgent.
Proof. eexists. split; [reflexivity|]. vm_compute. done. Qed.
