(* ===== verification/Config.v ===== *)
(** The settings tree of server.yml and its validation (config/validate.go,
    config/server_settings.go, config/bool.go): invalid values are replaced with their
    defaults and the server starts all the same.  Of the tree only the settings the
    validation reads are here; a warning has no effect on the configuration and is left
    out.  The YAML decoder gives the port a dynamic type, hence [port_value]. *)
From S2P Require Import Prelude GoStrings.
From Stdlib Require Import Ascii.

Open Scope Z_scope.

(** * Booleans in settings *)

Definition truthy_values : list string :=
  ["1"; "y"; "t"; "yes"; "true"; "on"; "ok"; "enable"; "enabled"; "yep"; "yup"; "yeah"; "aye";
   "si"; "oui"; "da"; "hai"; "affirmative"; "accept"; "allow"; "grant"; "sure"; "totally"].
Definition falsy_values : list string :=
  ["0"; "n"; "f"; "no"; "false"; "off"; "disable"; "disabled"; "nope"; "nah"; "nay"; "nein";
   "non"; "niet"; "iie"; "lie"; "negative"; "reject"; "block"; "revoke"; "deny"; "never"; "noway"].

Definition is_truthy (s : string) : bool := bool_decide (trim_space (to_lower s) ∈ truthy_values).
Definition is_falsy (s : string) : bool := bool_decide (trim_space (to_lower s) ∈ falsy_values).
Definition parse_bool (s : string) (default : bool) : result string bool :=
  if is_empty (trim_space (to_lower s)) then Ok default
  else if is_truthy s then Ok true
  else if is_falsy s then Ok false
  else Fail (trim_space (to_lower s)).

(** * The settings *)

Inductive port_value := PortInt (p : Z) | PortText (s : string) | PortOther.

Record limits_config := LimitsConfig {
  l_max_body : string; l_read : string; l_write : string; l_idle : string }.
Record compression_config := CompressionConfig { c_enabled : bool; c_level : Z; c_types : list string }.
Record session_role := SessionRole { sr_cookie : string; sr_max_age : string; sr_idle : string }.
Record session_config := SessionConfig {
  s_admin : session_role; s_user : session_role; s_extend : bool; s_secure : string;
  s_http_only : bool; s_same_site : string }.
Record rate_bucket := RateBucket { b_requests : Z; b_window : Z }.
Record rate_config := RateConfig {
  rc_enabled : bool; rc_read : rate_bucket; rc_write : rate_bucket; rc_health : rate_bucket;
  rc_burst : Z; rc_login : rate_bucket; rc_reset : rate_bucket; rc_registration : rate_bucket }.
Record i18n_config := I18nConfig { i_language : string; i_supported : list string }.
Record tracking_config := TrackingConfig { t_type : string; t_id : string; t_url : string }.
Record cache_config := CacheConfig {
  k_type : string; k_port : Z; k_pool : Z; k_min_idle : Z; k_timeout : string; k_prefix : string;
  k_ttl : string }.

Record server_config := ServerConfig {
  sv_port : port_value; sv_base_url : string; sv_mode : string; sv_admin_path : string;
  sv_api_version : string; sv_limits : limits_config; sv_compression : compression_config;
  sv_session : session_config; sv_rate_limit : rate_config; sv_i18n : i18n_config;
  sv_tracking : tracking_config; sv_cache : cache_config }.

#[export] Instance rate_bucket_eq_dec : EqDecision rate_bucket.
Proof. solve_decision. Defined.
#[export] Instance rate_config_eq_dec : EqDecision rate_config.
Proof. solve_decision. Defined.

Definition default_limits : limits_config := LimitsConfig "10MB" "30s" "30s" "120s".
Definition default_compression : compression_config :=
  CompressionConfig true 5 ["text/html"; "text/css"; "text/javascript"; "application/json"; "application/xml"].
Definition default_session : session_config :=
  SessionConfig (SessionRole "admin_session" "30d" "24h") (SessionRole "user_session" "7d" "24h")
    true "auto" true "strict".
Definition default_rate_limit : rate_config :=
  RateConfig true (RateBucket 120 60) (RateBucket 10 60) (RateBucket 120 60) 240
    (RateBucket 5 900) (RateBucket 3 3600) (RateBucket 5 3600).
Definition default_i18n : i18n_config := I18nConfig "en" ["en"].
Definition default_cache : cache_config := CacheConfig "memory" 6379 10 2 "5s" "wthr:" "1h".

(** * Validation *)

(** [if strings.TrimSpace(v) == "" { v = def }] *)
Definition blank (s : string) : bool := is_empty (trim_space s).
Definition unless_blank (s def : string) : string := if blank s then def else s.

(** The [switch strings.ToLower(strings.TrimSpace(v))] of the validators *)
Definition folded (s : string) : string := to_lower (trim_space s).
Definition one_of (l : list string) (s : string) : bool := bool_decide (folded s ∈ l).

(** isValidPortValue *)
Definition port_in_range (n : Z) : bool := (0 <=? n) && (n <=? 65535).
Definition valid_port_part (part : string) : bool :=
  match atoi (trim_space part) with Some n => port_in_range n | None => false end.
Definition is_valid_port_value (v : port_value) : bool :=
  match v with
  | PortInt p => port_in_range p
  | PortText s =>
      let parts := split_byte s comma in
      (length parts <=? 2)%nat && forallb valid_port_part parts
  | PortOther => false
  end.

(** normalizeBaseURL *)
Definition normalize_base_url (raw : string) : string :=
  let b := trim_space raw in
  if is_empty b then "/" else
  let b := if has_prefix b "/" then b else "/" +:+ b in
  let b := trim_right_byte b slash in
  if is_empty b then "/" else b.

Definition valid_modes : list string := ["production"; "prod"; "development"; "devel"; "dev"; "debug"].
(** A prefix of a route: not blank and a single segment *)
Definition valid_route_prefix (s : string) : bool := negb (blank s) && negb (contains_byte s slash).

(** validateServerIdentity, given the port [randomPort] draws *)
Definition validate_server_identity (random_port : Z) (c : server_config) : bool * server_config :=
  let valid := is_valid_port_value (sv_port c) in
  (negb valid,
   ServerConfig
     (if valid then sv_port c else PortInt random_port)
     (normalize_base_url (sv_base_url c))
     (if one_of valid_modes (sv_mode c) then sv_mode c else "production")
     (if valid_route_prefix (sv_admin_path c) then sv_admin_path c else "admin")
     (if valid_route_prefix (sv_api_version c) then sv_api_version c else "v1")
     (sv_limits c) (sv_compression c) (sv_session c) (sv_rate_limit c) (sv_i18n c) (sv_tracking c)
     (sv_cache c)).

(** validateServerLimits *)
Definition valid_level (n : Z) : bool := (1 <=? n) && (n <=? 9).
Definition validate_limits (l : limits_config) : limits_config :=
  let d := default_limits in
  LimitsConfig (unless_blank (l_max_body l) (l_max_body d)) (unless_blank (l_read l) (l_read d))
    (unless_blank (l_write l) (l_write d)) (unless_blank (l_idle l) (l_idle d)).
Definition validate_compression (c : compression_config) : compression_config :=
  let d := default_compression in
  CompressionConfig (c_enabled c)
    (if valid_level (c_level c) then c_level c else c_level d)
    (match c_types c with [] => c_types d | l => l end).

(** validateSessionRole and validateServerSession *)
Definition validate_session_role (def r : session_role) : session_role :=
  SessionRole (unless_blank (sr_cookie r) (sr_cookie def)) (unless_blank (sr_max_age r) (sr_max_age def))
    (unless_blank (sr_idle r) (sr_idle def)).
Definition valid_same_site : list string := ["strict"; "lax"; "none"].
Definition valid_secure : list string := ["auto"; "true"; "false"].
Definition validate_session (s : session_config) : session_config :=
  let d := default_session in
  SessionConfig (validate_session_role (s_admin d) (s_admin s)) (validate_session_role (s_user d) (s_user s))
    (s_extend s)
    (if one_of valid_secure (s_secure s) then s_secure s else s_secure d)
    true
    (if one_of valid_same_site (s_same_site s) then s_same_site s else s_same_site d).

(** validateRateLimitBucket and validateServerRateLimit *)
Definition validate_rate_limit_bucket (def b : rate_bucket) : rate_bucket :=
  RateBucket (if b_requests b <? 1 then b_requests def else b_requests b)
    (if b_window b <? 1 then b_window def else b_window b).
Definition validate_rate_limit (r : rate_config) : rate_config :=
  let d := default_rate_limit in
  RateConfig (rc_enabled r)
    (validate_rate_limit_bucket (rc_read d) (rc_read r))
    (validate_rate_limit_bucket (rc_write d) (rc_write r))
    (validate_rate_limit_bucket (rc_health d) (rc_health r))
    (if rc_burst r <? 1 then rc_burst d else rc_burst r)
    (validate_rate_limit_bucket (rc_login d) (rc_login r))
    (validate_rate_limit_bucket (rc_reset d) (rc_reset r))
    (validate_rate_limit_bucket (rc_registration d) (rc_registration r)).

(** validateServerI18n *)
Definition validate_i18n (i : i18n_config) : i18n_config :=
  let d := default_i18n in
  let language := unless_blank (i_language i) (i_language d) in
  let supported := match i_supported i with [] => i_supported d | l => l end in
  if bool_decide (language ∈ supported) then I18nConfig language supported
  else I18nConfig (i_language d) (supported ++ [i_language d]).

(** validateServerTracking *)
Definition valid_tracking_types : list string :=
  ["google"; "matomo"; "piwik"; "owa"; "fathom"; "plausible"; "umami"; "simple"; "cloudflare"].
Definition tracking_types_requiring_url : list string := ["matomo"; "piwik"; "owa"; "umami"].
Definition set_tracking_type (k : string) (t : tracking_config) : tracking_config :=
  TrackingConfig k (t_id t) (t_url t).
Definition validate_tracking (t : tracking_config) : tracking_config :=
  let kind := folded (t_type t) in
  if str_eqb kind "" || str_eqb kind "none" then set_tracking_type "" t
  else if negb (bool_decide (kind ∈ valid_tracking_types)) then set_tracking_type "" t
  else
    let t := set_tracking_type kind t in
    if is_empty (t_id t) then set_tracking_type "" t
    else if bool_decide (t_type t ∈ tracking_types_requiring_url) && blank (t_url t)
    then set_tracking_type "" t
    else t.

(** validateServerCache *)
Definition cache_types : list string := ["memory"; "valkey"; "redis"].
Definition validate_cache (k : cache_config) : cache_config :=
  let d := default_cache in
  let pool := if k_pool k <? 1 then k_pool d else k_pool k in
  CacheConfig
    (if one_of cache_types (k_type k) then folded (k_type k) else k_type d)
    (if (k_port k <? 1) || (65535 <? k_port k) then k_port d else k_port k)
    pool
    (if (k_min_idle k <? 0) || (pool <? k_min_idle k) then k_min_idle d else k_min_idle k)
    (unless_blank (k_timeout k) (k_timeout d)) (unless_blank (k_prefix k) (k_prefix d))
    (unless_blank (k_ttl k) (k_ttl d)).

(** validateConfig *)
Definition validate_config (random_port : Z) (c : server_config) : bool * server_config :=
  let '(port_replaced, c) := validate_server_identity random_port c in
  (port_replaced,
   ServerConfig (sv_port c) (sv_base_url c) (sv_mode c) (sv_admin_path c) (sv_api_version c)
     (validate_limits (sv_limits c)) (validate_compression (sv_compression c))
     (validate_session (sv_session c)) (validate_rate_limit (sv_rate_limit c))
     (validate_i18n (sv_i18n c)) (validate_tracking (sv_tracking c)) (validate_cache (sv_cache c))).

Example parse_bool_examples :
  map (λ s, parse_bool s true) [" YES "; "Off"; ""; "maybe"] = [Ok true; Ok false; Ok true; Fail "maybe"].
Proof. vm_compute. reflexivity. Qed.
Example base_urls : map normalize_base_url [""; "app"; "/app//"; " / "] = ["/"; "/app"; "/app"; "/"].
Proof. vm_compute. reflexivity. Qed.

(** * Well-formed settings *)

Definition positive_bucket (b : rate_bucket) : Prop := 1 <= b_requests b ∧ 1 <= b_window b.
Definition no_blank (l : list string) : Prop := Forall (λ s, blank s = false) l.
Definition role_ok (r : session_role) : Prop := no_blank [sr_cookie r; sr_max_age r; sr_idle r].

(** A base URL starts with a slash and, the root apart, does not end in one. *)
Definition base_url_ok (b : string) : Prop :=
  head (bytes b) = Some slash ∧ (b = "/" ∨ last (bytes b) ≠ Some slash).

Definition limits_ok (l : limits_config) : Prop := no_blank [l_max_body l; l_read l; l_write l; l_idle l].
Definition compression_ok (c : compression_config) : Prop := 1 <= c_level c <= 9 ∧ c_types c ≠ [].
Definition session_ok (s : session_config) : Prop :=
  role_ok (s_admin s) ∧ role_ok (s_user s) ∧ one_of valid_secure (s_secure s) = true ∧
  one_of valid_same_site (s_same_site s) = true ∧ s_http_only s = true.
Definition rate_ok (r : rate_config) : Prop :=
  Forall positive_bucket [rc_read r; rc_write r; rc_health r; rc_login r; rc_reset r; rc_registration r] ∧
  1 <= rc_burst r.
Definition i18n_ok (i : i18n_config) : Prop :=
  blank (i_language i) = false ∧ i_language i ∈ i_supported i.
Definition tracking_ok (t : tracking_config) : Prop :=
  t_type t = "" ∨
  (t_type t ∈ valid_tracking_types ∧ t_id t ≠ "" ∧
   (t_type t ∈ tracking_types_requiring_url → blank (t_url t) = false)).

(** The pool of the cache holds its idle connections, except that validation leaves the
    default of two beside a pool of one ([min_idle_beyond_pool]). *)
Definition cache_ok (k : cache_config) : Prop :=
  k_type k ∈ cache_types ∧ 1 <= k_port k <= 65535 ∧ 1 <= k_pool k ∧ 0 <= k_min_idle k ∧
  (k_min_idle k <= k_pool k ∨ k_pool k = 1 ∧ k_min_idle k = 2) ∧ no_blank [k_timeout k; k_prefix k; k_ttl k].

Definition config_ok (c : server_config) : Prop :=
  is_valid_port_value (sv_port c) = true ∧ base_url_ok (sv_base_url c) ∧
  one_of valid_modes (sv_mode c) = true ∧ valid_route_prefix (sv_admin_path c) = true ∧
  valid_route_prefix (sv_api_version c) = true ∧ limits_ok (sv_limits c) ∧
  compression_ok (sv_compression c) ∧ session_ok (sv_session c) ∧ rate_ok (sv_rate_limit c) ∧
  i18n_ok (sv_i18n c) ∧ tracking_ok (sv_tracking c) ∧ cache_ok (sv_cache c).

(** What a validator of one part of the tree does: the result is well formed, and what
    was well formed is left alone. *)
Class Validator {A} (ok : A → Prop) (f : A → A) : Prop := {
  validated : ∀ x, ok (f x);
  left_alone : ∀ x, ok x → f x = x
}.

Lemma unless_blank_ok s def : blank def = false → blank (unless_blank s def) = false.
Proof. unfold unless_blank. by destruct (blank s) eqn:E. Qed.
Lemma unless_blank_same s def : blank s = false → unless_blank s def = s.
Proof. unfold unless_blank. by intros ->. Qed.

#[local] Arguments folded : simpl never.

#[export] Instance limits_validator : Validator limits_ok validate_limits.
Proof.
  split; intros [a b c d].
  - repeat constructor; simpl; by apply unless_blank_ok.
  - unfold limits_ok, no_blank, validate_limits. cbn. intros H. decompose_Forall_hyps.
    by rewrite !unless_blank_same.
Qed.

#[export] Instance compression_validator : Validator compression_ok validate_compression.
Proof.
  split; intros [e n l]; unfold compression_ok, validate_compression, valid_level; simpl.
  - split; [|by destruct l]. destruct (_ && _) eqn:E; [bool_facts; lia|lia].
  - intros [H Hl]. f_equal; [|by destruct l].
    destruct (_ && _) eqn:E; [done|]. apply andb_false_iff in E as [E|E]; bool_facts; lia.
Qed.

Lemma role_validator def : role_ok def → Validator role_ok (validate_session_role def).
Proof.
  intros Hd. split; intros [a b c]; cbn.
  - destruct def. unfold role_ok, no_blank in *. cbn in *. decompose_Forall_hyps.
    repeat constructor; by apply unless_blank_ok.
  - unfold role_ok, no_blank, validate_session_role. cbn. intros H. decompose_Forall_hyps.
    by rewrite !unless_blank_same.
Qed.

#[export] Instance session_validator : Validator session_ok validate_session.
Proof.
  assert (Va : Validator role_ok (validate_session_role (s_admin default_session)))
    by (apply role_validator; by repeat constructor).
  assert (Vu : Validator role_ok (validate_session_role (s_user default_session)))
    by (apply role_validator; by repeat constructor).
  split; intros [a u e s h ss]; unfold session_ok; cbn.
  - split_and!; [apply Va|apply Vu|by destruct (one_of valid_secure s) eqn:E|
                 by destruct (one_of valid_same_site ss) eqn:E|done].
  - intros (Ha & Hu & Hs & Hss & ->). unfold validate_session. cbn [s_admin s_user s_secure s_same_site s_extend].
    rewrite Hs, Hss, (left_alone (Validator := Va) a Ha), (left_alone (Validator := Vu) u Hu). done.
Qed.

Lemma bucket_validator def : positive_bucket def → Validator positive_bucket (validate_rate_limit_bucket def).
Proof.
  intros [H1 H2]. split; intros [n w]; unfold positive_bucket, validate_rate_limit_bucket; cbn.
  - split; destruct (_ <? 1) eqn:E; bool_facts; lia.
  - intros [Hn Hw]. by rewrite (proj2 (Z.ltb_ge n 1)), (proj2 (Z.ltb_ge w 1)).
Qed.

#[export] Instance rate_validator : Validator rate_ok validate_rate_limit.
Proof.
  split; intros [e r w h b l p g]; unfold rate_ok, validate_rate_limit; cbn.
  - split; [|destruct (b <? 1) eqn:E; bool_facts; lia].
    repeat constructor; by apply (bucket_validator (RateBucket _ _)).
  - intros [Hb Hn]. decompose_Forall_hyps. rewrite (proj2 (Z.ltb_ge b 1)) by done.
    unfold validate_rate_limit. f_equal; by apply (bucket_validator (RateBucket _ _)).
Qed.

#[export] Instance i18n_validator : Validator i18n_ok validate_i18n.
Proof.
  split; intros [g l]; unfold i18n_ok, validate_i18n; cbn.
  - case_bool_decide as H; cbn.
    + split; [by apply unless_blank_ok|done].
    + split; [done|]. set_solver.
  - intros [Hg Hl]. rewrite unless_blank_same by done. destruct l as [|x l]; [by apply elem_of_nil in Hl|].
    by rewrite bool_decide_eq_true_2.
Qed.

(** Recognised spellings are their own folded form. *)
Lemma folded_id l k : forallb (λ s, str_eqb (folded s) s) l = true → k ∈ l → folded k = k.
Proof.
  rewrite forallb_forall. intros H Hk. apply list_elem_of_In in Hk.
  apply H in Hk. by apply bool_decide_eq_true in Hk.
Qed.

#[export] Instance tracking_validator : Validator tracking_ok validate_tracking.
Proof.
  split; intros [k i u]; unfold tracking_ok, validate_tracking; cbn.
  - destruct (_ || _) eqn:E; [by left|]. case_bool_decide as H; cbn; [|by left].
    destruct (is_empty i) eqn:Ei; [by left|]. destruct (_ && _) eqn:Eu; cbn; [by left|].
    right. split_and!; [done|by intros ->|]. intros Hk. by rewrite bool_decide_eq_true_2 in Eu.
  - intros [->|(Hk & Hi & Hu)]; [done|]. rewrite (folded_id valid_tracking_types) by done.
    destruct (_ || _) eqn:E.
    { apply orb_true_iff in E as [E|E]; apply bool_decide_eq_true in E; subst; cbv in Hk;
        repeat (apply elem_of_cons in Hk as [Hk|Hk]; [done|]); by apply elem_of_nil in Hk. }
    rewrite bool_decide_eq_true_2 by done. cbn. unfold is_empty, str_eqb.
    rewrite bool_decide_eq_false_2 by done.
    case_bool_decide as Hr; cbn; [rewrite Hu by done|]; done.
Qed.

#[export] Instance cache_validator : Validator cache_ok validate_cache.
Proof.
  split; intros [k p n i t x y]; unfold cache_ok, validate_cache; cbn.
  - split_and!.
    + unfold one_of. case_bool_decide; [done|]. by left.
    + destruct (_ || _) eqn:E; [lia|]. bool_facts. lia.
    + destruct (_ || _) eqn:E; [lia|]. bool_facts. lia.
    + destruct (n <? 1) eqn:E; bool_facts; lia.
    + destruct (_ || (_ <? i)) eqn:E; [lia|]. bool_facts. lia.
    + destruct (_ || (_ <? i)) eqn:E; [|bool_facts; left; lia]. destruct (n <? 1) eqn:N; bool_facts; lia.
    + repeat constructor; by apply unless_blank_ok.
  - unfold no_blank. intros (Hk & Hp & Hn & Hi & Hin & H). decompose_Forall_hyps.
    rewrite !unless_blank_same by done. unfold one_of.
    rewrite (folded_id cache_types) by done. rewrite bool_decide_eq_true_2 by done.
    rewrite (proj2 (Z.ltb_ge n 1)), (proj2 (Z.ltb_ge p 1)), (proj2 (Z.ltb_ge _ p)),
      (proj2 (Z.ltb_ge i 0)) by lia. cbn.
    destruct (n <? i) eqn:E; [|done]. bool_facts. destruct Hin as [?|[_ ->]]; [lia|done].
Qed.

(** The base URL: leading slash and no trailing one. *)
Lemma has_prefix_slash b : has_prefix b "/" = true ↔ head (bytes b) = Some slash.
Proof.
  destruct b as [|a b]; [done|].
  change (has_prefix (String a b) "/") with (if Ascii.ascii_dec slash a then String.prefix "" b else false).
  change (head (bytes (String a b))) with (Some a).
  destruct (Ascii.ascii_dec slash a) as [->|Ha]; [by destruct b|].
  split; [done|]. congruence.
Qed.

Lemma normalized_base_url raw : base_url_ok (normalize_base_url raw).
Proof.
  unfold normalize_base_url. destruct (is_empty (trim_space raw)) eqn:E; [by split; [|left]|].
  set (b := if has_prefix _ _ then _ else _).
  assert (Hb : head (bytes b) = Some slash).
  { apply has_prefix_slash. unfold b. destruct (has_prefix (trim_space raw) "/") eqn:Ep; [done|].
    apply has_prefix_slash. done. }
  destruct (is_empty (trim_right_byte b slash)) eqn:Et; [by split; [|left]|].
  unfold trim_right_byte in *. set (f := λ a, bool_decide (a = slash)) in *.
  destruct (drop_while_end_prefix f (bytes b)) as (k & Ek & _). unfold base_url_ok.
  rewrite bytes_of_bytes. split.
  - destruct (drop_while_end f (bytes b)) as [|c l]; [done|]. rewrite Ek in Hb. done.
  - right. intros Hl%drop_while_end_last. by apply bool_decide_eq_false in Hl.
Qed.

Lemma normalize_fixed b : base_url_ok b → trim_space b = b → normalize_base_url b = b.
Proof.
  intros [Hh Hl] Ht. destruct Hl as [->|Hl]; [done|]. unfold normalize_base_url. rewrite Ht.
  destruct (is_empty b) eqn:E; [apply is_empty_spec in E as ->; done|].
  rewrite (proj2 (has_prefix_slash b)) by done. unfold trim_right_byte.
  destruct (last (bytes b)) as [c|] eqn:Ec; [|apply last_None in Ec; by rewrite Ec in Hh].
  rewrite (drop_while_end_id _ _ c), of_bytes_bytes, E; [done..|].
  apply bool_decide_eq_false. congruence.
Qed.

(** Only the trailing slashes are cut after the white space, so what is before them may
    end in white space, which a second start removes. *)
Lemma base_url_not_stable :
  normalize_base_url "/app /" = "/app " ∧ normalize_base_url "/app " = "/app".
Proof. by vm_compute. Qed.

(** The default of two idle connections is not checked against the pool. *)
Lemma min_idle_beyond_pool :
  let k := validate_cache (CacheConfig "redis" 6379 1 5 "5s" "wthr:" "1h") in
  k_pool k = 1 ∧ k_min_idle k = 2.
Proof. by vm_compute. Qed.

(** Falling back to English may list it a second time. *)
Lemma english_listed_twice : validate_i18n (I18nConfig "de" ["en"; "fr"]) = I18nConfig "en" ["en"; "fr"; "en"].
Proof. reflexivity. Qed.

Definition with_base_url (url : string) (c : server_config) : server_config :=
  ServerConfig (sv_port c) url (sv_mode c) (sv_admin_path c) (sv_api_version c) (sv_limits c) (sv_compression c) (sv_session c)
    (sv_rate_limit c) (sv_i18n c) (sv_tracking c) (sv_cache c).

(** C39: Whatever server.yml holds, validateConfig leaves well-formed settings: the port is
    in range, the base URL is rooted without a trailing slash, modes, prefixes, time
    settings, session cookies, limits, languages, tracking and cache are usable, where a pool
    of one may keep two idle connections.  It reports a replaced port exactly when the port was
    unusable, and leaves settings that are well formed and free of white space around the base
    URL as they are; when it runs again, whatever port the second run would draw, it replaces no
    port and changes nothing but the base URL, and that only when the first run left white space
    at its end, which it can: [base_url_not_stable]. *)
Theorem validate_config_correct p c replaced c' :
  port_in_range p = true → validate_config p c = (replaced, c') →
  config_ok c' ∧ (replaced = true ↔ is_valid_port_value (sv_port c) = false) ∧
  (config_ok c → trim_space (sv_base_url c) = sv_base_url c → c' = c) ∧
  (∀ q, ∃ url, validate_config q c' = (false, with_base_url url c') ∧ (trim_space (sv_base_url c') = sv_base_url c' → url = sv_base_url c')).
Proof.
  intros Hp. assert (Hmost : ∀ q c, config_ok c → validate_config q c = (false, with_base_url (normalize_base_url (sv_base_url c)) c)).
  { clear. intros q [] (Hport & Hb & Hm & Ha & Hv & Hl & Hc & Hs & Hr & Hi & Ht & Hk).
    cbn [sv_base_url] in *. unfold validate_config, validate_server_identity. cbn [sv_port sv_base_url sv_mode sv_admin_path
      sv_api_version sv_limits sv_compression sv_session sv_rate_limit sv_i18n sv_tracking sv_cache].
    cbn in Hport, Hb, Hm, Ha, Hv, Hl, Hc, Hs, Hr, Hi, Ht, Hk.
    by rewrite Hport, Hm, Ha, Hv, (left_alone (f := validate_limits)),
      (left_alone (f := validate_compression)), (left_alone (f := validate_session)),
      (left_alone (f := validate_rate_limit)), (left_alone (f := validate_i18n)),
      (left_alone (f := validate_tracking)), (left_alone (f := validate_cache)). }
  assert (Hsame : ∀ q c, config_ok c → trim_space (sv_base_url c) = sv_base_url c → validate_config q c = (false, c)).
  { intros q c0 Hc Ht. rewrite (Hmost q c0 Hc), normalize_fixed by (done || apply Hc). by destruct c0. }
  intros E. assert (Hok : config_ok c').
  { unfold validate_config, validate_server_identity in E. injection E as _ <-. unfold config_ok. cbn.
    split_and!; try apply validated.
    - by destruct (is_valid_port_value (sv_port c)) eqn:H.
    - apply normalized_base_url.
    - by destruct (one_of valid_modes (sv_mode c)) eqn:H.
    - by destruct (valid_route_prefix (sv_admin_path c)) eqn:H.
    - by destruct (valid_route_prefix (sv_api_version c)) eqn:H. }
  split_and!; [done| |intros Hc Ht|intros q].
  - injection E as <- _. apply negb_true_iff.
  - rewrite (Hsame p c Hc Ht) in E. congruence.
  - eexists. split; [by apply Hmost|]. intros Ht. apply normalize_fixed; [apply Hok|done].
Qed.

(** A file with nothing usable in it. *)
Definition hollow : server_config :=
  ServerConfig PortOther "" "" "" "" (LimitsConfig "" "" "" "") (CompressionConfig false 0 [])
    (SessionConfig (SessionRole "" "" "") (SessionRole "" "" "") false "" false "")
    (RateConfig false (RateBucket 0 0) (RateBucket 0 0) (RateBucket 0 0) 0 (RateBucket 0 0)
       (RateBucket 0 0) (RateBucket 0 0))
    (I18nConfig "" []) (TrackingConfig "" "" "") (CacheConfig "" 0 0 (-1) "" "" "").

Lemma validate_config_correct_witness :
  config_ok (validate_config 64123 hollow).2 ∧ (validate_config 64123 hollow).1 = true.
Proof.
  destruct (validate_config 64123 hollow) as [r c'] eqn:E.
  destruct (validate_config_correct 64123 hollow r c' eq_refl E) as (Hok & Hr & _).
  split; [exact Hok|]. apply Hr. reflexivity.
Defined.
