(* ===== verification/RateLimit.v ===== *)
(** The rate limiting middlewares (server/middleware/ratelimit.go) over the settings of
    Config.v.  The sliding-window counter itself is github.com/go-chi/httprate: [limiter]
    is its state, [fresh limit window] what NewRateLimiter builds and [hit] one request
    against it, with the answer and the three headers it sets.  A limiter is a shared
    object: the set holds references into a heap that is never freed, so a request that
    picked its limiter before a reload goes on with the old one.  A request takes three
    steps, reading the settings, picking its limiter under the mutex and hitting it, and other
    requests may come between them. *)
From S2P Require Import Prelude GoStrings GoFloat Config.

Open Scope Z_scope.

(** rateLimiterName *)
Inductive limiter_name :=
| Global | Read | Health | Write | Login | PasswordReset | Registration | FileUpload.
#[export] Instance limiter_name_eq_dec : EqDecision limiter_name.
Proof. solve_decision. Defined.

(** One value per limiter class: rateLimiterSet, and the limits of rateLimitBuckets *)
Record per_class (A : Type) := PerClass {
  pc_global : A; pc_read : A; pc_health : A; pc_write : A; pc_login : A; pc_reset : A;
  pc_registration : A; pc_upload : A }.
Arguments PerClass {A}.
Arguments pc_global {A}. Arguments pc_read {A}. Arguments pc_health {A}. Arguments pc_write {A}.
Arguments pc_login {A}. Arguments pc_reset {A}. Arguments pc_registration {A}. Arguments pc_upload {A}.
#[export] Instance per_class_eq_dec {A} `{EqDecision A} : EqDecision (per_class A).
Proof. solve_decision. Defined.

(** pick, and bucket on the limits *)
Definition pick {A} (s : per_class A) (n : limiter_name) : A :=
  match n with
  | Global => pc_global s | Read => pc_read s | Health => pc_health s | Write => pc_write s
  | Login => pc_login s | PasswordReset => pc_reset s | Registration => pc_registration s
  | FileUpload => pc_upload s
  end.

(** rateLimitBuckets: the limit and the window, a duration in nanoseconds, of each class *)
Record buckets := Buckets { bk_enabled : bool; bk_limits : per_class (Z * Z) }.
#[export] Instance buckets_eq_dec : EqDecision buckets.
Proof. solve_decision. Defined.

Definition nanoseconds (window : Z) : Z := wrap64 (window * 1000000000).
Definition login_requests_per_window : Z := 5.
Definition password_reset_requests_per_window : Z := 3.
Definition registration_requests_per_window : Z := 5.
Definition file_upload_requests_per_window : Z := 10.
Definition global_burst : Z := 240.

(** resolveRateLimitBuckets; [None] is the configuration not loaded yet *)
Definition bucket (b : rate_bucket) (requests window : Z) : Z * Z :=
  (if b_requests b <=? 0 then requests else b_requests b,
   nanoseconds (if b_window b <=? 0 then window else b_window b)).
Definition resolve_buckets (cfg : option rate_config) : buckets :=
  let c := default default_rate_limit cfg in
  Buckets (rc_enabled c)
    (PerClass
       (if rc_burst c <=? 0 then global_burst else rc_burst c, nanoseconds 60)
       (bucket (rc_read c) 120 60) (bucket (rc_health c) 120 60) (bucket (rc_write c) 10 60)
       (bucket (rc_login c) login_requests_per_window 900)
       (bucket (rc_reset c) password_reset_requests_per_window 3600)
       (bucket (rc_registration c) registration_requests_per_window 3600)
       (file_upload_requests_per_window, nanoseconds 3600)).

(** Duration.Seconds, and its conversion to [int] *)
Definition seconds (d : Z) : float64 :=
  f_add (f_of_Z (Z.quot d 1000000000)) (f_div (f_of_Z (Z.rem d 1000000000)) (f_of_Z 1000000000)).
Definition retry_after (window : Z) : Z := f_to_int64 (seconds window).

Section limiters.
Context {L K H : Type}.
Variables (fresh : Z → Z → L) (hit : Z → K → L → (bool * H) * L).

(** The heap of limiters, and the cached set with the buckets it was built from; no
    class of the set is nil once it is built *)
Record limiters := Limiters { lm_heap : list L; lm_cached : option (buckets * per_class nat) }.
Definition no_limiters : limiters := Limiters [] None.

(** getRateLimiters *)
Definition build (b : buckets) : list L :=
  map (λ n, fresh (pick (bk_limits b) n).1 (pick (bk_limits b) n).2)
    [Global; Read; Health; Write; Login; PasswordReset; Registration; FileUpload].
Definition get_rate_limiters (b : buckets) (m : limiters) : per_class nat * limiters :=
  let rebuild :=
    let p := length (lm_heap m) in
    let s := PerClass p (S p) (2 + p)%nat (3 + p)%nat (4 + p)%nat (5 + p)%nat (6 + p)%nat (7 + p)%nat in
    (s, Limiters (lm_heap m ++ build b) (Some (b, s))) in
  match lm_cached m with
  | Some (cached, s) => if decide (cached = b) then (s, m) else rebuild
  | None => rebuild
  end.

(** What a request holds before it is served: its limiter and the window of the 429 *)
Inductive pending := PassThrough | Held (limiter : nat) (window : Z).
(** A request between its steps: it has read the settings, or has its limiter *)
Inductive stage := Resolved (n : limiter_name) (b : buckets) | Ready (p : pending).

(** What the middleware answers: the request goes on, with the headers of the limiter
    when there is one, or the 429 *)
Inductive answer := Next (headers : option H) | TooMany (retry : Z).

(** newRateLimitMiddleware up to getRateLimiters, its call with pick, and both *)
Definition resolve_request (cfg : option rate_config) (n : limiter_name) : stage :=
  let b := resolve_buckets cfg in if negb (bk_enabled b) then Ready PassThrough else Resolved n b.
Definition take_limiter (n : limiter_name) (b : buckets) (m : limiters) : pending * limiters :=
  let '(s, m) := get_rate_limiters b m in (Held (pick s n) (pick (bk_limits b) n).2, m).
Definition begin_request (cfg : option rate_config) (n : limiter_name) (m : limiters) : pending * limiters :=
  match resolve_request cfg n with
  | Ready p => (p, m)
  | Resolved n b => take_limiter n b m
  end.

(** serveRateLimited *)
Definition answer_of (window : Z) (r : bool * H) : answer :=
  let '(allowed, headers) := r in if allowed : bool then Next (Some headers) else TooMany (retry_after window).
Definition serve_rate_limited (now : Z) (k : K) (p : pending) (m : limiters) : answer * limiters :=
  match p with
  | PassThrough => (Next None, m)
  | Held i window =>
      match lm_heap m !! i with
      | None => (Next None, m)
      | Some l => let '(r, l) := hit now k l in
                  (answer_of window r, Limiters (<[i := l]> (lm_heap m)) (lm_cached m))
      end
  end.

(** newRateLimitMiddleware and newMethodRateLimitMiddleware around one request that is
    not overtaken *)
Definition rate_limit_middleware (n : limiter_name) (cfg : option rate_config) (now : Z) (k : K) (m : limiters)
  : answer * limiters :=
  let '(p, m) := begin_request cfg n m in serve_rate_limited now k p m.
Definition method_rate_limit_middleware (n : limiter_name) (methods : list string) (cfg : option rate_config)
    (now : Z) (method : string) (k : K) (m : limiters) : answer * limiters :=
  if existsb (λ x, str_eqb method x) methods then rate_limit_middleware n cfg now k m else (Next None, m).
Definition read_methods : list string := ["GET"; "HEAD"; "OPTIONS"].
Definition write_methods : list string := ["POST"; "PUT"; "PATCH"; "DELETE"].

(** A chain of middlewares: the first refusal ends it. *)
Definition middleware : Type := limiters → answer * limiters.
Fixpoint run_chain (ms : list middleware) (m : limiters) : option Z * limiters :=
  match ms with
  | [] => (None, m)
  | f :: ms => match f m with
               | (TooMany r, m) => (Some r, m)
               | (Next _, m) => run_chain ms m
               end
  end.

(** The chain main.go installs in front of every route, and what stands before the
    routes that have a limit of their own *)
Definition root_chain (cfg : option rate_config) (now : Z) (method : string) (k : K) : list middleware :=
  [rate_limit_middleware Global cfg now k;
   method_rate_limit_middleware Write write_methods cfg now method k;
   method_rate_limit_middleware Read read_methods cfg now method k].
Inductive route := Plain | HealthRoute | LoginRoute | ForgotRoute | WeatherAPI.
Definition route_chain (r : route) (cfg : option rate_config) (now : Z) (method : string) (k : K)
  : list middleware :=
  root_chain cfg now method k ++
  match r with
  | Plain => []
  | HealthRoute => [rate_limit_middleware Health cfg now k]
  | LoginRoute => [rate_limit_middleware Login cfg now k]
  | ForgotRoute => [rate_limit_middleware PasswordReset cfg now k]
  | WeatherAPI => [rate_limit_middleware Read cfg now k]
  end.

(** * Requests that interleave *)

Inductive event :=
| Resolve (id : nat) (n : limiter_name) (cfg : option rate_config)
| Pick (id : nat)
| Serve (id : nat) (now : Z) (k : K).

Record server := Server { sv_pending : gmap nat stage; sv_limiters : limiters }.

Definition step (e : event) (s : server) : option (nat * answer) * server :=
  match e with
  | Resolve id n cfg => (None, Server (<[id := resolve_request cfg n]> (sv_pending s)) (sv_limiters s))
  | Pick id =>
      match sv_pending s !! id with
      | Some (Resolved n b) =>
          let '(p, m) := take_limiter n b (sv_limiters s) in
          (None, Server (<[id := Ready p]> (sv_pending s)) m)
      | _ => (None, s)
      end
  | Serve id now k =>
      match sv_pending s !! id with
      | Some (Ready p) =>
          let '(a, m) := serve_rate_limited now k p (sv_limiters s) in
          (Some (id, a), Server (delete id (sv_pending s)) m)
      | _ => (None, s)
      end
  end.
Fixpoint run (es : list event) (s : server) : list (option (nat * answer)) * server :=
  match es with
  | [] => ([], s)
  | e :: es =>
      let '(a, s) := step e s in
      let '(l, s) := run es s in (a :: l, s)
  end.
Definition start : server := Server ∅ no_limiters.

(** * The specification: one counter per class and nothing shared *)

(** What a class is asked while its limit is [b]: a request is of the class it begins
    with, and a disabled configuration leaves every counter alone.  The requests that are
    between reading [b] and picking when the specification starts belong to it. *)
Inductive asked := Free | Chosen (n : limiter_name) | Counted (n : limiter_name).
Record spec := Spec { sp_pending : gmap nat asked; sp_counters : limiter_name → L }.
Definition spec_start (b : buckets) (s : server) : spec :=
  Spec (omap (λ p, match p with Resolved n _ => Some (Chosen n) | Ready _ => None end) (sv_pending s))
       (λ n, fresh (pick (bk_limits b) n).1 (pick (bk_limits b) n).2).
Definition spec_step (b : buckets) (e : event) (s : spec) : option (nat * answer) * spec :=
  match e with
  | Resolve id n cfg =>
      (None, Spec (<[id := if bk_enabled (resolve_buckets cfg) then Chosen n else Free]> (sp_pending s)) (sp_counters s))
  | Pick id =>
      match sp_pending s !! id with
      | Some (Chosen n) => (None, Spec (<[id := Counted n]> (sp_pending s)) (sp_counters s))
      | _ => (None, s)
      end
  | Serve id now k =>
      match sp_pending s !! id with
      | Some Free => (Some (id, Next None), Spec (delete id (sp_pending s)) (sp_counters s))
      | Some (Counted n) =>
          let '(r, l) := hit now k (sp_counters s n) in
          (Some (id, answer_of (pick (bk_limits b) n).2 r),
           Spec (delete id (sp_pending s)) (λ n', if decide (n' = n) then l else sp_counters s n'))
      | _ => (None, s)
      end
  end.
Fixpoint spec_run (b : buckets) (es : list event) (s : spec) : list (option (nat * answer)) :=
  match es with
  | [] => []
  | e :: es => let '(a, s) := spec_step b e s in a :: spec_run b es s
  end.

(** * The middlewares implement it *)

(** No reference points past the heap. *)
Definition in_heap (s : server) : Prop :=
  ∀ id i w, sv_pending s !! id = Some (Ready (Held i w)) → (i < length (lm_heap (sv_limiters s)))%nat.
Definition set_in_heap (m : limiters) : Prop :=
  ∀ b s n, lm_cached m = Some (b, s) → (pick s n < length (lm_heap m))%nat.

Lemma get_grows b m s m' :
  get_rate_limiters b m = (s, m') → set_in_heap m →
  (length (lm_heap m) ≤ length (lm_heap m'))%nat ∧ lm_cached m' = Some (b, s) ∧
  (∀ n, (pick s n < length (lm_heap m'))%nat).
Proof.
  unfold get_rate_limiters. intros E Hm. destruct (lm_cached m) as [[b0 s0]|] eqn:Ec; [destruct (decide (b0 = b)) as [->|]|].
  - injection E as <- <-. split_and!; [done|done|]. intros n. by apply (Hm b).
  - injection E as <- <-. cbn. rewrite length_app. cbn. split_and!; [lia|done|]. intros []; cbn; lia.
  - injection E as <- <-. cbn. rewrite length_app. cbn. split_and!; [lia|done|]. intros []; cbn; lia.
Qed.

(** A served request touches the limiter it holds and nothing else. *)
Lemma serve_effect now k p m a m' :
  serve_rate_limited now k p m = (a, m') →
  lm_cached m' = lm_cached m ∧ length (lm_heap m') = length (lm_heap m) ∧
  ∀ j, (∀ i w, p = Held i w → i ≠ j) → lm_heap m' !! j = lm_heap m !! j.
Proof.
  destruct p as [|i w]; cbn; [by intros [= _ <-]|]. destruct (lm_heap m !! i) eqn:Ei; [|by intros [= _ <-]].
  destruct (hit _ _ _). intros [= _ <-]. cbn. rewrite length_insert. split_and!; [done..|].
  intros j Hj. apply list_lookup_insert_ne. by eapply Hj.
Qed.

Lemma step_in_heap e s a s' :
  step e s = (a, s') → in_heap s ∧ set_in_heap (sv_limiters s) → in_heap s' ∧ set_in_heap (sv_limiters s').
Proof.
  intros E [Hp Hm]. destruct e as [id n cfg|id|id now k]; cbn [step] in E.
  - injection E as _ <-. split; [|done]. intros id' i w. cbn.
    rewrite lookup_insert_Some. intros [[_ H0]|[_ ?]]; [|by eapply Hp]. unfold resolve_request in H0. by destruct (negb _).
  - destruct (sv_pending s !! id) as [[n b|p]|]; [|by injection E as _ <-..]. unfold take_limiter in E.
    destruct (get_rate_limiters _ _) as [st m'] eqn:G. injection E as _ <-.
    destruct (get_grows _ _ _ _ G Hm) as (Hl & Hc & Hs). split.
    + intros id' i w. cbn. rewrite lookup_insert_Some. intros [[_ [= <- _]]|[_ H0]]; [done|].
      apply Hp in H0. lia.
    + intros b' s0 n'. cbn. rewrite Hc. intros [= <- <-]. done.
  - destruct (sv_pending s !! id) as [[n b|p]|] eqn:Ei; [by injection E as _ <-| |by injection E as _ <-].
    destruct (serve_rate_limited now k p (sv_limiters s)) as [a0 m'] eqn:G. injection E as _ <-.
    destruct (serve_effect _ _ _ _ _ _ G) as (Hc & Hl & _). split.
    + intros id' i w. cbn. rewrite lookup_delete_Some, Hl. intros [_ ?]. by eapply Hp.
    + intros b s0 n'. cbn. rewrite Hc, Hl. apply Hm.
Qed.

Lemma run_in_heap es s :
  in_heap s ∧ set_in_heap (sv_limiters s) →
  in_heap (run es s).2 ∧ set_in_heap (sv_limiters (run es s).2).
Proof.
  revert s. induction es as [|e es IH]; intros s Hs; [done|]. cbn [run].
  destruct (step e s) as [a s'] eqn:E. specialize (IH s' (step_in_heap _ _ _ _ E Hs)).
  by destruct (run es s').
Qed.

(** The state of the middlewares against that of the specification: either no enabled
    request has come yet and the set is another configuration's, or the set is built from
    [b], holds the counters, and belongs to these requests alone. *)
Definition stage_of (b : buckets) (set : per_class nat) (o : asked) : stage :=
  match o with
  | Free => Ready PassThrough
  | Chosen n => Resolved n b
  | Counted n => Ready (Held (pick set n) (pick (bk_limits b) n).2)
  end.
Definition all_known (s : server) (sp : spec) : Prop :=
  ∀ id n b, sp_pending sp !! id = None → sv_pending s !! id ≠ Some (Resolved n b).
Definition owns (b : buckets) (set : per_class nat) (s : server) (sp : spec) : Prop :=
  (∀ n, lm_heap (sv_limiters s) !! pick set n = Some (sp_counters sp n)) ∧
  (∀ id o, sp_pending sp !! id = Some o → sv_pending s !! id = Some (stage_of b set o)) ∧
  (∀ id i w n, sp_pending sp !! id = None → sv_pending s !! id = Some (Ready (Held i w)) → i ≠ pick set n) ∧
  all_known s sp.
Definition before (b : buckets) (s : server) (sp : spec) : Prop :=
  (∀ n, sp_counters sp n = fresh (pick (bk_limits b) n).1 (pick (bk_limits b) n).2) ∧
  (∀ id o, sp_pending sp !! id = Some o → (∀ n, o ≠ Counted n) ∧ ∀ set, sv_pending s !! id = Some (stage_of b set o)) ∧
  in_heap s ∧ all_known s sp.
Inductive implements (b : buckets) (s : server) (sp : spec) : Prop :=
| NotBuilt : (∀ set, lm_cached (sv_limiters s) ≠ Some (b, set)) → before b s sp → implements b s sp
| Built set : lm_cached (sv_limiters s) = Some (b, set) → (∀ n n', pick set n = pick set n' → n = n') →
    owns b set s sp → implements b s sp.

Definition resolves_to (b : buckets) (e : event) : Prop :=
  match e with
  | Resolve _ _ cfg => resolve_buckets cfg = b ∨ bk_enabled (resolve_buckets cfg) = false
  | _ => True
  end.

(** What the specification answers, the middlewares answer. *)
Definition agrees (want got : option (nat * answer)) : Prop := want = None ∨ got = want.

Lemma get_built b m set :
  lm_cached m = Some (b, set) → get_rate_limiters b m = (set, m).
Proof. intros E. unfold get_rate_limiters. rewrite E. by rewrite decide_True. Qed.

Lemma get_builds b m :
  (∀ set, lm_cached m ≠ Some (b, set)) →
  ∃ set, get_rate_limiters b m = (set, Limiters (lm_heap m ++ build b) (Some (b, set))) ∧
    (∀ n, (length (lm_heap m) ≤ pick set n)%nat) ∧ (∀ n n', pick set n = pick set n' → n = n') ∧
    (∀ n, (lm_heap m ++ build b) !! pick set n =
          Some (fresh (pick (bk_limits b) n).1 (pick (bk_limits b) n).2)).
Proof.
  intros Hn. set (p := length (lm_heap m)).
  exists (PerClass p (S p) (2 + p) (3 + p) (4 + p) (5 + p) (6 + p) (7 + p))%nat. split_and!.
  - unfold get_rate_limiters. destruct (lm_cached m) as [[b0 s0]|]; [|done].
    rewrite decide_False; [done|]. intros ->. by eapply Hn.
  - intros []; cbn; lia.
  - intros [] []; cbn; (done || lia).
  - intros n. rewrite lookup_app_r by (destruct n; cbn; lia). fold p.
    destruct n; cbn [pick pc_global pc_read pc_health pc_write pc_login pc_reset pc_registration pc_upload];
      rewrite ?Nat.sub_diag; try done;
      match goal with
      | |- _ !! (S p - p)%nat = _ => replace (S p - p)%nat with 1%nat by lia
      | |- _ !! (?k + p - p)%nat = _ => replace (k + p - p)%nat with k by lia
      end; done.
Qed.

Lemma known_insert id q o s sp m : all_known s sp →
  all_known (Server (<[id := q]> (sv_pending s)) m) (Spec (<[id := o]> (sp_pending sp)) (sp_counters sp)).
Proof. intros Hk id' n b. cbn. rewrite lookup_insert_None. intros [H0 Hne]. rewrite lookup_insert_ne by done. by apply Hk. Qed.
Lemma known_delete id s sp m c : all_known s sp →
  all_known (Server (delete id (sv_pending s)) m) (Spec (delete id (sp_pending sp)) c).
Proof.
  intros Hk id' n b. cbn. rewrite lookup_delete_None, lookup_delete_Some. intros [->|H0] [Hne ?]; [done|by eapply Hk].
Qed.
Lemma known_delete_other id s sp m : all_known s sp → all_known (Server (delete id (sv_pending s)) m) sp.
Proof. intros Hk id' n b H0. cbn. rewrite lookup_delete_Some. intros [_ ?]. by eapply Hk. Qed.

Lemma resolve_implements b id n cfg s sp :
  resolves_to b (Resolve id n cfg) → implements b s sp →
  implements b (step (Resolve id n cfg) s).2 (spec_step b (Resolve id n cfg) sp).2.
Proof.
  intros Hr Hi. cbn [step spec_step snd].
  assert (Hst : ∀ set, resolve_request cfg n = stage_of b set (if bk_enabled (resolve_buckets cfg) then Chosen n else Free)).
  { intros set. unfold resolve_request. destruct (bk_enabled (resolve_buckets cfg)) eqn:E; [|done].
    destruct Hr as [<-|Hr]; [done|congruence]. }
  assert (Hnc : ∀ n', (if bk_enabled (resolve_buckets cfg) then Chosen n else Free) ≠ Counted n') by (intros n'; by destruct (bk_enabled _)).
  set (o0 := if bk_enabled _ then _ else _) in *. set (q0 := resolve_request cfg n) in *. clearbody o0 q0. clear Hr.
  destruct Hi as [Hn (Hf & Hp & Hh & Hk)|set Hc Hinj (Hf & Hp & Ho & Hk)].
  - apply NotBuilt; [done|]. split_and!; [done| | |by apply known_insert].
    + intros id' o. cbn. rewrite lookup_insert_Some. intros [[-> <-]|[Hne H0]].
      * split; [done|]. intros set. by rewrite lookup_insert_eq, <-Hst.
      * rewrite lookup_insert_ne by done. by apply Hp.
    + intros id' i w. cbn. rewrite lookup_insert_Some. intros [[_ H0]|[_ ?]]; [|by eapply Hh].
      rewrite (Hst (PerClass 0 0 0 0 0 0 0 0)%nat) in H0. destruct o0 as [|m|m]; [done|done|by destruct (Hnc m)].
  - apply (Built _ _ _ set); [done..|]. split_and!; [done| | |by apply known_insert].
    + intros id' o. cbn. rewrite lookup_insert_Some. intros [[-> <-]|[Hne H0]]; [by rewrite lookup_insert_eq, <-Hst|].
      rewrite lookup_insert_ne by done. by apply Hp.
    + intros id' i w n'. cbn. rewrite lookup_insert_None. intros [H0 Hne]. rewrite lookup_insert_ne by done. by eapply Ho.
Qed.

Lemma pick_implements b id s sp : implements b s sp → implements b (step (Pick id) s).2 (spec_step b (Pick id) sp).2.
Proof.
  intros Hi. cbn [step spec_step snd]. destruct (sp_pending sp !! id) as [o|] eqn:Eo.
  2:{ assert (Hk : all_known s sp) by by destruct Hi as [_ (_ & _ & _ & Hk)|? _ _ (_ & _ & _ & Hk)].
      destruct (sv_pending s !! id) as [[n b'|p]|] eqn:Es; [|done..]. by destruct (Hk id n b'). }
  assert (Hs : ∃ set, sv_pending s !! id = Some (stage_of b set o)).
  { destruct Hi as [_ (_ & Hp & _)|set _ _ (_ & Hp & _)]; [exists (PerClass 0 0 0 0 0 0 0 0)%nat|exists set]; by apply Hp. }
  destruct Hs as [set0 Hs]. rewrite Hs. destruct o as [|n|n]; cbn [stage_of]; [done| |done].
  unfold take_limiter. destruct Hi as [Hn (Hf & Hp & Hh & Hk)|set Hc Hinj (Hf & Hp & Ho & Hk)].
  - destruct (get_builds b (sv_limiters s) Hn) as (set & G & Hge & Hinj & Hl). rewrite G.
    apply (Built _ _ _ set); [done..|]. split_and!; [|..|by apply known_insert].
    + intros n'. cbn. by rewrite Hl, Hf.
    + intros id' o. cbn. rewrite lookup_insert_Some. intros [[-> <-]|[Hne H0]]; [by rewrite lookup_insert_eq|].
      rewrite lookup_insert_ne by done. by apply Hp.
    + intros id' i w n'. cbn. rewrite lookup_insert_None. intros [_ Hne]. rewrite lookup_insert_ne by done.
      intros H0%Hh. specialize (Hge n'). lia.
  - rewrite (get_built _ _ _ Hc). apply (Built _ _ _ set); [done..|]. split_and!; [done|..|by apply known_insert].
    + intros id' o. cbn. rewrite lookup_insert_Some. intros [[-> <-]|[Hne H0]]; [by rewrite lookup_insert_eq|].
      rewrite lookup_insert_ne by done. by apply Hp.
    + intros id' i w n'. cbn. rewrite lookup_insert_None. intros [H0 Hne]. rewrite lookup_insert_ne by done. by eapply Ho.
Qed.

Lemma serve_not_built b id now k s sp a s' :
  step (Serve id now k) s = (a, s') → (∀ set, lm_cached (sv_limiters s) ≠ Some (b, set)) → before b s sp →
  agrees (spec_step b (Serve id now k) sp).1 a ∧ implements b s' (spec_step b (Serve id now k) sp).2.
Proof.
  intros E Hn (Hf & Hp & Hh & Hk). cbn [step spec_step] in *.
  destruct (sp_pending sp !! id) as [o|] eqn:Eo.
  - destruct (Hp _ _ Eo) as [Hc Es]. specialize (Es (PerClass 0 0 0 0 0 0 0 0)%nat). rewrite Es in E.
    destruct o as [|n|n]; cbn in E; [| |by destruct (Hc n)]; injection E as <- <-; [split; [by right|]|split; [by left|by apply NotBuilt]].
    apply NotBuilt; [done|]. split_and!; [done| | |by apply known_delete].
    + intros id' o'. cbn. rewrite lookup_delete_Some. intros [Hne H0]. rewrite lookup_delete_ne by done. by apply Hp.
    + intros id' i w. cbn. rewrite lookup_delete_Some. intros [_ ?]. by eapply Hh.
  - split; [by left|]. destruct (sv_pending s !! id) as [[n b'|p]|] eqn:Es; [by destruct (Hk id n b')| |injection E as _ <-; by apply NotBuilt].
    destruct (serve_rate_limited now k p (sv_limiters s)) as [a0 m'] eqn:G. injection E as _ <-.
    destruct (serve_effect _ _ _ _ _ _ G) as (Hc & Hl & _). apply NotBuilt; [cbn; by rewrite Hc|].
    split_and!; [done| | |by apply known_delete_other].
    + intros id' o. cbn. intros H0. assert (id ≠ id') by (intros ->; congruence). rewrite lookup_delete_ne by done. by apply Hp.
    + intros id' i w. cbn. rewrite lookup_delete_Some, Hl. intros [_ ?]. by eapply Hh.
Qed.

Lemma serve_built b set id now k s sp a s' :
  step (Serve id now k) s = (a, s') → lm_cached (sv_limiters s) = Some (b, set) →
  (∀ n n', pick set n = pick set n' → n = n') → owns b set s sp →
  agrees (spec_step b (Serve id now k) sp).1 a ∧ implements b s' (spec_step b (Serve id now k) sp).2.
Proof.
  intros E Hc Hinj (Hf & Hp & Ho & Hk). cbn [step spec_step] in *.
  assert (Hpend : ∀ id' o, delete id (sp_pending sp) !! id' = Some o → delete id (sv_pending s) !! id' = Some (stage_of b set o)).
  { intros id' o. rewrite !lookup_delete_Some. intros [Hne H0]. split; [done|]. by apply Hp. }
  assert (Hold : ∀ id' i w n', delete id (sp_pending sp) !! id' = None → delete id (sv_pending s) !! id' = Some (Ready (Held i w)) → i ≠ pick set n').
  { intros id' i w n'. rewrite lookup_delete_None, lookup_delete_Some. intros [<-|H0] [Hne H1]; [done|]. by eapply Ho. }
  destruct (sp_pending sp !! id) as [o|] eqn:Eo.
  - pose proof (Hp _ _ Eo) as Es. rewrite Es in E. destruct o as [|n|n]; cbn [stage_of] in E.
    + injection E as <- <-. split; [by right|]. apply (Built _ _ _ set); [done..|].
      split_and!; [done|exact Hpend|exact Hold|by apply known_delete].
    + injection E as <- <-. split; [by left|]. by apply (Built _ _ _ set).
    + cbn [serve_rate_limited] in E. rewrite Hf in E. destruct (hit now k (sp_counters sp n)) as [r l] eqn:Eh. injection E as <- <-.
      split; [by right|]. apply (Built _ _ _ set); [done..|]. split_and!; [|exact Hpend|exact Hold|by apply known_delete].
      intros n'. cbn. case_decide as D; [subst n'|].
      * apply list_lookup_insert_eq. by eapply lookup_lt_Some.
      * rewrite list_lookup_insert_ne; [done|]. intros D'%Hinj. by apply D.
  - split; [by left|]. destruct (sv_pending s !! id) as [[n b'|p]|] eqn:Es; [by destruct (Hk id n b')| |injection E as _ <-; by apply (Built _ _ _ set)].
    destruct (serve_rate_limited now k p (sv_limiters s)) as [a0 m'] eqn:G. injection E as _ <-.
    destruct (serve_effect _ _ _ _ _ _ G) as (Hc' & _ & Hl'). assert (Hl : ∀ n,
      lm_heap m' !! pick set n = lm_heap (sv_limiters s) !! pick set n).
    { intros n. apply Hl'. intros i w ->. by eapply Ho. }
    apply (Built _ _ _ set); [by cbn; rewrite Hc'|done|]. split_and!; [| | |by apply known_delete_other].
    + intros n. cbn. by rewrite Hl.
    + intros id' o. cbn. intros H0. rewrite lookup_delete_Some. split; [|by apply Hp]. congruence.
    + intros id' i w n'. cbn. rewrite lookup_delete_Some. intros H0 [_ H1]. by eapply Ho.
Qed.

Lemma step_implements b e s sp a s' :
  resolves_to b e → step e s = (a, s') → implements b s sp →
  agrees (spec_step b e sp).1 a ∧ implements b s' (spec_step b e sp).2.
Proof.
  intros Hr E Hi. destruct e as [id n cfg|id|id now k].
  - split; [by left|]. apply (resolve_implements b id n cfg) in Hi; [|done]. by rewrite E in Hi.
  - split; [left|apply (pick_implements b id) in Hi; by rewrite E in Hi]. cbn. by destruct (sp_pending sp !! id) as [[]|].
  - destruct Hi as [Hn Hi|set Hc Hinj Hi]; [by eapply serve_not_built|by eapply serve_built].
Qed.

Lemma run_implements b es s sp :
  Forall (resolves_to b) es → implements b s sp →
  Forall2 agrees (spec_run b es sp) (run es s).1.
Proof.
  intros Hes. revert s sp. induction Hes as [|e es He Hes IH]; intros s sp Hi; [constructor|].
  cbn [run spec_run]. destruct (step e s) as [a s'] eqn:E.
  destruct (step_implements b e s sp a s' He E Hi) as [Ha Hi'].
  destruct (spec_step b e sp) as [want sp'] eqn:Ew. specialize (IH s' sp' Hi').
  destruct (run es s'). by constructor.
Qed.

(** C38: Live reload.  After any history, let the settings change to an enabled [b] that the
    cached limiters were not built from, when no request is caught between reading other
    settings and picking its limiter.  As long as every request that reads the settings from
    then on reads [b], or finds rate limiting switched off, each answer to these requests is
    that of eight counters of their own, one per class, new with the limits of [b]: requests
    of a class share one counter, classes share none, the reload forgets what was counted
    before, requests that already hold a limiter from before the reload do not disturb them,
    and requests that find rate limiting switched off pass and are not counted.  (A request
    caught between the two does disturb them: [late_pick_forgets].) *)
Theorem live_reload b es0 es :
  let s := (run es0 start).2 in
  (∀ set, lm_cached (sv_limiters s) ≠ Some (b, set)) →
  (∀ id n b', sv_pending s !! id = Some (Resolved n b') → b' = b) → Forall (resolves_to b) es →
  Forall2 agrees (spec_run b es (spec_start b s)) (run es s).1.
Proof.
  intros s Hn Hres Hes. apply run_implements; [done|]. apply NotBuilt; [done|]. split_and!; [done| | |].
  - intros id o. cbn. rewrite lookup_omap_Some. intros ([n b'|p] & Ho & H0); [|done]. injection Ho as <-.
    split; [done|]. intros set. rewrite H0. by rewrite (Hres _ _ _ H0).
  - apply run_in_heap. by split; [intros ??|intros ??].
  - intros id n b'. cbn. rewrite lookup_omap. intros H0 H1. by rewrite H1 in H0.
Qed.
End limiters.

(** * Concrete runs: a limiter that counts the requests of each client in one window *)

Record counter := Counter { ct_limit : Z; ct_seen : gmap string Z }.
Definition new_counter (limit window : Z) : counter := Counter limit ∅.
Definition count_hit (now : Z) (ip : string) (c : counter) : (bool * Z) * counter :=
  let n := default 0 (ct_seen c !! ip) in
  if n <? ct_limit c then ((true, ct_limit c - n - 1), Counter (ct_limit c) (<[ip := n + 1]> (ct_seen c)))
  else ((false, 0), c).

Definition strict_login : rate_config :=
  RateConfig true (RateBucket 120 60) (RateBucket 10 60) (RateBucket 120 60) 240
    (RateBucket 1 900) (RateBucket 3 3600) (RateBucket 5 3600).

(** The administrator restores the defaults while a login and a read are under way: the
    next two logins are counted afresh, the old one against the limit it began with. *)
Definition history : list event :=
  [Resolve 1 Login (Some strict_login); Pick 1; Serve 1 0 "client"; Resolve 2 Login (Some strict_login); Pick 2].
Definition login_now (id : nat) (cfg : option rate_config) : list event := [Resolve id Login cfg; Pick id; Serve id 0 "client"].
Definition after_reload : list event := [Resolve 3 Login None; Pick 3; Serve 2 0 "client"; Serve 3 0 "client"] ++ login_now 4 None.

Lemma history_waiting : map_to_list (sv_pending (run new_counter count_hit history start).2) = [(2%nat, Ready (Held 4 (900 * 1000000000)))].
Proof. vm_compute. reflexivity. Qed.
Lemma live_reload_witness :
  Forall2 agrees [None; None; None; Some (3%nat, Next (Some 4)); None; None; Some (4%nat, Next (Some 3))]
    (run new_counter count_hit after_reload (run new_counter count_hit history start).2).1.
Proof.
  apply (live_reload new_counter count_hit (resolve_buckets None) history after_reload).
  - intros set. vm_compute. discriminate.
  - intros id n b' Hin%elem_of_map_to_list. rewrite history_waiting in Hin. apply list_elem_of_singleton in Hin. discriminate Hin.
  - repeat constructor.
Defined.

Example history_answers :
  (run new_counter count_hit (history ++ after_reload) start).1 =
  [None; None; Some (1%nat, Next (Some 0)); None; None; None; None; Some (2%nat, TooMany 900); Some (3%nat, Next (Some 4));
   None; None; Some (4%nat, Next (Some 3))].
Proof. vm_compute. reflexivity. Qed.

(** A request that has read the settings from before a reload and picks its limiter after it builds the old set again,
    and the next one builds the new one afresh: the client that used up its login attempts has all of them again. *)
Lemma late_pick_forgets :
  let answers := (run new_counter count_hit
    ([Resolve 9 Read None] ++ login_now 1 (Some strict_login) ++ login_now 2 (Some strict_login) ++
     [Pick 9] ++ login_now 3 (Some strict_login)) start).1 in
  omap (λ a, a) answers = [(1%nat, Next (Some 0)); (2%nat, TooMany 900); (3%nat, Next (Some 0))].
Proof. vm_compute. reflexivity. Qed.

(** The weather API installs the read limiter a second time behind the one of the root
    chain: a GET takes two requests of the budget, and the sixty-first of a minute is
    refused although the limit is a hundred and twenty.  A plain page takes one. *)
Fixpoint run_times (n : nat) (f : @limiters counter → option Z * @limiters counter) (m : @limiters counter)
  : option Z * @limiters counter :=
  match n with
  | O => (None, m)
  | S n => match f m with (None, m) => run_times n f m | r => r end
  end.
Lemma weather_counts_twice :
  let get r := run_chain (route_chain new_counter count_hit r None 0 "GET" "client") in
  (run_times 60 (get WeatherAPI) no_limiters).1 = None ∧
  (run_times 61 (get WeatherAPI) no_limiters).1 = Some 60 ∧
  (run_times 120 (get Plain) no_limiters).1 = None ∧
  (run_times 121 (get Plain) no_limiters).1 = Some 60.
Proof. by vm_compute. Qed.

(** A window beyond the 292 years of a duration wraps around. *)
Lemma window_wraps : nanoseconds 9223372037 = -9223372036709551616.
Proof. reflexivity. Qed.
